(* ===== verification/_CoqProject ===== *)
-Q . S2P
Prelude.v
RustStr.v
StrFacts.v
RustPath.v
Program.v
Domain.v
OsCalls.v
FileSystem.v
WorkspaceContract.v
WorkspaceText.v
Workspace.v
WorkspaceSafety.v
WorkspaceCommit.v
Routing.v
Persistence.v
StateStore.v
StateNames.v
StateStoreFacts.v
Conversation.v
TaskOrchestration.v
CommandPolicy.v
ProcessContract.v
BuildContract.v
BuildRepair.v
BuildLoop.v
Checkpoint.v
CheckpointStore.v
TreeDigest.v
TreeSystem.v
TreeWalk.v
TreeCopy.v
CheckpointLayout.v
CheckpointCreate.v
CheckpointRollback.v
CheckpointListing.v
CheckpointCleanup.v
CheckpointSafety.v
CoreCalls.v
BackendTask.v
CheckpointOps.v
ConversationTurns.v
TurnFacts.v
ConversationFacts.v
StateStoreMap.v
ModelTurn.v
ExplicitLoop.v
CoreExample.v
BackendTaskFacts.v
ModelTurnSafety.v
MarkerSafety.v
TurnReply.v
ProjectOps.v
WebToolchain.v
WebPipeline.v
WebOps.v
Lifecycle.v
NativeProbe.v
RuntimePackaging.v
JcodeConfig.v
JcodePermissions.v
JcodeConnection.v
JcodeSessions.v
JcodeCalls.v
JcodeModels.v
JcodeTurn.v
JcodeRuntime.v
JcodePool.v
JcodeTurnSafety.v
JcodePermissionSafety.v
JcodeTurnFacts.v
JcodeSessionSafety.v
JcodeGate.v
JcodeExample.v
ProcessLocal.v
ProcessPrepare.v
ProcessSupervise.v
ProcessEnds.v
ProcessSafety.v
ProcessCommand.v
ProcessExample.v
