(* ===== verification/Prelude.v ===== *)
(** * VibeCoder backend: a verification library

    VibeCoder is a coding assistant whose backend is a set of Rust crates under
    [crates/].  This library models the crates that carry its decisions and the
    ones that carry them out: which model a task runs on, what the agent may
    execute, how a conversation and its workspace survive failures, which files are
    touched, what a build failed with and how often it is repaired, how a website
    is built, and whether the packaged runtime can be trusted.

    ** How the parts interact

    The controller ([vibecoder-core]) is asked to run a turn of a conversation, to
    change files of a project or to build it.  Most steps that change the project run
    under its lifecycle permit ([Lifecycle.v], which names the others).  It commits the
    user's message under a crash marker ([Persistence.v], [ConversationTurns.v]),
    takes a checkpoint
    ([Checkpoint.v], [CheckpointOps.v]), resolves the route policy against the
    gateway's catalog ([Routing.v]), corroborates the model with the agent, runs
    inference and, on failure, falls back along the routes ([TaskOrchestration.v],
    [BackendTask.v]).  The agent is a third-party
    service behind an adapter that decides about sessions, models, turns and
    permissions ([Jcode*.v]).  Commands the agent wants to run are validated, shown
    for approval and turned into one authorization ([CommandPolicy.v]).  An authorized
    build command becomes a supervised process ([Process*.v]) whose events and result
    are those of a build ([BuildContract.v]); a website build is a pipeline of such
    commands ([WebToolchain.v], [WebPipeline.v], [WebOps.v]).  A failed build becomes
    sanitized evidence and a repair prompt ([BuildRepair.v]), and a guard decides
    whether to repair it once more ([BuildLoop.v]).  Files are read and written
    through descriptors that never leave the project's directory ([Workspace.v]);
    projects and conversations are files of a store ([StateStore.v]) and checkpoints
    copies of the project's tree ([CheckpointStore.v]).
    Before any of this, the native tools in the package are probed ([NativeProbe.v])
    and the evidence is evaluated into a readiness report ([RuntimePackaging.v]).

    ** Files: foundations

    - [Prelude.v] (this file): results and their notation, machine integers,
      tactics, the closure [steps] of a labelled step relation with its induction
      principles.
    - [RustStr.v], [StrFacts.v], [RustPath.v]: Rust strings as lists of code
      points with their UTF-8 bytes, the string operations the crates use, and
      facts about them (substrings, UTF-8 as a prefix code); paths as Unix paths
      with the components [std::path] yields.
    - [Program.v]: programs as trees of calls, their runs, trace monitors with
      their weakest precondition [wp] and its soundness [wp_sound], and environments
      that are transition systems ([within]).  Everything
      that calls something else is such a program, and what is proved of it holds
      for every answer of every call.
    - [Domain.v]: [vibecoder-domain/src/lib.rs], the shared types.
    - [OsCalls.v]: the calls to the file system that the local crates make.
    - [FileSystem.v]: a file system as an environment, and a concrete one for the
      witnesses.

    ** Files: single components

    - [Routing.v]: [vibecoder-routing/src/lib.rs].  [resolve] and
      [decision_after_failure] are the code's; [ModelRoutePolicyConfig::validate]
      is [ModelRoutePolicyConfig_validate].  [resolve_exact] says what resolution
      accepts and returns, [fallback_chain_safe] that a chain of fallbacks is safe.
    - [TaskOrchestration.v]: [vibecoder-task-orchestration/src/lib.rs].  The
      machine is the record [BackendTaskStateMachine]; observers are handles into
      a store of progress cells, since the code clones an [Arc].
      [task_follows_policy] is its invariant; inference needs corroboration and
      progress decides about fallback.
    - [CommandPolicy.v]: [vibecoder-command-policy/src/lib.rs].  The state behind
      the engine's mutex is [CommandPolicyState]; [decide_approval] is [decide].
      The engine as a step relation, its invariant ([engine_invariant]), and what
      an authorization is worth ([authorization_at_most_once],
      [authorization_faithful], [envelope_epoch]).
    - [ProcessContract.v], [BuildContract.v]: [vibecoder-process-contract] and
      [vibecoder-build-contract]: draining of events, artifacts, results.
    - [BuildRepair.v]: [vibecoder-build-repair/src/lib.rs]: the lines selected,
      total capture within the bounds, the prompt, its delimiters, the fingerprint;
      the lemma [bidi_controls_bypass_sanitizing] shows where the sanitizing falls
      short.
    - [BuildLoop.v]: [vibecoder-build-loop/src/lib.rs].  Calls with arbitrary
      permits and results are the labels of [loop_step]; [loop_rule] is the
      abstract relation on phases every call refines.  Attempts are bounded, the
      counters implement a decision on the history of failures, permits are used
      once, a stopped loop stays stopped; [oversized_prompt_is_not_counted] is a
      failure the guard neither repairs nor counts.
    - [WebToolchain.v], [WebPipeline.v]: [vibecoder-web-toolchain] and
      [vibecoder-web-build-pipeline].  A report says what was read
      ([inspection_faithful]); [stage_command_safe]: the commands a pipeline asks for;
      [pipeline_follows_results]: its state is a function of its stages' results.
    - [NativeProbe.v], [RuntimePackaging.v]: [vibecoder-runtime-packaging]: the ELF
      inspection accepts exactly the well-formed objects, the version grammar, what
      a probe credits; readiness is exactly what was proven.

    ** Files: the local workspace ([vibecoder-workspace-local])

    - [WorkspaceContract.v]: the data of the contract crate.
    - [WorkspaceText.v]: text patches and search in memory; [apply_hunks_exact].
    - [Workspace.v]: every operation of [lib.rs] and [unix_io.rs] as a program.
    - [WorkspaceSafety.v]: [operations_stay_inside], no call leaves the project.
    - [WorkspaceCommit.v]: [patch_replaces_atomically], and
      [failed_patch_can_be_committed] for the one failure that comes too late.

    ** Files: the local stores

    - [StateStore.v]: [vibecoder-persistence-local], every operation of [lib.rs] and
      [unix_store.rs] as a program; [StateNames.v], [StateStoreFacts.v]: the names of
      the files, what each operation does to them.
    - [StateStoreMap.v]: [store_refines_map], in the file system the programs are an
      abstract map with compare-and-swap, which is what the controller assumes
      ([stores]); [failed_update_can_be_committed] is the error that comes too late.
    - [CheckpointStore.v]: [vibecoder-checkpoint-local/src/lib.rs], every
      operation as a program of calls on files.
    - [TreeSystem.v]: directory trees as an environment, and a concrete
      one.  [TreeDigest.v], [TreeWalk.v], [TreeCopy.v]: what a digest says of a tree,
      that walking and copying hash the tree that is there.
    - [CheckpointLayout.v], [CheckpointCreate.v], [CheckpointRollback.v],
      [CheckpointListing.v], [CheckpointCleanup.v]: what each operation does.
    - [CheckpointSafety.v]: [checkpoint_is_the_project], [rollback_all_or_nothing],
      [checkpoint_round_trip], [restored_tree_is_certified], [opening_recovers], and
      [checkpoints_fail_closed] for a file that blocks all checkpoints.

    ** Files: the agent adapter ([vibecoder-agent-jcode/src/])

    - [JcodeConfig.v] ([config.rs], [error.rs]), [JcodePermissions.v]
      ([permission.rs]), [JcodeConnection.v] ([lifecycle.rs]), [JcodeSessions.v]
      ([session.rs], the state of [turn.rs]): data and the operations under a lock.
    - [JcodeCalls.v]: what is shared by threads, as a step relation;
      [JcodeModels.v] ([model.rs]), [JcodeTurn.v] ([turn.rs]), [JcodeRuntime.v]
      ([runtime.rs]): the operations and the worker of a turn as programs.
    - [JcodePool.v]: all of them as threads that interleave at their calls.
    - [JcodeTurnSafety.v]: [one_turn_at_a_time].  [JcodeGate.v]:
      [turns_are_undisturbed].  [JcodePermissionSafety.v]: [approvals_are_the_users],
      [requests_resolved_once].  [JcodeTurnFacts.v]: [no_request_is_parked],
      [bridged_turn_uses_file_tools].  [JcodeSessionSafety.v]:
      [sessions_stay_with_their_project], [turn_runs_on_verified_model].
    - [JcodeExample.v]: schedules for the witnesses, and two in which the worker of an
      abandoned turn ends the next, or runs beside that of the next.

    ** Files: the local process runtime ([vibecoder-process-local/src/lib.rs])

    - [ProcessLocal.v]: tools, paths, limits, the table of active processes, and what
      is called; [ProcessPrepare.v]: [initialize], the checks,
      [prepare_command]; [ProcessSupervise.v]: [spawn_supervised_command] and
      [supervise_process], whose loop is [poll].
    - [ProcessCommand.v]: [command_is_the_authorized_one], and the same of services
      ([service_is_a_packaged_tool]).  [ProcessSafety.v]: [no_process_left_behind],
      [active_limits], [result_says_what_happened].
      [ProcessEnds.v]: [supervision_ends].
    - [ProcessExample.v]: a machine for the witnesses.

    ** Files: the controller ([vibecoder-core/src/lib.rs])

    - [Persistence.v], [Checkpoint.v]: the data of the persistence and checkpoint
      contracts, their validation, [append_message].
    - [Conversation.v]: the decisions that call nothing (validation of prompts and
      transcripts, the context sent, the loop's reply protocol).
    - [CoreCalls.v]: the calls of the controller as a signature, the scope of a
      lifecycle permit.
    - [BackendTask.v], [CheckpointOps.v], [ConversationTurns.v], [ModelTurn.v],
      [ExplicitLoop.v], [ProjectOps.v], [WebOps.v]: every public operation, under its
      own name.
    - [Lifecycle.v]: the gate, and [operations_exclusive] for concurrent tasks.
    - [BackendTaskFacts.v]: [backend_task_routes], [backend_task_terminates].
    - [TurnFacts.v], [ConversationFacts.v]: [reserved_turn_cannot_fail],
      [context_exact].
    - [MarkerSafety.v]: [action_turn_marker], [explicit_loop_marker].
    - [ModelTurnSafety.v]: [model_turn_safe].
    - [TurnReply.v]: [conversation_turn_ends], and
      [unstorable_reply_keeps_marker] for the reply that blocks a conversation.
    - [WebOps.v]: [started_stage_bound], what a started stage is bound to.
    - [CoreExample.v]: a concrete environment, used by the witnesses.

    ** Conventions

    A function returning [Result<A>] is a Rocq function into [result]; a method
    taking [&mut self] also returns the object, so that mutations made before an
    early [return Err] are kept.  Fixed-width integers are [N] (or [Z] for [i32])
    with the code's checked and saturating operations at their width.  A fresh
    UUID is an argument of the operation that draws it, or the answer of a call.  A
    mutex or an atomic that a call takes once makes the call one atomic step.

    Loops are [Fixpoint]s over the list they consume.  Fuel: [first_semver_from], one
    unit for each byte of the text, of which every turn consumes at least one;
    [backend_loop], the number of routes, which [backend_task_terminates] shows to be
    enough; [loop_iterations], the configured number of turns, which the code's loop
    counts down as well; the walks of a project tree, the maximal depth and one, where
    the code refuses to go on; [read_remaining], the bytes that remain;
    [fresh_checkpoint_id] and [insert_fresh], the eight tries of the code;
    [supervise_loop], polls, of which [supervision_ends] shows how many are enough for a
    command with a timeout (a service without one is supervised until it ends or is
    cancelled, and what is said of its runs holds for every fuel with which they are
    over); [run_thread] only computes schedules for witnesses.

    Parameters, as type classes: [UuidLib] (parsing and printing of UUIDs, with
    [UuidLaws], [UuidFileNames] and [UuidShape]), [Sha256], and for serde_json
    [InventoryJson], [SerdeJson], [StateJson] and [MetadataJson], the last two with laws
    that what was written is read back.  Assumed of answers, where a theorem names it:
    [stores] (an update that succeeds returns what was stored with the next revision;
    proved of the local store) and [opens_named] (a project opened by id has that id);
    [timely] (the clock goes on, and a killed process can be reaped after a bounded
    number of polls).

    ** Not modelled, and why

    [vibecoder-gateway-omniroute] sends HTTP requests and decodes JSON through
    third-party crates, [vibecoder-config] only declares what serde reads, and
    [vibecoder-android-host] is JNI glue; the Java shell, the scripts and the vendored
    SDK are not Rust code of the backend.

    Of the modelled crates: panics, and with them poisoned locks outside
    [run_backend_task], are left out; so are [Debug] implementations, plain accessors
    (the records' projections), capabilities that are constants, and the closing of
    descriptors.  A future of the controller is never dropped half-way; one of the agent
    adapter is dropped at its only await.  The events of an SDK run are answered with
    its call, in any number and order, and only then handled.  The file system of
    [FileSystem.v] and [TreeSystem.v] is changed by the store alone.  Instants are
    nanoseconds without a bound; [pre_exec] and the flags of pipes are parts of a call.
    On other platforms than Unix the runtimes refuse every operation; [android]
    distinguishes the two that are left. *)
From stdpp Require Export base gmap sets list strings countable pretty.
From Stdlib Require Export NArith Lia.
From Stdlib Require Ascii.

#[global] Open Scope N_scope.

(** ** Results

    Rust's [Result<A, E>].  A method taking [&mut self] is a function
    [S -> result E A * S]: the state component is what is left in the object on
    the error branches too, because an early [return Err] keeps the mutations
    made before it. *)
Inductive result (E A : Type) : Type :=
| Ok (a : A)
| Err (e : E).
Arguments Ok {E A} a.
Arguments Err {E A} e.

#[export] Instance result_eq_dec `{EqDecision E, EqDecision A} :
  EqDecision (result E A).
Proof. solve_decision. Defined.

(** [let? x := m in k] is Rust's [let x = m?; k]. *)
Declare Scope rust_scope.
Delimit Scope rust_scope with rust.
Notation "'let?' x := m 'in' k" :=
  (match m with Ok x => k | Err err => Err err end)
  (at level 10, x pattern, m at level 200, k at level 200) : rust_scope.
#[global] Open Scope rust_scope.

Definition is_ok {E A} (r : result E A) : bool :=
  match r with Ok _ => true | Err _ => false end.

Definition is_err {E A} (r : result E A) : bool := negb (is_ok r).

(** [Option::ok_or_else]. *)
Definition ok_or {E A} (o : option A) (e : E) : result E A :=
  match o with Some a => Ok a | None => Err e end.

Definition is_none {A} (o : option A) : bool :=
  match o with Some _ => false | None => true end.
Definition is_some {A} (o : option A) : bool := negb (is_none o).

(** ** Machine integers

    [usize] and [u64] are 64 bits wide on the targets (arm64-v8a). *)
Definition u8_max : N := 2 ^ 8 - 1.
Definition u32_max : N := 2 ^ 32 - 1.
Definition u64_max : N := 2 ^ 64 - 1.
Definition usize_max : N := u64_max.

Definition saturating_add (max a b : N) : N := N.min max (a + b).
Definition checked_add (max a b : N) : option N :=
  if a + b <=? max then Some (a + b) else None.
Definition checked_mul (max a b : N) : option N :=
  if a * b <=? max then Some (a * b) else None.
(** [saturating_sub] on unsigned integers is the truncated subtraction of [N]. *)
Definition saturating_sub (a b : N) : N := a - b.

(** [Vec::len]. *)
Definition len {A} (l : list A) : N := N.of_nat (length l).

Lemma len_nil {A} : len (@nil A) = 0.
Proof. done. Qed.
Lemma len_cons {A} (x : A) l : len (x :: l) = 1 + len l.
Proof. unfold len. simpl. lia. Qed.
Lemma len_app {A} (l k : list A) : len (l ++ k) = len l + len k.
Proof. unfold len. rewrite length_app. lia. Qed.
Lemma len_take {A} (l : list A) n : len (take n l) <= N.of_nat n.
Proof. unfold len. rewrite length_take. lia. Qed.
Lemma len_filter {A} (P : A -> Prop) `{!forall x, Decision (P x)} (l : list A) :
  len (filter P l) <= len l.
Proof. unfold len. pose proof (length_filter P l). lia. Qed.

Lemma checked_add_Some max a b c :
  checked_add max a b = Some c <-> c = a + b /\ a + b <= max.
Proof.
  unfold checked_add. destruct (N.leb_spec (a + b) max); split;
    [intros [= <-]| intros [-> ?] | intros [=] | intros [-> ?]]; auto; lia.
Qed.

Lemma saturating_add_le max a b : saturating_add max a b <= max.
Proof. unfold saturating_add. lia. Qed.
Lemma saturating_add_small max a b :
  a + b <= max -> saturating_add max a b = a + b.
Proof. unfold saturating_add. lia. Qed.

Lemma is_ok_true {E A} (r : result E A) : is_ok r = true <-> exists a, r = Ok a.
Proof. destruct r; simpl; split; [eauto|done|done|by intros [? ?]]. Qed.

Lemma ok_or_Ok {E A} (o : option A) (e : E) a : ok_or o e = Ok a <-> o = Some a.
Proof. destruct o; simpl; naive_solver. Qed.

Lemma elem_of_rev {A} (l : list A) x : x ∈ rev l <-> x ∈ l.
Proof. rewrite !list_elem_of_In. symmetry. apply in_rev. Qed.

(** A [let? _ := m in k] succeeds when both parts do. *)
Lemma seq_ok {E A} (m : result E unit) (k : result E A) a :
  (let? _ := m in k) = Ok a <-> m = Ok tt /\ k = Ok a.
Proof. destruct m as [[]|]; [by split; [intros|intros [_ ?]]|]. by split; [|intros [? _]]. Qed.

Lemma if_err_ok {E A} (b : bool) (e : E) (k : result E A) a :
  (if b then Err e else k) = Ok a <-> b = false /\ k = Ok a.
Proof. destruct b; [by split; [|intros [? _]]|]. by split; [intros|intros [_ ?]]. Qed.

Lemma omap_cons {A B} (f : A -> option B) x l :
  omap f (x :: l) = match f x with Some y => y :: omap f l | None => omap f l end.
Proof. done. Qed.

Lemma length_omap_le {A B} (f : A -> option B) l : (length (omap f l) <= length l)%nat.
Proof. induction l as [|x l IH]; csimpl; [done|]. destruct (f x); simpl; lia. Qed.

Lemma existsb_false_Forall {A} (f : A -> bool) l :
  existsb f l = false <-> Forall (fun x => f x = false) l.
Proof.
  induction l as [|x l IH]; simpl; [by split|].
  rewrite orb_false_iff, Forall_cons, IH. done.
Qed.

(** ** Automation *)

(** Boolean side conditions of the code to propositions. *)
Ltac bool_prop :=
  repeat match goal with
  | H : (_ && _)%bool = true |- _ => apply andb_true_iff in H as [? ?]
  | H : (_ || _)%bool = false |- _ => apply orb_false_iff in H as [? ?]
  | H : negb _ = true |- _ => apply negb_true_iff in H
  | H : negb _ = false |- _ => apply negb_false_iff in H
  | H : (_ <? _)%N = true |- _ => apply N.ltb_lt in H
  | H : (_ <? _)%N = false |- _ => apply N.ltb_ge in H
  | H : (_ <=? _)%N = true |- _ => apply N.leb_le in H
  | H : (_ <=? _)%N = false |- _ => apply N.leb_gt in H
  | H : (_ =? _)%N = true |- _ => apply N.eqb_eq in H
  | H : (_ =? _)%N = false |- _ => apply N.eqb_neq in H
  | H : bool_decide _ = true |- _ => apply bool_decide_eq_true_1 in H
  | H : bool_decide _ = false |- _ => apply bool_decide_eq_false_1 in H
  end.

(** Split the matches a successful (or failing) call went through. *)
Ltac inv_match :=
  repeat (first [progress simplify_eq/= | case_match]); bool_prop.

(** Split every disjunction of a boolean test. *)
Ltac split_bools :=
  repeat match goal with
  | H : (_ || _)%bool = true |- _ => apply orb_true_iff in H as [H|H]
  | H : (_ && _)%bool = false |- _ => apply andb_false_iff in H as [H|H]
  end; bool_prop.

Create HintDb vibe.

(** Number of labels of a trace satisfying a test. *)
Fixpoint count {L} (f : L -> bool) (tr : list L) : N :=
  match tr with
  | [] => 0
  | l :: tr => (if f l then 1 else 0) + count f tr
  end.

(** ** Reflexive-transitive closure with a trace of labels *)
Section traces.
Context {S L : Type} (step : S -> L -> S -> Prop).

Inductive steps : S -> list L -> S -> Prop :=
| steps_nil s : steps s [] s
| steps_cons s l s' ls s'' :
    step s l s' -> steps s' ls s'' -> steps s (l :: ls) s''.

Lemma steps_app s ls1 s1 ls2 s2 :
  steps s ls1 s1 -> steps s1 ls2 s2 -> steps s (ls1 ++ ls2) s2.
Proof. induction 1; simpl; eauto using steps. Qed.

Lemma steps_one s l s' : step s l s' -> steps s [l] s'.
Proof. eauto using steps. Qed.

Lemma steps_nil_inv s s' : steps s [] s' -> s' = s.
Proof. by inversion 1. Qed.

Lemma steps_cons_inv s l ls s'' :
  steps s (l :: ls) s'' -> exists s', step s l s' /\ steps s' ls s''.
Proof. inversion 1; eauto. Qed.

Lemma steps_app_inv s ls1 ls2 s2 :
  steps s (ls1 ++ ls2) s2 -> exists s1, steps s ls1 s1 /\ steps s1 ls2 s2.
Proof.
  revert s. induction ls1 as [|l' ls IH]; simpl; intros s H.
  - eauto using steps.
  - apply steps_cons_inv in H as (s1 & ? & H).
    apply IH in H as (? & ? & ?). eauto using steps.
Qed.

(** Rule induction on the last step. *)
Lemma steps_snoc_inv s ls l s2 :
  steps s (ls ++ [l]) s2 -> exists s1, steps s ls s1 /\ step s1 l s2.
Proof.
  intros (s1 & ? & (s' & ? & <-%steps_nil_inv)%steps_cons_inv)%steps_app_inv.
  eauto.
Qed.

(** An invariant kept by every step holds after any trace. *)
Lemma steps_invariant (I : S -> Prop) s ls s' :
  (forall a l b, I a -> step a l b -> I b) ->
  I s -> steps s ls s' -> I s'.
Proof. intros Hstep. induction 2; eauto. Qed.

(** The same for an invariant on the state and the trace that led to it. *)
Lemma steps_trace_invariant (I : list L -> S -> Prop) s ls s' :
  (forall tr a l b, I tr a -> step a l b -> I (tr ++ [l]) b) ->
  I [] s -> steps s ls s' -> I ls s'.
Proof.
  intros Hstep H0. revert s'. induction ls as [|l ls IH] using rev_ind; intros s' H.
  - by apply steps_nil_inv in H as ->.
  - apply steps_snoc_inv in H as (s1 & ? & ?). eauto.
Qed.

(** A reflexive and transitive relation kept by every step holds between the
    ends of any trace. *)
Lemma steps_preorder (R : S -> S -> Prop) `{!PreOrder R} s ls s' :
  (forall a l b, step a l b -> R a b) -> steps s ls s' -> R s s'.
Proof. intros Hstep. induction 1; [reflexivity|]. etransitivity; eauto. Qed.

End traces.
#[export] Hint Constructors steps : vibe.

Lemma count_app {L} (f : L -> bool) tr1 tr2 :
  count f (tr1 ++ tr2) = count f tr1 + count f tr2.
Proof. induction tr1 as [|l tr IH]; simpl; lia. Qed.

Lemma count_zero {L} (f : L -> bool) tr :
  count f tr = 0 <-> forall l, l ∈ tr -> f l = false.
Proof.
  induction tr as [|l tr IH]; simpl.
  - split; [by intros _ l ?%elem_of_nil|done].
  - destruct (f l) eqn:E.
    + split; [lia|]. intros H. rewrite (H l) in E; [done|by left].
    + rewrite N.add_0_l, IH. set_solver.
Qed.
