(* ===== verification/RustStr.v ===== *)
(** * Rust strings

    A [String]/[&str] is the list of its Unicode scalar values; byte lengths and
    byte offsets are those of its UTF-8 encoding. *)
From S2P Require Import Prelude.

Abbreviation char := N (only parsing).
Abbreviation str := (list N) (only parsing).
Abbreviation bytes := (list N) (only parsing).

(** String literals of the source (all ASCII). *)
Definition u (s : string) : str :=
  Ascii.N_of_ascii <$> String.list_ascii_of_string s.
Arguments u s%_string.
Definition ch (a : Ascii.ascii) : N := Ascii.N_of_ascii a.

Definition in_range (lo hi c : N) : bool := (lo <=? c) && (c <=? hi).

(** [char::is_control]: general category Cc. *)
Definition is_control (c : N) : bool := in_range 0 31 c || in_range 127 159 c.

(** [char::is_whitespace]: the White_Space property. *)
Definition is_whitespace (c : N) : bool :=
  in_range 9 13 c || (c =? 32) || (c =? 0x85) || (c =? 0xA0) || (c =? 0x1680)
  || in_range 0x2000 0x200A c || (c =? 0x2028) || (c =? 0x2029)
  || (c =? 0x202F) || (c =? 0x205F) || (c =? 0x3000).

Definition is_ascii_digit (c : N) : bool := in_range 48 57 c.
Definition is_ascii_uppercase (c : N) : bool := in_range 65 90 c.
Definition is_ascii_lowercase (c : N) : bool := in_range 97 122 c.
Definition is_ascii_alphanumeric (c : N) : bool :=
  is_ascii_digit c || is_ascii_uppercase c || is_ascii_lowercase c.

Definition to_ascii_lowercase (s : str) : str :=
  (fun c => if is_ascii_uppercase c then c + 32 else c) <$> s.

(** ** UTF-8 *)

Definition utf8_len (c : N) : N :=
  if c <? 0x80 then 1 else if c <? 0x800 then 2
  else if c <? 0x10000 then 3 else 4.

(** [str::len]. *)
Fixpoint blen (s : str) : N :=
  match s with [] => 0 | c :: s => utf8_len c + blen s end.

Definition utf8_encode_char (c : N) : bytes :=
  if c <? 0x80 then [c]
  else if c <? 0x800 then [0xC0 + c / 64; 0x80 + c mod 64]
  else if c <? 0x10000 then
    [0xE0 + c / 4096; 0x80 + c / 64 mod 64; 0x80 + c mod 64]
  else [0xF0 + c / 262144; 0x80 + c / 4096 mod 64; 0x80 + c / 64 mod 64;
        0x80 + c mod 64].

(** [str::as_bytes]. *)
Definition as_bytes (s : str) : bytes := s ≫= utf8_encode_char.

Definition replacement_char : N := 0xFFFD.

(** The second byte a lead byte of a three or four byte sequence admits. *)
Definition second3 (b0 b1 : N) : bool :=
  ((b0 =? 0xE0) && in_range 0xA0 0xBF b1)
  || (in_range 0xE1 0xEC b0 && in_range 0x80 0xBF b1)
  || ((b0 =? 0xED) && in_range 0x80 0x9F b1)
  || (in_range 0xEE 0xEF b0 && in_range 0x80 0xBF b1).
Definition second4 (b0 b1 : N) : bool :=
  ((b0 =? 0xF0) && in_range 0x90 0xBF b1)
  || (in_range 0xF1 0xF3 b0 && in_range 0x80 0xBF b1)
  || ((b0 =? 0xF4) && in_range 0x80 0x8F b1).
Definition is_cont (b : N) : bool := in_range 0x80 0xBF b.

(** [String::from_utf8_lossy]: one replacement character for every maximal
    invalid prefix, as in [core::str::lossy]. *)
Fixpoint from_utf8_lossy (bs : bytes) : str :=
  match bs with
  | [] => []
  | b0 :: r0 =>
    if b0 <? 0x80 then b0 :: from_utf8_lossy r0
    else if in_range 0xC2 0xDF b0 then
      match r0 with
      | b1 :: r1 =>
        if is_cont b1 then (b0 - 0xC0) * 64 + (b1 - 0x80) :: from_utf8_lossy r1
        else replacement_char :: from_utf8_lossy r0
      | [] => [replacement_char]
      end
    else if in_range 0xE0 0xEF b0 then
      match r0 with
      | b1 :: r1 =>
        if second3 b0 b1 then
          match r1 with
          | b2 :: r2 =>
            if is_cont b2 then
              (b0 - 0xE0) * 4096 + (b1 - 0x80) * 64 + (b2 - 0x80)
                :: from_utf8_lossy r2
            else replacement_char :: from_utf8_lossy r1
          | [] => [replacement_char]
          end
        else replacement_char :: from_utf8_lossy r0
      | [] => [replacement_char]
      end
    else if in_range 0xF0 0xF4 b0 then
      match r0 with
      | b1 :: r1 =>
        if second4 b0 b1 then
          match r1 with
          | b2 :: r2 =>
            if is_cont b2 then
              match r2 with
              | b3 :: r3 =>
                if is_cont b3 then
                  (b0 - 0xF0) * 262144 + (b1 - 0x80) * 4096
                    + (b2 - 0x80) * 64 + (b3 - 0x80) :: from_utf8_lossy r3
                else replacement_char :: from_utf8_lossy r2
              | [] => [replacement_char]
              end
            else replacement_char :: from_utf8_lossy r1
          | [] => [replacement_char]
          end
        else replacement_char :: from_utf8_lossy r0
      | [] => [replacement_char]
      end
    else replacement_char :: from_utf8_lossy r0
  end.

(** [String::from_utf8]: the lossy text when nothing was lost. *)
Definition from_utf8 (bs : bytes) : option str :=
  let s := from_utf8_lossy bs in if bool_decide (as_bytes s = bs) then Some s else None.

(** [u64::from_str] on ASCII digits; [None] on overflow and on the empty text. *)
Fixpoint parse_digits (max acc : N) (s : str) : option N :=
  match s with
  | [] => Some acc
  | c :: s =>
    if is_ascii_digit c then
      match checked_mul max acc 10 ≫= fun a => checked_add max a (c - 48) with
      | Some a => parse_digits max a s
      | None => None
      end
    else None
  end.
Definition parse_u64 (s : str) : option N :=
  match s with [] => None | _ => parse_digits u64_max 0 s end.

(** ** Searching *)

Fixpoint starts_with (p s : str) : bool :=
  match p, s with
  | [], _ => true
  | c :: p, d :: s => (c =? d) && starts_with p s
  | _ :: _, [] => false
  end.

(** [str::contains] on a string pattern. *)
Fixpoint contains (p s : str) : bool :=
  starts_with p s || match s with [] => false | _ :: s => contains p s end.

(** [str::contains] on a character. *)
Definition contains_char (c : N) (s : str) : bool := existsb (N.eqb c) s.

(** [str::replace]: non-overlapping occurrences, left to right; [skip] counts
    the characters of the current occurrence still to be dropped. *)
Fixpoint replace_from (from to : str) (skip : nat) (s : str) : str :=
  match s with
  | [] => []
  | c :: s' =>
    match skip with
    | S k => replace_from from to k s'
    | O =>
      if starts_with from s
      then to ++ replace_from from to (length from - 1) s'
      else c :: replace_from from to 0 s'
    end
  end.
Definition replace (from to s : str) : str := replace_from from to 0 s.

(** ** Trimming and splitting *)

Fixpoint trim_start_matches (f : N -> bool) (s : str) : str :=
  match s with
  | c :: s' => if f c then trim_start_matches f s' else s
  | [] => []
  end.
Definition trim_start (s : str) : str := trim_start_matches is_whitespace s.
Definition trim_end (s : str) : str := rev (trim_start (rev s)).
Definition trim (s : str) : str := trim_end (trim_start s).

Definition flush (cur : str) : list str :=
  match cur with [] => [] | _ => [rev cur] end.

(** [cur] is the current piece, reversed. *)
Fixpoint split_whitespace_from (cur : str) (s : str) : list str :=
  match s with
  | [] => flush cur
  | c :: s =>
    if is_whitespace c then flush cur ++ split_whitespace_from [] s
    else split_whitespace_from (c :: cur) s
  end.
Definition split_whitespace (s : str) : list str := split_whitespace_from [] s.

(** [str::split] on a character: always at least one piece. *)
Fixpoint split_from (sep : N) (cur : str) (s : str) : list str :=
  match s with
  | [] => [rev cur]
  | c :: s => if c =? sep then rev cur :: split_from sep [] s
              else split_from sep (c :: cur) s
  end.
Definition split (sep : N) (s : str) : list str := split_from sep [] s.

(** [str::split] on a string pattern, not empty: non-overlapping occurrences,
    left to right; [skip] as in [replace_from]. *)
Fixpoint split_str_from (pat cur : str) (skip : nat) (s : str) : list str :=
  match s with
  | [] => [rev cur]
  | c :: s' =>
    match skip with
    | S k => split_str_from pat cur k s'
    | O =>
      if starts_with pat s then rev cur :: split_str_from pat [] (length pat - 1) s'
      else split_str_from pat (c :: cur) 0 s'
    end
  end.
Definition split_str (pat s : str) : list str := split_str_from pat [] 0 s.

Definition trim_end_matches (f : N -> bool) (s : str) : str :=
  rev (trim_start_matches f (rev s)).

Definition strip_prefix (p s : str) : option str :=
  if starts_with p s then Some (drop (length p) s) else None.

Definition strip_suffix (p s : str) : option str :=
  if starts_with (rev p) (rev s) then Some (rev (drop (length p) (rev s))) else None.

(** [str::split_once]; [before] is reversed. *)
Fixpoint split_once_from (pat before s : str) : option (str * str) :=
  if starts_with pat s then Some (rev before, drop (length pat) s)
  else match s with
       | [] => None
       | c :: s => split_once_from pat (c :: before) s
       end.
Definition split_once (pat s : str) : option (str * str) := split_once_from pat [] s.

(** [str::lines]: pieces ended by a line feed, the carriage return before it
    dropped; a last piece without line feed keeps its carriage return and is
    dropped when empty.  [cur] is reversed. *)
Definition strip_cr (cur : str) : str :=
  match cur with c :: cur' => if c =? 13 then cur' else cur | [] => [] end.
Fixpoint lines_from (cur : str) (s : str) : list str :=
  match s with
  | [] => flush cur
  | c :: s => if c =? 10 then rev (strip_cr cur) :: lines_from [] s
              else lines_from (c :: cur) s
  end.
Definition lines (s : str) : list str := lines_from [] s.

(** ** Byte offsets *)

(** [str::is_char_boundary]. *)
Fixpoint is_char_boundary (s : str) (i : N) : bool :=
  (i =? 0) ||
  match s with
  | [] => false
  | c :: s => if i <? utf8_len c then false
              else is_char_boundary s (i - utf8_len c)
  end.

(** [&s[..i]], [None] where Rust panics. *)
Fixpoint slice_to (s : str) (i : N) : option str :=
  if i =? 0 then Some [] else
  match s with
  | [] => None
  | c :: s => if i <? utf8_len c then None
              else cons c <$> slice_to s (i - utf8_len c)
  end.

(** [&s[i..]]. *)
Fixpoint slice_from (s : str) (i : N) : option str :=
  if i =? 0 then Some s else
  match s with
  | [] => None
  | c :: s => if i <? utf8_len c then None else slice_from s (i - utf8_len c)
  end.

Definition str_eqb (a b : str) : bool := bool_decide (a = b).

(** ** Lemmas *)

Lemma utf8_len_bounds c : 1 <= utf8_len c <= 4.
Proof. unfold utf8_len. repeat case_match; lia. Qed.

Lemma blen_app s t : blen (s ++ t) = blen s + blen t.
Proof. induction s as [|c s IH]; simpl; lia. Qed.

Lemma blen_nil_iff s : blen s = 0 <-> s = [].
Proof. destruct s as [|c s]; simpl; [done|]. pose proof (utf8_len_bounds c). split; [lia|done]. Qed.

Lemma blen_sublist s t : s `sublist_of` t -> blen s <= blen t.
Proof. induction 1; simpl; lia. Qed.

Lemma blen_ge_len s : len s <= blen s.
Proof.
  induction s as [|c s IH]; [done|]. rewrite len_cons. simpl.
  pose proof (utf8_len_bounds c). lia.
Qed.

Lemma existsb_false_iff {A} (f : A -> bool) l :
  existsb f l = false <-> forall x, x ∈ l -> f x = false.
Proof.
  induction l as [|x l IH]; simpl.
  - split; [by intros _ x ?%elem_of_nil|done].
  - rewrite orb_false_iff, IH. set_solver.
Qed.

Lemma existsb_true_iff {A} (f : A -> bool) l :
  existsb f l = true <-> exists x, x ∈ l /\ f x = true.
Proof. rewrite existsb_exists. by setoid_rewrite list_elem_of_In. Qed.

Lemma existsb_sublist {A} (f : A -> bool) l k :
  l `sublist_of` k -> existsb f k = false -> existsb f l = false.
Proof. rewrite !existsb_false_iff. intros Hs H x Hx. by eapply H, elem_of_sublist. Qed.

Lemma contains_char_false c s : contains_char c s = false <-> c ∉ s.
Proof.
  unfold contains_char. rewrite existsb_false_iff. split.
  - intros H Hc. apply H in Hc. apply N.eqb_neq in Hc. done.
  - intros H x Hx. apply N.eqb_neq. naive_solver.
Qed.

Lemma starts_with_spec p s : starts_with p s = true <-> p `prefix_of` s.
Proof.
  revert s. induction p as [|c p IH]; intros s; simpl.
  - split; [intros _; apply prefix_nil|done].
  - destruct s as [|d s]; [split; [done|]; by intros ?%prefix_nil_not|].
    rewrite andb_true_iff, IH, N.eqb_eq. split.
    + intros [-> ?]. by apply prefix_cons.
    + intros H. split; [by eapply prefix_cons_inv_1|by eapply prefix_cons_inv_2].
Qed.

Lemma slice_to_spec s i p : slice_to s i = Some p <-> p `prefix_of` s /\ blen p = i.
Proof.
  revert i p. induction s as [|c s IH]; intros i p; simpl.
  - destruct (N.eqb_spec i 0) as [->|Hi].
    + split; [intros [= <-]; done|]. by intros [->%prefix_nil_inv _].
    + split; [done|]. intros [->%prefix_nil_inv Hp]. done.
  - destruct (N.eqb_spec i 0) as [->|Hi].
    + split; [intros [= <-]; split; [apply prefix_nil|done]|].
      by intros [_ ->%blen_nil_iff].
    + destruct (N.ltb_spec i (utf8_len c)) as [Hc|Hc].
      * split; [done|]. intros [[k Hk] Hp]. destruct p as [|d p]; [done|].
        injection Hk as <- _. simpl in Hp. lia.
      * rewrite fmap_Some. setoid_rewrite IH. split.
        -- intros (q & [Hq Hl] & ->). split; [by apply prefix_cons|]. simpl. lia.
        -- intros [Hp Hl]. destruct p as [|d p]; [done|].
           pose proof (prefix_cons_inv_1 _ _ _ _ Hp) as ->.
           exists p. split_and!; [by eapply prefix_cons_inv_2| |done]. simpl in Hl. lia.
Qed.

Lemma is_char_boundary_slice s i : is_char_boundary s i = is_some (slice_to s i).
Proof.
  revert i. induction s as [|c s IH]; intros i; simpl; destruct (i =? 0); try done.
  simpl. destruct (i <? utf8_len c); [done|]. rewrite IH. by destruct (slice_to s _).
Qed.

Lemma is_char_boundary_spec s i :
  is_char_boundary s i = true <-> exists p, p `prefix_of` s /\ blen p = i.
Proof.
  rewrite is_char_boundary_slice. setoid_rewrite <-slice_to_spec.
  destruct (slice_to s i) as [p|]; [|naive_solver]. split; [by exists p|done].
Qed.

Lemma blen_prefix p s : p `prefix_of` s -> blen p <= blen s.
Proof. intros [k ->]. rewrite blen_app. lia. Qed.

(** Prefixes of one string are ordered by their byte length. *)
Lemma prefix_of_blen p q s :
  p `prefix_of` s -> q `prefix_of` s -> blen p <= blen q -> p `prefix_of` q.
Proof.
  intros Hp Hq Hl. destruct (prefix_weak_total _ _ _ Hp Hq) as [?|[k ->]]; [done|].
  rewrite blen_app in Hl. assert (k = []) as -> by (apply blen_nil_iff; lia).
  by rewrite app_nil_r.
Qed.

Lemma trim_start_matches_suffix f s : exists k, s = k ++ trim_start_matches f s.
Proof.
  induction s as [|c s [k IH]]; simpl; [by exists []|].
  destruct (f c); [|by exists []]. exists (c :: k). simpl. by f_equal.
Qed.

Lemma trim_Forall (P : N -> Prop) s : Forall P s -> Forall P (trim s).
Proof.
  assert (Hts : forall s, Forall P s -> Forall P (trim_start s)).
  { intros t Ht. destruct (trim_start_matches_suffix is_whitespace t) as [k Hk].
    rewrite Hk in Ht. by apply Forall_app in Ht as [_ ?]. }
  intros H. unfold trim, trim_end. apply Forall_rev, Hts, Forall_rev, Hts, H.
Qed.

Lemma split_whitespace_from_spec cur s :
  Forall (fun c => is_whitespace c = false) cur ->
  Forall (fun t => t <> [] /\ Forall (fun c => is_whitespace c = false) t /\
                   forall c, c ∈ t -> c ∈ cur \/ c ∈ s)
    (split_whitespace_from cur s).
Proof.
  assert (Hflush : forall (cur s : list N), Forall (fun c => is_whitespace c = false) cur ->
    Forall (fun t => t <> [] /\ Forall (fun c => is_whitespace c = false) t /\
                     forall c, c ∈ t -> c ∈ cur \/ c ∈ s) (flush cur)).
  { intros [|c k] t Hk; [constructor|]. unfold flush. constructor; [|constructor].
    split_and!.
    - intros Hr. apply (f_equal length) in Hr. rewrite length_rev in Hr. done.
    - by apply Forall_rev.
    - intros d Hd. left. by apply elem_of_rev. }
  revert cur. induction s as [|c s IH]; intros cur Hcur; simpl; [by apply Hflush|].
  destruct (is_whitespace c) eqn:Ec.
  - apply Forall_app; split; [by apply Hflush|].
    eapply Forall_impl; [by apply IH; constructor|]. set_solver.
  - eapply Forall_impl; [apply IH; by constructor|]. set_solver.
Qed.
