(* ===== verification/StrFacts.v ===== *)
(** * Facts about Rust strings

    Substrings through the string operations, the UTF-8 encoding as a prefix code,
    and the bytes of numbers and digests. *)
From S2P Require Import Prelude RustStr.

Definition infix (p s : str) : Prop := exists a b, s = a ++ p ++ b.

(** A code point of a [char] (surrogates excluded or not, it does not matter). *)
Definition scalar (c : N) : Prop := c < 0x110000.

(** ** Substrings *)

Lemma infix_refl p : infix p p.
Proof. exists [], []. by rewrite app_nil_r. Qed.

Lemma infix_trans p q r : infix p q -> infix q r -> infix p r.
Proof.
  intros (a & b & ->) (a' & b' & ->). exists (a' ++ a), (b ++ b').
  by rewrite <-!app_assoc.
Qed.

Lemma infix_prefix p q r : infix p q -> q `prefix_of` r -> infix p r.
Proof. intros (a & b & ->) [k ->]. exists a, (b ++ k). by rewrite <-!app_assoc. Qed.

Lemma infix_app_r p a s : infix p s -> infix p (a ++ s).
Proof. intros (x & y & ->). exists (a ++ x), y. by rewrite <-app_assoc. Qed.

Lemma infix_cons p c s : infix p (c :: s) <-> p `prefix_of` (c :: s) \/ infix p s.
Proof.
  split.
  - intros ([|d a] & b & Heq); [left; by exists b|]. injection Heq as _ ->. right. by exists a, b.
  - intros [[k Hk]|Hi]; [by exists [], k|]. by apply (infix_app_r p [c]).
Qed.

Lemma infix_nil p : infix p [] -> p = [].
Proof. intros (a & b & H). by destruct a, p. Qed.

Lemma contains_infix p s : contains p s = true <-> infix p s.
Proof.
  induction s as [|c s IH]; cbn [contains].
  - rewrite orb_false_r, starts_with_spec. split.
    + intros ->%prefix_nil_inv. apply infix_refl.
    + by intros ->%infix_nil.
  - by rewrite orb_true_iff, starts_with_spec, IH, infix_cons.
Qed.

(** A substring without the separator is on one side of it. *)
Lemma infix_sep p a c b : c ∉ p -> infix p (a ++ c :: b) -> infix p a \/ infix p b.
Proof.
  intros Hc (x & y & Heq).
  apply app_eq_inv in Heq as [(k & -> & Hk)|(k & -> & Hk)].
  - apply app_eq_inv in Hk as [(j & -> & Hj)|(j & -> & Hj)].
    + destruct j as [|d j]; [left|].
      * exists x, []. by rewrite !app_nil_r.
      * injection Hj as <- ->. set_solver.
    + left. by exists x, j.
  - destruct k as [|d k]; simpl in Hk.
    + destruct p as [|d p]; [right; by exists [], b|]. injection Hk as -> _. set_solver.
    + injection Hk as _ ->. right. by exists k, y.
Qed.

(** Characters a substring has none of separate as well. *)
Lemma infix_skip p t s :
  (forall c, c ∈ t -> c ∉ p) -> infix p (t ++ s) -> p = [] \/ infix p s.
Proof.
  induction t as [|c t IH]; intros Ht; [by right|].
  intros [[k Hk]|Hi]%infix_cons; [|by apply IH; [set_solver|]].
  destruct p as [|d p]; [by left|]. injection Hk as -> _. set_solver.
Qed.

Lemma prefix_map (p : str) (f : N -> N) (s : str) :
  (forall c, f c <> c -> f c ∉ p) -> p `prefix_of` (f <$> s) -> p `prefix_of` s.
Proof.
  revert p. induction s as [|c s IH]; intros p Hf; [done|]. rewrite fmap_cons.
  destruct p as [|d p]; [intros _; apply prefix_nil|]. intros Hp.
  pose proof (prefix_cons_inv_1 _ _ _ _ Hp) as Hd. apply prefix_cons_inv_2 in Hp.
  destruct (decide (f c = c)) as [Hc|Hc]; [|set_solver].
  rewrite Hd, Hc. apply prefix_cons, IH; [|done]. set_solver.
Qed.

Lemma infix_map (p : str) (f : N -> N) (s : str) : (forall c, f c <> c -> f c ∉ p) -> infix p (f <$> s) -> infix p s.
Proof.
  intros Hf. induction s as [|c s IH]; [done|]. rewrite fmap_cons.
  intros [Hp|Hi]%infix_cons; apply infix_cons; [left|right; auto].
  rewrite <-fmap_cons in Hp. by eapply prefix_map.
Qed.

(** ** Replacement *)

Section replacing.
Variables (n : str) (o : N) (mid : str) (e : N).

(** The replacement begins and ends with the characters [o] and [e]. *)
#[local] Abbreviation to := (o :: (mid ++ [e])).

Definition apart (m : str) : Prop :=
  (o ∉ m) /\ (e ∉ m) /\ ~ infix m (o :: mid).

Lemma infix_to_app m s : apart m -> infix m (to ++ s) -> infix m s.
Proof.
  intros (Ho & He & Hm). rewrite <-app_comm_cons, <-app_assoc.
  change (o :: mid ++ [e] ++ s) with ((o :: mid) ++ e :: s).
  by intros [?|?]%infix_sep.
Qed.

Lemma prefix_replace m s :
  o ∉ m -> m `prefix_of` replace_from n to 0 s -> m `prefix_of` s.
Proof.
  revert m. induction s as [|c s IH]; intros m Hm; [done|].
  cbn [replace_from]. destruct m as [|d m]; [intros _; apply prefix_nil|].
  destruct (starts_with n (c :: s)).
  - intros ->%prefix_cons_inv_1. set_solver.
  - intros Hp. rewrite (prefix_cons_inv_1 _ _ _ _ Hp).
    apply prefix_cons_inv_2 in Hp. apply prefix_cons, IH; [set_solver|done].
Qed.

(** Replacing makes no new occurrence of what is apart from the replacement. *)
Lemma infix_replace m s : apart m -> infix m (replace n to s) -> infix m s.
Proof.
  intros Hm. unfold replace. generalize 0%nat as k.
  induction s as [|c s IH]; intros k; [done|].
  rewrite infix_cons. destruct k as [|k]; cbn [replace_from]; [|right; eauto].
  destruct (starts_with n (c :: s)) eqn:E.
  - intros Hi%infix_to_app; [right; eauto|done].
  - intros [Hp|Hi]%infix_cons; [|right; eauto]. left.
    apply (prefix_replace m (c :: s)); [apply Hm|]. cbn [replace_from]. by rewrite E.
Qed.

(** No occurrence is left. *)
Lemma replace_none s : apart n -> ~ infix n (replace n to s).
Proof.
  intros Hn. unfold replace. generalize 0%nat as k.
  assert (n <> []). { intros ->. apply Hn. exists [], (o :: mid). done. }
  induction s as [|c s IH]; intros k; [by intros ?%infix_nil|].
  destruct k as [|k]; cbn [replace_from]; [|apply IH].
  destruct (starts_with n (c :: s)) eqn:E.
  - intros Hi%infix_to_app; [by eapply IH|done].
  - intros [Hp|Hi]%infix_cons; [|by eapply IH].
    assert (n `prefix_of` c :: s) as Hp'%starts_with_spec; [|congruence].
    apply prefix_replace; [apply Hn|]. cbn [replace_from]. by rewrite E.
Qed.

Lemma replace_Forall (P : N -> Prop) s : Forall P to -> Forall P s -> Forall P (replace n to s).
Proof.
  intros Hto Hs. unfold replace. generalize 0%nat as k.
  induction Hs as [|d s Hd _ IH]; intros k; [constructor|].
  destruct k as [|k]; cbn [replace_from]; [|apply IH].
  destruct (starts_with n (d :: s)); [by apply Forall_app|by constructor].
Qed.
End replacing.

(** ** Trimming and splitting *)

Lemma trim_infix s : infix (trim s) s.
Proof.
  unfold trim, trim_end, trim_start.
  destruct (trim_start_matches_suffix is_whitespace s) as [a Ha].
  set (t := trim_start_matches is_whitespace s) in *.
  destruct (trim_start_matches_suffix is_whitespace (rev t)) as [b Hb].
  exists a, (rev b). rewrite Ha at 1. f_equal.
  rewrite <-(rev_involutive t), Hb at 1. by rewrite rev_app_distr.
Qed.

Lemma trim_start_matches_head f s :
  match trim_start_matches f s with [] => True | c :: _ => f c = false end.
Proof. induction s as [|c s IH]; simpl; [done|]. destruct (f c) eqn:E; [done|]. by rewrite E. Qed.

Lemma trim_start_matches_id f s :
  match s with [] => True | c :: _ => f c = false end -> trim_start_matches f s = s.
Proof. destruct s as [|c s]; simpl; [done|]. by intros ->. Qed.

Lemma trim_idem s : trim (trim s) = trim s.
Proof.
  unfold trim, trim_end, trim_start. set (f := is_whitespace).
  pose proof (trim_start_matches_head f s) as Hh. set (t := trim_start_matches f s) in *.
  destruct (trim_start_matches_suffix f (rev t)) as [k Hk].
  set (r := trim_start_matches f (rev t)) in *.
  assert (Ht : t = rev r ++ rev k).
  { rewrite <-(rev_involutive t), Hk. by rewrite rev_app_distr. }
  rewrite (trim_start_matches_id f (rev r)), rev_involutive.
  - f_equal. apply trim_start_matches_id. apply trim_start_matches_head.
  - rewrite Ht in Hh. by destruct (rev r).
Qed.

Lemma split_whitespace_from_infix cur s t :
  t ∈ split_whitespace_from cur s -> infix t (rev cur ++ s).
Proof.
  assert (Hf : forall k t r, t ∈ flush k -> infix t (rev k ++ r)).
  { intros [|c k] t' r; unfold flush; [by intros ?%elem_of_nil|].
    intros ->%list_elem_of_singleton. by exists [], r. }
  revert cur. induction s as [|c s IH]; intros cur; cbn [split_whitespace_from]; [by apply Hf|].
  destruct (is_whitespace c).
  - intros [Ht|Ht]%elem_of_app; [by apply Hf|]. apply IH in Ht. simpl in Ht.
    apply infix_app_r. by apply (infix_app_r t [c]).
  - intros Ht%IH. simpl in Ht. by rewrite <-app_assoc in Ht.
Qed.

Lemma split_whitespace_infix s t : t ∈ split_whitespace s -> infix t s.
Proof. apply (split_whitespace_from_infix []). Qed.

(** ** UTF-8 as a prefix code *)

Lemma utf8_encode_char_inj c d r k :
  scalar c -> scalar d ->
  utf8_encode_char c ++ r = utf8_encode_char d ++ k -> c = d /\ r = k.
Proof.
  unfold scalar, utf8_encode_char. intros Hc Hd.
  destruct (N.ltb_spec c 0x80), (N.ltb_spec c 0x800), (N.ltb_spec c 0x10000),
    (N.ltb_spec d 0x80), (N.ltb_spec d 0x800), (N.ltb_spec d 0x10000); try lia;
    cbn [app]; intros Heq; injection Heq; clear Heq; intros;
    (split; [|first [assumption|exfalso]]); zify;
    Z.to_euclidean_division_equations; lia.
Qed.

Lemma utf8_encode_char_ne c : utf8_encode_char c <> [].
Proof. unfold utf8_encode_char. by repeat case_match. Qed.

Lemma as_bytes_cons c s : as_bytes (c :: s) = utf8_encode_char c ++ as_bytes s.
Proof. done. Qed.

Lemma as_bytes_ascii s : Forall (fun c => c < 128) s -> as_bytes s = s.
Proof.
  induction 1 as [|c s Hc _ IH]; [done|]. cbn. unfold utf8_encode_char.
  rewrite (proj2 (N.ltb_lt c 128)) by done. cbn. by f_equal.
Qed.

Lemma as_bytes_inj s t : Forall scalar s -> Forall scalar t -> as_bytes s = as_bytes t -> s = t.
Proof.
  intros Hs. revert t. induction Hs as [|c s Hc _ IH]; intros t Ht;
    destruct Ht as [|d t Hd Ht]; rewrite ?as_bytes_cons; [done| | |].
  - intros Heq. symmetry in Heq. by apply app_nil in Heq as [?%utf8_encode_char_ne _].
  - intros Heq. by apply app_nil in Heq as [?%utf8_encode_char_ne _].
  - intros [-> Heq]%utf8_encode_char_inj; [|done..]. by rewrite (IH t).
Qed.

(** A text without NUL, ended by a NUL byte. *)
Lemma as_bytes_nul_inj s t r k :
  Forall (fun c => scalar c /\ c <> 0) s -> Forall (fun c => scalar c /\ c <> 0) t ->
  as_bytes s ++ 0 :: r = as_bytes t ++ 0 :: k -> s = t /\ r = k.
Proof.
  assert (H0 : scalar 0) by done.
  change (0 :: r) with (utf8_encode_char 0 ++ r). change (0 :: k) with (utf8_encode_char 0 ++ k).
  intros Hs. revert t. induction Hs as [|c s [Hc ?] _ IH]; intros t Ht;
    destruct Ht as [|d t [Hd ?] Ht]; rewrite ?as_bytes_cons, <-?app_assoc; cbn [as_bytes app mbind].
  - by intros [_ ->]%utf8_encode_char_inj.
  - intros [Heq _]%utf8_encode_char_inj; by subst.
  - intros [Heq _]%utf8_encode_char_inj; by subst.
  - intros [-> Heq]%utf8_encode_char_inj; [|done..]. by destruct (IH t Ht Heq) as [-> ->].
Qed.

(** ** Slices and byte lengths *)

Lemma slice_from_spec s i q : slice_from s i = Some q <-> exists p, s = p ++ q /\ blen p = i.
Proof.
  revert i. induction s as [|c s IH]; intros i; simpl; destruct (N.eqb_spec i 0) as [->|Hi].
  - split; [intros [= <-]; by exists []|]. intros (p & Hp & ->%blen_nil_iff). simpl in Hp. congruence.
  - split; [done|]. intros (p & [-> ->]%eq_sym%app_nil & Hl). done.
  - split; [intros [= <-]; by exists []|]. intros (p & Hp & ->%blen_nil_iff). simpl in Hp. congruence.
  - destruct (N.ltb_spec i (utf8_len c)) as [Hc|Hc].
    + split; [done|]. intros ([|d p] & Hp & Hl); [done|]. injection Hp as <- _. simpl in Hl. lia.
    + rewrite IH. split.
      * intros (p & -> & Hl). exists (c :: p). split; [done|]. simpl. lia.
      * intros ([|d p] & Hp & Hl); [done|]. injection Hp as <- ->. exists p.
        split; [done|]. simpl in Hl. lia.
Qed.

Lemma slice_from_app p q : slice_from (p ++ q) (blen p) = Some q.
Proof. apply slice_from_spec. by exists p. Qed.

Lemma slice_to_app p q : slice_to (p ++ q) (blen p) = Some p.
Proof. apply slice_to_spec. split; [by exists q|done]. Qed.

Lemma len_as_bytes s : len (as_bytes s) = blen s.
Proof.
  induction s as [|c s IH]; [done|]. rewrite as_bytes_cons, len_app, IH. simpl. f_equal.
  unfold utf8_encode_char, utf8_len. repeat case_match; done.
Qed.

Lemma from_utf8_some bs s : from_utf8 bs = Some s -> as_bytes s = bs.
Proof. unfold from_utf8. case_bool_decide as H; [|done]. by intros [= <-]. Qed.

Lemma strip_suffix_spec p s t : strip_suffix p s = Some t <-> s = t ++ p.
Proof.
  unfold strip_suffix. split.
  - destruct (starts_with _ _) eqn:E; [|done]. apply starts_with_spec in E as [k Hk].
    intros [= <-]. rewrite Hk, <-(length_rev p), drop_app_length. by rewrite <-(rev_involutive s), Hk,
      rev_app_distr, rev_involutive.
  - intros ->. rewrite rev_app_distr.
    assert (starts_with (rev p) (rev p ++ rev t) = true) as ->
      by (apply starts_with_spec; by eexists).
    by rewrite <-(length_rev p), drop_app_length, rev_involutive.
Qed.

Lemma split_once_from_spec pat before s a b :
  pat <> [] -> split_once_from pat before s = Some (a, b) ->
  exists k, a = rev before ++ k /\ s = k ++ pat ++ b /\
    forall i, (i < length k)%nat -> ~ pat `prefix_of` drop i s.
Proof.
  intros Hp. revert before. induction s as [|c s IH]; intros before; cbn [split_once_from].
  - destruct (starts_with pat []) eqn:E; [|done]. by apply starts_with_spec, prefix_nil_inv in E.
  - destruct (starts_with pat (c :: s)) eqn:E.
    + apply starts_with_spec in E as [k Hk]. intros [= <- <-]. exists []. rewrite app_nil_r.
      split_and!; [done| |cbn; lia]. cbn [app]. by rewrite Hk, drop_app_length.
    + intros (k & -> & -> & Hi)%IH. exists (c :: k). cbn. rewrite <-app_assoc. split_and!; [done..|].
      intros [|i] Hlt; cbn; [|apply Hi; lia].
      by intros Hpre%starts_with_spec; rewrite E in Hpre.
Qed.

Lemma split_once_from_here pat before b :
  split_once_from pat before (pat ++ b) = Some (rev before, b).
Proof.
  assert (Hst : starts_with pat (pat ++ b) = true) by (apply starts_with_spec; by eexists).
  assert (Hd : drop (length pat) (pat ++ b) = b) by apply drop_app_length.
  revert Hst Hd. by destruct (pat ++ b); cbn [split_once_from]; intros -> ->.
Qed.

(** A separator that does not start within the first part is found at its end. *)
Lemma split_once_from_app pat before a b :
  (forall i, (i < length a)%nat -> ~ pat `prefix_of` drop i (a ++ pat ++ b)) ->
  split_once_from pat before (a ++ pat ++ b) = Some (rev before ++ a, b).
Proof.
  revert before. induction a as [|c a IH]; intros before Hi; cbn [app].
  - rewrite app_nil_r. apply split_once_from_here.
  - cbn [split_once_from]. destruct (starts_with pat _) eqn:E.
    + exfalso. apply starts_with_spec in E. apply (Hi 0%nat); [cbn; lia|done].
    + rewrite IH; [cbn; by rewrite <-app_assoc|]. intros i Hlt. apply (Hi (S i)). cbn; lia.
Qed.

Lemma split_once_app pat a b :
  (forall i, (i < length a)%nat -> ~ pat `prefix_of` drop i (a ++ pat ++ b)) ->
  split_once pat (a ++ pat ++ b) = Some (a, b).
Proof. apply split_once_from_app. Qed.

Lemma from_utf8_lossy_scalar bs : Forall scalar (from_utf8_lossy bs).
Proof.
  induction bs as [bs IH] using (induction_ltof1 _ length). unfold ltof in IH.
  destruct bs as [|b0 r0]; cbn [from_utf8_lossy]; [constructor|].
  repeat case_match; try (constructor; [|apply IH; cbn; lia]); try (repeat constructor).
  all: unfold scalar, second3, second4, is_cont, in_range in *; split_bools; lia.
Qed.

Lemma from_utf8_scalar bs s : from_utf8 bs = Some s -> Forall scalar s.
Proof. unfold from_utf8. case_bool_decide; [|done]. intros [= <-]. apply from_utf8_lossy_scalar. Qed.

(** ** Bytes of numbers, and digests

    [sha2::Sha256] is a parameter: what is proved says which bytes are hashed. *)

Class Sha256 := sha256 : bytes -> bytes.

(** [format!("{:02x}")]. *)
Definition hex_digit (n : N) : N := if n <? 10 then 48 + n else 87 + n.
Definition hex_byte (b : N) : str := [hex_digit (b / 16); hex_digit (b mod 16)].
Definition digest_hex `{Sha256} (bs : bytes) : str := sha256 bs ≫= hex_byte.

(** [to_le_bytes] and [to_be_bytes] of an unsigned integer of [width] bytes. *)
Fixpoint le_bytes (width : nat) (n : N) : bytes :=
  match width with
  | O => []
  | S width => n mod 256 :: le_bytes width (n / 256)
  end.
Definition be_bytes (width : nat) (n : N) : bytes := rev (le_bytes width n).

Definition bool_byte (b : bool) : N := if b then 1 else 0.

Lemma length_le_bytes width n : length (le_bytes width n) = width.
Proof. revert n. induction width as [|w IH]; intros n; cbn; [done|]. by rewrite IH. Qed.

Lemma le_bytes_inj width n m r k :
  n < 2 ^ (8 * N.of_nat width) -> m < 2 ^ (8 * N.of_nat width) ->
  le_bytes width n ++ r = le_bytes width m ++ k -> n = m /\ r = k.
Proof.
  revert n m. induction width as [|w IH]; intros n m Hn Hm; cbn [le_bytes app].
  - change (2 ^ (8 * N.of_nat 0)) with 1 in *. intros ->. split; [lia|done].
  - intros [= Hmod Heq]. replace (2 ^ (8 * N.of_nat (S w))) with (256 * 2 ^ (8 * N.of_nat w)) in *
      by (rewrite Nat2N.inj_succ, N.mul_succ_r, N.pow_add_r; change (2 ^ 8) with 256; lia).
    destruct (IH (n / 256) (m / 256)) as [Hdiv ->]; [by apply N.Div0.div_lt_upper_bound..|done|].
    split; [|done]. by rewrite (N.div_mod n 256), (N.div_mod m 256), Hmod, Hdiv.
Qed.

Lemma be_bytes_inj width n m r k :
  n < 2 ^ (8 * N.of_nat width) -> m < 2 ^ (8 * N.of_nat width) ->
  be_bytes width n ++ r = be_bytes width m ++ k -> n = m /\ r = k.
Proof.
  unfold be_bytes. intros Hn Hm Heq. apply app_inj_1 in Heq as [Heq ->].
  2:{ by rewrite !length_rev, !length_le_bytes. }
  apply (f_equal (@rev N)) in Heq. rewrite !rev_involutive in Heq.
  apply (le_bytes_inj width n m [] []) in Hn as [-> _]; [done..|by rewrite Heq].
Qed.

(** Nothing is read into a digest but the bytes: different texts have different hex forms. *)
Lemma hex_byte_inj a b : a < 256 -> b < 256 -> hex_byte a = hex_byte b -> a = b.
Proof.
  unfold hex_byte, hex_digit. intros Ha Hb [= H1 H2].
  assert (a / 16 = b / 16) by (repeat case_match; bool_prop; lia).
  assert (a mod 16 = b mod 16).
  { pose proof (N.mod_lt a 16). pose proof (N.mod_lt b 16). repeat case_match; bool_prop; lia. }
  by rewrite (N.div_mod a 16), (N.div_mod b 16) by done; congruence.
Qed.
