(* ===== verification/RustPath.v ===== *)
(** * Unix paths

    A [PathBuf] holds either UTF-8 text or bytes that are not valid UTF-8, for
    which [to_str] fails.  [components] follows [std::path] on Unix. *)
From S2P Require Import Prelude RustStr.

Inductive os_path :=
| Utf8Path (text : str)
| RawPath (raw : bytes).

#[export] Instance os_path_eq_dec : EqDecision os_path.
Proof. solve_decision. Defined.

(** [Component] without [Prefix], which Unix paths never have. *)
Inductive component :=
| RootDir
| CurDir
| ParentDir
| Normal (name : str).

#[export] Instance component_eq_dec : EqDecision component.
Proof. solve_decision. Defined.

Definition slash : N := 47.
Definition dot : str := u ".".
Definition dotdot : str := u "..".

Definition has_root (s : str) : bool :=
  match s with c :: _ => c =? slash | [] => false end.

(** The component of one piece between slashes; a leading [.] of a relative path
    is the only one kept. *)
Definition piece_component (leading : bool) (piece : str) : list component :=
  if bool_decide (piece = []) then []
  else if bool_decide (piece = dot) then (if leading then [CurDir] else [])
  else if bool_decide (piece = dotdot) then [ParentDir]
  else [Normal piece].

Definition text_components (s : str) : list component :=
  match split slash s with
  | [] => []
  | p :: ps =>
    (if has_root s then [RootDir] else [])
      ++ piece_component (negb (has_root s)) p ++ (ps ≫= piece_component false)
  end.

Definition path_text (p : os_path) : str :=
  match p with Utf8Path s => s | RawPath b => b end.

Definition is_absolute (p : os_path) : bool := has_root (path_text p).

Definition path_to_str (p : os_path) : option str :=
  match p with Utf8Path s => Some s | RawPath _ => None end.

Definition components (p : os_path) : list component := text_components (path_text p).

Definition normal_name (c : component) : option str :=
  match c with Normal n => Some n | _ => None end.

(** The file names a path goes through. *)
Definition path_names (p : os_path) : list str := omap normal_name (components p).

(** [PathBuf::eq] compares components, not text. *)
Definition path_eqb (p q : os_path) : bool :=
  match p, q with
  | Utf8Path _, Utf8Path _ | RawPath _, RawPath _ =>
    bool_decide (components p = components q)
  | _, _ => false
  end.

(** [PathBuf::push] of a relative path. *)
Definition push_str (base part : str) : str :=
  if bool_decide (base = []) then part
  else if bool_decide (last base = Some slash) then base ++ part
  else base ++ slash :: part.

Definition join_path (parts : list str) : str :=
  match parts with
  | [] => []
  | p :: ps => p ++ (ps ≫= (fun q => slash :: q))
  end.

(** A file name: what [Component::Normal] can carry. *)
Definition plain_name (p : str) : Prop :=
  p <> [] /\ (slash ∉ p) /\ p <> dot /\ p <> dotdot.

(** ** Lemmas *)

Lemma split_from_no_sep sep cur s :
  sep ∉ s -> split_from sep cur s = [rev cur ++ s].
Proof.
  revert cur. induction s as [|c s IH]; intros cur Hn; simpl.
  - by rewrite app_nil_r.
  - apply not_elem_of_cons in Hn as [Hc Hn].
    destruct (N.eqb_spec c sep); [congruence|].
    rewrite IH by done. simpl. by rewrite <-app_assoc.
Qed.

Lemma split_from_app sep cur p s :
  sep ∉ p -> split_from sep cur (p ++ sep :: s) = (rev cur ++ p) :: split_from sep [] s.
Proof.
  revert cur. induction p as [|c p IH]; intros cur Hn; simpl.
  - by rewrite N.eqb_refl, app_nil_r.
  - apply not_elem_of_cons in Hn as [Hc Hn].
    destruct (N.eqb_spec c sep); [congruence|].
    rewrite IH by done. simpl. by rewrite <-app_assoc.
Qed.

Lemma split_join p ps :
  Forall (fun q => slash ∉ q) (p :: ps) -> split slash (join_path (p :: ps)) = p :: ps.
Proof.
  unfold split. revert p. induction ps as [|q ps IH]; intros p Hf.
  - apply Forall_cons in Hf as [Hp _]. simpl. rewrite app_nil_r.
    by rewrite split_from_no_sep.
  - apply Forall_cons in Hf as [Hp Hf]. csimpl.
    rewrite split_from_app by done. simpl. f_equal. apply IH, Hf.
Qed.

Lemma split_from_pieces sep cur s :
  sep ∉ cur -> Forall (fun q => sep ∉ q) (split_from sep cur s).
Proof.
  revert cur. induction s as [|c s IH]; intros cur Hc; simpl.
  - constructor; [|constructor]. by rewrite elem_of_rev.
  - destruct (N.eqb_spec c sep).
    + constructor; [by rewrite elem_of_rev|]. apply IH, not_elem_of_nil.
    + apply IH. apply not_elem_of_cons. naive_solver.
Qed.

Lemma split_from_concat sep cur s :
  exists p ps, split_from sep cur s = p :: ps /\
    rev cur ++ s = p ++ (ps ≫= (fun q => sep :: q)).
Proof.
  revert cur. induction s as [|c s IH]; intros cur; simpl.
  - exists (rev cur), []. done.
  - destruct (N.eqb_spec c sep) as [->|].
    + destruct (IH []) as (p & ps & -> & Hs). exists (rev cur), (p :: ps).
      split; [done|]. csimpl. simpl in Hs. by rewrite Hs.
    + destruct (IH (c :: cur)) as (p & ps & -> & Hs). exists p, ps. split; [done|].
      rewrite <-Hs. simpl. by rewrite <-app_assoc.
Qed.

Lemma piece_component_plain b p : plain_name p -> piece_component b p = [Normal p].
Proof.
  intros (? & ? & ? & ?). unfold piece_component.
  by rewrite !bool_decide_eq_false_2.
Qed.

(** The components of a joined list of names are the names. *)
Lemma text_components_join ps :
  Forall plain_name ps -> text_components (join_path ps) = Normal <$> ps.
Proof.
  intros Hf. destruct ps as [|p ps]; [done|].
  unfold text_components. rewrite split_join
    by (eapply Forall_impl; [exact Hf|]; by intros ? (? & ? & _)).
  assert (has_root (join_path (p :: ps)) = false) as ->.
  { apply Forall_cons in Hf as [(Hne & Hs & _) _]. destruct p as [|c p]; [done|]. simpl.
    apply N.eqb_neq. intros ->. apply Hs. by left. }
  apply Forall_cons in Hf as [Hp Hf]. simpl. rewrite piece_component_plain by done.
  simpl. f_equal. induction Hf as [|q qs Hq _ IH]; csimpl; [done|].
  by rewrite piece_component_plain, IH.
Qed.

(** A normal component is a plain name that occurs in the text. *)
Lemma text_components_normal s p :
  Normal p ∈ text_components s -> plain_name p.
Proof.
  unfold text_components. pose proof (split_from_pieces slash [] s) as Hp.
  unfold split. specialize (Hp (not_elem_of_nil _)).
  destruct (split_from slash [] s) as [|q qs]; [by intros ?%elem_of_nil|].
  assert (Hpc : forall b x, Normal p ∈ piece_component b x -> slash ∉ x -> plain_name p).
  { intros b x. unfold piece_component.
    repeat (case_bool_decide; try set_solver).
    - destruct b; set_solver.
    - intros Heq%list_elem_of_singleton ?. by injection Heq as ->. }
  apply Forall_cons in Hp as [Hq Hqs]. rewrite Forall_forall in Hqs.
  rewrite !elem_of_app. intros [H|[H|H]].
  - destruct (has_root s); set_solver.
  - eauto.
  - apply list_elem_of_bind in H as (x & Hx & ?). eauto.
Qed.

(** Pushing a file name adds a component. *)
Lemma split_from_snoc sep cur s t :
  split_from sep cur (s ++ sep :: t) = split_from sep cur s ++ split_from sep [] t.
Proof.
  revert cur. induction s as [|c s IH]; intros cur; cbn.
  - by rewrite N.eqb_refl.
  - destruct (c =? sep); [by rewrite IH|apply IH].
Qed.

Lemma text_components_snoc base part :
  plain_name part -> base <> [] ->
  text_components (base ++ slash :: part) = text_components base ++ [Normal part].
Proof.
  intros Hp Hb. pose proof Hp as (_ & Hs & _). unfold text_components, split.
  rewrite split_from_snoc, (split_from_no_sep _ _ part) by done.
  destruct (split_from_concat slash [] base) as (p & ps & -> & _). cbn [app].
  replace (has_root (base ++ slash :: part)) with (has_root base) by by destruct base.
  rewrite bind_app. cbn -[piece_component]. rewrite (piece_component_plain false part) by done.
  by rewrite app_nil_r, <-!app_assoc.
Qed.

Lemma text_components_trailing base : base <> [] -> text_components (base ++ [slash]) = text_components base.
Proof.
  intros Hb. unfold text_components, split. rewrite split_from_snoc.
  destruct (split_from_concat slash [] base) as (p & ps & -> & _). cbn [app].
  replace (has_root (base ++ [slash])) with (has_root base) by by destruct base.
  rewrite bind_app. cbn -[piece_component]. by rewrite !app_nil_r.
Qed.

Lemma push_str_components base part :
  has_root base = true -> plain_name part ->
  text_components (push_str base part) = text_components base ++ [Normal part].
Proof.
  intros Hr Hp. unfold push_str. rewrite bool_decide_false by by intros ->. case_bool_decide as Hl.
  - apply last_Some in Hl as [b ->]. rewrite <-app_assoc. cbn [app].
    destruct b as [|c b].
    + change (text_components ([] ++ slash :: part) = [RootDir] ++ [Normal part]).
      pose proof Hp as (_ & Hs & _). unfold text_components, split. cbn -[piece_component split_from].
      cbn [split_from]. rewrite N.eqb_refl. rewrite (split_from_no_sep _ _ part) by done.
      cbn -[piece_component]. by rewrite (piece_component_plain false part).
    + by rewrite text_components_snoc, text_components_trailing.
  - apply text_components_snoc; [done|by intros ->].
Qed.

Lemma has_root_push base part : has_root base = true -> has_root (push_str base part) = true.
Proof.
  intros Hr. unfold push_str. destruct base as [|c b]; [done|]. by case_bool_decide; [|case_bool_decide].
Qed.
