(* ===== verification/Program.v ===== *)
(** * Programs that call their environment

    Code that calls a file system, another service or an object behind a trait is
    a tree of its calls: [Call c k] makes the call [c] and continues with one branch
    for every possible answer.  A [signature] lists the calls and the type of each
    answer.  [runs p tr a] says that [p] can return [a] after the calls and answers
    [tr]; what is proved of every run holds whatever the environment contains,
    whichever call fails, and whatever others do between two calls.  [simulate]
    executes a program against a concrete environment; the witnesses use one. *)
From S2P Require Import Prelude.

Record signature := Sig { op : Type; resp : op -> Type }.
Arguments resp {_} _.

Section programs.
Context {G : signature}.

Inductive program (A : Type) : Type :=
| Ret (a : A)
| Call (c : op G) (k : resp c -> program A).
#[global] Arguments Ret {A} a.
#[global] Arguments Call {A} c k.

Fixpoint bind {A B} (p : program A) (f : A -> program B) : program B :=
  match p with
  | Ret a => f a
  | Call c k => Call c (fun r => bind (k r) f)
  end.

Definition call_ (c : op G) : program (resp c) := Call c Ret.

(** A call and its answer. *)
Record event := Ev { ev_call : op G; ev_resp : resp ev_call }.

Fixpoint runs {A} (p : program A) (tr : list event) (a : A) : Prop :=
  match p with
  | Ret b => tr = [] /\ a = b
  | Call c k => exists r tr', tr = Ev c r :: tr' /\ runs (k r) tr' a
  end.

(** Execution against a machine that answers calls. *)
Section simulate.
Context {M : Type} (answer : forall c : op G, M -> resp c * M).

Fixpoint simulate {A} (p : program A) (m : M) : A * list event * M :=
  match p with
  | Ret a => (a, [], m)
  | Call c k =>
    let (r, m) := answer c m in
    let '(a, tr, m) := simulate (k r) m in (a, Ev c r :: tr, m)
  end.

Lemma simulate_runs {A} (p : program A) m : runs p (simulate p m).1.2 (simulate p m).1.1.
Proof.
  revert m. induction p as [a|c k IH]; intros m; simpl; [done|].
  destruct (answer c m) as [r m']. specialize (IH r m').
  destruct (simulate (k r) m') as [[a tr] m'']. eauto.
Qed.

Lemma simulate_env {A} (env : event -> Prop) (p : program A) m :
  (forall c m, env (Ev c (answer c m).1)) -> Forall env (simulate p m).1.2.
Proof.
  intros He. revert m. induction p as [a|c k IH]; intros m; simpl; [constructor|].
  pose proof (He c m) as Hc. destruct (answer c m) as [r m']. specialize (IH r m').
  destruct (simulate (k r) m') as [[a tr] m'']. by constructor.
Qed.
End simulate.

(** ** Lemmas *)

Lemma runs_ret {A} (b : A) tr a : runs (Ret b) tr a <-> tr = [] /\ a = b.
Proof. done. Qed.

Lemma runs_call {A} c (k : resp c -> program A) tr a :
  runs (Call c k) tr a <-> exists r tr', tr = Ev c r :: tr' /\ runs (k r) tr' a.
Proof. done. Qed.

Lemma runs_call_ c tr r : runs (call_ c) tr r <-> tr = [Ev c r].
Proof.
  unfold call_. cbn. split; [|by intros ->; eauto].
  by intros (r' & tr' & -> & -> & ->).
Qed.

Lemma runs_bind {A B} (p : program A) (f : A -> program B) tr b :
  runs (bind p f) tr b <->
  exists tr1 a tr2, tr = tr1 ++ tr2 /\ runs p tr1 a /\ runs (f a) tr2 b.
Proof.
  revert tr. induction p as [a|c k IH]; intros tr; cbn.
  - split; [by intros ?; exists [], a, tr|]. by intros (tr1 & a' & tr2 & -> & [-> ->] & ?).
  - split.
    + intros (r & tr' & -> & (tr1 & a & tr2 & -> & ? & ?)%IH).
      exists (Ev c r :: tr1), a, tr2. eauto 10.
    + intros (tr1 & a & tr2 & -> & (r & tr' & -> & ?) & ?).
      exists r, (tr' ++ tr2). split; [done|]. apply IH. eauto 10.
Qed.

(** Programs that make the same calls and return the same, answer by answer. *)
Inductive same {A} : program A -> program A -> Prop :=
| same_ret a : same (Ret a) (Ret a)
| same_call c k k' : (forall r, same (k r) (k' r)) -> same (Call c k) (Call c k').

Lemma same_refl {A} (p : program A) : same p p.
Proof. induction p; by constructor. Qed.

Lemma same_bind {A B} (p q : program A) (f g : A -> program B) :
  same p q -> (forall a, same (f a) (g a)) -> same (bind p f) (bind q g).
Proof. intros H Hf. induction H; cbn; [apply Hf|by constructor]. Qed.

Lemma same_runs {A} (p q : program A) tr a : same p q -> runs p tr a <-> runs q tr a.
Proof.
  intros H. revert tr. induction H as [b|c k k' _ IH]; intros tr; cbn; [done|].
  split; intros (r & tr' & ? & Hr); exists r, tr'; split; try done; by apply IH.
Qed.

(** Programs whose calls all pass a test, in every run. *)
Section calls_only.
Context (test : op G -> bool).

Fixpoint calls_only {A} (p : program A) : Prop :=
  match p with
  | Ret _ => True
  | Call c k => test c = true /\ forall r, calls_only (k r)
  end.

Lemma calls_only_bind {A B} (p : program A) (k : A -> program B) :
  calls_only p -> (forall a, calls_only (k a)) -> calls_only (bind p k).
Proof.
  intros Hp Hk. induction p as [a|c k' IH]; cbn in *; [apply Hk|].
  destruct Hp as [? Hp]. split; [done|]. intros r. by apply IH.
Qed.

Lemma calls_only_runs {A} (p : program A) tr a :
  calls_only p -> runs p tr a -> Forall (fun e => test (ev_call e) = true) tr.
Proof.
  revert tr. induction p as [b|c k IH]; intros tr; cbn; [by intros _ [-> _]|].
  intros [Hc Hp] (r & tr' & -> & Hr). constructor; [done|]. by eapply IH.
Qed.

Lemma calls_only_call_ c : test c = true -> calls_only (call_ c).
Proof. by split. Qed.
End calls_only.

(** ** Trace monitors

    A monitor reads the events of a run: [ok s e] is what must hold of the next
    event in state [s], [next s e] the state after it, [env e] what is assumed of
    the answers.  [wp p Q s] says that, from monitor state [s], every run of [p]
    is accepted and ends in a state and a value that satisfy [Q]. *)
Section monitor.
Context {S : Type} (env : event -> Prop) (ok : S -> event -> Prop) (next : S -> event -> S).

Fixpoint accepted (s : S) (tr : list event) : Prop :=
  match tr with
  | [] => True
  | e :: tr => ok s e /\ accepted (next s e) tr
  end.

Lemma accepted_Forall (P : event -> Prop) s tr :
  (forall s e, ok s e -> P e) -> accepted s tr -> Forall P tr.
Proof.
  intros HP. revert s. induction tr as [|e tr IH]; intros s; cbn; [constructor|].
  intros [? ?]. constructor; eauto.
Qed.

Fixpoint wp {A} (p : program A) (Q : S -> A -> Prop) (s : S) : Prop :=
  match p with
  | Ret a => Q s a
  | Call c k => forall r, env (Ev c r) -> ok s (Ev c r) /\ wp (k r) Q (next s (Ev c r))
  end.

Lemma wp_sound {A} (p : program A) Q s tr a :
  wp p Q s -> runs p tr a -> Forall env tr -> accepted s tr /\ Q (foldl next s tr) a.
Proof.
  revert s tr. induction p as [b|c k IH]; intros s tr Hwp; cbn.
  - by intros [-> ->] _.
  - intros (r & tr' & -> & Hr) [He Htr]%Forall_cons. destruct (Hwp r He) as [Hok Hk].
    destruct (IH r _ _ Hk Hr Htr). by repeat split.
Qed.

Lemma wp_bind {A B} (p : program A) (f : A -> program B) Q s :
  wp p (fun s a => wp (f a) Q s) s -> wp (bind p f) Q s.
Proof.
  revert s. induction p as [a|c k IH]; intros s; cbn; [done|].
  intros H r He. destruct (H r He) as [? ?]. split; [done|]. by apply IH.
Qed.

Lemma wp_mono {A} (p : program A) (Q Q' : S -> A -> Prop) s :
  wp p Q s -> (forall s a, Q s a -> Q' s a) -> wp p Q' s.
Proof.
  intros H HQ. revert s H. induction p as [a|c k IH]; intros s; cbn; [apply HQ|].
  intros H r He. destruct (H r He) as [? ?]. split; [done|]. by apply IH.
Qed.

Lemma same_bind_wp {A B} (p q : program A) (f g : A -> program B) s :
  (forall e, env e) -> same p q -> wp p (fun _ a => same (f a) (g a)) s ->
  same (bind p f) (bind q g).
Proof.
  intros He H. revert s. induction H as [a|c k k' _ IH]; intros s Hw; cbn; [exact Hw|].
  constructor. intros r. destruct (Hw r (He _)) as [_ Hk]. by eapply IH.
Qed.

Lemma wp_call_ c Q s :
  (forall r, env (Ev c r) -> ok s (Ev c r) /\ Q (next s (Ev c r)) r) -> wp (call_ c) Q s.
Proof. done. Qed.

(** Calls the monitor ignores. *)
Lemma wp_calls_only {A} test (p : program A) Q s :
  calls_only test p ->
  (forall s e, test (ev_call e) = true -> ok s e /\ next s e = s) ->
  (forall a, Q s a) -> wp p Q s.
Proof.
  intros Hp He HQ. induction p as [a|c k IH]; cbn in *; [apply HQ|].
  destruct Hp as [Hc Hk]. intros r _. destruct (He s (Ev c r) Hc) as [? ->].
  split; [done|]. apply IH, Hk.
Qed.
End monitor.

End programs.
Arguments program G A : clear implicits.
Arguments event G : clear implicits.

(** [do x <- m; k] sequences; [try x <- m; k] is [let x = m?; k]. *)
Declare Scope prog_scope.
Delimit Scope prog_scope with prog.
Notation "'do' x <- m ; k" := (bind m (fun x => k))
  (at level 100, x pattern, m at level 99, k at level 200) : prog_scope.
Notation "'try' x <- m ; k" :=
  (bind m (fun r => match r with Ok x => k | Err err => Ret (Err err) end))
  (at level 100, x pattern, m at level 99, k at level 200) : prog_scope.
#[global] Open Scope prog_scope.

Lemma try_runs {G E A B} (p : program G (result E A)) (f : A -> program G (result E B)) tr b :
  runs (try a <- p; f a) tr (Ok b) ->
  exists tr1 a tr2, tr = tr1 ++ tr2 /\ runs p tr1 (Ok a) /\ runs (f a) tr2 (Ok b).
Proof.
  intros (tr1 & [a|e] & tr2 & -> & H1 & H2)%runs_bind; [by exists tr1, a, tr2|by destruct H2].
Qed.

(** ** Programs that make only calls of some kind

    [calls_solve] goes through a program and unfolds the operations it meets; the
    lemmas on recursive ones are in the hint database [calls]. *)
Create HintDb calls discriminated.
#[export] Hint Extern 1 (_ = true) => reflexivity : calls.

Ltac unfold_head t :=
  lazymatch t with
  | ?f _ => unfold_head f
  | ?f => unfold f
  end.

Ltac calls_step :=
  lazymatch goal with
  | |- calls_only _ (Ret _) => exact I
  | |- calls_only _ (bind _ _) => apply calls_only_bind; [|intros ?]
  | |- calls_only _ (call_ _) => by apply calls_only_call_
  | |- calls_only _ (match ?x with _ => _ end) => destruct x
  | |- calls_only _ ?p => first [solve [eauto with calls nocore]|unfold_head p]
  end.
Ltac calls_solve := repeat calls_step.

(** ** Programs in an environment that is a transition system

    Where the answers of the calls depend on what was called before, the environment
    is a step relation over its own state: [step s e s'] says that in state [s] the
    call of [e] can be answered as [e] says, leading to [s'].  [within p Q s] says
    that whenever [p] runs from [s] it ends in a state and a value that satisfy [Q];
    several programs run one after the other are [sequence]s of runs. *)

Section environment.
Context {G : signature} {S : Type} (step : S -> event G -> S -> Prop).

Fixpoint within {A} (p : program G A) (Q : S -> A -> Prop) (s : S) : Prop :=
  match p with
  | Ret a => Q s a
  | Call c k => forall r s', step s (Ev c r) s' -> within (k r) Q s'
  end.

Lemma within_sound {A} (p : program G A) Q s tr a s' :
  within p Q s -> runs p tr a -> steps step s tr s' -> Q s' a.
Proof.
  revert s tr. induction p as [b|c k IH]; intros s tr Hw; cbn.
  - by intros [-> ->] ->%steps_nil_inv.
  - intros (r & tr' & -> & Hr) (s1 & ? & ?)%steps_cons_inv. eauto.
Qed.

Lemma within_bind {A B} (p : program G A) (f : A -> program G B) Q s :
  within p (fun s a => within (f a) Q s) s -> within (bind p f) Q s.
Proof. revert s. induction p as [a|c k IH]; intros s; cbn; [done|]. eauto. Qed.

Lemma within_mono {A} (p : program G A) (Q Q' : S -> A -> Prop) s :
  within p Q s -> (forall s a, Q s a -> Q' s a) -> within p Q' s.
Proof. intros H HQ. revert s H. induction p as [a|c k IH]; intros s; cbn; eauto. Qed.

Lemma within_and {A} (p : program G A) (Q Q' : S -> A -> Prop) s :
  within p Q s -> within p Q' s -> within p (fun s a => Q s a /\ Q' s a) s.
Proof. revert s. induction p as [a|c k IH]; intros s; cbn; [done|]. eauto. Qed.

Lemma within_call_ c (Q : S -> resp c -> Prop) s :
  (forall r s', step s (Ev c r) s' -> Q s' r) -> within (call_ c) Q s.
Proof. done. Qed.

(** Sequencing by [?]: the continuation runs on success, an error is the result. *)
Lemma within_try {E A B} (p : program G (result E A)) (f : A -> program G (result E B)) Q s :
  within p (fun s r => match r with Ok a => within (f a) Q s | Err e => Q s (Err e) end) s ->
  within (try a <- p; f a) Q s.
Proof.
  intros H. apply within_bind. eapply within_mono; [exact H|]. by intros s' [a|e].
Qed.

(** A property of all states the environment preserves. *)
Lemma within_preserved {A} (p : program G A) (I : S -> Prop) s :
  (forall s e s', step s e s' -> I s -> I s') -> I s -> within p (fun s _ => I s) s.
Proof. intros Hs. revert s. induction p as [a|c k IH]; intros s; cbn; eauto. Qed.

(** [p] can run from [s], with result [a], to [s']. *)
Definition executes {A} (p : program G A) (s : S) (a : A) (s' : S) : Prop :=
  exists tr, runs p tr a /\ steps step s tr s'.

Lemma within_executes {A} (p : program G A) Q s a s' :
  within p Q s -> executes p s a s' -> Q s' a.
Proof. intros Hw (tr & Hr & Hs). by eapply within_sound. Qed.
End environment.

(** A concrete environment that always steps as the relation says gives executions. *)
Lemma simulate_executes {G : signature} {M S A} (answer : forall c : op G, M -> resp c * M)
    (step : S -> event G -> S -> Prop) (view : M -> S) (p : program G A) m :
  (forall c m, step (view m) (Ev c (answer c m).1) (view (answer c m).2)) ->
  executes step p (view m) (simulate answer p m).1.1 (view (simulate answer p m).2).
Proof.
  intros Hstep. exists (simulate answer p m).1.2. split; [apply simulate_runs|].
  revert m. induction p as [a|c k IH]; intros m; cbn; [constructor|].
  pose proof (Hstep c m) as Hc. destruct (answer c m) as [r m']. specialize (IH r m').
  destruct (simulate answer (k r) m') as [[a tr] m'']. cbn in *. by econstructor.
Qed.
