(* ===== verification/Domain.v ===== *)
(** * Provider-neutral types ([vibecoder-domain], [vibecoder-gateway-contract])

    The error enum, the identifiers and the agent event vocabulary every other
    component shares.  Identifiers made by [Uuid::new_v4] are 128-bit numbers; a
    fresh one is always an argument of the operation that draws it. *)
From S2P Require Import Prelude RustStr.

Inductive VibeCoderError :=
| InvalidRequest (msg : str)
| Agent (msg : str)
| Gateway (msg : str)
| Routing (msg : str)
| Config (msg : str)
| Secret (msg : str)
| Workspace (msg : str)
| Command (msg : str)
| Process (msg : str)
| Persistence (msg : str)
| Checkpoint (msg : str)
| Build (msg : str)
| MissingCapability (component capability : str)
| Cancelled.

Abbreviation Result := (result VibeCoderError).

Abbreviation Uuid := N (only parsing).
Record ProjectId := MkProjectId { project_uuid : N }.
Record ConversationId := MkConversationId { conversation_uuid : N }.
Record SessionId := MkSessionId { session_id_0 : str }.

Record ProjectRef := { pr_id : ProjectId; pr_root : str }.

Record ModelRef := mkModelRef {
  mr_id : str;
  mr_display_name : option str;
  mr_provider : option str
}.

Record PermissionRequest := {
  perm_request_id : str;
  perm_session_id : SessionId;
  perm_action : str;
  perm_reason : option str
}.

Record TokenUsage := {
  tu_input : N;
  tu_output : N;
  tu_cache_read_input : option N
}.

(** [percent : Option<f32>] is kept as the bits of the float. *)
Inductive AgentEvent :=
| TextDelta (text : str)
| MessageAccepted
| ToolStarted (tool call_id : str)
| ToolFinished (tool call_id : str) (ok : bool) (output : str)
    (error : option str)
| BackgroundProgress (task_id label : str) (percent : option N) (summary : str)
    (done : bool)
| SessionStatus (status : str)
| EvTokenUsage (usage : TokenUsage)
| PermissionRequired (request : PermissionRequest)
| TurnCompleted
| Warning (message : str).

Record ToolCallResult := {
  tc_call_id : str;
  tc_tool : str;
  tc_output : str;
  tc_error : option str
}.

Record TurnResult := {
  tr_text : str;
  tr_cancelled : bool;
  tr_tool_calls : list ToolCallResult;
  tr_usage : option TokenUsage
}.

#[export] Instance VibeCoderError_eq_dec : EqDecision VibeCoderError.
Proof. solve_decision. Defined.
#[export] Instance ProjectId_eq_dec : EqDecision ProjectId.
Proof. solve_decision. Defined.
#[export] Instance ProjectId_countable : Countable ProjectId.
Proof. refine (inj_countable' project_uuid MkProjectId _). by intros []. Defined.
#[export] Instance ConversationId_eq_dec : EqDecision ConversationId.
Proof. solve_decision. Defined.
#[export] Instance SessionId_eq_dec : EqDecision SessionId.
Proof. solve_decision. Defined.
#[export] Instance ModelRef_eq_dec : EqDecision ModelRef.
Proof. solve_decision. Defined.
#[export] Instance TurnResult_eq_dec : EqDecision TurnResult.
Proof.
  intros x y. pose proof (ltac:(solve_decision) : EqDecision TokenUsage).
  pose proof (ltac:(solve_decision) : EqDecision ToolCallResult).
  revert x y. solve_decision.
Defined.

(** [SessionId::parse]. *)
Definition SessionId_parse (value : str) : Result SessionId :=
  if bool_decide (trim value = []) then
    Err (InvalidRequest (u "session id cannot be empty"))
  else Ok (MkSessionId value).

(** The [uuid] crate: the two spellings of a UUID the code uses and the parser.
    What the approval engine relies on is that a hyphenated spelling parses back. *)
Class UuidLib := {
  uuid_hyphenated : N -> str;
  uuid_simple : N -> str;
  uuid_parse : str -> option N
}.

Class UuidLaws `{UuidLib} : Prop :=
  uuid_parse_hyphenated : forall id, uuid_parse (uuid_hyphenated id) = Some id.
