(* ===== verification/OsCalls.v ===== *)
(** * Calls to the operating system

    The code of the local workspace and of the local stores is a sequence of
    file-system calls whose answers decide what is called next.  The operating system
    is not code of the repository, so it is not modelled: the operations are programs
    over these calls ([Program.v]).

    A descriptor is closed when its [OwnedFd] is dropped; these closing calls
    return nothing the code looks at and are left out, like those of [DirStream]. *)
From stdpp Require Import sorting.
From S2P Require Import Prelude RustStr RustPath Program Domain.

(** The kinds of [io::Error] the code tells apart. *)
Inductive ErrorKind := NotFound | AlreadyExists | OtherError.

Abbreviation Fd := N (only parsing).

Record stat := {
  st_dev : N;
  st_ino : N;
  st_mode : N;
  st_nlink : N;
  st_uid : N;
  st_size : Z
}.

(** The file type bits of [st_mode] on Linux and Android. *)
Definition S_IFMT : N := 0xF000.
Definition S_IFREG : N := 0x8000.
Definition S_IFDIR : N := 0x4000.
Definition S_IFLNK : N := 0xA000.

Definition file_kind (s : stat) : N := N.land (st_mode s) S_IFMT.
Definition is_symlink (s : stat) : bool := file_kind s =? S_IFLNK.
Definition is_dir (s : stat) : bool := file_kind s =? S_IFDIR.

(** The flags of the three uses of [openat]; all have [O_CLOEXEC|O_NOFOLLOW]. *)
Inductive OpenHow :=
| HowDirectory                (* O_RDONLY|O_DIRECTORY *)
| HowRead                     (* O_RDONLY|O_NONBLOCK *)
| HowCreate (mode : N).       (* O_WRONLY|O_CREAT|O_EXCL *)

Inductive call :=
(* std::fs on absolute paths *)
| SymlinkMetadata (path : str)
| Metadata (path : str)
| Canonicalize (path : str)
| CreateDir (path : str)
| RemoveDir (path : str)
| RemoveDirAll (path : str)
| PathExists (path : str)
| SetPermissions (path : str) (mode : N)
(* libc, relative to a directory descriptor *)
| OpenPath (path : str)       (* open: O_RDONLY|O_DIRECTORY|O_CLOEXEC|O_NOFOLLOW *)
| OpenAt (dir : Fd) (name : str) (how : OpenHow)
| FstatAt (dir : Fd) (name : str)
| MkdirAt (dir : Fd) (name : str) (mode : N)
| UnlinkAt (dir : Fd) (name : str) (removedir : bool)
| RenameAt (dir : Fd) (from : str) (todir : Fd) (to : str)
(* on a descriptor *)
| Fstat (fd : Fd)
| Fchmod (fd : Fd) (mode : N)
| Fsync (fd : Fd)
| ReadToEnd (fd : Fd) (limit : N)     (* read_to_end of Read::take(limit) *)
| WriteAll (fd : Fd) (contents : bytes)
| SyncAll (fd : Fd)
| DupFd (fd : Fd)
| FdOpenDir (fd : Fd)
| CloseFd (fd : Fd)
(* readdir until it returns null; whether errno was then set *)
| ReadDirAll (fd : Fd)
| NewUuid.

Definition IoResult := result ErrorKind.

Definition os_resp (c : call) : Type :=
  match c with
  | SymlinkMetadata _ | Metadata _ | FstatAt _ _ | Fstat _ => IoResult stat
  | Canonicalize _ => IoResult str
  | PathExists _ => bool
  | OpenPath _ | OpenAt _ _ _ | DupFd _ => IoResult N
  | ReadToEnd _ _ => IoResult bytes
  | ReadDirAll _ => list bytes * bool
  | NewUuid => N
  | _ => IoResult unit
  end.

Canonical Structure os_sig : signature := Sig call os_resp.
Abbreviation prog := (program os_sig).

Definition lift {A} (r : Result A) : prog (Result A) := Ret r.

(** ** Paths *)

(** [PathBuf::eq] and [Path::starts_with] compare components. *)
Definition same_path (p q : str) : bool :=
  bool_decide (text_components p = text_components q).

Definition path_starts_with (p base : str) : bool :=
  bool_decide (take (length (text_components base)) (text_components p) = text_components base).

(** [p.parent() == Some(parent)]. *)
Definition has_parent (p parent : str) : bool :=
  match last (text_components p) with
  | None | Some RootDir => false
  | Some _ => bool_decide (removelast (text_components p) = text_components parent)
  end.

(** ** Small pieces shared by the crates *)

Definition PRIVATE_DIR_MODE : N := 0x1C0.   (* 0o700 *)
Definition PRIVATE_FILE_MODE : N := 0x180.  (* 0o600 *)

(** What [Read::take] lets through. *)
Fixpoint take_bytes (n : N) (bs : bytes) : bytes :=
  match bs with
  | [] => []
  | b :: bs => if n =? 0 then [] else b :: take_bytes (n - 1) bs
  end.

Definition same_inode (a b : stat) : bool :=
  (st_dev a =? st_dev b) && (st_ino a =? st_ino b).

(** [String::cmp] compares bytes, which orders texts by their code points. *)
Fixpoint str_leb (a b : str) : bool :=
  match a, b with
  | [], _ => true
  | _ :: _, [] => false
  | c :: a, d :: b => (c <? d) || ((c =? d) && str_leb a b)
  end.

(** [sort] and [sort_by]: stable. *)
Fixpoint insert_by {A} (key : A -> str) (x : A) (l : list A) : list A :=
  match l with
  | [] => [x]
  | y :: l' => if str_leb (key x) (key y) then x :: l else y :: insert_by key x l'
  end.
Definition sort_by {A} (key : A -> str) (l : list A) : list A := foldr (insert_by key) [] l.

(** ** Lemmas *)

Lemma take_bytes_all n bs : len bs <= n -> take_bytes n bs = bs.
Proof.
  revert n. induction bs as [|b bs IH]; intros n; cbn; [done|]. rewrite len_cons. intros Hn.
  rewrite (proj2 (N.eqb_neq n 0)) by lia. f_equal. apply IH. lia.
Qed.

Lemma len_take_bytes n bs : len (take_bytes n bs) = N.min n (len bs).
Proof.
  revert n. induction bs as [|b bs IH]; intros n; cbn; [by rewrite len_nil, N.min_0_r|].
  destruct (N.eqb_spec n 0) as [->|]; [done|]. rewrite !len_cons, IH. lia.
Qed.

(** What was read with one byte more than the limit, and is within it, is everything. *)
Lemma read_whole limit bs : len (take_bytes (limit + 1) bs) <= limit -> take_bytes (limit + 1) bs = bs.
Proof. rewrite len_take_bytes. intros ?. apply take_bytes_all. lia. Qed.

(** ** Sorting

    [sort_by] of [OsCalls.v] sorts, and a sorted list of names is determined by its
    members. *)

Definition str_le (a b : str) : Prop := str_leb a b = true.

Section sorting.
Context {A : Type} (key : A -> str).
Let le (x y : A) : Prop := str_leb (key x) (key y) = true.

Lemma insert_by_perm x l : insert_by key x l ≡ₚ x :: l.
Proof.
  induction l as [|y l IH]; cbn; [done|]. destruct (str_leb _ _); [done|]. rewrite IH. constructor.
Qed.

Lemma sort_by_perm l : sort_by key l ≡ₚ l.
Proof. induction l as [|x l IH]; cbn; [done|]. by rewrite insert_by_perm, IH. Qed.

Lemma sort_by_elem l x : x ∈ sort_by key l <-> x ∈ l.
Proof. by rewrite sort_by_perm. Qed.

Lemma str_leb_total a b : str_leb a b = false -> str_leb b a = true.
Proof.
  revert b. induction a as [|x a IH]; intros [|y b]; cbn; try done.
  destruct (N.ltb_spec x y), (N.ltb_spec y x), (N.eqb_spec x y), (N.eqb_spec y x); cbn; try done;
    try lia; auto.
Qed.

Lemma insert_by_sorted x l : Sorted le l -> Sorted le (insert_by key x l).
Proof.
  induction 1 as [|y l Hs IH Hy]; cbn; [by repeat constructor|].
  destruct (str_leb (key x) (key y)) eqn:E; [by repeat constructor|].
  constructor; [done|]. apply str_leb_total in E. destruct l as [|z l]; cbn in *; [by constructor|].
  destruct (str_leb (key x) (key z)); constructor; [done|by inversion Hy].
Qed.

Lemma sort_by_sorted l : Sorted le (sort_by key l).
Proof. induction l as [|x l IH]; cbn; [constructor|]. by apply insert_by_sorted. Qed.
End sorting.

Lemma NoDup_omap {A B} (f : A -> option B) (l : list A) :
  (forall x y z, f x = Some z -> f y = Some z -> x = y) -> NoDup l -> NoDup (omap f l).
Proof.
  intros Hinj. induction 1 as [|x l Hx Hl IH]; [constructor|]. rewrite omap_cons.
  destruct (f x) as [z|] eqn:Hz; [|done]. constructor; [|done].
  intros (y & Hy & Hyz)%list_elem_of_omap. by rewrite (Hinj _ _ _ Hz Hyz) in Hx.
Qed.

#[export] Instance str_le_trans : Transitive str_le.
Proof.
  unfold str_le. intros a. induction a as [|x a IH]; intros [|y b] [|z c]; cbn; try done.
  intros H1 H2. apply orb_true_iff in H1, H2. apply orb_true_iff.
  destruct H1 as [H1|[H1 Hab]%andb_true_iff], H2 as [H2|[H2 Hbc]%andb_true_iff]; bool_prop.
  - left. apply N.ltb_lt. lia.
  - left. apply N.ltb_lt. lia.
  - left. apply N.ltb_lt. lia.
  - right. subst. rewrite N.eqb_refl. cbn. by eapply IH.
Qed.

#[export] Instance str_le_antisymm : AntiSymm (=) str_le.
Proof.
  unfold str_le. intros a. induction a as [|x a IH]; intros [|y b]; cbn; try done.
  intros H1 H2. apply orb_true_iff in H1, H2.
  destruct H1 as [H1|[H1 Hab]%andb_true_iff], H2 as [H2|[H2 Hba]%andb_true_iff]; bool_prop; try lia.
  subst. f_equal. by apply IH.
Qed.

Lemma sorted_names_unique (l l' : list str) :
  NoDup l -> NoDup l' -> Sorted str_le l -> Sorted str_le l' ->
  (forall x : str, x ∈ l <-> x ∈ l') -> l = l'.
Proof.
  intros Hnd Hnd' Hs Hs' Hx. apply (StronglySorted_unique str_le).
  - apply Sorted_StronglySorted; [exact str_le_trans|done].
  - apply Sorted_StronglySorted; [exact str_le_trans|done].
  - by apply NoDup_Permutation.
Qed.
