(* ===== verification/FileSystem.v ===== *)
(** * A directory tree that answers the calls

    The part of a POSIX file system the stores rely on, as a step relation over the
    calls of [OsCalls.v].  Every call may fail; a call that fails changes nothing,
    except that a failed write may leave any content.  Nobody else changes the tree:
    the directories are private to the process and each store holds its gate.

    Descriptors are identities, not numbers: an open never returns one that was
    returned before, since a number is only reused after its [OwnedFd] is dropped.
    What a descriptor refers to is the path it was opened at.  At the end, a concrete
    file system for the witnesses. *)
From S2P Require Import Prelude RustStr RustPath Program Domain OsCalls.

Inductive node :=
| NDir
| NFile (mode : N) (content : bytes)
| NOther.

Record fs := mkFs {
  nodes : gmap (list str) node;
  fds : gmap N (list str);
  positions : gmap N N       (* how far a descriptor has been read *)
}.

(** The components of an absolute path. *)
Definition absolute (path : str) : list str := path_names (Utf8Path path).

Definition stat_matches (n : node) (st : stat) : Prop :=
  match n with
  | NDir => file_kind st = S_IFDIR
  | NFile mode content =>
    file_kind st = S_IFREG /\ N.land (st_mode st) 0xFFF = mode /\
    st_size st = Z.of_N (len content)
  | NOther => file_kind st <> S_IFDIR /\ file_kind st <> S_IFREG
  end.

Definition put (s : fs) (p : list str) (n : node) : fs := mkFs (<[p := n]> (nodes s)) (fds s) (positions s).
Definition remove (s : fs) (p : list str) : fs := mkFs (delete p (nodes s)) (fds s) (positions s).
Definition bind_fd (s : fs) (fd : N) (p : list str) : fs :=
  mkFs (nodes s) (<[fd := p]> (fds s)) (<[fd := 0]> (positions s)).

(** What a call on a known descriptor or path does. *)
Definition opens (s : fs) (p : list str) (ok : option node -> Prop) (r : IoResult N) (s' : fs) :
    Prop :=
  match r with
  | Ok fd => fds s !! fd = None /\ ok (nodes s !! p) /\ s' = bind_fd s fd p
  | Err _ => s' = s
  end.

Definition stats (s : fs) (p : list str) (r : IoResult stat) (s' : fs) : Prop :=
  s' = s /\
  match r with
  | Ok st => exists n, nodes s !! p = Some n /\ stat_matches n st
  | Err NotFound => nodes s !! p = None
  | Err _ => True
  end.

(** The mode is the one asked for, less the process's [umask], which leaves the owner's bits. *)
Definition creates (s : fs) (p : list str) (mode : N) (r : IoResult N) (s' : fs) : Prop :=
  match r with
  | Ok fd =>
    fds s !! fd = None /\ nodes s !! p = None /\
    exists mode', N.land mode' 0x1C0 = N.land mode 0x1C0 /\
      s' = bind_fd (put s p (NFile mode' [])) fd p
  | Err _ => s' = s
  end.

Definition removes (s : fs) (p : list str) (r : IoResult unit) (s' : fs) : Prop :=
  match r with
  | Ok _ => is_Some (nodes s !! p) /\ s' = remove s p
  | Err NotFound => nodes s !! p = None /\ s' = s
  | Err _ => s' = s
  end.

(** Renaming a file. *)
Definition renames (s : fs) (p q : list str) (r : IoResult unit) (s' : fs) : Prop :=
  match r with
  | Ok _ => exists n, nodes s !! p = Some n /\ n <> NDir /\ s' = put (remove s p) q n
  | Err _ => s' = s
  end.

Definition writes (s : fs) (p : list str) (bs : bytes) (r : IoResult unit) (s' : fs) : Prop :=
  match r with
  | Ok _ => exists mode content, nodes s !! p = Some (NFile mode content) /\
      s' = put s p (NFile mode (content ++ bs))
  | Err _ => s' = s \/ exists mode content content',
      nodes s !! p = Some (NFile mode content) /\ s' = put s p (NFile mode content')
  end.

Definition reads (s : fs) (p : list str) (limit : N) (r : IoResult bytes) (s' : fs) : Prop :=
  s' = s /\
  match r with
  | Ok bs => forall mode content, nodes s !! p = Some (NFile mode content) ->
               bs = take_bytes limit content
  | Err _ => True
  end.

(** The raw names in a directory; a name that is not UTF-8 is the name of nothing here. *)
Definition lists (s : fs) (p : list str) (r : list bytes * bool) (s' : fs) : Prop :=
  s' = s /\ NoDup r.1 /\
  (r.2 = false -> forall name, is_Some (nodes s !! (p ++ [name])) -> as_bytes name ∈ r.1).

Definition at_fd (s : fs) (fd : N) (P : list str -> Prop) : Prop :=
  forall p, fds s !! fd = Some p -> P p.

Definition fs_step (s : fs) (e : event os_sig) (s' : fs) : Prop :=
  match ev_call e as c return resp c -> Prop with
  | OpenPath path => fun r => opens s (absolute path) (fun n => n = Some NDir) r s'
  | OpenAt d name HowDirectory => fun r =>
    at_fd s d (fun p => opens s (p ++ [name]) (fun n => n = Some NDir) r s')
  | OpenAt d name HowRead => fun r => at_fd s d (fun p => opens s (p ++ [name]) is_Some r s')
  | OpenAt d name (HowCreate mode) => fun r =>
    at_fd s d (fun p => creates s (p ++ [name]) mode r s')
  | FstatAt d name => fun r => at_fd s d (fun p => stats s (p ++ [name]) r s')
  | Fstat fd => fun r => at_fd s fd (fun p => stats s p r s')
  | UnlinkAt d name false => fun r => at_fd s d (fun p => removes s (p ++ [name]) r s')
  | RenameAt d from d' to => fun r =>
    at_fd s d (fun p => at_fd s d' (fun q => renames s (p ++ [from]) (q ++ [to]) r s'))
  | ReadToEnd fd limit => fun r => at_fd s fd (fun p => reads s p limit r s')
  | WriteAll fd bs => fun r => at_fd s fd (fun p => writes s p bs r s')
  | Fsync _ | SyncAll _ => fun _ => s' = s
  | DupFd fd => fun r => at_fd s fd (fun p => opens s p is_Some r s')
  | FdOpenDir _ | CloseFd _ => fun _ => s' = s
  | ReadDirAll fd => fun r => at_fd s fd (fun p => lists s p r s')
  | NewUuid => fun _ => s' = s
  | _ => fun _ => True
  end (ev_resp e).

Lemma put_nodes s p n q : nodes (put s p n) !! q = if decide (q = p) then Some n else nodes s !! q.
Proof. cbn. case_decide; [subst; apply lookup_insert_eq|by apply lookup_insert_ne]. Qed.
Lemma remove_nodes s p q : nodes (remove s p) !! q = if decide (q = p) then None else nodes s !! q.
Proof. cbn. case_decide; [subst; apply lookup_delete_eq|by apply lookup_delete_ne]. Qed.

(** The tree is the same, there may be more descriptors. *)
Definition grown (s s' : fs) : Prop := nodes s' = nodes s /\ fds s ⊆ fds s'.

#[export] Instance grown_preorder : PreOrder grown.
Proof. split; [by split|]. intros a b c [? ?] [? ?]. split; [congruence|by etransitivity]. Qed.

Lemma grown_fd s s' fd p : grown s s' -> fds s !! fd = Some p -> fds s' !! fd = Some p.
Proof. intros [_ ?] ?. by eapply lookup_weaken. Qed.

Lemma grown_bind s fd p : fds s !! fd = None -> grown s (bind_fd s fd p).
Proof. intros ?. split; [done|]. by apply insert_subseteq. Qed.

(** ** A concrete file system

    Answers to the calls that are steps of the file system above: everything works that
    can, except, if asked for, syncing a directory.  The witnesses run the stores on
    it. *)

Section disk.
Context (synced : bool).

Definition ex_stat (n : node) : IoResult stat :=
  match n with
  | NDir => Ok {| st_dev := 0; st_ino := 0; st_mode := S_IFDIR + PRIVATE_DIR_MODE; st_nlink := 2;
                  st_uid := 0; st_size := 0 |}
  | NFile mode content =>
    if bool_decide (N.land (S_IFREG + mode) S_IFMT = S_IFREG) && (N.land (S_IFREG + mode) 0xFFF =? mode)
    then Ok {| st_dev := 0; st_ino := 0; st_mode := S_IFREG + mode; st_nlink := 1; st_uid := 0;
               st_size := Z.of_N (len content) |}
    else Err OtherError
  | NOther => Err OtherError
  end.

Definition ex_fd (s : fs) : N := fresh (dom (fds s) : gset N).

Definition ex_stat_at (p : list str) (s : fs) : IoResult stat * fs :=
  (match nodes s !! p with Some n => ex_stat n | None => Err NotFound end, s).

Definition ex_open (p : list str) (ok : option node -> bool) (s : fs) : IoResult N * fs :=
  if ok (nodes s !! p) then (Ok (ex_fd s), bind_fd s (ex_fd s) p) else (Err OtherError, s).

Definition with_fd {A} (s : fs) (fd : N) (default : A) (f : list str -> A * fs) : A * fs :=
  match fds s !! fd with Some p => f p | None => (default, s) end.

Definition is_dir_node (o : option node) : bool := match o with Some NDir => true | _ => false end.

Definition ex_names (s : fs) (p : list str) : list bytes :=
  remove_dups (omap (fun q => if decide (removelast q = p) then as_bytes <$> last q else None)
                 (map_to_list (nodes s)).*1).

Definition disk (c : call) (s : fs) : os_resp c * fs :=
  match c as c return os_resp c * fs with
  | SymlinkMetadata p => (Err OtherError, s)
  | Metadata p => (Err OtherError, s)
  | Canonicalize p => (Err OtherError, s)
  | CreateDir _ | RemoveDir _ | RemoveDirAll _ | SetPermissions _ _ => (Err OtherError, s)
  | PathExists _ => (false, s)
  | OpenPath path => ex_open (absolute path) is_dir_node s
  | OpenAt d name HowDirectory =>
    with_fd s d (Err OtherError) (fun p => ex_open (p ++ [name]) is_dir_node s)
  | OpenAt d name HowRead => with_fd s d (Err OtherError) (fun p => ex_open (p ++ [name]) is_some s)
  | OpenAt d name (HowCreate mode) => with_fd s d (Err OtherError) (fun p =>
    match nodes s !! (p ++ [name]) with
    | None => (Ok (ex_fd s), bind_fd (put s (p ++ [name]) (NFile mode [])) (ex_fd s) (p ++ [name]))
    | Some _ => (Err AlreadyExists, s)
    end)
  | FstatAt d name => with_fd s d (Err OtherError) (fun p => ex_stat_at (p ++ [name]) s)
  | MkdirAt _ _ _ => (Err OtherError, s)
  | UnlinkAt d name false => with_fd s d (Err OtherError) (fun p =>
    match nodes s !! (p ++ [name]) with
    | None => (Err NotFound, s)
    | Some _ => (Ok tt, remove s (p ++ [name]))
    end)
  | UnlinkAt _ _ true => (Err OtherError, s)
  | RenameAt d from d' to => with_fd s d (Err OtherError) (fun p =>
    with_fd s d' (Err OtherError) (fun q =>
      match nodes s !! (p ++ [from]) with
      | None | Some NDir => (Err OtherError, s)
      | Some n => (Ok tt, put (remove s (p ++ [from])) (q ++ [to]) n)
      end))
  | Fstat fd => with_fd s fd (Err OtherError) (fun p => ex_stat_at p s)
  | Fchmod _ _ => (Err OtherError, s)
  | Fsync _ => (if synced then Ok tt else Err OtherError, s)
  | SyncAll _ => (Ok tt, s)
  | ReadToEnd fd limit => with_fd s fd (Err OtherError) (fun p =>
    (match nodes s !! p with
     | Some (NFile _ bs) => Ok (take_bytes limit bs)
     | _ => Err OtherError
     end, s))
  | WriteAll fd bs => with_fd s fd (Err OtherError) (fun p =>
    match nodes s !! p with
    | Some (NFile mode old) => (Ok tt, put s p (NFile mode (old ++ bs)))
    | _ => (Err OtherError, s)
    end)
  | DupFd fd => with_fd s fd (Err OtherError) (fun p => ex_open p is_some s)
  | FdOpenDir _ | CloseFd _ => (Ok tt, s)
  | ReadDirAll fd => with_fd s fd ([], false) (fun p => ((ex_names s p, false), s))
  | NewUuid => (0, s)
  end.

Lemma ex_fd_fresh s : fds s !! ex_fd s = None.
Proof. unfold ex_fd. apply (not_elem_of_dom (D := gset N)). exact (is_fresh (dom (fds s) : gset N)). Qed.

Lemma ex_stat_stats p s : stats s p (ex_stat_at p s).1 (ex_stat_at p s).2.
Proof.
  unfold ex_stat_at, stats. split; [done|]. cbn. destruct (nodes s !! p) as [n|] eqn:Hn; [|done].
  destruct n as [|mode content|]; cbn; [by eexists| |done].
  destruct (_ && _) eqn:E; [|done]. bool_prop. exists (NFile mode content). split; [done|].
  done.
Qed.

Lemma ex_open_opens p (ok : option node -> bool) (P : option node -> Prop) s :
  (forall n, ok n = true -> P n) -> opens s p P (ex_open p ok s).1 (ex_open p ok s).2.
Proof.
  intros HP. unfold ex_open. destruct (ok _) eqn:E; cbn; [|done].
  split_and!; [apply ex_fd_fresh|by apply HP|done].
Qed.

Lemma ex_names_exact s p name : is_Some (nodes s !! (p ++ [name])) -> as_bytes name ∈ ex_names s p.
Proof.
  intros [n Hn]. unfold ex_names. apply elem_of_remove_dups, list_elem_of_omap.
  exists (p ++ [name]). split.
  - apply list_elem_of_fmap. exists (p ++ [name], n). split; [done|]. by apply elem_of_map_to_list.
  - rewrite removelast_last, decide_True by done. by rewrite last_snoc.
Qed.

Lemma is_dir_node_true o : is_dir_node o = true -> o = Some NDir.
Proof. by destruct o as [[]|]. Qed.

Lemma is_some_is_Some {A} (o : option A) : is_some o = true -> is_Some o.
Proof. destruct o; by eauto. Qed.

Ltac known_fd := intros ?p ?Hp; unfold with_fd; match goal with Hp : fds _ !! _ = _ |- _ => rewrite !Hp end.

Lemma disk_steps c s : fs_step s (Ev c (disk c s).1) (disk c s).2.
Proof.
  destruct c as [| | | | | | | |path|d name []|d name|d name mode|d name []|d from d' to|fd|fd mode|fd
    |fd limit|fd bs|fd|fd|fd|fd|fd|]; try done; cbn.
  - apply ex_open_opens, is_dir_node_true.
  - known_fd. apply ex_open_opens, is_dir_node_true.
  - known_fd. apply ex_open_opens, is_some_is_Some.
  - known_fd. destruct (nodes s !! _) eqn:Hn; cbn; [done|]. split_and!; [apply ex_fd_fresh|done|by eexists].
  - known_fd. apply ex_stat_stats.
  - known_fd. destruct (nodes s !! _) eqn:Hn; cbn; [by rewrite Hn|done].
  - intros p Hp q Hq. unfold with_fd. rewrite Hp, Hq.
    destruct (nodes s !! (p ++ [from])) as [[|mode content|]|] eqn:Hn; cbn; try done; by eexists.
  - known_fd. apply ex_stat_stats.
  - known_fd. split; [done|]. cbn. destruct (nodes s !! p) as [[|mode bs|]|] eqn:Hn; cbn; try done.
    intros mode' content'. by intros [= -> ->].
  - known_fd. destruct (nodes s !! p) as [[|mode old|]|] eqn:Hn; cbn; try (by left). by exists mode, old.
  - known_fd. apply ex_open_opens, is_some_is_Some.
  - known_fd. split; [done|]. split; [apply NoDup_remove_dups|]. intros _ name. apply ex_names_exact.
Qed.
End disk.
