(* ===== verification/WorkspaceContract.v ===== *)
(** * The workspace contract ([vibecoder-workspace-contract])

    What the workspace runtime takes and returns.  [WorkspaceSpec] is the project
    id in it. *)
From S2P Require Import Prelude RustStr.

Record WorkspaceCapabilities := {
  read_write_files : bool;
  managed_project_roots : bool;
  canonical_path_containment : bool;
  text_edit : bool;
  project_search : bool;
  ws_commands : bool;
  process_isolation : bool;
  resource_limits : bool;
  snapshots : bool;
  max_file_read_bytes : N;
  max_file_write_bytes : N
}.

Record TextPatchHunk := { expected : str; replacement : str }.

Record TextPatchResult := {
  hunks_applied : N;
  patch_bytes_before : N;
  patch_bytes_after : N
}.

Record TextEditResult := {
  replacements : N;
  bytes_before : N;
  bytes_after : N
}.

Record ProjectFileEntry := {
  relative_path : str;
  size_bytes : N;
  owner_executable : bool
}.

Record ProjectFileList := {
  files : list ProjectFileEntry;
  skipped_entries : N;
  list_truncated : bool
}.

Record ProjectTextMatch := {
  match_path : str;
  line : N;
  column : N;
  preview : str
}.

Record ProjectTextSearchResult := {
  matches : list ProjectTextMatch;
  files_scanned : N;
  files_skipped : N;
  bytes_scanned : N;
  truncated : bool
}.
