(* ===== verification/WorkspaceText.v ===== *)
(** * Text edits and text search of the workspace
    ([vibecoder-workspace-local/src/unix_io.rs])

    The parts of [apply_text_patch_pairs] and [search_project_text] that work on
    texts in memory.  A slice at a byte offset that is not a character boundary
    panics in Rust; [slice_from] and [slice_to] are then [None], which the lemmas
    show does not happen. *)
From stdpp Require Import sorting.
From S2P Require Import Prelude RustStr StrFacts RustPath Domain.

Definition MAX_FILE_WRITE_BYTES : N := 16 * 1024 * 1024.
Definition MAX_TEXT_EDIT_EXPECTED_BYTES : N := 1024 * 1024.
Definition MAX_TEXT_PATCH_HUNKS : N := 64.
Definition MAX_TEXT_PATCH_INPUT_BYTES : N := 16 * 1024 * 1024.

Definition workspace_error (code : str) : VibeCoderError := Workspace code.

Definition newline : N := 10.

(** ** Searching by byte offset *)

(** [str::find] on a string. *)
Fixpoint find (p s : str) : option N :=
  if starts_with p s then Some 0
  else match s with [] => None | c :: s => N.add (utf8_len c) <$> find p s end.

(** [str::match_indices]: non-overlapping matches from the left, [skip] counting
    the characters of the current match still to be passed. *)
Fixpoint match_indices_from (p : str) (skip : nat) (at_ : N) (s : str) : list N :=
  match s with
  | [] => []
  | c :: s' =>
    match skip with
    | S k => match_indices_from p k (at_ + utf8_len c) s'
    | O =>
      if starts_with p s
      then at_ :: match_indices_from p (length p - 1) (at_ + utf8_len c) s'
      else match_indices_from p 0 (at_ + utf8_len c) s'
    end
  end.
Definition match_indices (p s : str) : list N := match_indices_from p 0 0 s.

(** [str::rfind] on an ASCII character: the byte offset of its last occurrence. *)
Fixpoint rfind_char (c : N) (s : str) : option N :=
  match s with
  | [] => None
  | d :: s =>
    match rfind_char c s with
    | Some i => Some (utf8_len d + i)
    | None => if d =? c then Some 0 else None
    end
  end.

Definition count_char (c : N) (s : str) : N := len (filter (fun d => d = c) s).

(** [str::replace_range(i..j, with)]. *)
Definition replace_range (s : str) (i j : N) (with_ : str) : option str :=
  match slice_to s i, slice_from s j with
  | Some a, Some b => Some (a ++ with_ ++ b)
  | _, _ => None
  end.

(** ** Hunks *)

Definition find_unique_text_match (text expected : str) : Result N :=
  let? first := ok_or (find expected text)
                  (workspace_error (u "text_edit_expected_not_found")) in
  let? next_char_len := ok_or (slice_from text first ≫= fun rest => utf8_len <$> head rest)
                          (workspace_error (u "text_edit_expected_not_found")) in
  let search_from := saturating_add usize_max first next_char_len in
  if (search_from <=? blen text)
     && match slice_from text search_from with
        | Some rest => contains expected rest
        | None => false
        end
  then Err (workspace_error (u "text_edit_expected_ambiguous"))
  else Ok first.

(** The validation loop of [apply_text_patch_pairs]. *)
Fixpoint check_hunks (patch_input_bytes : N) (hunks : list (str * str)) : Result unit :=
  match hunks with
  | [] => Ok tt
  | (expected, replacement) :: hunks =>
    if bool_decide (expected = []) then
      Err (workspace_error (u "text_edit_expected_empty"))
    else if MAX_TEXT_EDIT_EXPECTED_BYTES <? blen expected then
      Err (workspace_error (u "text_edit_expected_too_large"))
    else if MAX_FILE_WRITE_BYTES <? blen replacement then
      Err (workspace_error (u "text_patch_replacement_too_large"))
    else
      let? patch_input_bytes :=
        ok_or (checked_add usize_max patch_input_bytes (blen expected) ≫=
               fun value => checked_add usize_max value (blen replacement))
          (workspace_error (u "text_patch_input_too_large")) in
      if MAX_TEXT_PATCH_INPUT_BYTES <? patch_input_bytes then
        Err (workspace_error (u "text_patch_input_too_large"))
      else check_hunks patch_input_bytes hunks
  end.

(** [checked_sub] then [checked_add]. *)
Definition patched_size (updated expected replacement : str) : option N :=
  if blen updated <? blen expected then None
  else checked_add usize_max (blen updated - blen expected) (blen replacement).

(** The patching loop of [apply_text_patch_pairs]. *)
Fixpoint apply_hunks (updated : str) (hunks : list (str * str)) : Result str :=
  match hunks with
  | [] => Ok updated
  | (expected, replacement) :: hunks =>
    let? match_index := find_unique_text_match updated expected in
    let? bytes_after := ok_or (patched_size updated expected replacement)
                          (workspace_error (u "text_edit_result_too_large")) in
    if MAX_FILE_WRITE_BYTES <? bytes_after then
      Err (workspace_error (u "text_edit_result_too_large"))
    else
      apply_hunks
        (default updated (replace_range updated match_index
           (match_index + blen expected) replacement)) hunks
  end.

(** ** Locating a match *)

(** Line and column from one, and the start of the line without control
    characters. *)
Definition locate_text_match (text : str) (byte_index : N) : N * N * str :=
  let before := default [] (slice_to text byte_index) in
  let after := default [] (slice_from text byte_index) in
  let line_start := match rfind_char newline before with Some i => i + 1 | None => 0 end in
  let line := count_char newline before + 1 in
  let in_line := default [] (slice_from before line_start) in
  let column := len in_line + 1 in
  let line_end := match find [newline] after with
                  | Some offset => byte_index + offset
                  | None => blen text
                  end in
  let raw_preview :=
    default [] (slice_from (default [] (slice_to text line_end)) line_start) in
  let preview := (fun c => if is_control c then 32 else c) <$> take 240 raw_preview in
  (N.min line u32_max, N.min column u32_max, preview).

(** ** The specification of a patch *)

(** [e] occurs exactly once in [t], after [a]. *)
Definition unique_at (e t a b : str) : Prop :=
  t = a ++ e ++ b /\ forall a' b', t = a' ++ e ++ b' -> a' = a.

(** One hunk replaces the only occurrence of its expected text. *)
Definition hunk_step (t : str) (h : str * str) (t' : str) : Prop :=
  exists a b, unique_at h.1 t a b /\ t' = a ++ h.2 ++ b /\ blen t' <= MAX_FILE_WRITE_BYTES.

Definition swap_hunk (h : str * str) : str * str := (h.2, h.1).

(** The new text is unique as well, so the hunk can be undone. *)
Definition reversible_step (t : str) (h : str * str) (t' : str) : Prop :=
  h.2 <> [] /\ hunk_step t h t' /\ hunk_step t' (swap_hunk h) t.

(** ** Lemmas *)

Lemma find_some p s i :
  find p s = Some i ->
  exists a b, s = a ++ p ++ b /\ blen a = i /\
    forall a' b', s = a' ++ p ++ b' -> a `prefix_of` a'.
Proof.
  revert i. induction s as [|c s IH]; intros i; simpl;
    destruct (starts_with p _) eqn:Hs; try done.
  1, 2: intros [= <-]; apply starts_with_spec in Hs as [b Hb]; exists [], b;
    split_and!; [done..|]; intros; apply prefix_nil.
  destruct (find p s) as [j|]; [|done]. intros [= <-].
  destruct (IH _ eq_refl) as (a & b & -> & <- & Ha). exists (c :: a), b.
  split_and!; [done|done|]. intros [|d a'] b' Heq.
  - exfalso. apply not_true_iff_false in Hs. apply Hs, starts_with_spec. by exists b'.
  - injection Heq as <- Heq. by apply prefix_cons, Ha with b'.
Qed.

Lemma find_none p s : find p s = None <-> contains p s = false.
Proof.
  induction s as [|c s IH]; simpl; destruct (starts_with p _); simpl; try done.
  rewrite <-IH. by destruct (find p s).
Qed.

Lemma contains_split p s : contains p s = true <-> exists a b, s = a ++ p ++ b.
Proof. apply contains_infix. Qed.

(** What [find_unique_text_match] answers. *)
Lemma find_unique_cases text e :
  e <> [] -> blen text <= usize_max ->
  match find_unique_text_match text e with
  | Ok i => exists a b, unique_at e text a b /\ blen a = i
  | Err err =>
    (err = Workspace (u "text_edit_expected_not_found") /\ contains e text = false) \/
    (err = Workspace (u "text_edit_expected_ambiguous") /\
     exists a b a' b', text = a ++ e ++ b /\ text = a' ++ e ++ b' /\ a <> a')
  end.
Proof.
  intros He Hl. unfold find_unique_text_match.
  destruct (find e text) as [i|] eqn:Ef; cbn [ok_or]; [|left; by rewrite <-find_none].
  apply find_some in Ef as (a & b & Ht & Hi & Hmin).
  destruct e as [|c e]; [done|]. clear He.
  assert (Hs1 : slice_from text i = Some (c :: e ++ b)) by (rewrite Ht, <-Hi; apply slice_from_app).
  rewrite Hs1. cbn [mbind option_bind head fmap option_fmap option_map ok_or].
  assert (Hlen : blen text = i + (utf8_len c + blen (e ++ b))).
  { rewrite Ht, blen_app, Hi. done. }
  rewrite saturating_add_small by lia.
  rewrite (proj2 (N.leb_le _ _)) by lia. cbn [andb].
  assert (slice_from text (i + utf8_len c) = Some (e ++ b)) as ->.
  { apply slice_from_spec. exists (a ++ [c]). split; [by rewrite Ht, <-!app_assoc|].
    rewrite blen_app, Hi. simpl. lia. }
  destruct (contains (c :: e) (e ++ b)) eqn:Ec.
  - right. split; [done|]. apply contains_split in Ec as (a' & b' & Heq).
    exists a, b, (a ++ c :: a'), b'. split_and!; [done| |].
    + rewrite Ht. cbn [app]. rewrite Heq, <-app_assoc. done.
    + intros Hbad. apply (f_equal length) in Hbad. rewrite length_app in Hbad. simpl in Hbad. lia.
  - exists a, b. split; [|done]. split; [done|]. intros a' b' Heq.
    destruct (Hmin _ _ Heq) as [[|d k] ->]; [by rewrite app_nil_r|].
    exfalso. apply not_true_iff_false in Ec. apply Ec, contains_split.
    rewrite Ht, <-!app_assoc in Heq. apply app_inv_head in Heq. cbn [app] in Heq.
    injection Heq as <- Heq. by exists k, b'.
Qed.

Lemma unique_at_inj e t a b a' b' : unique_at e t a b -> unique_at e t a' b' -> a = a' /\ b = b'.
Proof.
  intros [Ht Hu] [Ht' _]. pose proof (Hu _ _ Ht') as ->. split; [done|].
  rewrite Ht in Ht'. apply app_inv_head, app_inv_head in Ht'. done.
Qed.

Lemma find_unique_ok text e a b :
  e <> [] -> blen text <= usize_max -> unique_at e text a b ->
  find_unique_text_match text e = Ok (blen a).
Proof.
  intros He Hl Hu. pose proof (find_unique_cases text e He Hl) as H.
  destruct (find_unique_text_match text e) as [i|err].
  - destruct H as (a' & b' & Hu' & <-). by destruct (unique_at_inj _ _ _ _ _ _ Hu Hu') as [-> _].
  - destruct Hu as [Ht Hu]. destruct H as [[_ Hc]|[_ (a1 & b1 & a2 & b2 & H1 & H2 & Hne)]].
    + apply not_true_iff_false in Hc. destruct Hc. apply contains_split. by exists a, b.
    + destruct Hne. by rewrite (Hu _ _ H1), (Hu _ _ H2).
Qed.

Lemma replace_range_unique e t a b w :
  t = a ++ e ++ b -> replace_range t (blen a) (blen a + blen e) w = Some (a ++ w ++ b).
Proof.
  intros ->. unfold replace_range. rewrite slice_to_app.
  rewrite app_assoc, <-blen_app, slice_from_app. done.
Qed.

(** One turn of the patching loop. *)
Lemma apply_hunks_cons t h hs t' :
  h.1 <> [] -> blen t <= MAX_FILE_WRITE_BYTES -> blen h.2 <= MAX_FILE_WRITE_BYTES ->
  apply_hunks t (h :: hs) = Ok t' <-> exists t1, hunk_step t h t1 /\ apply_hunks t1 hs = Ok t'.
Proof.
  destruct h as [e r]. cbn [fst snd]. intros He Ht Hr.
  assert (Hmax : MAX_FILE_WRITE_BYTES + MAX_FILE_WRITE_BYTES <= usize_max) by by vm_compute.
  cbn [apply_hunks].
  assert (Hstep : forall a b, unique_at e t a b ->
    patched_size t e r = Some (blen (a ++ r ++ b)) /\
    default t (replace_range t (blen a) (blen a + blen e) r) = a ++ r ++ b).
  { intros a b [Heq _]. rewrite (replace_range_unique e t a b r Heq). split; [|done].
    unfold patched_size. subst t. rewrite !blen_app in *.
    rewrite (proj2 (N.ltb_ge _ _)) by lia. unfold checked_add.
    case_match; bool_prop; [f_equal; lia|lia]. }
  split.
  - pose proof (find_unique_cases t e He ltac:(lia)) as Hc.
    destruct (find_unique_text_match t e) as [i|]; [|done].
    destruct Hc as (a & b & Hu & <-). destruct (Hstep a b Hu) as [-> ->]. cbn [ok_or].
    intros [Hsz Hrest]%if_err_ok. bool_prop. exists (a ++ r ++ b).
    split; [|done]. by exists a, b.
  - intros (t1 & (a & b & Hu & -> & Hsz) & Hrest). cbn [fst snd] in *.
    rewrite (find_unique_ok t e a b He ltac:(lia) Hu).
    destruct (Hstep a b Hu) as [-> ->]. cbn [ok_or]. apply if_err_ok.
    split; [by apply N.ltb_ge|done].
Qed.

Definition hunk_ok (h : str * str) : Prop :=
  h.1 <> [] /\ blen h.1 <= MAX_TEXT_EDIT_EXPECTED_BYTES /\ blen h.2 <= MAX_FILE_WRITE_BYTES.

Lemma check_hunks_ok n hs : check_hunks n hs = Ok tt -> Forall hunk_ok hs.
Proof.
  revert n. induction hs as [|[e r] hs IH]; intros n; [by constructor|]. cbn [check_hunks].
  intros [He [Hl [Hr H]%if_err_ok]%if_err_ok]%if_err_ok. bool_prop.
  destruct (ok_or _ _) as [m|]; [|done]. apply if_err_ok in H as [_ H].
  constructor; [done|]. by eapply IH.
Qed.

Lemma steps_hunks_bound t hs t' :
  steps hunk_step t hs t' -> blen t <= MAX_FILE_WRITE_BYTES -> blen t' <= MAX_FILE_WRITE_BYTES.
Proof.
  intros Hst. induction Hst as [|t h t1 hs t' (a & b & _ & _ & Hl) _ IH]; [done|]. auto.
Qed.

Lemma apply_hunks_steps t hs t' :
  Forall (fun h => h.1 <> [] /\ blen h.2 <= MAX_FILE_WRITE_BYTES) hs ->
  blen t <= MAX_FILE_WRITE_BYTES ->
  apply_hunks t hs = Ok t' <-> steps hunk_step t hs t'.
Proof.
  intros Hhs. revert t. induction Hhs as [|h hs [He Hr] _ IH]; intros t Ht.
  - split; [intros [= <-]; constructor|]. by intros ->%steps_nil_inv.
  - rewrite apply_hunks_cons by done. split.
    + intros (t1 & Hs & Hrest). pose proof Hs as (a & b & _ & _ & Hl).
      econstructor; [exact Hs|]. by apply IH.
    + intros (t1 & Hs & Hrest)%steps_cons_inv. pose proof Hs as (a & b & _ & _ & Hl).
      exists t1. split; [done|]. by apply IH.
Qed.

Lemma reversible_undo t hs t' :
  steps reversible_step t hs t' -> steps hunk_step t' (reverse (swap_hunk <$> hs)) t.
Proof.
  induction 1 as [|t h t1 hs t' (_ & _ & Hback) _ IH]; [constructor|].
  rewrite fmap_cons, reverse_cons. eapply steps_app; [exact IH|]. by apply steps_one.
Qed.

Lemma reversible_bounds t hs t' :
  steps reversible_step t hs t' -> blen t <= MAX_FILE_WRITE_BYTES ->
  steps hunk_step t hs t' /\ blen t' <= MAX_FILE_WRITE_BYTES /\
  Forall (fun h => h.2 <> []) hs.
Proof.
  induction 1 as [|t h t1 hs t' (Hne & Hs & _) _ IH]; intros Ht;
    [split_and!; [constructor|done|constructor]|].
  destruct Hs as (a & b & Hu & -> & Hl). destruct (IH Hl) as (? & ? & ?).
  split_and!; [econstructor; [by exists a, b|done]|done|by constructor].
Qed.

(** ** Lemmas: lines of a text *)

Lemma split_cur sep s :
  exists p ps, split sep s = p :: ps /\ (sep ∉ p) /\
    (forall cur, split_from sep cur s = (rev cur ++ p) :: ps) /\
    exists r, s = p ++ r /\ (ps = [] /\ r = [] \/ exists r', r = sep :: r').
Proof.
  unfold split. induction s as [|c s (p & ps & Hs & Hp & Hc & r & -> & Hr)].
  - exists [], []. split_and!; [done|set_solver|intros; simpl; by rewrite app_nil_r|].
    exists []. eauto.
  - simpl. destruct (N.eqb_spec c sep) as [->|Hne].
    + exists [], (split_from sep [] (p ++ r)).
      split_and!; [done|set_solver|intros; simpl; by rewrite app_nil_r|]. eauto.
    + exists (c :: p), ps. split_and!; [by rewrite Hc|set_solver| |by exists r].
      intros cur. rewrite Hc. simpl. by rewrite <-app_assoc.
Qed.

Lemma split_sep sep l y : split sep (l ++ sep :: y) = split sep l ++ split sep y.
Proof.
  assert (H : forall cur, split_from sep cur (l ++ sep :: y)
    = split_from sep cur l ++ split_from sep [] y); [|apply H].
  induction l as [|c l IH]; intros cur; simpl; [by rewrite N.eqb_refl|].
  destruct (c =? sep); [by rewrite IH|apply IH].
Qed.

Lemma split_no_sep_app sep x b p ps :
  sep ∉ x -> split sep b = p :: ps -> split sep (x ++ b) = (x ++ p) :: ps.
Proof.
  intros Hx Hb. destruct (split_cur sep b) as (q & qs & Hb' & _ & Hc & _).
  rewrite Hb in Hb'. injection Hb' as <- <-.
  assert (H : forall cur, split_from sep cur (x ++ b) = split_from sep (rev x ++ cur) b).
  { clear -Hx. induction x as [|c x IH]; intros cur; [done|]. simpl.
    rewrite (proj2 (N.eqb_neq c sep)) by set_solver. rewrite IH by set_solver.
    by rewrite <-app_assoc. }
  unfold split. rewrite H, Hc, rev_app_distr, rev_involutive. done.
Qed.

Lemma rfind_char_spec c s :
  utf8_len c = 1 ->
  match rfind_char c s with
  | Some i => exists l x, s = l ++ c :: x /\ (c ∉ x) /\ blen l = i
  | None => c ∉ s
  end.
Proof.
  intros Hc. induction s as [|d s IH]; simpl; [set_solver|].
  destruct (rfind_char c s) as [i|].
  - destruct IH as (l & x & -> & Hx & <-). by exists (d :: l), x.
  - destruct (N.eqb_spec d c) as [->|Hd]; [by exists [], s|set_solver].
Qed.

Lemma find_char_spec c s :
  match find [c] s with
  | Some i => exists p r, s = p ++ c :: r /\ (c ∉ p) /\ blen p = i
  | None => c ∉ s
  end.
Proof.
  induction s as [|d s IH]; [simpl; set_solver|]. cbn [find starts_with].
  rewrite andb_true_r. destruct (N.eqb_spec c d) as [->|Hd].
  { exists [], s. split_and!; [done|apply not_elem_of_nil|done]. }
  destruct (find [c] s) as [i|]; cbn.
  - destruct IH as (p & r & -> & Hp & <-). exists (d :: p), r.
    split_and!; [done|set_solver|done].
  - set_solver.
Qed.


Lemma count_char_none c x : c ∉ x -> count_char c x = 0.
Proof.
  unfold count_char. induction x as [|d x IH]; [done|]. intros Hx.
  rewrite filter_cons_False by set_solver. apply IH. set_solver.
Qed.

Lemma count_char_app c x y : count_char c (x ++ y) = count_char c x + count_char c y.
Proof. unfold count_char. by rewrite filter_app, len_app. Qed.

Lemma count_char_here c x : count_char c (c :: x) = 1 + count_char c x.
Proof. unfold count_char. by rewrite filter_cons_True, len_cons. Qed.

(** A text ends in the part of its last line, after as many lines as it has
    newlines. *)
Lemma split_last_line s :
  exists ls x, split newline s = ls ++ [x] /\ (newline ∉ x) /\ len ls = count_char newline s /\
    default [] (slice_from s
      match rfind_char newline s with Some i => i + 1 | None => 0 end) = x /\
    (s = x \/ exists l, s = l ++ newline :: x /\ split newline l = ls /\
                        rfind_char newline s = Some (blen l)).
Proof.
  induction s as [s IH] using (induction_ltof1 _ length). unfold ltof in IH.
  pose proof (rfind_char_spec newline s eq_refl) as Hr.
  destruct (rfind_char newline s) as [i|].
  - destruct Hr as (l & x & -> & Hx & <-).
    destruct (IH l) as (ls & y & Hl & _ & Hn & _); [rewrite length_app; simpl; lia|].
    exists (split newline l), x. split_and!; [|done| | |].
    + rewrite split_sep. unfold split at 2. by rewrite split_from_no_sep.
    + rewrite Hl, len_app, Hn, count_char_app, count_char_here, (count_char_none _ x) by done.
      rewrite len_cons, len_nil. lia.
    + replace (blen l + 1) with (blen (l ++ [newline])) by (rewrite blen_app; done).
      change (newline :: x) with ([newline] ++ x). by rewrite app_assoc, slice_from_app.
    + right. by exists l.
  - exists [], s. split_and!; [|done| | |by left].
    + unfold split. by rewrite split_from_no_sep.
    + by rewrite count_char_none.
    + destruct s; done.
Qed.

Definition blank_controls (l : str) : str := (fun c => if is_control c then 32 else c) <$> l.

Lemma locate_lines a b :
  blen (a ++ b) < u32_max ->
  exists ls x p ps,
    split newline a = ls ++ [x] /\ split newline (a ++ b) = ls ++ (x ++ p) :: ps /\
    locate_text_match (a ++ b) (blen a)
    = (len ls + 1, len x + 1, blank_controls (take 240 (x ++ p))).
Proof.
  intros Hlen. destruct (split_last_line a) as (ls & x & Hsa & Hx & Hn & Hin & Hpre).
  assert (exists p ps r, split newline b = p :: ps /\ b = p ++ r /\
    match find [newline] b with Some o => blen a + o | None => blen (a ++ b) end
    = blen (a ++ p)) as (p & ps & r & Hsb & Hb & Hend).
  { pose proof (find_char_spec newline b) as Hf. destruct (find [newline] b) as [o|].
    - destruct Hf as (p & r & -> & Hp & <-). exists p, (split newline r), (newline :: r).
      split_and!; [|done|by rewrite blen_app]. unfold split. by rewrite split_from_app.
    - exists b, [], []. rewrite app_nil_r. unfold split. by rewrite split_from_no_sep. }
  exists ls, x, p, ps.
  assert (Hall : split newline (a ++ b) = ls ++ (x ++ p) :: ps).
  { destruct Hpre as [->|(l & -> & <- & _)].
    - unfold split in Hsa. rewrite split_from_no_sep in Hsa by done.
      destruct ls as [|? [|]]; simplify_list_eq. by apply split_no_sep_app.
    - rewrite <-app_assoc. cbn [app]. rewrite split_sep. f_equal. by apply split_no_sep_app. }
  split_and!; [done..|]. unfold locate_text_match.
  rewrite slice_to_app, slice_from_app. cbn [from_option id]. cbv zeta.
  rewrite Hin, Hend, <-Hn. rewrite Hb, app_assoc, slice_to_app. cbn [from_option id].
  assert (default [] (slice_from (a ++ p)
    match rfind_char newline a with Some i => i + 1 | None => 0 end) = x ++ p) as ->.
  { destruct Hpre as [->|(l & -> & _ & ->)].
    - pose proof (rfind_char_spec newline x eq_refl) as Hr.
      destruct (rfind_char newline x) as [i|]; [|by destruct (x ++ p)].
      destruct Hr as (l & y & -> & _). set_solver.
    - replace (blen l + 1) with (blen (l ++ [newline])) by (rewrite blen_app; done).
      change (newline :: x) with ([newline] ++ x).
      rewrite app_assoc, <-app_assoc, slice_from_app. done. }
  assert (len ls <= blen a).
  { rewrite Hn. unfold count_char. etransitivity; [apply len_filter|apply blen_ge_len]. }
  assert (len x <= blen a).
  { etransitivity; [apply blen_ge_len|]. destruct Hpre as [->|(l & -> & _)]; [done|].
    rewrite blen_app. simpl. lia. }
  rewrite blen_app in Hlen. rewrite !N.min_l by lia. done.
Qed.

(** ** Lemmas: [match_indices] *)

Lemma match_indices_from_sound p skip at_ s i :
  i ∈ match_indices_from p skip at_ s ->
  exists a b, s = a ++ p ++ b /\ i = at_ + blen a.
Proof.
  revert skip at_. induction s as [|c s IH]; intros skip at_; [by intros ?%elem_of_nil|].
  assert (Hstep : forall k, i ∈ match_indices_from p k (at_ + utf8_len c) s ->
    exists a b, c :: s = a ++ p ++ b /\ i = at_ + blen a).
  { intros k (a & b & -> & ->)%IH. exists (c :: a), b. split; [done|]. simpl. lia. }
  cbn [match_indices_from]. destruct skip as [|k]; [|apply Hstep].
  destruct (starts_with p (c :: s)) eqn:Hs; [|apply Hstep].
  intros [->|Hi]%elem_of_cons; [|by eapply Hstep].
  apply starts_with_spec in Hs as [b Hb]. exists [], b. split; [done|]. simpl. lia.
Qed.

Lemma match_indices_nil p s : p <> [] -> match_indices p s = [] <-> contains p s = false.
Proof.
  intros Hp. unfold match_indices.
  assert (H : forall at_, match_indices_from p 0 at_ s = [] <-> contains p s = false);
    [|apply H].
  induction s as [|c s IH]; intros at_; cbn [match_indices_from contains].
  - destruct p; [done|]. done.
  - destruct (starts_with p (c :: s)); [done|]. apply IH.
Qed.

(** Matches do not overlap. *)
Lemma match_indices_from_apart p skip at_ s :
  p <> [] ->
  StronglySorted (fun i j => i + blen p <= j) (match_indices_from p skip at_ s) /\
  Forall (fun i => at_ + blen (take skip s) <= i) (match_indices_from p skip at_ s).
Proof.
  intros Hp. revert skip at_. induction s as [|c s IH]; intros skip at_;
    [split; [constructor|constructor]|].
  cbn [match_indices_from]. destruct skip as [|k].
  - destruct (starts_with p (c :: s)) eqn:Hs.
    + destruct (IH (length p - 1)%nat (at_ + utf8_len c)) as [Hso Hall].
      apply starts_with_spec in Hs as [r Hr].
      assert (blen p = utf8_len c + blen (take (length p - 1) s)) as Hlen.
      { destruct p as [|d p]; [done|]. injection Hr as -> ->. simpl.
        by rewrite Nat.sub_0_r, take_app_length. }
      split; [constructor; [done|]|constructor; [simpl; lia|]];
        (eapply Forall_impl; [exact Hall|]); cbn beta; intros; simpl; lia.
    + destruct (IH O (at_ + utf8_len c)) as [Hso Hall]. split; [done|].
      eapply Forall_impl; [exact Hall|]. cbn beta. intros i. simpl. lia.
  - destruct (IH k (at_ + utf8_len c)) as [Hso Hall]. split; [done|].
    eapply Forall_impl; [exact Hall|]. cbn beta. intros i. simpl. lia.
Qed.

(** ** Properties *)

(** C35. A list of valid hunks is applied to a text exactly as its specification
    says: each hunk in turn replaces the one occurrence of its expected text,
    overlapping occurrences counted, and the result stays within 16 MiB; otherwise
    the whole list is refused.  When each new text is unique too, the swapped hunks
    in reverse order restore the original text. *)
Theorem apply_hunks_exact (t t' : str) (hunks : list (str * str)) :
  check_hunks 0 hunks = Ok tt -> blen t <= MAX_FILE_WRITE_BYTES ->
  (apply_hunks t hunks = Ok t' <-> steps hunk_step t hunks t') /\
  (steps reversible_step t hunks t' ->
   apply_hunks t hunks = Ok t' /\ apply_hunks t' (reverse (swap_hunk <$> hunks)) = Ok t).
Proof.
  intros Hc%check_hunks_ok Ht.
  assert (Hok : Forall (fun h => h.1 <> [] /\ blen h.2 <= MAX_FILE_WRITE_BYTES) hunks).
  { eapply Forall_impl; [exact Hc|]. by intros h (? & ? & ?). }
  split; [by apply apply_hunks_steps|]. intros Hr.
  destruct (reversible_bounds _ _ _ Hr Ht) as (Hs & Ht' & Hne).
  split; [by apply apply_hunks_steps|]. apply apply_hunks_steps; [|done|by apply reversible_undo].
  apply Forall_reverse, Forall_fmap. apply Forall_forall. intros h Hh. cbn.
  rewrite Forall_forall in Hne, Hc. destruct (Hc _ Hh) as (? & Hl & _). split; [by apply Hne|].
  etransitivity; [exact Hl|]. by vm_compute.
Qed.

(** A search position is the position of the match.  The byte offsets that
    [match_indices] yields are those of non-overlapping occurrences of the needle,
    and none only when there is no occurrence; for each of them the located line
    and column are such that the text before the match is the first [line - 1]
    lines of the text and the first [column - 1] characters of that line, and the
    preview is the start of that line with its control characters blanked. *)
Theorem located_match_exact (text needle : str) :
  needle <> [] -> blen text < u32_max ->
  (match_indices needle text = [] <-> contains needle text = false) /\
  StronglySorted (fun i j => i + blen needle <= j) (match_indices needle text) /\
  Forall (fun i => exists before after l,
    text = before ++ needle ++ after /\ blen before = i /\
    let '(line, column, preview) := locate_text_match text i in
    1 <= line /\ 1 <= column /\
    split newline text !! N.to_nat (line - 1) = Some l /\
    split newline before = take (N.to_nat (line - 1)) (split newline text)
                           ++ [take (N.to_nat (column - 1)) l] /\
    preview = blank_controls (take 240 l)) (match_indices needle text).
Proof.
  intros Hn Hl. split; [by apply match_indices_nil|].
  split; [by apply match_indices_from_apart|].
  apply Forall_forall. intros i (a & b & -> & ->)%match_indices_from_sound. rewrite N.add_0_l.
  destruct (locate_lines a (needle ++ b) Hl) as (ls & x & p & ps & Hsa & Hst & Hloc).
  exists a, b, (x ++ p). split_and!; [done..|]. rewrite Hloc, Hst, Hsa.
  replace (N.to_nat (len ls + 1 - 1)) with (length ls) by (unfold len; lia).
  replace (N.to_nat (len x + 1 - 1)) with (length x) by (unfold len; lia).
  rewrite list_lookup_middle, !take_app_length by done. split_and!; [lia|lia|done..].
Qed.

(** ** Concrete cases *)

Definition ex_hunks : list (str * str) :=
  [(u "world", u "rocq"); (u "hello", u "hi")].

Example ex_apply : apply_hunks (u "hello world") ex_hunks = Ok (u "hi rocq").
Proof. by vm_compute. Qed.

Example ex_ambiguous :
  apply_hunks (u "aaa") [(u "aa", u "b")]
  = Err (Workspace (u "text_edit_expected_ambiguous")).
Proof. by vm_compute. Qed.

Example ex_locate :
  (locate_text_match (u "ab" ++ [newline] ++ u "xyz") <$>
     match_indices (u "yz") (u "ab" ++ [newline] ++ u "xyz")) = [(2, 2, u "xyz")].
Proof. by vm_compute. Qed.

Lemma apply_hunks_exact_witness :
  steps hunk_step (u "hello world") ex_hunks (u "hi rocq").
Proof. apply (apply_hunks_exact (u "hello world") (u "hi rocq") ex_hunks); by vm_compute. Defined.

Lemma located_match_exact_witness :
  StronglySorted (fun i j => i + 2 <= j) (match_indices (u "ab") (u "ab abab")).
Proof. apply (located_match_exact (u "ab abab") (u "ab")); by vm_compute. Defined.
