(* ===== verification/Workspace.v ===== *)
(** * The local workspace ([vibecoder-workspace-local], [vibecoder-workspace-contract])

    Every operation is a program of file-system calls ([OsCalls.v]); a method of
    [LocalWorkspaceRuntime] takes the runtime's two roots as its argument.  What
    is proved holds of every run: which names the calls are given and below which
    directory ([WorkspaceSafety.v]), and when an edited file is replaced, and by what
    ([WorkspaceCommit.v]).  The
    text algorithms are in [WorkspaceText.v]. *)
From S2P Require Import Prelude RustStr StrFacts RustPath Program OsCalls Domain.
From S2P Require Import WorkspaceContract WorkspaceText.

Definition PRODUCT_ROOT_NAME : str := u "vibecoder".
Definition PROJECTS_ROOT_NAME : str := u "projects".
Definition MAX_RELATIVE_PATH_BYTES : N := 4096.
Definition MAX_COMPONENT_BYTES : N := 255.
Definition INTERNAL_TEMP_PREFIX : str := u ".vibecoder-tmp-".
Definition MAX_FILE_READ_BYTES : N := 16 * 1024 * 1024.
Definition MAX_PROJECT_LIST_ENTRIES : N := 4096.
Definition MAX_PROJECT_SEARCH_MATCHES : N := 512.
Definition MAX_PROJECT_SEARCH_FILE_BYTES : N := 2 * 1024 * 1024.
Definition MAX_PROJECT_SEARCH_TOTAL_BYTES : N := 64 * 1024 * 1024.
Definition MAX_PROJECT_SEARCH_FILES : N := 4096.
Definition MAX_PROJECT_SEARCH_DEPTH : N := 64.
Definition MAX_PROJECT_WALK_ENTRIES : N := 16384.

Definition OWNER_BITS : N := 0x1C0.         (* 0o700 *)
Definition OWNER_WRITE : N := 0x80.         (* 0o200 *)
Definition OWNER_EXECUTE : N := 0x40.       (* 0o100 *)

Record LocalWorkspaceRuntime := {
  app_private_root : str;
  projects_root : str
}.

(** ** Error mapping *)

Definition or_code {A} (code : str) (p : prog (IoResult A)) : prog (Result A) :=
  do r <- p;
  Ret (match r with Ok a => Ok a | Err _ => Err (workspace_error code) end).

(** ** Paths on disk *)

Definition canonical_existing_dir (path error_code : str) : prog (Result str) :=
  try metadata <- or_code error_code (call_ (Metadata path));
  if negb (is_dir metadata) then Ret (Err (workspace_error error_code))
  else or_code error_code (call_ (Canonicalize path)).

Definition reject_symlink_if_present (path error_code : str) : prog (Result unit) :=
  do r <- call_ (SymlinkMetadata path);
  Ret (match r with
       | Ok metadata =>
         if is_symlink metadata then Err (workspace_error error_code) else Ok tt
       | Err NotFound => Ok tt
       | Err _ => Err (workspace_error error_code)
       end).

Definition create_or_verify_fixed_child (parent name error_code : str) : prog (Result str) :=
  let child := push_str parent name in
  do r <- call_ (SymlinkMetadata child);
  try _ <- (match r with
            | Ok metadata =>
              Ret (if is_symlink metadata || negb (is_dir metadata)
                   then Err (workspace_error error_code) else Ok tt)
            | Err NotFound =>
              do r <- call_ (CreateDir child);
              Ret (match r with
                   | Ok _ | Err AlreadyExists => Ok tt
                   | Err _ => Err (workspace_error error_code)
                   end)
            | Err _ => Ret (Err (workspace_error error_code))
            end);
  try _ <- reject_symlink_if_present child error_code;
  try canonical <- canonical_existing_dir child error_code;
  Ret (if negb (has_parent canonical parent) then Err (workspace_error error_code)
       else Ok canonical).

(** [LocalWorkspaceRuntime::initialize]. *)
Definition initialize (app_private_dir : str) : prog (Result LocalWorkspaceRuntime) :=
  if negb (has_root app_private_dir) then
    Ret (Err (workspace_error (u "app_private_root_not_absolute")))
  else
    try _ <- reject_symlink_if_present app_private_dir (u "app_private_root_is_symlink");
    try app_private_root <-
      canonical_existing_dir app_private_dir (u "app_private_root_unavailable");
    try product_root <-
      create_or_verify_fixed_child app_private_root PRODUCT_ROOT_NAME (u "product_root_invalid");
    try projects_root <-
      create_or_verify_fixed_child product_root PROJECTS_ROOT_NAME (u "projects_root_invalid");
    if negb (path_starts_with projects_root app_private_root) then
      Ret (Err (workspace_error (u "projects_root_escaped_app_private_root")))
    else Ret (Ok {| app_private_root := app_private_root; projects_root := projects_root |}).

(** The component loop of [validate_relative_path]; [output] is the vector built
    so far.  The text of the path is UTF-8, so that of a component is too. *)
Fixpoint validate_components (output : list str) (cs : list component) : Result (list str) :=
  match cs with
  | [] => Ok output
  | CurDir :: cs => validate_components output cs
  | Normal value :: cs =>
    if bool_decide (value = []) || (MAX_COMPONENT_BYTES <? blen value) then
      Err (workspace_error (u "project_path_component_invalid"))
    else if starts_with INTERNAL_TEMP_PREFIX value then
      Err (workspace_error (u "project_path_reserved_internal_name"))
    else validate_components (output ++ [value]) cs
  | ParentDir :: _ => Err (workspace_error (u "project_path_parent_forbidden"))
  | RootDir :: _ => Err (workspace_error (u "project_path_must_be_relative"))
  end.

Definition validate_relative_path (relative : os_path) : Result (list str) :=
  if is_absolute relative then Err (workspace_error (u "project_path_must_be_relative"))
  else
    let? text := ok_or (path_to_str relative)
                   (workspace_error (u "project_path_must_be_utf8")) in
    if MAX_RELATIVE_PATH_BYTES <? blen text then
      Err (workspace_error (u "project_path_too_long"))
    else if existsb is_control text || contains_char 92 text then
      Err (workspace_error (u "project_path_contains_forbidden_character"))
    else validate_components [] (components relative).

(** ** Projects *)

Section operations.
Context `{UuidLib} (self : LocalWorkspaceRuntime).

Definition expected_project_root (id : ProjectId) : str :=
  push_str (projects_root self) (uuid_hyphenated (project_uuid id)).

Definition verify_project_sync (project : ProjectRef) : prog (Result str) :=
  if negb (has_root (pr_root project)) then
    Ret (Err (workspace_error (u "project_root_not_absolute")))
  else
    let expected := expected_project_root (pr_id project) in
    if negb (same_path (pr_root project) expected) then
      Ret (Err (workspace_error (u "project_root_does_not_match_project_id")))
    else
      try _ <- reject_symlink_if_present expected (u "project_root_is_symlink");
      try canonical <- canonical_existing_dir expected (u "project_root_unavailable");
      if negb (same_path canonical expected)
         || negb (path_starts_with canonical (projects_root self)) then
        Ret (Err (workspace_error (u "project_root_failed_canonical_containment")))
      else Ret (Ok canonical).

Definition create_project_sync (id : ProjectId) : prog (Result ProjectRef) :=
  let root := expected_project_root id in
  do r <- call_ (CreateDir root);
  match r with
  | Err AlreadyExists => Ret (Err (workspace_error (u "project_already_exists")))
  | Err _ => Ret (Err (workspace_error (u "project_create_failed")))
  | Ok _ =>
    let project := {| pr_id := id; pr_root := root |} in
    do v <- verify_project_sync project;
    match v with
    | Err error =>
      do _ <- call_ (RemoveDir (pr_root project));
      Ret (Err error)
    | Ok _ => Ret (Ok project)
    end
  end.

Definition open_project_sync (id : ProjectId) : prog (Result ProjectRef) :=
  let project := {| pr_id := id; pr_root := expected_project_root id |} in
  try _ <- verify_project_sync project;
  Ret (Ok project).

Definition remove_project_sync (project : ProjectRef) : prog (Result unit) :=
  try verified <- verify_project_sync project;
  if same_path verified (projects_root self)
     || same_path verified (app_private_root self) then
    Ret (Err (workspace_error (u "refusing_to_remove_workspace_root")))
  else
    try _ <- or_code (u "project_remove_failed") (call_ (RemoveDirAll verified));
    do exists_ <- call_ (PathExists verified);
    Ret (if exists_ then Err (workspace_error (u "project_remove_incomplete")) else Ok tt).

(** The component loop of [resolve_project_path_sync]: [rest] are the components
    not yet pushed. *)
Fixpoint resolve_components (project_root candidate : str) (missing_ancestor_seen : bool)
    (rest : list str) : prog (Result str) :=
  match rest with
  | [] => Ret (Ok candidate)
  | component :: rest =>
    let candidate := push_str candidate component in
    if missing_ancestor_seen then resolve_components project_root candidate true rest
    else
      do r <- call_ (SymlinkMetadata candidate);
      match r with
      | Ok metadata =>
        if is_symlink metadata then
          Ret (Err (workspace_error (u "project_path_symlink_forbidden")))
        else if negb (bool_decide (rest = [])) && negb (is_dir metadata) then
          Ret (Err (workspace_error (u "project_path_parent_not_directory")))
        else
          try canonical <- or_code (u "project_path_canonicalize_failed")
                             (call_ (Canonicalize candidate));
          if negb (path_starts_with canonical project_root) then
            Ret (Err (workspace_error (u "project_path_escaped_project_root")))
          else resolve_components project_root candidate false rest
      | Err NotFound => resolve_components project_root candidate true rest
      | Err _ => Ret (Err (workspace_error (u "project_path_metadata_failed")))
      end
  end.

Definition resolve_project_path_sync (project : ProjectRef) (relative : os_path) :
    prog (Result str) :=
  try project_root <- verify_project_sync project;
  try components <- lift (validate_relative_path relative);
  try candidate <- resolve_components project_root project_root false components;
  Ret (if negb (path_starts_with candidate project_root)
       then Err (workspace_error (u "project_path_escaped_project_root"))
       else Ok candidate).

(** ** Files, relative to descriptors *)

Definition component_cstring (component : str) : Result str :=
  if contains_char 0 component then Err (workspace_error (u "project_path_contains_nul"))
  else Ok component.

Definition path_cstring (path : str) : Result str :=
  if contains_char 0 path then Err (workspace_error (u "project_root_contains_nul"))
  else Ok path.

(** [io::Result]: the caller looks at the kind of the error. *)
Definition try_open_existing_dir_at (parent : Fd) (component : str) : prog (IoResult Fd) :=
  if contains_char 0 component then Ret (Err OtherError)
  else call_ (OpenAt parent component HowDirectory).

Definition open_existing_dir_at (parent : Fd) (component : str) : prog (Result Fd) :=
  or_code (u "project_path_parent_not_directory_or_symlink")
    (try_open_existing_dir_at parent component).

Definition open_or_create_private_dir_at (parent : Fd) (component : str) : prog (Result Fd) :=
  do first <- try_open_existing_dir_at parent component;
  match first with
  | Ok fd => Ret (Ok fd)
  | Err NotFound =>
    try name <- lift (component_cstring component);
    do created <- call_ (MkdirAt parent name PRIVATE_DIR_MODE);
    try _ <- lift (match created with
                   | Ok _ | Err AlreadyExists => Ok tt
                   | Err _ => Err (workspace_error (u "project_directory_create_failed"))
                   end);
    try fd <- or_code (u "project_directory_verify_failed")
                (try_open_existing_dir_at parent component);
    match created with
    | Ok _ =>
      do chmod <- call_ (Fchmod fd PRIVATE_DIR_MODE);
      match chmod with
      | Ok _ => Ret (Ok fd)
      | Err _ =>
        do _ <- call_ (UnlinkAt parent name true);
        Ret (Err (workspace_error (u "project_directory_mode_failed")))
      end
    | Err _ => Ret (Ok fd)
    end
  | Err _ => Ret (Err (workspace_error (u "project_path_parent_not_directory_or_symlink")))
  end.

Definition require_single_link_regular (stat : stat) (invalid_code hard_link_code : str) :
    Result unit :=
  if negb (file_kind stat =? S_IFREG) then Err (workspace_error invalid_code)
  else if negb (st_nlink stat =? 1) then Err (workspace_error hard_link_code)
  else Ok tt.

Definition fstat (fd : Fd) (error_code : str) : prog (Result stat) :=
  or_code error_code (call_ (Fstat fd)).

Definition stat_entry_nofollow (parent : Fd) (component : str) : prog (Result stat) :=
  try name <- lift (component_cstring component);
  or_code (u "project_list_entry_stat_failed") (call_ (FstatAt parent name)).

Definition inspect_optional_read_target (parent : Fd) (component : str) :
    prog (Result (option stat)) :=
  try name <- lift (component_cstring component);
  do r <- call_ (FstatAt parent name);
  Ret (match r with
       | Err NotFound => Ok None
       | Err _ => Err (workspace_error (u "file_read_target_metadata_failed"))
       | Ok stat =>
         if is_symlink stat then Err (workspace_error (u "file_symlink_forbidden"))
         else
           let? _ := require_single_link_regular stat
                       (u "file_read_target_invalid") (u "file_hard_link_forbidden") in
           Ok (Some stat)
       end).

Definition inspect_existing_read_target (parent : Fd) (component : str) :
    prog (Result stat) :=
  try o <- inspect_optional_read_target parent component;
  Ret (ok_or o (workspace_error (u "file_read_target_metadata_failed"))).

Definition inspect_existing_write_target (parent : Fd) (component : str) :
    prog (Result (option N)) :=
  try name <- lift (component_cstring component);
  do r <- call_ (FstatAt parent name);
  Ret (match r with
       | Err NotFound => Ok None
       | Err _ => Err (workspace_error (u "file_write_target_metadata_failed"))
       | Ok stat =>
         if is_symlink stat then Err (workspace_error (u "file_symlink_forbidden"))
         else
           let? _ := require_single_link_regular stat
                       (u "file_write_target_invalid") (u "file_hard_link_forbidden") in
           let owner_mode := N.land (st_mode stat) OWNER_BITS in
           if N.land owner_mode OWNER_WRITE =? 0 then
             Err (workspace_error (u "file_write_target_read_only"))
           else Ok (Some owner_mode)
       end).

Definition open_regular_file_for_read (parent : Fd) (component : str) : prog (Result Fd) :=
  try name <- lift (component_cstring component);
  or_code (u "file_read_open_failed") (call_ (OpenAt parent name HowRead)).

Definition open_exclusive_private_file_at (parent : Fd) (name : str) (mode : N) :
    prog (Result Fd) :=
  or_code (u "atomic_write_temp_create_failed") (call_ (OpenAt parent name (HowCreate mode))).

Definition open_verified_project_root (project : ProjectRef) : prog (Result Fd) :=
  try _ <- verify_project_sync project;
  try app_root_path <- lift (path_cstring (app_private_root self));
  try app_fd <- or_code (u "app_private_root_open_failed") (call_ (OpenPath app_root_path));
  try product_fd <- open_existing_dir_at app_fd PRODUCT_ROOT_NAME;
  try projects_fd <- open_existing_dir_at product_fd PROJECTS_ROOT_NAME;
  try project_fd <-
    open_existing_dir_at projects_fd (uuid_hyphenated (project_uuid (pr_id project)));
  try metadata <- or_code (u "project_root_metadata_failed")
                    (call_ (SymlinkMetadata (pr_root project)));
  if is_symlink metadata || negb (is_dir metadata) then
    Ret (Err (workspace_error (u "project_root_invalid_during_file_io")))
  else
    try stat <- fstat project_fd (u "project_root_fstat_failed");
    if negb (st_dev stat =? st_dev metadata) || negb (st_ino stat =? st_ino metadata) then
      Ret (Err (workspace_error (u "project_root_changed_during_open")))
    else if negb (is_dir stat) then
      Ret (Err (workspace_error (u "project_root_not_directory_during_open")))
    else Ret (Ok project_fd).

(** The loop of [open_parent] over the components before the last. *)
Fixpoint open_parents (current : Fd) (parents : list str) : prog (Result Fd) :=
  match parents with
  | [] => Ret (Ok current)
  | component :: parents =>
    try current <- open_existing_dir_at current component;
    open_parents current parents
  end.

Definition open_parent (project : ProjectRef) (components : list str) :
    prog (Result (Fd * str)) :=
  try name <- lift (ok_or (last components) (workspace_error (u "file_path_empty")));
  try current <- open_verified_project_root project;
  try current <- open_parents current (removelast components);
  Ret (Ok (current, name)).

Fixpoint create_dirs (current : Fd) (components : list str) : prog (Result unit) :=
  match components with
  | [] => Ret (Ok tt)
  | component :: components =>
    try current <- open_or_create_private_dir_at current component;
    create_dirs current components
  end.

Definition create_dir_all (project : ProjectRef) (relative : os_path) : prog (Result unit) :=
  try components <- lift (validate_relative_path relative);
  try current <- open_verified_project_root project;
  create_dirs current components.

Definition size_exceeds (stat : stat) (max_bytes : N) : bool :=
  (st_size stat <? 0)%Z || (Z.of_N max_bytes <? st_size stat)%Z.

(** The end of [read_file] and of [read_verified_regular_at]. *)
Definition read_bounded (fd : Fd) (max_bytes : N) : prog (Result bytes) :=
  try output <- or_code (u "file_read_failed") (call_ (ReadToEnd fd (max_bytes + 1)));
  let output := take_bytes (max_bytes + 1) output in
  Ret (if max_bytes <? len output then Err (workspace_error (u "file_read_too_large"))
       else Ok output).

Definition read_file (project : ProjectRef) (relative : os_path) (max_bytes : N) :
    prog (Result bytes) :=
  if (max_bytes =? 0) || (MAX_FILE_READ_BYTES <? max_bytes) then
    Ret (Err (workspace_error (u "file_read_limit_invalid")))
  else
    try components <- lift (validate_relative_path relative);
    try (parent, name) <- open_parent project components;
    try expected <- inspect_existing_read_target parent name;
    if size_exceeds expected max_bytes then
      Ret (Err (workspace_error (u "file_read_too_large")))
    else
      try fd <- open_regular_file_for_read parent name;
      try stat <- fstat fd (u "file_read_stat_failed");
      try _ <- lift (require_single_link_regular stat (u "file_read_target_invalid")
                       (u "file_hard_link_forbidden"));
      if negb (same_inode stat expected) then
        Ret (Err (workspace_error (u "file_changed_during_open")))
      else if size_exceeds stat max_bytes then
        Ret (Err (workspace_error (u "file_read_too_large")))
      else read_bounded fd max_bytes.

Definition regular_file_exists (project : ProjectRef) (relative : os_path) :
    prog (Result bool) :=
  try components <- lift (validate_relative_path relative);
  try (parent, name) <- open_parent project components;
  try o <- inspect_optional_read_target parent name;
  Ret (Ok (is_some o)).

(** [Uuid::new_v4().simple()] after the reserved prefix; [CString::new]. *)
Definition new_temp_name : prog (Result str) :=
  do id <- call_ NewUuid;
  let name := INTERNAL_TEMP_PREFIX ++ uuid_simple id in
  Ret (if contains_char 0 name
       then Err (workspace_error (u "atomic_write_temp_name_invalid")) else Ok name).

(** From the mode of the temporary file to its [sync_all]; the codes of
    [atomic_write_file] and [apply_text_patch_pairs] differ in their prefix. *)
Definition fill_temp (prefix : str) (temp_fd : Fd) (mode : N) (contents : bytes) :
    prog (Result unit) :=
  try _ <- or_code (prefix ++ u "_temp_mode_failed") (call_ (Fchmod temp_fd mode));
  try temp_stat <- fstat temp_fd (prefix ++ u "_temp_stat_failed");
  try _ <- lift (require_single_link_regular temp_stat (prefix ++ u "_temp_invalid")
                   (prefix ++ u "_temp_hard_linked"));
  try _ <- or_code (prefix ++ u "_data_failed") (call_ (WriteAll temp_fd contents));
  or_code (prefix ++ u "_file_sync_failed") (call_ (SyncAll temp_fd)).

(** [TempCleanup] around the code up to the rename: any error before the guard is
    disarmed unlinks the temporary file. *)
Definition with_cleanup (parent : Fd) (temp_name : str) (body : prog (Result unit)) :
    prog (Result unit) :=
  do r <- body;
  match r with
  | Ok _ => Ret (Ok tt)
  | Err error =>
    do _ <- call_ (UnlinkAt parent temp_name false);
    Ret (Err error)
  end.

Definition atomic_write_file (project : ProjectRef) (relative : os_path) (contents : bytes) :
    prog (Result unit) :=
  if MAX_FILE_WRITE_BYTES <? len contents then
    Ret (Err (workspace_error (u "file_write_too_large")))
  else
    try components <- lift (validate_relative_path relative);
    try (parent, name) <- open_parent project components;
    try mode <- inspect_existing_write_target parent name;
    let target_mode := default PRIVATE_FILE_MODE mode in
    try temp_name <- new_temp_name;
    try target_name <- lift (component_cstring name);
    try temp_fd <- open_exclusive_private_file_at parent temp_name target_mode;
    try _ <- with_cleanup parent temp_name (
      try _ <- fill_temp (u "atomic_write") temp_fd target_mode contents;
      or_code (u "atomic_write_rename_failed")
        (call_ (RenameAt parent temp_name parent target_name)));
    or_code (u "atomic_write_parent_sync_failed") (call_ (Fsync parent)).

Definition read_verified_regular_at (parent : Fd) (name : str) (expected : stat)
    (max_bytes : N) (error_prefix : str) : prog (Result bytes) :=
  try fd <- open_regular_file_for_read parent name;
  try stat <- fstat fd (u "file_read_stat_failed");
  try _ <- lift (require_single_link_regular stat (u "file_read_target_invalid")
                   (u "file_hard_link_forbidden"));
  if negb (same_inode stat expected) then
    Ret (Err (workspace_error
      (if str_eqb error_prefix (u "text_edit") || str_eqb error_prefix (u "text_edit_recheck")
       then u "text_edit_target_changed" else u "file_changed_during_open")))
  else if size_exceeds stat max_bytes then
    Ret (Err (workspace_error (u "file_read_too_large")))
  else read_bounded fd max_bytes.

(** The re-read of the target right before the rename. *)
Definition recheck_target (parent : Fd) (name : str) (initial_stat : stat) (owner_mode : N)
    (original : bytes) : prog (Result unit) :=
  try current_stat <- inspect_existing_read_target parent name;
  if negb (same_inode current_stat initial_stat)
     || negb (N.land (st_mode current_stat) OWNER_BITS =? owner_mode) then
    Ret (Err (workspace_error (u "text_edit_target_changed")))
  else
    try current <- read_verified_regular_at parent name current_stat MAX_FILE_WRITE_BYTES
                     (u "text_edit_recheck");
    Ret (if negb (bool_decide (current = original))
         then Err (workspace_error (u "text_edit_target_changed")) else Ok tt).

(** The replacement of the target by [updated], from the temporary file on. *)
Definition replace_target (parent : Fd) (name : str) (initial_stat : stat) (owner_mode : N)
    (original updated : bytes) : prog (Result unit) :=
  try temp_name <- new_temp_name;
  try target_name <- lift (component_cstring name);
  try temp_fd <- open_exclusive_private_file_at parent temp_name owner_mode;
  try _ <- with_cleanup parent temp_name (
    try _ <- fill_temp (u "text_edit") temp_fd owner_mode updated;
    try _ <- recheck_target parent name initial_stat owner_mode original;
    or_code (u "text_edit_rename_failed")
      (call_ (RenameAt parent temp_name parent target_name)));
  or_code (u "text_edit_parent_sync_failed") (call_ (Fsync parent)).

Definition apply_text_patch_pairs (project : ProjectRef) (relative : os_path)
    (hunks : list (str * str)) : prog (Result TextPatchResult) :=
  if bool_decide (hunks = []) || (MAX_TEXT_PATCH_HUNKS <? len hunks) then
    Ret (Err (workspace_error (u "text_patch_hunk_count_invalid")))
  else
    try _ <- lift (check_hunks 0 hunks);
    try components <- lift (validate_relative_path relative);
    try (parent, name) <- open_parent project components;
    try initial_stat <- inspect_existing_read_target parent name;
    let owner_mode := N.land (st_mode initial_stat) OWNER_BITS in
    if N.land owner_mode OWNER_WRITE =? 0 then
      Ret (Err (workspace_error (u "file_write_target_read_only")))
    else if size_exceeds initial_stat MAX_FILE_WRITE_BYTES then
      Ret (Err (workspace_error (u "text_edit_file_too_large")))
    else
      try original <- read_verified_regular_at parent name initial_stat MAX_FILE_WRITE_BYTES
                        (u "text_edit");
      try original_text <- lift (ok_or (from_utf8 original)
                                   (workspace_error (u "text_edit_file_not_utf8")));
      try updated <- lift (apply_hunks original_text hunks);
      let result := {| hunks_applied := len hunks; patch_bytes_before := len original;
                       patch_bytes_after := blen updated |} in
      if bool_decide (as_bytes updated = original) then Ret (Ok result)
      else
        try _ <- replace_target parent name initial_stat owner_mode original (as_bytes updated);
        Ret (Ok result).

Definition edit_text_file (project : ProjectRef) (relative : os_path)
    (expected replacement : str) : prog (Result TextEditResult) :=
  try result <- apply_text_patch_pairs project relative [(expected, replacement)];
  Ret (Ok {| replacements := hunks_applied result; bytes_before := patch_bytes_before result;
             bytes_after := patch_bytes_after result |}).

Definition apply_text_patch (project : ProjectRef) (relative : os_path)
    (hunks : list TextPatchHunk) : prog (Result TextPatchResult) :=
  if bool_decide (hunks = []) || (MAX_TEXT_PATCH_HUNKS <? len hunks) then
    Ret (Err (workspace_error (u "text_patch_hunk_count_invalid")))
  else
    let pairs := (fun hunk => (expected hunk, replacement hunk)) <$> hunks in
    apply_text_patch_pairs project relative pairs.

(** ** Listing and searching *)

(** The loop over [readdir] of [read_dir_names]. *)
Fixpoint keep_names (names : list str) (skipped : N) (raws : list bytes) : list str * N :=
  match raws with
  | [] => (names, skipped)
  | raw :: raws =>
    if bool_decide (raw = as_bytes dot) || bool_decide (raw = as_bytes dotdot) then
      keep_names names skipped raws
    else
      match from_utf8 raw with
      | None => keep_names names (saturating_add u32_max skipped 1) raws
      | Some name =>
        if bool_decide (name = []) || (MAX_COMPONENT_BYTES <? blen name)
           || existsb is_control name || contains_char 92 name
        then keep_names names (saturating_add u32_max skipped 1) raws
        else keep_names (names ++ [name]) skipped raws
      end
  end.

Definition read_dir_names (dir_fd : Fd) : prog (Result (list str * N)) :=
  try duplicate <- or_code (u "project_list_dir_dup_failed") (call_ (DupFd dir_fd));
  do stream <- call_ (FdOpenDir duplicate);
  match stream with
  | Err _ =>
    do _ <- call_ (CloseFd duplicate);
    Ret (Err (workspace_error (u "project_list_fdopendir_failed")))
  | Ok _ =>
    do (raws, errno_set) <- call_ (ReadDirAll duplicate);
    if errno_set then Ret (Err (workspace_error (u "project_list_readdir_failed")))
    else
      let (names, skipped) := keep_names [] 0 raws in
      Ret (Ok (sort_by id names, skipped))
  end.

Record WalkState := {
  w_files : list ProjectFileEntry;
  w_skipped : N;
  entries_seen : N;
  w_truncated : bool;
  max_files : N
}.

Definition skip_entry (s : WalkState) (n : N) : WalkState :=
  {| w_files := w_files s; w_skipped := saturating_add u32_max (w_skipped s) n;
     entries_seen := entries_seen s; w_truncated := w_truncated s; max_files := max_files s |}.
Definition set_truncated (s : WalkState) : WalkState :=
  {| w_files := w_files s; w_skipped := w_skipped s; entries_seen := entries_seen s;
     w_truncated := true; max_files := max_files s |}.
Definition see_entry (s : WalkState) : WalkState :=
  {| w_files := w_files s; w_skipped := w_skipped s; entries_seen := entries_seen s + 1;
     w_truncated := w_truncated s; max_files := max_files s |}.
Definition push_file (s : WalkState) (f : ProjectFileEntry) : WalkState :=
  {| w_files := w_files s ++ [f]; w_skipped := w_skipped s; entries_seen := entries_seen s;
     w_truncated := w_truncated s; max_files := max_files s |}.

(** One regular file of [walk_project_dir]; [false] ends the walk. *)
Definition visit_regular (relative : str) (stat : stat) (state : WalkState) : WalkState * bool :=
  if negb (st_nlink stat =? 1) || (st_size stat <? 0)%Z then (skip_entry state 1, true)
  else if max_files state <=? len (w_files state) then (set_truncated state, false)
  else
    (push_file state
       {| relative_path := relative; size_bytes := Z.to_N (st_size stat);
          owner_executable := negb (N.land (st_mode stat) OWNER_EXECUTE =? 0) |}, true).

(** The loop of [walk_project_dir] over the names of one directory; [walk] is the
    recursive call. *)
Fixpoint visit_names (walk : Fd -> str -> N -> WalkState -> prog (Result WalkState))
    (dir_fd : Fd) (prefix : str) (depth : N) (names : list str) (state : WalkState) :
    prog (Result WalkState) :=
  match names with
  | [] => Ret (Ok state)
  | name :: names =>
    let visit := visit_names walk dir_fd prefix depth names in
    if MAX_PROJECT_WALK_ENTRIES <=? entries_seen state then Ret (Ok (set_truncated state))
    else
      let state := see_entry state in
      if starts_with INTERNAL_TEMP_PREFIX name then visit (skip_entry state 1)
      else
        do r <- stat_entry_nofollow dir_fd name;
        match r with
        | Err _ => visit (skip_entry state 1)
        | Ok stat =>
          let relative := if bool_decide (prefix = []) then name else prefix ++ slash :: name in
          if MAX_RELATIVE_PATH_BYTES <? blen relative then
            let state := skip_entry state 1 in
            visit (if is_dir stat then set_truncated state else state)
          else if is_dir stat then
            if MAX_PROJECT_SEARCH_DEPTH <=? depth then visit (set_truncated state)
            else
              do r <- try_open_existing_dir_at dir_fd name;
              match r with
              | Err _ => visit (set_truncated (skip_entry state 1))
              | Ok child =>
                try state <- walk child relative (depth + 1) state;
                if w_truncated state then Ret (Ok state) else visit state
              end
          else if file_kind stat =? S_IFREG then
            let (state, continue) := visit_regular relative stat state in
            if continue then visit state else Ret (Ok state)
          else visit (skip_entry state 1)
        end
  end.

(** The recursion enters a directory of depth [d] with [64 + 1 - d] units of fuel,
    so the fuel is spent exactly where the code finds
    [depth > MAX_PROJECT_SEARCH_DEPTH]. *)
Fixpoint walk_project_dir (fuel : nat) (dir_fd : Fd) (prefix : str) (depth : N)
    (state : WalkState) : prog (Result WalkState) :=
  if w_truncated state then Ret (Ok state)
  else
    match fuel with
    | O => Ret (Ok (set_truncated state))
    | S fuel =>
      try (names, skipped_names) <- read_dir_names dir_fd;
      visit_names (walk_project_dir fuel) dir_fd prefix depth names
        (skip_entry state skipped_names)
    end.

Definition WALK_FUEL : nat := 65.

Definition list_project_files (project : ProjectRef) (max_entries : N) :
    prog (Result ProjectFileList) :=
  if (max_entries =? 0) || (MAX_PROJECT_LIST_ENTRIES <? max_entries) then
    Ret (Err (workspace_error (u "project_list_limit_invalid")))
  else
    try root <- open_verified_project_root project;
    try state <- walk_project_dir WALK_FUEL root [] 0
      {| w_files := []; w_skipped := 0; entries_seen := 0; w_truncated := false;
         max_files := max_entries |};
    Ret (Ok {| files := sort_by relative_path (w_files state);
               skipped_entries := w_skipped state; list_truncated := w_truncated state |}).

Definition skip_file (r : ProjectTextSearchResult) : ProjectTextSearchResult :=
  {| matches := matches r; files_scanned := files_scanned r;
     files_skipped := saturating_add u32_max (files_skipped r) 1;
     bytes_scanned := bytes_scanned r; truncated := truncated r |}.
Definition truncate_search (r : ProjectTextSearchResult) : ProjectTextSearchResult :=
  {| matches := matches r; files_scanned := files_scanned r; files_skipped := files_skipped r;
     bytes_scanned := bytes_scanned r; truncated := true |}.
Definition add_bytes (r : ProjectTextSearchResult) (n : N) : ProjectTextSearchResult :=
  {| matches := matches r; files_scanned := files_scanned r; files_skipped := files_skipped r;
     bytes_scanned := saturating_add u64_max (bytes_scanned r) n; truncated := truncated r |}.
Definition scan_file (r : ProjectTextSearchResult) : ProjectTextSearchResult :=
  {| matches := matches r; files_scanned := saturating_add u32_max (files_scanned r) 1;
     files_skipped := files_skipped r; bytes_scanned := bytes_scanned r;
     truncated := truncated r |}.
Definition push_match (r : ProjectTextSearchResult) (m : ProjectTextMatch) :
    ProjectTextSearchResult :=
  {| matches := matches r ++ [m]; files_scanned := files_scanned r;
     files_skipped := files_skipped r; bytes_scanned := bytes_scanned r;
     truncated := truncated r |}.

(** The loop over [match_indices]; [false] when the match limit ends the search. *)
Fixpoint collect_matches (path text : str) (max_matches : N) (indices : list N)
    (result : ProjectTextSearchResult) : ProjectTextSearchResult * bool :=
  match indices with
  | [] => (result, true)
  | byte_index :: indices =>
    if max_matches <=? len (matches result) then (truncate_search result, false)
    else
      let '(line, column, preview) := locate_text_match text byte_index in
      collect_matches path text max_matches indices
        (push_match result {| match_path := path; line := line; column := column;
                              preview := preview |})
  end.

(** The loop over the listed files of [search_project_text]. *)
Fixpoint search_files (project : ProjectRef) (needle : str) (max_matches : N)
    (entries : list ProjectFileEntry) (result : ProjectTextSearchResult) :
    prog (Result ProjectTextSearchResult) :=
  match entries with
  | [] => Ret (Ok result)
  | entry :: entries =>
    if MAX_PROJECT_SEARCH_FILE_BYTES <? size_bytes entry then
      search_files project needle max_matches entries (skip_file result)
    else if MAX_PROJECT_SEARCH_TOTAL_BYTES
            <? saturating_add u64_max (bytes_scanned result) (size_bytes entry) then
      Ret (Ok (truncate_search result))
    else
      do r <- read_file project (Utf8Path (relative_path entry)) MAX_PROJECT_SEARCH_FILE_BYTES;
      match r with
      | Err _ => search_files project needle max_matches entries (skip_file result)
      | Ok bytes =>
        if MAX_PROJECT_SEARCH_TOTAL_BYTES
           <? saturating_add u64_max (bytes_scanned result) (len bytes) then
          Ret (Ok (truncate_search result))
        else
          let result := add_bytes result (len bytes) in
          match from_utf8 bytes with
          | None => search_files project needle max_matches entries (skip_file result)
          | Some text =>
            let (result, continue) :=
              collect_matches (relative_path entry) text max_matches
                (match_indices needle text) (scan_file result) in
            if continue then search_files project needle max_matches entries result
            else Ret (Ok result)
          end
      end
  end.

Definition search_project_text (project : ProjectRef) (needle : str) (max_matches : N) :
    prog (Result ProjectTextSearchResult) :=
  if bool_decide (needle = []) then Ret (Err (workspace_error (u "project_search_needle_empty")))
  else if (4096 <? blen needle) || contains_char 0 needle then
    Ret (Err (workspace_error (u "project_search_needle_invalid")))
  else if (max_matches =? 0) || (MAX_PROJECT_SEARCH_MATCHES <? max_matches) then
    Ret (Err (workspace_error (u "project_search_match_limit_invalid")))
  else
    try listing <- list_project_files project MAX_PROJECT_SEARCH_FILES;
    search_files project needle max_matches (files listing)
      {| matches := []; files_scanned := 0; files_skipped := skipped_entries listing;
         bytes_scanned := 0; truncated := list_truncated listing |}.

End operations.
