(* ===== verification/WorkspaceSafety.v ===== *)
(** * What the workspace operations do to the file system

    In every run of the operations of [Workspace.v] the calls stay below the project
    directory: a monitor ([Program.v]) follows the descriptors that are opened. *)
From S2P Require Import Prelude RustStr StrFacts RustPath Program OsCalls Domain.
From S2P Require Import WorkspaceContract WorkspaceText Workspace.

(** What the [uuid] crate's spellings consist of: hexadecimal digits and hyphens. *)
Class UuidFileNames `{UuidLib} : Prop :=
  uuid_file_names : forall id,
    plain_name (uuid_hyphenated id) /\ (slash ∉ uuid_simple id).

(** ** The confinement monitor *)

(** A name that denotes an entry of the directory it is looked up in. *)
Definition file_name (s : str) : Prop := plain_name s /\ (0 ∉ s).

(** The descriptors the run has opened, with their path below the application's
    private directory. *)
Abbreviation opened := (list (N * list str)).

Section confinement.
Context `{UuidFileNames} (self : LocalWorkspaceRuntime) (project : ProjectRef).

Definition project_base : list str :=
  [PRODUCT_ROOT_NAME; PROJECTS_ROOT_NAME; uuid_hyphenated (project_uuid (pr_id project))].

(** A descriptor at or below the project directory. *)
Definition below (s : opened) (fd : N) : Prop := exists path, (fd, project_base ++ path) ∈ s.

(** Directories are opened along the path to the project and below it only. *)
Definition may_enter (s : opened) (fd : N) (name : str) : Prop :=
  exists path, (fd, path) ∈ s /\
    (project_base `prefix_of` path \/ path ++ [name] `prefix_of` project_base).

Definition confined_call (s : opened) (e : event os_sig) : Prop :=
  match ev_call e with
  | OpenPath path => path = app_private_root self
  | SymlinkMetadata path | Metadata path | Canonicalize path =>
    path = pr_root project \/ path = expected_project_root self (pr_id project)
  | OpenAt dir name HowDirectory => file_name name /\ may_enter s dir name
  | OpenAt dir name _ | FstatAt dir name | MkdirAt dir name _ | UnlinkAt dir name _ =>
    file_name name /\ below s dir
  | RenameAt dir from todir to =>
    todir = dir /\ file_name from /\ file_name to /\ below s dir
  | CreateDir _ | RemoveDir _ | RemoveDirAll _ | PathExists _ => False
  | _ => True
  end.

Definition note_opened (s : opened) (e : event os_sig) : opened :=
  match ev_call e as c return resp c -> opened with
  | OpenPath _ => fun r => match r with Ok fd => (fd, []) :: s | Err _ => s end
  | OpenAt dir name HowDirectory => fun r =>
    match r with
    | Ok fd => ((fun dp => (fd, dp.2 ++ [name])) <$> filter (fun dp => dp.1 = dir) s) ++ s
    | Err _ => s
    end
  | _ => fun _ => s
  end (ev_resp e).

(** POSIX: the name of a directory entry has no slash. *)
Definition entry_names (e : event os_sig) : Prop :=
  match ev_call e as c return resp c -> Prop with
  | ReadDirAll _ => fun r => Forall (fun raw => slash ∉ raw) r.1
  | _ => fun _ => True
  end (ev_resp e).

(** Every run of [p], with any answers, is accepted by the monitor. *)
Definition confined {A} (p : prog A) : Prop :=
  forall tr a, runs p tr a -> Forall entry_names tr ->
    accepted confined_call note_opened [] tr.

(** ** Rules *)

Definition safe {E A} (p : prog (result E A)) (Q : opened -> A -> Prop) (s : opened) : Prop :=
  wp entry_names confined_call note_opened p
    (fun s' r => s ⊆ s' /\ forall a, r = Ok a -> Q s' a) s.

Lemma note_opened_mono s e : s ⊆ note_opened s e.
Proof.
  destruct e as [c r]. unfold note_opened. destruct c; cbn in *; try done.
  - destruct r; set_solver.
  - destruct how; try done. destruct r; set_solver.
Qed.

Lemma safe_confined {E A} (p : prog (result E A)) Q : safe p Q [] -> confined p.
Proof. intros Hs tr a Hr He. by destruct (wp_sound _ _ _ _ _ _ _ _ Hs Hr He). Qed.

Lemma safe_ret {E A} (r : result E A) (Q : opened -> A -> Prop) s :
  (forall a, r = Ok a -> Q s a) -> safe (Ret r) Q s.
Proof. by split. Qed.

Lemma safe_mono {E A} (p : prog (result E A)) (Q Q' : opened -> A -> Prop) s :
  safe p Q s -> (forall s' a, s ⊆ s' -> Q s' a -> Q' s' a) -> safe p Q' s.
Proof. intros H' HQ. eapply wp_mono; [exact H'|]. cbn. naive_solver. Qed.

Lemma safe_weaken {E A} (p : prog (result E A)) Q s s' :
  s ⊆ s' -> safe p Q s' ->
  wp entry_names confined_call note_opened p (fun s'' r => s ⊆ s'' /\ forall a, r = Ok a -> Q s'' a) s'.
Proof. intros Hs Hp. eapply wp_mono; [exact Hp|]. cbn. intros s'' a [? ?]. split; [set_solver|done]. Qed.

Lemma safe_do {E F A B} (p : prog (result F B)) (k : result F B -> prog (result E A))
    (Q1 : opened -> B -> Prop) Q s :
  safe p Q1 s ->
  (forall s' r, s ⊆ s' -> (forall b, r = Ok b -> Q1 s' b) -> safe (k r) Q s') ->
  safe (bind p k) Q s.
Proof.
  intros Hp Hk. apply wp_bind. eapply wp_mono; [exact Hp|]. cbn. intros s' r [Hs HQ].
  apply safe_weaken; [done|]. by apply Hk.
Qed.

Lemma safe_try {E A B} (p : prog (result E B)) (k : B -> prog (result E A))
    (Q1 : opened -> B -> Prop) Q s :
  safe p Q1 s -> (forall s' b, s ⊆ s' -> Q1 s' b -> safe (k b) Q s') ->
  safe (bind p (fun r => match r with Ok b => k b | Err err => Ret (Err err) end)) Q s.
Proof.
  intros Hp Hk. eapply safe_do; [exact Hp|]. intros s' [b|err] Hs HQ; [|by apply safe_ret].
  apply Hk; [done|]. by apply HQ.
Qed.

Lemma safe_call {E A} c (k : resp c -> prog (result E A)) Q s :
  (forall r, entry_names (Ev c r) -> confined_call s (Ev c r)) ->
  (forall r, entry_names (Ev c r) -> safe (k r) Q (note_opened s (Ev c r))) ->
  safe (bind (call_ c) k) Q s.
Proof.
  intros Hc Hk r Hr. split; [by apply Hc|]. apply safe_weaken; [apply note_opened_mono|].
  by apply Hk.
Qed.

Lemma safe_or_code {A} code (p : prog (IoResult A)) Q s : safe p Q s -> safe (or_code code p) Q s.
Proof.
  intros Hp. unfold or_code. eapply safe_do; [exact Hp|]. intros s' [a|err] _ HQ; apply safe_ret; naive_solver.
Qed.

Lemma below_mono s s' fd : s ⊆ s' -> below s fd -> below s' fd.
Proof. intros Hs (path & Hp). exists path. by apply Hs. Qed.

(** ** The operations *)

(** Any [match] or [if] between two calls. *)
Ltac safe_cases :=
  repeat match goal with
  | |- safe (match ?x with _ => _ end) _ _ => destruct x
  end.

(** A call whose answer is the result. *)
Ltac safe_last :=
  match goal with |- safe (call_ ?c) ?Q ?s => refine (safe_call c Ret Q s _ _) end.

Definition anything {A} : opened -> A -> Prop := fun _ _ => True.

Lemma safe_ret_any {E A} (r : result E A) s : safe (Ret r) anything s.
Proof. by apply safe_ret. Qed.

Definition root_path (path : str) : Prop :=
  path = pr_root project \/ path = expected_project_root self (pr_id project).

Lemma safe_reject path code s :
  root_path path -> safe (reject_symlink_if_present path code) anything s.
Proof. intros Hp. apply safe_call; [done|]. intros r _. apply safe_ret_any. Qed.

Lemma safe_canonical path code s :
  root_path path -> safe (canonical_existing_dir path code) anything s.
Proof.
  intros Hp. eapply safe_try with (Q1 := anything).
  { apply safe_or_code. safe_last; [done|]. intros; apply safe_ret_any. }
  intros s' m _ _. safe_cases; [apply safe_ret_any|].
  apply safe_or_code. safe_last; [done|]. intros; apply safe_ret_any.
Qed.

Lemma safe_verify s : safe (verify_project_sync self project) anything s.
Proof.
  unfold verify_project_sync. safe_cases; try apply safe_ret_any.
  eapply safe_try; [apply safe_reject; by right|]. intros s1 _ _ _.
  eapply safe_try; [apply safe_canonical; by right|]. intros s2 c _ _.
  safe_cases; apply safe_ret_any.
Qed.

(** Opening a directory along the path or below it. *)
Lemma safe_enter dir name path s :
  plain_name name -> (dir, path) ∈ s ->
  (project_base `prefix_of` path \/ path ++ [name] `prefix_of` project_base) ->
  safe (try_open_existing_dir_at dir name) (fun s' fd => (fd, path ++ [name]) ∈ s') s.
Proof.
  intros Hn Hin Hpath. unfold try_open_existing_dir_at.
  destruct (contains_char 0 name) eqn:Ez; [by apply safe_ret|].
  apply contains_char_false in Ez.
  safe_last.
  - intros r _. split; [done|]. by exists path.
  - intros r _. apply safe_ret. intros fd ->. cbn. apply elem_of_app. left.
    apply list_elem_of_fmap. exists (dir, path). split; [done|]. by apply list_elem_of_filter.
Qed.

Lemma safe_enter_below dir name s :
  plain_name name -> below s dir ->
  safe (try_open_existing_dir_at dir name) below s.
Proof.
  intros Hn (path & Hin). eapply safe_mono;
    [eapply safe_enter; [done|exact Hin|left; by apply prefix_app_r]|].
  cbn. intros s' fd _ Hfd. exists (path ++ [name]). by rewrite app_assoc.
Qed.

Lemma product_names : plain_name PRODUCT_ROOT_NAME /\ plain_name PROJECTS_ROOT_NAME.
Proof. split; (split_and!; [done|apply contains_char_false; by vm_compute|done|done]). Qed.

Lemma safe_open_root s : safe (open_verified_project_root self project) below s.
Proof.
  unfold open_verified_project_root. destruct product_names as [Hn1 Hn2].
  destruct (uuid_file_names (project_uuid (pr_id project))) as [Hn3 _].
  eapply safe_try; [apply safe_verify|]. intros s1 _ _ _.
  eapply safe_try with (Q1 := fun _ p => p = app_private_root self).
  { apply safe_ret. unfold path_cstring. by intros a [_ [= ->]]%if_err_ok. }
  intros s2 p _ ->. eapply safe_try with (Q1 := fun s fd => (fd, []) ∈ s).
  { apply safe_or_code. safe_last; [done|]. intros r _.
    apply safe_ret. intros fd ->. cbn. by left. }
  intros s3 fd1 _ H1. eapply safe_try.
  { apply safe_or_code. eapply (safe_enter fd1 _ []); [exact Hn1|done|right].
    by exists [PROJECTS_ROOT_NAME; uuid_hyphenated (project_uuid (pr_id project))]. }
  intros s4 fd2 _ H2. eapply safe_try.
  { apply safe_or_code. eapply safe_enter; [exact Hn2|exact H2|right].
    by exists [uuid_hyphenated (project_uuid (pr_id project))]. }
  intros s5 fd3 _ H3. eapply safe_try.
  { apply safe_or_code. eapply safe_enter; [exact Hn3|exact H3|right]. done. }
  cbn beta. intros s6 fd4 _ H4. eapply safe_try with (Q1 := anything).
  { apply safe_or_code. safe_last; [by left|]. intros; apply safe_ret_any. }
  intros s7 md Hs7 _. destruct (_ || _); [by apply safe_ret|].
  eapply safe_try with (Q1 := anything).
  { apply safe_or_code. safe_last; [done|]. intros; apply safe_ret_any. }
  intros s8 st Hs8 _. safe_cases; apply safe_ret; try done.
  intros a [= <-]. exists []. rewrite app_nil_r. by apply Hs8, Hs7.
Qed.

Lemma validate_components_plain output cs ns :
  Forall plain_name output -> (forall n, Normal n ∈ cs -> plain_name n) ->
  validate_components output cs = Ok ns -> Forall plain_name ns.
Proof.
  revert output. induction cs as [|c cs IH]; intros output Ho Hcs; [by intros [= <-]|].
  destruct c as [| | |value]; try done; cbn [validate_components].
  - apply IH; [done|]. intros n Hn. apply Hcs. by right.
  - intros [_ [_ Hrest]%if_err_ok]%if_err_ok. revert Hrest. apply IH.
    + apply Forall_app. split; [done|]. repeat constructor; apply Hcs; by left.
    + intros n Hn. apply Hcs. by right.
Qed.

Lemma validate_relative_plain path ns :
  validate_relative_path path = Ok ns -> Forall plain_name ns.
Proof.
  unfold validate_relative_path. intros [_ Hrest]%if_err_ok. destruct (ok_or _ _); [|done].
  apply if_err_ok in Hrest as [_ [_ Hrest]%if_err_ok].
  eapply validate_components_plain; [| |exact Hrest]; [constructor|].
  intros n. apply text_components_normal.
Qed.

Lemma safe_validate path s :
  safe (lift (validate_relative_path path)) (fun _ ns => Forall plain_name ns) s.
Proof. apply safe_ret. intros ns. apply validate_relative_plain. Qed.

Lemma safe_cstring name s :
  plain_name name -> safe (lift (component_cstring name)) (fun _ n => n = name /\ file_name n) s.
Proof.
  intros Hn. apply safe_ret. unfold component_cstring.
  intros a [Hz%contains_char_false [= <-]]%if_err_ok. done.
Qed.

Lemma safe_open_existing dir name s :
  plain_name name -> below s dir -> safe (open_existing_dir_at dir name) below s.
Proof. intros Hn Hd. by apply safe_or_code, safe_enter_below. Qed.

Lemma safe_open_parents parents dir s :
  Forall plain_name parents -> below s dir -> safe (open_parents dir parents) below s.
Proof.
  intros Hp. revert dir s. induction Hp as [|n ns Hn _ IH]; intros dir s Hd.
  - apply safe_ret. by intros a [= <-].
  - eapply safe_try; [by apply safe_open_existing|]. cbn beta. intros s' fd _ Hfd. by apply IH.
Qed.

Lemma safe_open_parent components s :
  Forall plain_name components ->
  safe (open_parent self project components)
    (fun s p => below s p.1 /\ plain_name p.2) s.
Proof.
  intros Hc. unfold open_parent. eapply safe_try with (Q1 := fun _ n => plain_name n).
  { apply safe_ret. intros n Hn%ok_or_Ok. rewrite Forall_forall in Hc.
    by apply Hc, last_Some_elem_of. }
  intros s1 name _ Hname. eapply safe_try; [apply safe_open_root|].
  intros s2 root _ Hroot. eapply safe_try; [apply safe_open_parents; [|exact Hroot]|].
  { rewrite Forall_forall in Hc. apply Forall_forall. intros n Hn. apply Hc.
    destruct components as [|c cs]; [done|].
    rewrite (app_removelast_last c) by done. apply elem_of_app. by left. }
  intros s3 fd _ Hfd. apply safe_ret. by intros a [= <-].
Qed.

Lemma safe_inspect_optional dir name s :
  plain_name name -> below s dir -> safe (inspect_optional_read_target dir name) anything s.
Proof.
  intros Hn Hd. eapply safe_try; [by apply safe_cstring|]. intros s1 n Hs [-> Hf].
  apply safe_call; [intros r _; split; [done|by eapply below_mono]|].
  intros r _. apply safe_ret_any.
Qed.

Lemma safe_inspect_existing dir name s :
  plain_name name -> below s dir -> safe (inspect_existing_read_target dir name) anything s.
Proof.
  intros Hn Hd. eapply safe_try; [by apply safe_inspect_optional|]. intros. apply safe_ret_any.
Qed.

Lemma safe_inspect_write dir name s :
  plain_name name -> below s dir -> safe (inspect_existing_write_target dir name) anything s.
Proof.
  intros Hn Hd. eapply safe_try; [by apply safe_cstring|]. intros s1 n Hs [-> Hf].
  apply safe_call; [intros r _; split; [done|by eapply below_mono]|].
  intros r _. apply safe_ret_any.
Qed.

Lemma safe_stat_entry dir name s :
  plain_name name -> below s dir -> safe (stat_entry_nofollow dir name) anything s.
Proof.
  intros Hn Hd. eapply safe_try; [by apply safe_cstring|]. intros s1 n Hs [-> Hf].
  apply safe_or_code. safe_last; [intros r _; split; [done|by eapply below_mono]|].
  intros r _. apply safe_ret_any.
Qed.

Lemma safe_open_regular dir name s :
  plain_name name -> below s dir -> safe (open_regular_file_for_read dir name) anything s.
Proof.
  intros Hn Hd. eapply safe_try; [by apply safe_cstring|]. intros s1 n Hs [-> Hf].
  apply safe_or_code. safe_last; [intros r _; split; [done|by eapply below_mono]|].
  intros r _. apply safe_ret_any.
Qed.

Lemma safe_fstat fd code s : safe (fstat fd code) anything s.
Proof. apply safe_or_code. safe_last; [done|]. intros. apply safe_ret_any. Qed.

Lemma safe_read_bounded fd n s : safe (read_bounded fd n) anything s.
Proof.
  eapply safe_try with (Q1 := anything).
  - apply safe_or_code. safe_last; [done|]. intros. apply safe_ret_any.
  - intros. apply safe_ret_any.
Qed.

Lemma safe_read_verified dir name st n prefix s :
  plain_name name -> below s dir ->
  safe (read_verified_regular_at dir name st n prefix) anything s.
Proof.
  intros Hn Hd. eapply safe_try; [by apply safe_open_regular|]. intros s1 fd _ _.
  eapply safe_try; [apply safe_fstat|]. intros s2 st' _ _.
  eapply safe_try; [apply safe_ret_any|]. intros s3 ? _ _.
  safe_cases; try apply safe_ret_any. apply safe_read_bounded.
Qed.

Lemma safe_new_temp s : safe new_temp_name (fun _ n => file_name n) s.
Proof.
  apply safe_call; [done|]. intros id _. apply safe_ret.
  intros n [Hz%contains_char_false [= <-]]%if_err_ok. split; [|done].
  destruct (uuid_file_names id) as [_ Hid].
  assert (slash ∉ INTERNAL_TEMP_PREFIX ++ uuid_simple id); [|by split_and!].
  apply not_elem_of_app. split; [|done]. apply contains_char_false. by vm_compute.
Qed.

Lemma safe_fill_temp prefix fd mode bs s : safe (fill_temp prefix fd mode bs) anything s.
Proof.
  unfold fill_temp. eapply safe_try with (Q1 := anything).
  { apply safe_or_code. safe_last; [done|]. intros. apply safe_ret_any. }
  intros s1 _ _ _. eapply safe_try; [apply safe_fstat|]. intros s2 st _ _.
  eapply safe_try; [apply safe_ret_any|]. intros s3 ? _ _. eapply safe_try with (Q1 := anything).
  { apply safe_or_code. safe_last; [done|]. intros. apply safe_ret_any. }
  intros s4 _ _ _. apply safe_or_code. safe_last; [done|]. intros. apply safe_ret_any.
Qed.

Lemma safe_with_cleanup dir temp body s :
  file_name temp -> below s dir -> safe body anything s ->
  safe (with_cleanup dir temp body) anything s.
Proof.
  intros Ht Hd Hb. eapply safe_do; [exact Hb|]. intros s1 [a|err] Hs _; [by apply safe_ret_any|].
  apply safe_call; [intros r _; split; [done|by eapply below_mono]|]. intros. apply safe_ret_any.
Qed.

Lemma safe_create_temp dir temp mode s :
  file_name temp -> below s dir -> safe (open_exclusive_private_file_at dir temp mode) anything s.
Proof.
  intros Ht Hd. apply safe_or_code. safe_last; [intros r _; by split|]. intros. apply safe_ret_any.
Qed.

Lemma safe_rename dir from to code s :
  file_name from -> file_name to -> below s dir ->
  safe (or_code code (call_ (RenameAt dir from dir to))) anything s.
Proof.
  intros Hf Ht Hd. apply safe_or_code. safe_last; [intros r _; by split_and!|].
  intros. apply safe_ret_any.
Qed.

Lemma safe_fsync fd code s : safe (or_code code (call_ (Fsync fd))) anything s.
Proof. apply safe_or_code. safe_last; [done|]. intros. apply safe_ret_any. Qed.

Hint Resolve below_mono : vibe.
Ltac below_solve := eauto 12 with nocore vibe.

Lemma safe_atomic_write path bs s : safe (atomic_write_file self project path bs) anything s.
Proof.
  unfold atomic_write_file. safe_cases; [apply safe_ret_any|].
  eapply safe_try; [apply safe_validate|]. intros s1 ns _ Hns. cbn beta in Hns.
  eapply safe_try; [by apply safe_open_parent|]. intros s2 [dir name] _ [Hd Hn]. cbn in Hd, Hn.
  eapply safe_try; [by apply safe_inspect_write|]. intros s3 mode Hs3 _.
  eapply safe_try; [apply safe_new_temp|]. intros s4 temp Hs4 Ht. cbn beta in Ht.
  eapply safe_try; [by apply safe_cstring|]. intros s5 target Hs5 [-> Hf].
  eapply safe_try; [apply safe_create_temp; [done|]; below_solve|]. intros s6 fd Hs6 _.
  eapply safe_try; [|intros; apply safe_fsync].
  apply safe_with_cleanup; [done|by below_solve|].
  eapply safe_try; [apply safe_fill_temp|]. intros s7 _ Hs7 _.
  apply safe_rename; [done|done|]. by below_solve.
Qed.

Lemma safe_recheck dir name st mode bs s :
  plain_name name -> below s dir -> safe (recheck_target dir name st mode bs) anything s.
Proof.
  intros Hn Hd. eapply safe_try; [by apply safe_inspect_existing|]. intros s1 st' Hs _.
  safe_cases; [apply safe_ret_any|].
  eapply safe_try; [apply safe_read_verified; [done|]; by below_solve|]. intros. apply safe_ret_any.
Qed.

Lemma safe_replace_target dir name st mode bs bs' s :
  plain_name name -> below s dir -> safe (replace_target dir name st mode bs bs') anything s.
Proof.
  intros Hn Hd. eapply safe_try; [apply safe_new_temp|]. intros s4 temp Hs4 Ht. cbn beta in Ht.
  eapply safe_try; [by apply safe_cstring|]. intros s5 target Hs5 [-> Hf].
  eapply safe_try; [apply safe_create_temp; [done|]; by below_solve|]. intros s6 fd Hs6 _.
  eapply safe_try; [|intros; apply safe_fsync].
  apply safe_with_cleanup; [done|by below_solve|].
  eapply safe_try; [apply safe_fill_temp|]. intros s7 _ Hs7 _.
  eapply safe_try; [apply safe_recheck; [done|]; by below_solve|]. intros s8 _ Hs8 _.
  apply safe_rename; [done|done|]. by below_solve.
Qed.

Lemma safe_patch path hunks s : safe (apply_text_patch_pairs self project path hunks) anything s.
Proof.
  unfold apply_text_patch_pairs. safe_cases; [apply safe_ret_any|].
  eapply safe_try; [apply safe_ret_any|]. intros s0 _ _ _.
  eapply safe_try; [apply safe_validate|]. intros s1 ns _ Hns. cbn beta in Hns.
  eapply safe_try; [by apply safe_open_parent|]. intros s2 [dir name] _ [Hd Hn]. cbn in Hd, Hn.
  eapply safe_try; [by apply safe_inspect_existing|]. intros s3 st Hs3 _.
  safe_cases; try apply safe_ret_any.
  eapply safe_try; [apply safe_read_verified; [done|]; by below_solve|]. intros s4 original Hs4 _.
  eapply safe_try; [apply safe_ret_any|]. intros s5 text Hs5 _.
  eapply safe_try; [apply safe_ret_any|]. intros s6 updated Hs6 _.
  safe_cases; [apply safe_ret_any|].
  eapply safe_try; [apply safe_replace_target; [done|]; by below_solve|]. intros. apply safe_ret_any.
Qed.

Lemma safe_open_or_create dir name s :
  plain_name name -> below s dir -> safe (open_or_create_private_dir_at dir name) below s.
Proof.
  intros Hn Hd. unfold open_or_create_private_dir_at.
  eapply safe_do; [by apply safe_enter_below|]. intros s1 first Hs1 Hfirst.
  destruct first as [fd|[]]; try (apply safe_ret; naive_solver).
  eapply safe_try; [by apply safe_cstring|]. intros s2 n Hs2 [-> Hf].
  apply safe_call; [intros r _; split; [done|by below_solve]|]. intros created _. cbn [note_opened ev_call ev_resp].
  eapply safe_try; [apply safe_ret_any|]. intros s3 ? Hs3 _.
  eapply safe_try; [apply safe_or_code, safe_enter_below; [done|by below_solve]|].
  intros s4 fd Hs4 Hfd. cbn beta in Hfd. destruct created as [|]; [|apply safe_ret; naive_solver].
  apply safe_call; [done|]. intros chmod _. destruct chmod; [apply safe_ret; naive_solver|].
  apply safe_call; [intros r _; split; [done|by below_solve]|]. intros. by apply safe_ret.
Qed.

Lemma safe_create_dirs ns dir s :
  Forall plain_name ns -> below s dir -> safe (create_dirs dir ns) anything s.
Proof.
  intros Hns. revert dir s. induction Hns as [|n ns Hn _ IH]; intros dir s Hd; [apply safe_ret_any|].
  eapply safe_try; [by apply safe_open_or_create|]. cbn beta. intros s1 fd _ Hfd. by apply IH.
Qed.

Lemma safe_read_file path n s : safe (read_file self project path n) anything s.
Proof.
  unfold read_file. safe_cases; [apply safe_ret_any|].
  eapply safe_try; [apply safe_validate|]. intros s1 ns _ Hns. cbn beta in Hns.
  eapply safe_try; [by apply safe_open_parent|]. intros s2 [dir name] _ [Hd Hn]. cbn in Hd, Hn.
  eapply safe_try; [by apply safe_inspect_existing|]. intros s3 st Hs3 _.
  safe_cases; [apply safe_ret_any|].
  eapply safe_try; [apply safe_open_regular; [done|by below_solve]|]. intros s4 fd _ _.
  eapply safe_try; [apply safe_fstat|]. intros s5 st' _ _.
  eapply safe_try; [apply safe_ret_any|]. intros s6 ? _ _.
  safe_cases; try apply safe_ret_any. apply safe_read_bounded.
Qed.

(** *** Listing *)

Lemma insert_by_elem {A} (key : A -> str) x l y : y ∈ insert_by key x l <-> y = x \/ y ∈ l.
Proof.
  induction l as [|z l IH]; simpl; [set_solver|].
  destruct (str_leb _ _); [set_solver|]. rewrite elem_of_cons, IH. set_solver.
Qed.

Lemma raw_name_plain raw name :
  from_utf8 raw = Some name -> raw <> as_bytes dot -> raw <> as_bytes dotdot -> name <> [] ->
  slash ∉ raw -> plain_name name.
Proof.
  unfold from_utf8. intros Hraw Hd Hdd Hne Hs. case_bool_decide as Heq; [|done].
  injection Hraw as Hn. rewrite Hn in Heq. subst raw. split_and!; [done| |congruence|congruence].
  intros Hin. apply Hs. unfold as_bytes. apply list_elem_of_bind. exists slash. split; [by left|done].
Qed.

Lemma keep_names_plain names n raws :
  Forall plain_name names -> Forall (fun raw => slash ∉ raw) raws ->
  Forall plain_name (keep_names names n raws).1.
Proof.
  intros Hn Hr. revert names n Hn. induction Hr as [|raw raws Hraw _ IH]; intros names n Hn; [done|].
  cbn [keep_names]. destruct (_ || _) eqn:Ed; [by apply IH|]. bool_prop.
  destruct (from_utf8 raw) as [name|] eqn:Er; [|by apply IH].
  destruct (_ || _ || _) eqn:En; [by apply IH|]. bool_prop. apply IH.
  apply Forall_app. split; [done|]. repeat constructor; by eapply raw_name_plain in Er as (? & ? & ? & ?).
Qed.

Lemma safe_read_dir_names dir s :
  safe (read_dir_names dir) (fun _ p => Forall plain_name p.1) s.
Proof.
  unfold read_dir_names. eapply safe_try with (Q1 := anything).
  { apply safe_or_code. safe_last; [done|]. intros. apply safe_ret_any. }
  intros s1 dup _ _. apply safe_call; [done|]. intros [|] _.
  - apply safe_call; [done|]. intros [raws err] Hraws. destruct err; [by apply safe_ret|].
    pose proof (keep_names_plain [] 0 raws ltac:(constructor) Hraws) as Hk.
    destruct (keep_names [] 0 raws) as [names sk]. apply safe_ret. intros ? [= <-].
    rewrite Forall_forall in Hk |- *. intros n Hin. by apply Hk, (sort_by_elem id).
  - apply safe_call; [done|]. intros ? _. by apply safe_ret.
Qed.

Lemma safe_walk fuel dir prefix depth st s :
  below s dir -> safe (walk_project_dir fuel dir prefix depth st) anything s.
Proof.
  revert dir prefix depth st s.
  induction fuel as [|fuel IH]; intros dir prefix depth st s Hd; cbn [walk_project_dir];
    (destruct (w_truncated st); [apply safe_ret_any|]); [apply safe_ret_any|].
  eapply safe_try; [apply safe_read_dir_names|]. intros s1 [names sk] Hs1 Hn. cbn in Hn.
  pose proof (below_mono _ _ _ Hs1 Hd) as Hd1. clear Hs1 Hd s. revert s1 Hd1.
  generalize (skip_entry st sk). induction Hn as [|name names Hname _ IHn]; intros st' s Hd;
    [apply safe_ret_any|]. cbn [visit_names].
  destruct (_ <=? _); [apply safe_ret_any|]. destruct (starts_with _ _); [by apply IHn|].
  eapply safe_do; [by apply safe_stat_entry|]. intros s2 r Hs2 _.
  pose proof (below_mono _ _ _ Hs2 Hd) as Hd2. clear Hs2 Hd. rename Hd2 into Hd.
  destruct r as [stt|]; [|by apply IHn]. destruct (_ <? _); [by apply IHn|].
  destruct (is_dir stt).
  - destruct (_ <=? _); [by apply IHn|].
    eapply safe_do; [by apply safe_enter_below|]. intros s3 [child|] Hs3 Hchild.
    + eapply safe_try; [apply IH; naive_solver|]. intros s4 st4 Hs4 _.
      destruct (w_truncated st4); [apply safe_ret_any|]. apply IHn. by below_solve.
    + apply IHn. by below_solve.
  - destruct (_ =? _); [|by apply IHn]. destruct (visit_regular _ _ _) as [st5 go].
    destruct go; [by apply IHn|apply safe_ret_any].
Qed.

Lemma safe_list n s : safe (list_project_files self project n) anything s.
Proof.
  unfold list_project_files. safe_cases; [apply safe_ret_any|].
  eapply safe_try; [apply safe_open_root|]. cbn beta. intros s1 root _ Hroot.
  eapply safe_try; [by apply safe_walk|]. intros. apply safe_ret_any.
Qed.

Lemma safe_search_files needle n entries r s :
  safe (search_files self project needle n entries r) anything s.
Proof.
  revert r s. induction entries as [|e entries IH]; intros r s; cbn [search_files];
    [apply safe_ret_any|].
  safe_cases; [apply IH|apply safe_ret_any|].
  eapply safe_do; [apply safe_read_file|]. intros s1 [bs|] _ _; [|apply IH].
  safe_cases; first [apply IH|apply safe_ret_any].
Qed.

Lemma safe_search needle n s : safe (search_project_text self project needle n) anything s.
Proof.
  unfold search_project_text. safe_cases; try apply safe_ret_any.
  eapply safe_try; [apply safe_list|]. intros. apply safe_search_files.
Qed.

End confinement.

(** ** Properties *)

(** C21. File operations stay inside the project.  In every run of every file
    operation, whatever the file system contains and however it changes between
    two calls, each call that looks at, opens, creates, renames or removes an entry
    names it by a single file name, neither [.] nor [..] and without a slash,
    relative to a descriptor that the run itself opened, without following links,
    by descending from the private root through the project directory's own path;
    absolute paths are only used to inspect the project root. *)
Theorem operations_stay_inside `{UuidFileNames} (self : LocalWorkspaceRuntime)
    (project : ProjectRef) :
  (forall path, confined self project (create_dir_all self project path)) /\
  (forall path max_bytes, confined self project (read_file self project path max_bytes)) /\
  (forall path, confined self project (regular_file_exists self project path)) /\
  (forall path contents, confined self project (atomic_write_file self project path contents)) /\
  (forall path e r, confined self project (edit_text_file self project path e r)) /\
  (forall path hunks, confined self project (apply_text_patch self project path hunks)) /\
  (forall n, confined self project (list_project_files self project n)) /\
  (forall needle n, confined self project (search_project_text self project needle n)).
Proof.
  split_and!; intros; eapply safe_confined.
  - unfold create_dir_all. eapply safe_try; [apply safe_validate|]. intros s1 ns _ Hns.
    eapply safe_try; [apply safe_open_root|]. intros s2 root _ Hroot. by apply safe_create_dirs.
  - apply safe_read_file.
  - unfold regular_file_exists. eapply safe_try; [apply safe_validate|]. intros s1 ns _ Hns.
    eapply safe_try; [by apply safe_open_parent|]. intros s2 [dir name] _ [Hd Hn].
    eapply safe_try; [by apply safe_inspect_optional|]. intros. apply safe_ret_any.
  - apply safe_atomic_write.
  - unfold edit_text_file. eapply safe_try; [apply safe_patch|]. intros. apply safe_ret_any.
  - unfold apply_text_patch. destruct (_ || _); [apply safe_ret_any|]. apply safe_patch.
  - apply safe_list.
  - apply safe_search.
Qed.

(** ** Concrete cases *)

Definition ex_uuid_names : UuidLib :=
  {| uuid_hyphenated id := u "p" ++ replicate (N.to_nat id) 97;
     uuid_simple id := replicate (N.to_nat id) 97;
     uuid_parse s := Some (N.of_nat (length s - 1)) |}.

Lemma ex_uuid_names_laws : @UuidFileNames ex_uuid_names.
Proof.
  intros id. assert (Hn : forall n, slash ∉ replicate n 97).
  { intros n [? _]%elem_of_replicate. done. }
  split; [|apply Hn]. split_and!; try done; cbn.
  apply not_elem_of_cons. split; [done|apply Hn].
Qed.

Definition ex_self : LocalWorkspaceRuntime :=
  {| app_private_root := u "/data"; projects_root := u "/data/vibecoder/projects" |}.
Definition ex_workspace_project : ProjectRef :=
  {| pr_id := MkProjectId 2; pr_root := u "/data/vibecoder/projects/paa" |}.

Lemma operations_stay_inside_witness :
  @confined ex_uuid_names ex_self ex_workspace_project _
    (@read_file ex_uuid_names ex_self ex_workspace_project (Utf8Path (u "src/a.txt")) 100).
Proof.
  apply (@operations_stay_inside ex_uuid_names ex_uuid_names_laws ex_self ex_workspace_project).
Defined.
