(* ===== verification/WorkspaceCommit.v ===== *)
(** * Committing a text patch

    A monitor for the calls of [apply_text_patch_pairs]: which content the file is
    replaced by, when, and what is left behind when a call fails. *)
From S2P Require Import Prelude RustStr StrFacts RustPath Program OsCalls Domain.
From S2P Require Import WorkspaceContract WorkspaceText Workspace WorkspaceSafety.

(** The life of the temporary file of one run. *)
Inductive commit_stage :=
| NoTemp
| TempOpen (fd : N) (name : str)
| TempWritten (fd : N) (name : str) (contents : bytes)
| TempSynced (fd : N) (name : str) (contents : bytes)
| Committed (contents : bytes)
| Unlinked.

(** What the run has read of the file, with the directory it opened it in: [first_read]
    by its first reading, [reread] by a later one of an opening made when the
    temporary file was already synced.  [opened] is the directory and the descriptor
    of the latest opening of the file since the stage last changed. *)
Record commit_state := {
  opened : option (Fd * Fd);
  first_read : option (Fd * bytes);
  reread : option (Fd * bytes);
  stage : commit_stage
}.

Definition initial_commit : commit_state :=
  {| opened := None; first_read := None; reread := None; stage := NoTemp |}.

Definition set_stage (s : commit_state) (g : commit_stage) : commit_state :=
  {| opened := None; first_read := first_read s; reread := reread s; stage := g |}.

Definition set_opened (s : commit_state) (dir fd : Fd) : commit_state :=
  {| opened := Some (dir, fd); first_read := first_read s; reread := reread s;
     stage := stage s |}.

Definition set_read (s : commit_state) (dir : Fd) (bs : bytes) : commit_state :=
  match first_read s, stage s with
  | None, _ => {| opened := opened s; first_read := Some (dir, bs); reread := reread s;
                  stage := stage s |}
  | Some _, TempSynced _ _ _ =>
    {| opened := opened s; first_read := first_read s; reread := Some (dir, bs);
       stage := stage s |}
  | Some _, _ => s
  end.

(** [contents] is what [original] becomes: each hunk replaces the only occurrence
    of its expected text. *)
Definition patched (hunks : list (str * str)) (original contents : bytes) : Prop :=
  exists text updated, from_utf8 original = Some text /\
    steps hunk_step text hunks updated /\ contents = as_bytes updated.

Section commit.
Context (hunks : list (str * str)) (target : str).

Definition commit_call (s : commit_state) (e : event os_sig) : Prop :=
  match ev_call e with
  | OpenAt _ name (HowCreate _) => stage s = NoTemp /\ INTERNAL_TEMP_PREFIX `prefix_of` name
  | Fchmod fd _ => exists name, stage s = TempOpen fd name
  | WriteAll fd _ => exists name, stage s = TempOpen fd name
  | SyncAll fd => exists name bs, stage s = TempWritten fd name bs
  | RenameAt dir from todir to =>
    todir = dir /\ to = target /\
    exists fd bs original, stage s = TempSynced fd from bs /\
      first_read s = Some (dir, original) /\ reread s = Some (dir, original) /\
      patched hunks original bs /\ bs <> original
  | UnlinkAt _ name removedir =>
    removedir = false /\ exists fd bs, stage s = TempOpen fd name \/
      stage s = TempWritten fd name bs \/ stage s = TempSynced fd name bs
  | MkdirAt _ _ _ | CreateDir _ | RemoveDir _ | RemoveDirAll _ => False
  | _ => True
  end.

Definition commit_next (s : commit_state) (e : event os_sig) : commit_state :=
  match ev_call e as c return resp c -> commit_state with
  | OpenAt dir name HowRead => fun r =>
    match r with
    | Ok fd => if str_eqb name target then set_opened s dir fd else s
    | Err _ => s
    end
  | ReadToEnd fd limit => fun r =>
    match r, opened s with
    | Ok bs, Some (dir, file) =>
      if fd =? file then set_read s dir (take_bytes limit bs) else s
    | _, _ => s
    end
  | OpenAt _ name (HowCreate _) => fun r =>
    match r with Ok fd => set_stage s (TempOpen fd name) | Err _ => s end
  | WriteAll _ bs => fun r =>
    match r, stage s with Ok _, TempOpen fd name => set_stage s (TempWritten fd name bs) | _, _ => s end
  | SyncAll _ => fun r =>
    match r, stage s with
    | Ok _, TempWritten fd name bs => set_stage s (TempSynced fd name bs)
    | _, _ => s
    end
  | RenameAt _ _ _ _ => fun r =>
    match r, stage s with Ok _, TempSynced _ _ bs => set_stage s (Committed bs) | _, _ => s end
  | UnlinkAt _ _ _ => fun _ => set_stage s Unlinked
  | _ => fun _ => s
  end (ev_resp e).

(** ** Rules *)

Definition tracked {A} (p : prog A) (Q : commit_state -> A -> Prop) (s : commit_state) : Prop :=
  wp (fun _ => True) commit_call commit_next p Q s.

(** The calls of [p] change nothing the monitor keeps. *)
Definition silent {A} (p : prog A) (s : commit_state) : Prop := tracked p (fun s' _ => s' = s) s.

Lemma tracked_bind {A B} (p : prog A) (k : A -> prog B) Q1 Q s :
  tracked p Q1 s -> (forall s' a, Q1 s' a -> tracked (k a) Q s') -> tracked (bind p k) Q s.
Proof. intros Hp Hk. apply wp_bind. eapply wp_mono; [exact Hp|]. exact Hk. Qed.

Lemma tracked_silent {A B} (p : prog A) (k : A -> prog B) Q s :
  silent p s -> (forall a, tracked (k a) Q s) -> tracked (bind p k) Q s.
Proof. intros Hp Hk. eapply tracked_bind; [exact Hp|]. by intros s' a ->. Qed.

Lemma tracked_call {A} c (k : resp c -> prog A) Q s :
  (forall r, commit_call s (Ev c r) /\ tracked (k r) Q (commit_next s (Ev c r))) ->
  tracked (bind (call_ c) k) Q s.
Proof. intros Hk r _. apply Hk. Qed.

Lemma silent_ret {A} (a : A) s : silent (Ret a) s.
Proof. done. Qed.

Lemma silent_bind {A B} (p : prog A) (k : A -> prog B) s :
  silent p s -> (forall a, silent (k a) s) -> silent (bind p k) s.
Proof. apply tracked_silent. Qed.

Lemma silent_call c s :
  (forall r, commit_call s (Ev c r) /\ commit_next s (Ev c r) = s) -> silent (call_ c) s.
Proof. intros H r _. apply H. Qed.

Lemma silent_or_code {A} code (p : prog (IoResult A)) s : silent p s -> silent (or_code code p) s.
Proof. intros Hp. apply silent_bind; [done|]. intros. apply silent_ret. Qed.

(** Programs whose calls only look. *)
Ltac silent_step :=
  lazymatch goal with
  | |- silent (Ret _) _ => apply silent_ret
  | |- silent (lift _) _ => apply silent_ret
  | |- silent (bind _ _) _ => apply silent_bind; [|intros ?]
  | |- silent (or_code _ _) _ => apply silent_or_code
  | |- silent (call_ _) _ => apply silent_call; done
  | |- silent (match ?x with _ => _ end) _ => destruct x
  | |- silent (let (_, _) := ?x in _) _ => destruct x
  end.
Ltac silent_solve := repeat silent_step; try done.

Lemma silent_open_existing dir name s : silent (open_existing_dir_at dir name) s.
Proof. unfold open_existing_dir_at, try_open_existing_dir_at. silent_solve. Qed.

Lemma silent_open_parents parents dir s : silent (open_parents dir parents) s.
Proof.
  revert dir. induction parents as [|n ns IH]; intros dir; [apply silent_ret|].
  cbn [open_parents]. apply silent_bind; [apply silent_open_existing|].
  intros [fd|]; [apply IH|apply silent_ret].
Qed.

Lemma silent_open_root `{UuidLib} self project s : silent (open_verified_project_root self project) s.
Proof.
  unfold open_verified_project_root, verify_project_sync, reject_symlink_if_present,
    canonical_existing_dir, fstat.
  repeat first [silent_step|apply silent_open_existing].
Qed.

Lemma silent_open_parent `{UuidLib} self project components s :
  silent (open_parent self project components) s.
Proof.
  unfold open_parent.
  repeat first [silent_step|apply silent_open_root|apply silent_open_parents].
Qed.

Lemma silent_inspect dir name s : silent (inspect_existing_read_target dir name) s.
Proof.
  unfold inspect_existing_read_target, inspect_optional_read_target. silent_solve.
Qed.

(** ** The steps of a patch *)

Definition post {A} (Q : commit_state -> A -> Prop) (R : commit_state -> VibeCoderError -> Prop) :
    commit_state -> Result A -> Prop :=
  fun s r => match r with Ok a => Q s a | Err e => R s e end.

Lemma tracked_try {A B} (p : prog (Result B)) (k : B -> prog (Result A))
    (Q1 : commit_state -> B -> Prop) Q R s :
  tracked p (post Q1 R) s -> (forall s' b, Q1 s' b -> tracked (k b) (post Q R) s') ->
  tracked (bind p (fun r => match r with Ok b => k b | Err err => Ret (Err err) end)) (post Q R) s.
Proof.
  intros Hp Hk. eapply tracked_bind; [exact Hp|]. intros s' [b|e] H; [by apply Hk|exact H].
Qed.

(** A silent part that may fail. *)
Lemma tracked_try_silent {A B} (p : prog (Result B)) (k : B -> prog (Result A))
    (Q : commit_state -> A -> Prop) (R : commit_state -> VibeCoderError -> Prop) s :
  silent p s -> (forall e, R s e) -> (forall b, tracked (k b) (post Q R) s) ->
  tracked (bind p (fun r => match r with Ok b => k b | Err err => Ret (Err err) end)) (post Q R) s.
Proof. intros Hp HR Hk. eapply tracked_silent; [exact Hp|]. intros [b|e]; [by apply Hk|apply HR]. Qed.

Lemma tracked_lift {A B} (r : Result B) (k : B -> prog (Result A))
    (Q : commit_state -> A -> Prop) (R : commit_state -> VibeCoderError -> Prop) s :
  (forall e, R s e) -> (forall b, r = Ok b -> tracked (k b) (post Q R) s) ->
  tracked (bind (lift r) (fun r => match r with Ok b => k b | Err err => Ret (Err err) end))
    (post Q R) s.
Proof. intros HR Hk. destruct r as [b|e]; [by apply Hk|apply HR]. Qed.

(** The state keeps its stage. *)
Definition same_stage (s : commit_state) : commit_state -> VibeCoderError -> Prop :=
  fun s' _ => stage s' = stage s.

Lemma silent_fstat fd code s : silent (fstat fd code) s.
Proof. unfold fstat. silent_solve. Qed.

Lemma set_read_stage s dir bs : stage (set_read s dir bs) = stage s.
Proof. unfold set_read. destruct (first_read s); [|done]. by destruct (stage s) eqn:E. Qed.

Lemma tracked_open_target dir s :
  tracked (open_regular_file_for_read dir target)
    (post (fun s' fd => s' = set_opened s dir fd) (same_stage s)) s.
Proof.
  unfold open_regular_file_for_read, or_code. apply tracked_lift; [done|].
  intros name Hname. unfold component_cstring in Hname. apply if_err_ok in Hname as [_ [= <-]].
  apply tracked_call. intros r. split; [done|]. destruct r as [fd|e]; [|done].
  cbn. unfold str_eqb. by rewrite bool_decide_eq_true_2.
Qed.

Lemma tracked_read_bounded dir fd n s :
  opened s = Some (dir, fd) ->
  tracked (read_bounded fd n)
    (post (fun s' bs => s' = set_read s dir bs /\ len bs <= n) (same_stage s)) s.
Proof.
  intros Ho. unfold read_bounded, or_code. intros r _. split; [done|].
  destruct r as [bs|e]; [|done]. cbn. rewrite Ho, N.eqb_refl.
  destruct (n <? len _) eqn:En; cbn; [apply set_read_stage|]. by bool_prop.
Qed.

(** A verified reading reads the file it has itself opened. *)
Lemma tracked_read_verified dir st n prefix s :
  tracked (read_verified_regular_at dir target st n prefix)
    (post (fun s' bs => (exists fd, s' = set_read (set_opened s dir fd) dir bs) /\ len bs <= n)
       (same_stage s)) s.
Proof.
  unfold read_verified_regular_at.
  eapply tracked_try; [apply tracked_open_target|]. cbn beta. intros s' fd ->.
  apply tracked_try_silent; [apply silent_fstat|done|intros st'].
  apply tracked_lift; [done|intros _ _].
  destruct (negb _); [done|]. destruct (size_exceeds _ _); [done|].
  eapply wp_mono; [by apply tracked_read_bounded|]. intros s' [bs|e] H; [|exact H].
  destruct H as [-> H]. by split; [exists fd|].
Qed.

Definition has_temp (name : str) (s : commit_state) : Prop :=
  exists fd bs, stage s = TempOpen fd name \/ stage s = TempWritten fd name bs \/
    stage s = TempSynced fd name bs.

Lemma tracked_fill_temp prefix fd mode bs name s :
  stage s = TempOpen fd name ->
  tracked (fill_temp prefix fd mode bs)
    (post (fun s' _ => s' = set_stage s (TempSynced fd name bs)) (fun s' _ => has_temp name s')) s.
Proof.
  intros Hst. assert (Htemp : has_temp name s) by (exists fd, bs; by left).
  unfold fill_temp. apply tracked_try_silent; [|done|intros _].
  { apply silent_or_code, silent_call. intros r. split; [by exists name|done]. }
  apply tracked_try_silent; [apply silent_fstat|done|intros st].
  apply tracked_lift; [done|intros _ _].
  eapply tracked_try with (Q1 := fun s' _ => s' = set_stage s (TempWritten fd name bs)).
  { unfold or_code. apply tracked_call. intros r. split; [by exists name|].
    cbn. rewrite Hst. by destruct r. }
  intros s' _ ->. unfold or_code. apply tracked_call. intros r. split; [by exists name, bs|].
  cbn. destruct r; cbn; [by destruct s|]. exists fd, bs. by right; left.
Qed.

(** After [s], the file was opened and read again and gave [original] again. *)
Definition rechecked (dir : Fd) (original : bytes) (s s' : commit_state) : Prop :=
  stage s' = stage s /\ first_read s' = first_read s /\ reread s' = Some (dir, original).

Lemma tracked_recheck dir st mode original first fd name bs s :
  first_read s = Some first -> stage s = TempSynced fd name bs ->
  tracked (recheck_target dir target st mode original)
    (post (fun s' _ => rechecked dir original s s') (same_stage s)) s.
Proof.
  intros Hf Hst. unfold recheck_target.
  apply tracked_try_silent; [apply silent_inspect|done|intros st'].
  destruct (_ || _); [done|].
  eapply tracked_try; [apply tracked_read_verified|]. cbn beta. intros s' cur [[fd' ->] _].
  unfold set_read. cbn. rewrite Hf, Hst.
  case_bool_decide; cbn; [|by unfold same_stage; rewrite Hst].
  subst. unfold rechecked. by rewrite Hf, Hst.
Qed.

Lemma silent_new_temp `{UuidLib} s : silent new_temp_name s.
Proof. unfold new_temp_name. silent_solve. Qed.

(** Where a failed replacement leaves the file. *)
Definition not_replaced (s : commit_state) : Prop := stage s = NoTemp \/ stage s = Unlinked.

Definition replace_failed (updated : bytes) (s : commit_state) (e : VibeCoderError) : Prop :=
  not_replaced s \/
  (stage s = Committed updated /\ e = Workspace (u "text_edit_parent_sync_failed")).

Lemma tracked_cleanup dir name (body : prog (Result unit)) Q s :
  tracked body (post Q (fun s' _ => has_temp name s')) s ->
  tracked (with_cleanup dir name body) (post Q (fun s' _ => stage s' = Unlinked)) s.
Proof.
  intros Hb. unfold with_cleanup. eapply tracked_bind; [exact Hb|]. intros s' [[]|e] Hs; [exact Hs|].
  apply tracked_call. intros r. cbn in Hs. split; [by split|]. done.
Qed.

Lemma tracked_replace `{UuidLib} dir st mode original updated s :
  stage s = NoTemp -> first_read s = Some (dir, original) ->
  patched hunks original updated -> updated <> original ->
  tracked (replace_target dir target st mode original updated)
    (post (fun s' _ => stage s' = Committed updated /\ first_read s' = Some (dir, original))
       (replace_failed updated)) s.
Proof.
  intros Hst Hfirst Hp Hne. unfold replace_target.
  assert (Hno : forall e, replace_failed updated s e) by (by left; left).
  eapply tracked_bind with (Q1 := fun s' r => s' = s /\
    forall n, r = Ok n -> INTERNAL_TEMP_PREFIX `prefix_of` n).
  { intros id _. split; [done|]. split; [done|]. cbn -[INTERNAL_TEMP_PREFIX].
    intros n [_ [= <-]]%if_err_ok. by exists (uuid_simple id). }
  intros s' [temp|e] [-> Htemp]; [|apply Hno]. specialize (Htemp _ eq_refl).
  apply tracked_lift; [done|]. intros name Hname.
  assert (name = target) as ->.
  { unfold component_cstring in Hname. by apply if_err_ok in Hname as [_ [= ->]]. }
  eapply tracked_try with (Q1 := fun s' fd => s' = set_stage s (TempOpen fd temp)).
  { unfold open_exclusive_private_file_at, or_code. apply tracked_call. intros r.
    split; [done|]. destruct r; [done|]. apply Hno. }
  intros s' fd ->. eapply tracked_try with
    (Q1 := fun s' _ => stage s' = Committed updated /\ first_read s' = Some (dir, original)).
  - eapply wp_mono; [apply tracked_cleanup with (Q := fun s' _ =>
      stage s' = Committed updated /\ first_read s' = Some (dir, original))|].
    2:{ intros s1 [[]|e] H1; [exact H1|by left; right]. }
    eapply tracked_try; [by apply tracked_fill_temp|]. cbn beta. intros s1 _ ->.
    eapply tracked_try with (Q1 := fun s' _ => rechecked dir original
      (set_stage (set_stage s (TempOpen fd temp)) (TempSynced fd temp updated)) s');
      [eapply wp_mono; [by eapply tracked_recheck|]|].
    { intros s1 [[]|e] H1; [exact H1|]. exists fd, updated. right; right. exact H1. }
    cbn beta. intros s1 _ (E1 & E2 & E3). cbn in E1, E2. rewrite Hfirst in E2.
    unfold or_code. apply tracked_call. intros r. split.
    + split_and!; [done..|]. by exists fd, updated, original.
    + destruct r; cbn; [by rewrite E1|]. exists fd, updated. by right; right.
  - cbn beta. intros s1 _ [H1 H2]. unfold or_code. apply tracked_call. intros r.
    split; [done|]. destruct r; [done|]. by right.
Qed.

End commit.

(** The name an accepted relative path denotes in its parent. *)
Definition target_name (relative : os_path) : str :=
  match validate_relative_path relative with Ok cs => default [] (last cs) | Err _ => [] end.

(** How a patch that reports success leaves the run. *)
Definition patch_done (hunks : list (str * str)) (s : commit_state) (r : TextPatchResult) : Prop :=
  exists dir original contents, first_read s = Some (dir, original) /\
    patched hunks original contents /\
    (stage s = Committed contents \/ stage s = NoTemp /\ contents = original) /\
    r = {| hunks_applied := len hunks; patch_bytes_before := len original;
           patch_bytes_after := len contents |}.

(** And one that reports an error. *)
Definition patch_failed (s : commit_state) (e : VibeCoderError) : Prop :=
  not_replaced s \/
  (exists contents, stage s = Committed contents) /\
    e = Workspace (u "text_edit_parent_sync_failed").

Lemma open_parent_name `{UuidLib} hunks target self project components s :
  tracked hunks target (open_parent self project components)
    (fun s' r => s' = s /\ forall p, r = Ok p -> last components = Some p.2) s.
Proof.
  unfold open_parent. destruct (last components) as [name|]; [|by split].
  cbn [lift ok_or bind].
  eapply tracked_silent; [apply silent_open_root|]. intros [root|]; [|by split].
  eapply tracked_silent; [apply silent_open_parents|]. intros [fd|]; [|by split].
  split; [done|]. by intros ? [= <-].
Qed.

Lemma apply_hunks_patched hunks original text updated :
  check_hunks 0 hunks = Ok tt -> len original <= MAX_FILE_WRITE_BYTES ->
  from_utf8 original = Some text -> apply_hunks text hunks = Ok updated ->
  patched hunks original (as_bytes updated).
Proof.
  intros Hc Hl Ht Hu. exists text, updated. split_and!; [done| |done].
  apply apply_hunks_steps; [| |done].
  - eapply Forall_impl; [by eapply check_hunks_ok|]. intros h (? & ? & ?). done.
  - apply from_utf8_some in Ht. by rewrite <-len_as_bytes, Ht.
Qed.

Lemma tracked_patch `{UuidLib} self project relative hunks s :
  stage s = NoTemp -> first_read s = None ->
  tracked hunks (target_name relative) (apply_text_patch_pairs self project relative hunks)
    (post (patch_done hunks) patch_failed) s.
Proof.
  intros Hst Hfirst. unfold apply_text_patch_pairs.
  assert (Hno : forall e, patch_failed s e) by (by left; left).
  destruct (_ || _); [apply Hno|]. apply tracked_lift; [done|]. intros [] Hcheck.
  apply tracked_lift; [done|]. intros components Hcs.
  eapply tracked_bind; [apply open_parent_name|].
  intros s' [[dir name]|e] [-> Hname]; [|apply Hno]. specialize (Hname _ eq_refl). cbn in Hname.
  assert (name = target_name relative) as -> by (unfold target_name; by rewrite Hcs, Hname).
  clear Hname Hcs. apply tracked_try_silent; [apply silent_inspect|done|intros st].
  destruct (_ =? 0); [apply Hno|]. destruct (size_exceeds _ _); [apply Hno|].
  eapply tracked_try with (Q1 := fun s' bs => stage s' = NoTemp /\
    first_read s' = Some (dir, bs) /\ len bs <= MAX_FILE_WRITE_BYTES).
  { eapply wp_mono; [apply tracked_read_verified|]. intros s' [bs|e] H1.
    - destruct H1 as [[fd ->] H1]. unfold set_read. cbn. by rewrite Hfirst, Hst.
    - left; left. cbn in H1. unfold same_stage in H1. congruence. }
  cbn beta. intros s1 original (Hst1 & Hfirst1 & Hlen).
  assert (Hno' : forall e, patch_failed s1 e) by (by left; left).
  apply tracked_lift; [done|]. intros text Htext%ok_or_Ok.
  apply tracked_lift; [done|]. intros updated Hupdated.
  pose proof (apply_hunks_patched _ _ _ _ Hcheck Hlen Htext Hupdated) as Hp.
  rewrite <-(len_as_bytes updated). case_bool_decide as Heq.
  - exists dir, original, original. rewrite Heq in Hp |- *.
    split_and!; [done|done|by right|done].
  - eapply tracked_try with (Q1 := fun s' _ =>
      stage s' = Committed (as_bytes updated) /\ first_read s' = Some (dir, original)).
    + eapply wp_mono; [by apply tracked_replace|].
      intros s' [[]|e] H1; [exact H1|]. destruct H1 as [H1|[H1 ->]]; [by left|]. right. eauto.
    + cbn beta. intros s' _ [H1 H2]. exists dir, original, (as_bytes updated).
      split_and!; [done|done|by left|done].
Qed.

(** ** A machine with one directory

    Enough of a file system to run the operations: every directory path leads to
    one directory, whose entries are single-link files. *)
Record ex_file := { f_ino : N; f_mode : N; f_contents : bytes }.
Record machine := { m_files : list (str * ex_file); m_next : N; m_fsync_fails : bool }.

Fixpoint find_file (name : str) (l : list (str * ex_file)) : option ex_file :=
  match l with
  | [] => None
  | (n, f) :: l => if str_eqb n name then Some f else find_file name l
  end.
Fixpoint file_of_ino (ino : N) (l : list (str * ex_file)) : option (str * ex_file) :=
  match l with
  | [] => None
  | (n, f) :: l => if f_ino f =? ino then Some (n, f) else file_of_ino ino l
  end.
Definition remove_file (name : str) (l : list (str * ex_file)) : list (str * ex_file) :=
  List.filter (fun p => negb (str_eqb p.1 name)) l.
Definition put_file (name : str) (f : ex_file) (l : list (str * ex_file)) :=
  (name, f) :: remove_file name l.

Definition dir_stat : stat :=
  {| st_dev := 1; st_ino := 2; st_mode := S_IFDIR + 0x1C0; st_nlink := 2; st_uid := 0; st_size := 0 |}.
Definition file_stat (f : ex_file) : stat :=
  {| st_dev := 1; st_ino := f_ino f; st_mode := S_IFREG + f_mode f; st_nlink := 1; st_uid := 0;
     st_size := Z.of_N (len (f_contents f)) |}.
Definition with_files (m : machine) (l : list (str * ex_file)) : machine :=
  {| m_files := l; m_next := m_next m + 1; m_fsync_fails := m_fsync_fails m |}.

(** The descriptor of a file is its inode, that of the directory is 2. *)
Definition answer (c : call) (m : machine) : resp c * machine :=
  match c as c return resp c * machine with
  | SymlinkMetadata _ | Metadata _ => (Ok dir_stat, m)
  | Canonicalize p => (Ok p, m)
  | PathExists _ => (false, m)
  | OpenPath _ | OpenAt _ _ HowDirectory => (Ok 2, m)
  | OpenAt _ name HowRead =>
    (match find_file name (m_files m) with Some f => Ok (f_ino f) | None => Err NotFound end, m)
  | OpenAt _ name (HowCreate mode) =>
    match find_file name (m_files m) with
    | Some _ => (Err AlreadyExists, m)
    | None => (Ok (m_next m), with_files m
        (put_file name {| f_ino := m_next m; f_mode := mode; f_contents := [] |} (m_files m)))
    end
  | FstatAt _ name =>
    (match find_file name (m_files m) with Some f => Ok (file_stat f) | None => Err NotFound end, m)
  | Fstat fd =>
    (match file_of_ino fd (m_files m) with Some (_, f) => Ok (file_stat f) | None => Ok dir_stat end, m)
  | ReadToEnd fd _ =>
    (match file_of_ino fd (m_files m) with
     | Some (_, f) => Ok (f_contents f) | None => Err OtherError end, m)
  | WriteAll fd bs =>
    match file_of_ino fd (m_files m) with
    | Some (n, f) => (Ok tt, with_files m
        (put_file n {| f_ino := f_ino f; f_mode := f_mode f; f_contents := bs |} (m_files m)))
    | None => (Err OtherError, m)
    end
  | RenameAt _ from _ to =>
    match find_file from (m_files m) with
    | Some f => (Ok tt, with_files m (put_file to f (remove_file from (m_files m))))
    | None => (Err NotFound, m)
    end
  | UnlinkAt _ name _ => (Ok tt, with_files m (remove_file name (m_files m)))
  | Fsync _ => (if m_fsync_fails m then Err OtherError else Ok tt, m)
  | DupFd fd => (Ok fd, m)
  | ReadDirAll _ => ((as_bytes ∘ fst <$> m_files m, false), m)
  | NewUuid => (0, m)
  | CreateDir _ | RemoveDir _ | RemoveDirAll _ | SetPermissions _ _ | MkdirAt _ _ _
  | Fchmod _ _ | SyncAll _
  | FdOpenDir _ | CloseFd _ => (Ok tt, m)
  end.

Definition ex_machine (fsync_fails : bool) : machine :=
  {| m_files := [(u "a.txt", {| f_ino := 10; f_mode := 0x180;
                                f_contents := as_bytes (u "hello world") |})];
     m_next := 11; m_fsync_fails := fsync_fails |}.

Definition ex_patch : prog (Result TextPatchResult) :=
  @apply_text_patch_pairs ex_uuid_names ex_self ex_workspace_project (Utf8Path (u "a.txt"))
    ex_hunks.
Definition ex_patch_run (fsync_fails : bool) := simulate answer ex_patch (ex_machine fsync_fails).

Definition ex_contents (m : machine) (name : str) : option bytes :=
  f_contents <$> find_file name (m_files m).

Example ex_patch_ok :
  (ex_patch_run false).1.1 = Ok {| hunks_applied := 2; patch_bytes_before := 11; patch_bytes_after := 7 |}
  /\ ex_contents (ex_patch_run false).2 (u "a.txt") = Some (as_bytes (u "hi rocq")).
Proof. by vm_compute. Qed.

Example ex_search :
  (simulate answer (@search_project_text ex_uuid_names ex_self ex_workspace_project (u "wor") 10)
     (ex_machine false)).1.1
  = Ok {| matches := [{| match_path := u "a.txt"; line := 1; column := 7;
                         preview := u "hello world" |}];
          files_scanned := 1; files_skipped := 0; bytes_scanned := 11; truncated := false |}.
Proof. by vm_compute. Qed.

(** ** Properties *)

(** C22. A text patch replaces its file at most once, as a whole, and only by the
    patched text.  In every run, whichever calls fail and whatever other processes
    do: the file is only ever written by renaming over it a temporary file of this
    run that was created exclusively under the reserved prefix, completely written
    and synced, and whose content is the text first read with every hunk replacing
    the only occurrence of its expected text, and only after the file, opened again in
    the same directory once the temporary file was synced, gave that same text to a
    second reading.  Success means that this happened, or that the patch
    changes nothing, and reports the sizes; after an error nothing was replaced and
    a temporary file was unlinked, except when only the directory could not be
    synced after the rename. *)
Theorem patch_replaces_atomically `{UuidLib} self project relative hunks tr r :
  runs (apply_text_patch_pairs self project relative hunks) tr r ->
  accepted (commit_call hunks (target_name relative))
    (commit_next (target_name relative)) initial_commit tr /\
  let s := foldl (commit_next (target_name relative)) initial_commit tr in
  match r with Ok result => patch_done hunks s result | Err e => patch_failed s e end.
Proof.
  intros Hr. pose proof (tracked_patch self project relative hunks initial_commit eq_refl eq_refl) as Hp.
  apply (wp_sound _ _ _ _ _ _ _ _ Hp Hr). by apply Forall_forall.
Qed.

(** A patch that reports an error can have replaced its file.  When the
    directory cannot be synced after the rename, the call fails although the new
    content is in place and no temporary file is left; run again, the same patch
    then finds none of its expected texts. *)
Theorem failed_patch_can_be_committed :
  let run := ex_patch_run true in
  runs ex_patch run.1.2 run.1.1 /\
  run.1.1 = Err (Workspace (u "text_edit_parent_sync_failed")) /\
  ex_contents run.2 (u "a.txt") = Some (as_bytes (u "hi rocq")) /\
  length (m_files run.2) = 1%nat /\
  (simulate answer ex_patch run.2).1.1 = Err (Workspace (u "text_edit_expected_not_found")).
Proof. cbv zeta. split; [apply simulate_runs|]. repeat split; vm_compute; reflexivity. Qed.

Lemma patch_replaces_atomically_witness :
  patch_done ex_hunks
    (foldl (commit_next (u "a.txt")) initial_commit (ex_patch_run false).1.2)
    {| hunks_applied := 2; patch_bytes_before := 11; patch_bytes_after := 7 |}.
Proof.
  destruct (@patch_replaces_atomically ex_uuid_names ex_self ex_workspace_project
    (Utf8Path (u "a.txt")) ex_hunks (ex_patch_run false).1.2 (ex_patch_run false).1.1
    (simulate_runs answer ex_patch (ex_machine false))) as [_ H].
  assert (E : (ex_patch_run false).1.1 = Ok {| hunks_applied := 2; patch_bytes_before := 11;
    patch_bytes_after := 7 |}) by (by vm_compute).
  rewrite E in H. exact H.
Defined.
