(* ===== verification/Routing.v ===== *)
(** * Model route policy ([vibecoder-routing])

    The persisted policy, its resolution against one gateway catalog, and the
    decision taken after a failed attempt. *)
From S2P Require Import Prelude RustStr Domain.

Definition MAX_ROUTE_TARGETS : N := 8.
Definition MAX_MODEL_ID_BYTES : N := 512.
Definition MAX_PROVIDER_BYTES : N := 256.

Record ModelRouteTargetConfig := {
  model_id : str;
  provider : option str
}.

Inductive FallbackTrigger :=
| TrRateLimited
| TrTimeout
| TrProviderUnavailable
| TrModelUnavailable.

#[export] Instance FallbackTrigger_eq_dec : EqDecision FallbackTrigger.
Proof. solve_decision. Defined.

Inductive FallbackBoundary := BeforeResponseOnly.

Record ModelRoutePolicyConfig := {
  primary_target : ModelRouteTargetConfig;
  fallbacks : list ModelRouteTargetConfig;
  cfg_fallback_on : list FallbackTrigger;
  cfg_fallback_boundary : FallbackBoundary
}.

Definition default_fallback_triggers : list FallbackTrigger :=
  [TrRateLimited; TrTimeout; TrProviderUnavailable; TrModelUnavailable].

Inductive RouteFailureClass :=
| RateLimited
| Timeout
| ProviderUnavailable
| GatewayUnavailable
| ModelUnavailable
| Authentication
| AccessDenied
| FcInvalidRequest
| FcCancelled
| ProtocolError
| Unknown.

Record RouteAttemptState := mkAttempt {
  route_index : N;
  response_started : bool;
  tool_activity_started : bool
}.

Definition pristine (i : N) : RouteAttemptState := mkAttempt i false false.

Definition observable_progress_started (s : RouteAttemptState) : bool :=
  response_started s || tool_activity_started s.

Definition mark_response_started (s : RouteAttemptState) : RouteAttemptState :=
  mkAttempt (route_index s) true (tool_activity_started s).

Definition mark_tool_activity_started (s : RouteAttemptState) : RouteAttemptState :=
  mkAttempt (route_index s) (response_started s) true.

Inductive RouteStopReason :=
| ObservableProgressAlreadyStarted
| FailureNotSafeForFallback
| FailureNotEnabledForFallback
| FallbacksExhausted.

Inductive RouteDecision :=
| Fallback (next_attempt : RouteAttemptState) (model : ModelRef)
| Stop (reason : RouteStopReason).

(** [routes] is private and only built by [resolve]. *)
Record ResolvedModelRoutePolicy := {
  routes : list ModelRef;
  fallback_on : list FallbackTrigger;
  fallback_boundary : FallbackBoundary
}.

Definition routing_error (code : str) : VibeCoderError := Routing code.

Definition validate_bounded_identity (value : str) (max_bytes : N) (code : str) :
    Result unit :=
  if bool_decide (value = []) || (max_bytes <? blen value)
     || negb (bool_decide (trim value = value)) || existsb is_control value
  then Err (routing_error code)
  else Ok tt.

Definition validate_target (target : ModelRouteTargetConfig) : Result unit :=
  let? _ := validate_bounded_identity (model_id target) MAX_MODEL_ID_BYTES
              (u "invalid_route_model_id") in
  match provider target with
  | Some p => validate_bounded_identity p MAX_PROVIDER_BYTES
                (u "invalid_route_provider")
  | None => Ok tt
  end.

(** The trigger loop of [validate_policy_shape]; [seen] is the [HashSet]. *)
Fixpoint check_triggers (seen : list FallbackTrigger) (ts : list FallbackTrigger) :
    Result unit :=
  match ts with
  | [] => Ok tt
  | t :: ts =>
    if bool_decide (t ∈ seen) then
      Err (routing_error (u "duplicate_fallback_trigger"))
    else check_triggers (t :: seen) ts
  end.

Definition validate_policy_shape (config : ModelRoutePolicyConfig) : Result unit :=
  let route_count := saturating_add usize_max 1 (len (fallbacks config)) in
  if MAX_ROUTE_TARGETS <? route_count then
    Err (routing_error (u "too_many_route_targets"))
  else
    let? _ := check_triggers [] (cfg_fallback_on config) in
    if negb (bool_decide (len (fallbacks config) = 0))
       && bool_decide (len (cfg_fallback_on config) = 0) then
      Err (routing_error (u "fallback_routes_without_triggers"))
    else Ok tt.

Definition targets (config : ModelRoutePolicyConfig) : list ModelRouteTargetConfig :=
  primary_target config :: fallbacks config.

(** The target loop of [ModelRoutePolicyConfig::validate]. *)
Fixpoint check_targets (seen : gset str) (ts : list ModelRouteTargetConfig) :
    Result unit :=
  match ts with
  | [] => Ok tt
  | target :: ts =>
    let? _ := validate_target target in
    if bool_decide (model_id target ∈ seen) then
      Err (routing_error (u "duplicate_route_model_id"))
    else check_targets ({[model_id target]} ∪ seen) ts
  end.

Definition ModelRoutePolicyConfig_validate (config : ModelRoutePolicyConfig) :
    Result unit :=
  let? _ := validate_policy_shape config in
  check_targets ∅ (targets config).

(** The loop of [index_catalog]; [by_id] maps a model id to its entry. *)
Fixpoint index_catalog_from (by_id : gmap str ModelRef) (catalog : list ModelRef) :
    Result (gmap str ModelRef) :=
  match catalog with
  | [] => Ok by_id
  | model :: catalog =>
    let? _ := validate_bounded_identity (mr_id model) MAX_MODEL_ID_BYTES
                (u "invalid_catalog_model_id") in
    let? _ := match mr_provider model with
              | Some p => validate_bounded_identity p MAX_PROVIDER_BYTES
                            (u "invalid_catalog_provider")
              | None => Ok tt
              end in
    if is_some (by_id !! mr_id model) then
      Err (routing_error (u "ambiguous_catalog_model_id"))
    else index_catalog_from (<[mr_id model := model]> by_id) catalog
  end.

Definition index_catalog (catalog : list ModelRef) : Result (gmap str ModelRef) :=
  index_catalog_from ∅ catalog.

(** The route loop of [ResolvedModelRoutePolicy::resolve]. *)
Fixpoint resolve_routes (by_id : gmap str ModelRef) (seen : gset str)
    (ts : list ModelRouteTargetConfig) : Result (list ModelRef) :=
  match ts with
  | [] => Ok []
  | target :: ts =>
    let? _ := validate_target target in
    if bool_decide (model_id target ∈ seen) then
      Err (routing_error (u "duplicate_route_model_id"))
    else
      let? model := ok_or (by_id !! model_id target)
                      (routing_error (u "configured_route_model_unavailable")) in
      if match provider target with
         | Some expected => negb (bool_decide (mr_provider model = Some expected))
         | None => false
         end
      then Err (routing_error (u "configured_route_provider_mismatch"))
      else
        let? rest := resolve_routes by_id ({[model_id target]} ∪ seen) ts in
        Ok (model :: rest)
  end.

Definition resolve (config : ModelRoutePolicyConfig) (catalog : list ModelRef) :
    Result ResolvedModelRoutePolicy :=
  let? _ := ModelRoutePolicyConfig_validate config in
  let? catalog_by_id := index_catalog catalog in
  let? rs := resolve_routes catalog_by_id ∅ (targets config) in
  Ok {| routes := rs;
        fallback_on := cfg_fallback_on config;
        fallback_boundary := cfg_fallback_boundary config |}.

(** [&self.routes[0]]: [None] is the panic of indexing an empty vector. *)
Definition primary (p : ResolvedModelRoutePolicy) : option ModelRef := head (routes p).

Definition start_attempt (p : ResolvedModelRoutePolicy) : RouteAttemptState :=
  pristine 0.

Definition safe_fallback_trigger (failure : RouteFailureClass) :
    option FallbackTrigger :=
  match failure with
  | RateLimited => Some TrRateLimited
  | Timeout => Some TrTimeout
  | ProviderUnavailable => Some TrProviderUnavailable
  | ModelUnavailable => Some TrModelUnavailable
  | GatewayUnavailable | Authentication | AccessDenied | FcInvalidRequest
  | FcCancelled | ProtocolError | Unknown => None
  end.

Definition decision_after_failure (p : ResolvedModelRoutePolicy)
    (state : RouteAttemptState) (failure : RouteFailureClass) :
    Result RouteDecision :=
  if len (routes p) <=? route_index state then
    Err (routing_error (u "route_attempt_index_out_of_bounds"))
  else if match fallback_boundary p with
          | BeforeResponseOnly => observable_progress_started state
          end
  then Ok (Stop ObservableProgressAlreadyStarted)
  else
    match safe_fallback_trigger failure with
    | None => Ok (Stop FailureNotSafeForFallback)
    | Some trigger =>
      if negb (bool_decide (trigger ∈ fallback_on p)) then
        Ok (Stop FailureNotEnabledForFallback)
      else
        let next_route_index := route_index state + 1 in
        match routes p !! N.to_nat next_route_index with
        | None => Ok (Stop FallbacksExhausted)
        | Some model => Ok (Fallback (pristine next_route_index) model)
        end
    end.

(** ** Specification of resolution *)

(** An identity the policy and the catalog may carry. *)
Definition identity_ok (max_bytes : N) (s : str) : Prop :=
  s <> [] /\ blen s <= max_bytes /\ trim s = s /\ Forall (fun c => is_control c = false) s.

Definition target_ok (t : ModelRouteTargetConfig) : Prop :=
  identity_ok MAX_MODEL_ID_BYTES (model_id t) /\
  forall p, provider t = Some p -> identity_ok MAX_PROVIDER_BYTES p.

Definition policy_ok (c : ModelRoutePolicyConfig) : Prop :=
  1 + len (fallbacks c) <= MAX_ROUTE_TARGETS /\
  NoDup (cfg_fallback_on c) /\
  (fallbacks c = [] \/ cfg_fallback_on c <> []) /\
  Forall target_ok (targets c) /\
  NoDup (model_id <$> targets c).

Definition entry_ok (m : ModelRef) : Prop :=
  identity_ok MAX_MODEL_ID_BYTES (mr_id m) /\
  forall p, mr_provider m = Some p -> identity_ok MAX_PROVIDER_BYTES p.

Definition catalog_ok (catalog : list ModelRef) : Prop :=
  Forall entry_ok catalog /\ NoDup (mr_id <$> catalog).

(** A configured target denotes this catalog entry. *)
Definition denotes (catalog : list ModelRef) (t : ModelRouteTargetConfig) (m : ModelRef) :
    Prop :=
  m ∈ catalog /\ mr_id m = model_id t /\
  forall p, provider t = Some p -> mr_provider m = Some p.

(** ** One task's attempts

    What can happen to the attempt state the policy issued: its caller marks
    observed progress on it, or trades it for the next one after a failure. *)
Inductive attempt_label :=
| LResponse
| LTool
| LFallback (failure : RouteFailureClass) (model : ModelRef).

Inductive attempt_step (p : ResolvedModelRoutePolicy) :
    RouteAttemptState -> attempt_label -> RouteAttemptState -> Prop :=
| step_response s : attempt_step p s LResponse (mark_response_started s)
| step_tool s : attempt_step p s LTool (mark_tool_activity_started s)
| step_fallback s f next m :
    decision_after_failure p s f = Ok (Fallback next m) ->
    attempt_step p s (LFallback f m) next.

(** The models fallen back to, in order. *)
Fixpoint fallback_models (tr : list attempt_label) : list ModelRef :=
  match tr with
  | [] => []
  | LFallback _ m :: tr => m :: fallback_models tr
  | (LResponse | LTool) :: tr => fallback_models tr
  end.

(** ** Lemmas *)

Lemma validate_bounded_identity_ok v max code :
  validate_bounded_identity v max code = Ok tt <-> identity_ok max v.
Proof.
  unfold validate_bounded_identity, identity_ok. rewrite <-existsb_false_Forall.
  case_match eqn:E; split_bools.
  - split; [done|]. by intros (? & _).
  - split; [done|]. intros (_ & ? & _). lia.
  - split; [done|]. by intros (_ & _ & ? & _).
  - split; [done|]. intros (_ & _ & _ & ?). congruence.
  - by split.
Qed.

Lemma validate_identity_opt_ok o max code :
  match o with
  | Some p => validate_bounded_identity p max code
  | None => Ok tt
  end = Ok tt <-> forall p, o = Some p -> identity_ok max p.
Proof.
  destruct o as [p|].
  - rewrite validate_bounded_identity_ok. naive_solver.
  - by split.
Qed.

Lemma validate_target_ok t : validate_target t = Ok tt <-> target_ok t.
Proof.
  unfold validate_target, target_ok.
  by rewrite seq_ok, validate_bounded_identity_ok, validate_identity_opt_ok.
Qed.

Lemma check_triggers_ok seen ts :
  check_triggers seen ts = Ok tt <-> NoDup ts /\ Forall (.∉ seen) ts.
Proof.
  revert seen. induction ts as [|t ts IH]; intros seen; simpl.
  - split; [|done]. repeat constructor.
  - rewrite if_err_ok, IH, bool_decide_eq_false, NoDup_cons, Forall_cons, !Forall_forall.
    set_solver.
Qed.

Lemma check_targets_ok seen ts :
  check_targets seen ts = Ok tt <->
  Forall target_ok ts /\ NoDup (model_id <$> ts) /\ Forall (fun t => model_id t ∉ seen) ts.
Proof.
  revert seen. induction ts as [|t ts IH]; intros seen; simpl.
  - split; [|done]. repeat constructor.
  - rewrite seq_ok, if_err_ok, IH, validate_target_ok, bool_decide_eq_false, NoDup_cons,
      !Forall_cons, !Forall_forall. set_solver.
Qed.

Lemma validate_policy_shape_ok c :
  validate_policy_shape c = Ok tt <->
  1 + len (fallbacks c) <= MAX_ROUTE_TARGETS /\ NoDup (cfg_fallback_on c) /\
  (fallbacks c = [] \/ cfg_fallback_on c <> []).
Proof.
  assert (Hlen : forall {A} (l : list A), len l = 0 <-> l = []).
  { intros A [|x l]; [done|]. rewrite len_cons. split; [lia|done]. }
  unfold validate_policy_shape. cbv zeta.
  rewrite if_err_ok, seq_ok, if_err_ok, check_triggers_ok, N.ltb_ge.
  unfold saturating_add, MAX_ROUTE_TARGETS.
  assert (usize_max = 18446744073709551615) as -> by done.
  rewrite andb_false_iff, negb_false_iff, bool_decide_eq_true, bool_decide_eq_false, !Hlen.
  split.
  - intros (? & [??] & ? & _). split_and!; [lia|done|done].
  - intros (? & ? & ?). split_and!; [lia|done|apply Forall_forall; set_solver|done|done].
Qed.

Lemma ModelRoutePolicyConfig_validate_ok c :
  ModelRoutePolicyConfig_validate c = Ok tt <-> policy_ok c.
Proof.
  unfold ModelRoutePolicyConfig_validate, policy_ok.
  rewrite seq_ok, validate_policy_shape_ok, check_targets_ok, !Forall_forall.
  set_solver.
Qed.

Lemma index_catalog_from_ok by_id catalog m :
  index_catalog_from by_id catalog = Ok m <->
  catalog_ok catalog /\ Forall (fun x => by_id !! mr_id x = None) catalog /\
  m = list_to_map ((fun x => (mr_id x, x)) <$> catalog) ∪ by_id.
Proof.
  revert by_id. unfold catalog_ok.
  induction catalog as [|x catalog IH]; intros by_id; simpl.
  - rewrite (left_id_L ∅ (∪)). split; [intros [= ->]|intros (_ & _ & ->)]; [|done].
    repeat constructor.
  - rewrite !seq_ok, if_err_ok, validate_identity_opt_ok, validate_bounded_identity_ok, IH.
    rewrite !Forall_cons, NoDup_cons, !Forall_forall. unfold entry_ok at 2.
    unfold is_some. rewrite negb_false_iff.
    assert (is_none (by_id !! mr_id x) = true <-> by_id !! mr_id x = None) as ->
      by (by destruct (by_id !! mr_id x)).
    assert (Hnone : (forall y, y ∈ catalog -> <[mr_id x:=x]> by_id !! mr_id y = None) <->
      (mr_id x ∉ (mr_id <$> catalog)) /\ forall y, y ∈ catalog -> by_id !! mr_id y = None).
    { rewrite list_elem_of_fmap. setoid_rewrite lookup_insert_None. naive_solver. }
    rewrite Hnone. clear Hnone IH.
    assert (Hm : (list_to_map ((fun x => (mr_id x, x)) <$> catalog) ∪ <[mr_id x:=x]> by_id
       = <[mr_id x:=x]> (list_to_map ((fun x => (mr_id x, x)) <$> catalog)) ∪ by_id)
      \/ mr_id x ∈ (mr_id <$> catalog)).
    { destruct (decide (mr_id x ∈ (mr_id <$> catalog))); [by right|left].
      rewrite <-insert_union_r, insert_union_l; [done|].
      apply not_elem_of_list_to_map_1. rewrite <-list_fmap_compose. done. }
    destruct Hm as [->|]; intuition auto.
Qed.

(** The routes of a policy are the entries of [by_id] its targets name. *)
Definition route_of (by_id : gmap str ModelRef) (t : ModelRouteTargetConfig) (m : ModelRef) :
    Prop :=
  by_id !! model_id t = Some m /\ forall p, provider t = Some p -> mr_provider m = Some p.

Lemma provider_check_ok (t : ModelRouteTargetConfig) (m : ModelRef) :
  match provider t with
  | Some expected => negb (bool_decide (mr_provider m = Some expected))
  | None => false
  end = false <-> forall p, provider t = Some p -> mr_provider m = Some p.
Proof.
  destruct (provider t); [|done].
  rewrite negb_false_iff, bool_decide_eq_true. naive_solver.
Qed.

Lemma resolve_routes_sound by_id seen ts rs :
  resolve_routes by_id seen ts = Ok rs ->
  check_targets seen ts = Ok tt /\ Forall2 (route_of by_id) ts rs.
Proof.
  revert seen rs. induction ts as [|t ts IH]; intros seen rs; simpl.
  { intros [= <-]. auto. }
  rewrite !seq_ok, !if_err_ok. intros (? & ? & H).
  destruct (by_id !! model_id t) as [m|] eqn:Em; simpl in H; [|done].
  apply if_err_ok in H as [Hp H]. rewrite provider_check_ok in Hp.
  destruct (resolve_routes by_id _ ts) as [rest|] eqn:Er; simplify_eq.
  apply IH in Er as [? ?]. unfold route_of. auto.
Qed.

Lemma resolve_routes_complete by_id seen ts rs :
  check_targets seen ts = Ok tt -> Forall2 (route_of by_id) ts rs ->
  resolve_routes by_id seen ts = Ok rs.
Proof.
  intros Hc Hr. revert seen Hc.
  induction Hr as [|t m ts rs [Hm Hp] _ IH]; intros seen; simpl; [done|].
  rewrite !seq_ok, !if_err_ok. intros (? & ? & Hc). split_and!; [done|done|].
  rewrite Hm. simpl. rewrite if_err_ok, provider_check_ok. split; [done|].
  by rewrite (IH _ Hc).
Qed.

(** The index of a well-formed catalog. *)
Definition catalog_map (catalog : list ModelRef) : gmap str ModelRef :=
  list_to_map ((fun x => (mr_id x, x)) <$> catalog).

Lemma index_catalog_ok catalog m :
  index_catalog catalog = Ok m <-> catalog_ok catalog /\ m = catalog_map catalog.
Proof.
  unfold index_catalog. rewrite index_catalog_from_ok, (right_id_L ∅ (∪)).
  split; [naive_solver|]. intros [? ->]. split_and!; [done| |done].
  apply Forall_forall. intros. apply lookup_empty.
Qed.

Lemma catalog_map_lookup catalog i m :
  catalog_ok catalog ->
  catalog_map catalog !! i = Some m <-> m ∈ catalog /\ mr_id m = i.
Proof.
  intros [_ Hnd]. unfold catalog_map. rewrite <-elem_of_list_to_map.
  - rewrite list_elem_of_fmap. naive_solver.
  - by rewrite <-list_fmap_compose.
Qed.

Lemma route_of_denotes catalog t m :
  catalog_ok catalog -> route_of (catalog_map catalog) t m <-> denotes catalog t m.
Proof. intros Hc. unfold route_of, denotes. rewrite catalog_map_lookup by done. naive_solver. Qed.

(** Resolution in terms of the specification: shared by the properties below. *)
Lemma resolve_spec config catalog p :
  resolve config catalog = Ok p <->
  policy_ok config /\ catalog_ok catalog /\
  Forall2 (denotes catalog) (targets config) (routes p) /\
  fallback_on p = cfg_fallback_on config /\
  fallback_boundary p = cfg_fallback_boundary config.
Proof.
  unfold resolve. rewrite seq_ok, ModelRoutePolicyConfig_validate_ok.
  split.
  - intros [Hpol H]. destruct (index_catalog catalog) as [m|] eqn:Em; [|done].
    apply index_catalog_ok in Em as [Hcat ->].
    destruct (resolve_routes _ ∅ _) as [rs|] eqn:Er; [|done]. injection H as <-.
    apply resolve_routes_sound in Er as [_ Hr]. split_and!; auto.
    eapply Forall2_impl; [exact Hr|]. intros. by apply route_of_denotes.
  - intros (Hpol & Hcat & Hr & Hf & Hb). split; [done|].
    assert (index_catalog catalog = Ok (catalog_map catalog)) as ->
      by by apply index_catalog_ok.
    rewrite (resolve_routes_complete _ _ _ (routes p)).
    + by destruct p; simplify_eq/=.
    + apply check_targets_ok. destruct Hpol as (_ & _ & _ & ? & ?).
      split_and!; auto. apply Forall_forall. set_solver.
    + eapply Forall2_impl; [exact Hr|]. intros. by apply route_of_denotes.
Qed.

(** ** Catalog order *)

Lemma catalog_map_perm c1 c2 : catalog_ok c1 -> c1 ≡ₚ c2 -> catalog_map c1 = catalog_map c2.
Proof.
  intros [_ Hnd] Hp. unfold catalog_map. apply list_to_map_proper.
  - by rewrite <-list_fmap_compose.
  - by rewrite Hp.
Qed.

#[export] Instance catalog_ok_proper : Proper ((≡ₚ) ==> iff) catalog_ok.
Proof. intros c1 c2 Hp. unfold catalog_ok. by rewrite Hp. Qed.

#[export] Instance denotes_proper : Proper ((≡ₚ) ==> eq ==> eq ==> iff) denotes.
Proof. intros c1 c2 Hp t ? <- m ? <-. unfold denotes. by rewrite Hp. Qed.

(** ** Decisions *)

Lemma decision_fallback_iff p s f next m :
  decision_after_failure p s f = Ok (Fallback next m) <->
  observable_progress_started s = false /\
  (exists t, safe_fallback_trigger f = Some t /\ t ∈ fallback_on p) /\
  next = pristine (route_index s + 1) /\
  routes p !! N.to_nat (route_index s + 1) = Some m.
Proof.
  unfold decision_after_failure. destruct (fallback_boundary p).
  split.
  - intros H. inv_match. split_and!; [done|by eexists|done|done].
  - intros (-> & (t & -> & Ht) & -> & Hm).
    assert ((len (routes p) <=? route_index s) = false) as ->.
    { apply N.leb_gt. apply lookup_lt_Some in Hm. unfold len. lia. }
    rewrite bool_decide_eq_true_2 by done. simpl. by rewrite Hm.
Qed.

Lemma attempt_steps_progress p s tr s' :
  steps (attempt_step p) s tr s' -> observable_progress_started s = true ->
  fallback_models tr = [].
Proof.
  induction 1 as [|s l s1 tr s2 Hstep _ IH]; [done|]. intros Hs.
  destruct Hstep as [s|s|s f next m Hd]; simpl.
  - by apply IH.
  - apply IH. unfold observable_progress_started. simpl. apply orb_true_r.
  - apply decision_fallback_iff in Hd as [? _]. congruence.
Qed.

Lemma attempt_steps_models p s tr s' :
  steps (attempt_step p) s tr s' -> route_index s < len (routes p) ->
  route_index s' = route_index s + len (fallback_models tr) /\
  fallback_models tr `prefix_of` drop (N.to_nat (route_index s + 1)) (routes p).
Proof.
  induction 1 as [|s l s1 tr s2 Hstep _ IH]; intros Hs.
  - rewrite N.add_0_r. split; [done|apply prefix_nil].
  - destruct Hstep as [s|s|s f next m Hd]; [by apply IH..|].
    apply decision_fallback_iff in Hd as (_ & _ & -> & Hm).
    pose proof (lookup_lt_Some _ _ _ Hm).
    destruct IH as [-> Hpre]; [simpl; unfold len; lia|].
    simpl in *. rewrite len_cons.
    split; [lia|]. erewrite drop_S by exact Hm.
    apply prefix_cons. by replace (S (N.to_nat (route_index s + 1)))
      with (N.to_nat (route_index s + 1 + 1)) by lia.
Qed.

(** ** Properties *)

(** C28. [resolve] succeeds exactly on a well-formed policy and catalog when every
    configured target denotes a catalog entry, and its routes are then those
    entries, in the configured order, primary first: no alias, no dropped or
    extra fallback, no provider other than the one asked for. *)
Theorem resolve_exact config catalog p :
  resolve config catalog = Ok p <->
  policy_ok config /\ catalog_ok catalog /\
  Forall2 (denotes catalog) (targets config) (routes p) /\
  fallback_on p = cfg_fallback_on config /\
  fallback_boundary p = cfg_fallback_boundary config.
Proof. apply resolve_spec. Qed.

(** The order in which the gateway lists its models has no influence on a
    successful resolution. *)
Theorem resolve_catalog_order config c1 c2 p :
  c1 ≡ₚ c2 -> resolve config c1 = Ok p -> resolve config c2 = Ok p.
Proof.
  intros Hp. rewrite !resolve_spec. intros (? & ? & Hr & ? & ?).
  split_and!; [done|by rewrite <-Hp| |done|done].
  eapply Forall2_impl; [exact Hr|]. intros t m ?. by rewrite <-Hp.
Qed.

(** C29. The attempts of one task under a resolved policy.  Whatever the order of
    failures and of progress marks, the models fallen back to are, in order, an
    initial segment of the configured fallbacks (so at most seven, none twice,
    none unconfigured), the attempt index counts them, and once response or tool
    progress has been marked no further fallback happens. *)
Theorem fallback_chain_safe config catalog p tr s :
  resolve config catalog = Ok p ->
  steps (attempt_step p) (start_attempt p) tr s ->
  route_index s = len (fallback_models tr) /\
  fallback_models tr `prefix_of` tail (routes p) /\
  len (fallback_models tr) <= 7 /\
  NoDup (mr_id <$> fallback_models tr) /\
  (forall l tr1 tr2, tr = tr1 ++ l :: tr2 -> l = LResponse \/ l = LTool ->
     fallback_models tr2 = []).
Proof.
  intros Hres Htr. apply resolve_spec in Hres as (Hpol & _ & Hr & _).
  assert (Hids : mr_id <$> routes p = model_id <$> targets config).
  { clear -Hr. induction Hr as [|? ? ? ? (_ & Hid & _) _ IH]; csimpl; congruence. }
  pose proof (Forall2_length _ _ _ Hr) as Hlen. simpl in Hlen.
  destruct Hpol as (Hn & _ & _ & _ & Hnd). rewrite <-Hids in Hnd.
  destruct (routes p) as [|m0 ms] eqn:Em; [done|]. simpl in *.
  destruct (attempt_steps_models _ _ _ _ Htr) as [Hi Hpre].
  { rewrite Em, len_cons. simpl. lia. }
  rewrite Em in Hpre. simpl in Hi, Hpre. rewrite drop_0 in Hpre.
  pose proof (prefix_length _ _ Hpre) as Hle.
  split_and!; [done|done| | |].
  - unfold len, MAX_ROUTE_TARGETS in *. lia.
  - destruct Hpre as [k Hk]. rewrite Hk in Hnd. csimpl in Hnd.
    rewrite fmap_app in Hnd. apply NoDup_cons in Hnd as [_ Hnd].
    by apply NoDup_app in Hnd as [? _].
  - intros l tr1 tr2 -> Hl. apply steps_app_inv in Htr as (s1 & _ & Htr).
    apply steps_cons_inv in Htr as (s2 & Hst & Htr).
    eapply attempt_steps_progress; [exact Htr|].
    destruct Hl as [-> | ->]; inversion Hst; subst; [done|].
    unfold observable_progress_started. simpl. apply orb_true_r.
Qed.

(** ** A concrete policy *)

Definition ex_model (id provider : string) : ModelRef :=
  mkModelRef (u id) None (Some (u provider)).
Definition ex_target (id provider : string) : ModelRouteTargetConfig :=
  {| model_id := u id; provider := Some (u provider) |}.

Definition ex_config : ModelRoutePolicyConfig :=
  {| primary_target := ex_target "provider-a/model-a" "provider-a";
     fallbacks := [ex_target "provider-b/model-b" "provider-b"];
     cfg_fallback_on := [TrRateLimited; TrTimeout];
     cfg_fallback_boundary := BeforeResponseOnly |}.
Definition ex_catalog : list ModelRef :=
  [ex_model "provider-b/model-b" "provider-b"; ex_model "provider-a/model-a" "provider-a"].
Definition ex_policy : ResolvedModelRoutePolicy :=
  {| routes := [ex_model "provider-a/model-a" "provider-a";
                ex_model "provider-b/model-b" "provider-b"];
     fallback_on := [TrRateLimited; TrTimeout];
     fallback_boundary := BeforeResponseOnly |}.

Lemma ex_resolve : resolve ex_config ex_catalog = Ok ex_policy.
Proof. vm_compute. reflexivity. Qed.

Lemma resolve_catalog_order_witness :
  resolve ex_config (rev ex_catalog) = Ok ex_policy.
Proof.
  apply (resolve_catalog_order ex_config ex_catalog); [|apply ex_resolve].
  apply Permutation_rev.
Defined.

Definition ex_trace : list attempt_label :=
  [LFallback RateLimited (ex_model "provider-b/model-b" "provider-b"); LResponse].

Lemma fallback_chain_safe_witness :
  steps (attempt_step ex_policy) (start_attempt ex_policy) ex_trace
    (mark_response_started (pristine 1)) /\
  len (fallback_models ex_trace) <= 7.
Proof.
  assert (H : steps (attempt_step ex_policy) (start_attempt ex_policy) ex_trace
    (mark_response_started (pristine 1))).
  { eapply steps_cons; [apply step_fallback; vm_compute; reflexivity|].
    apply steps_one, step_response. }
  split; [exact H|].
  apply (fallback_chain_safe ex_config ex_catalog ex_policy ex_trace _ ex_resolve H).
Defined.
