(* ===== verification/Persistence.v ===== *)
(** * Persisted conversations and project state ([vibecoder-persistence-contract])

    What is stored of a project and of a chat, when a stored value is valid, and
    how a message is appended.  The two crash markers are [session_creation_pending]
    and [turn_pending]. *)
From S2P Require Import Prelude RustStr StrFacts Domain Routing.

Definition PROJECT_STATE_SCHEMA_V1 : N := 1.
Definition CONVERSATION_STATE_SCHEMA_V1 : N := 1.
Definition MAX_PERSISTED_PROJECTS : N := 4096.
Definition MAX_PERSISTED_CONVERSATIONS_PER_PROJECT : N := 512.
Definition MAX_PERSISTED_STATE_BYTES : N := 256 * 1024.
Definition MAX_PERSISTED_CONVERSATION_BYTES : N := 16 * 1024 * 1024.
Definition MAX_CONVERSATION_MESSAGES : N := 4096.
Definition MAX_CONVERSATION_MESSAGE_BYTES : N := 256 * 1024.
Definition MAX_CONVERSATION_TEXT_BYTES : N := 12 * 1024 * 1024.
Definition MAX_CONVERSATION_TITLE_BYTES : N := 200.
Definition MAX_RUNTIME_ID_BYTES : N := 64.
Definition MAX_PERSISTED_SESSION_ID_BYTES : N := 128.

Definition persistence_error (code : str) : VibeCoderError := Persistence code.

#[export] Instance ModelRouteTargetConfig_eq_dec : EqDecision ModelRouteTargetConfig.
Proof. solve_decision. Defined.

Record PersistedAgentSession := {
  as_runtime_id : str;
  as_session_id : SessionId;
  as_preferred_model : option ModelRouteTargetConfig
}.

Record PersistedProjectState := {
  ps_schema : N;
  ps_revision : N;
  ps_project_id : ProjectId;
  ps_session_creation_pending : bool;
  ps_agent_session : option PersistedAgentSession;
  ps_route_policy : option ModelRoutePolicyConfig
}.

Inductive ConversationRole := User | Assistant.

#[export] Instance ConversationRole_eq_dec : EqDecision ConversationRole.
Proof. solve_decision. Defined.

Record PersistedConversationMessage := mkMessage {
  sequence : N;
  role : ConversationRole;
  text : str
}.

Record PersistedConversation := {
  schema : N;
  revision : N;
  conversation_id : ConversationId;
  conversation_project : ProjectId;
  session_creation_pending : bool;
  agent_session : option PersistedAgentSession;
  turn_pending : bool;
  title : option str;
  messages : list PersistedConversationMessage
}.

Definition set_messages (c : PersistedConversation) (ms : list PersistedConversationMessage) :
    PersistedConversation :=
  {| schema := schema c; revision := revision c; conversation_id := conversation_id c;
     conversation_project := conversation_project c;
     session_creation_pending := session_creation_pending c; agent_session := agent_session c;
     turn_pending := turn_pending c; title := title c; messages := ms |}.

Definition set_turn_pending (c : PersistedConversation) (b : bool) : PersistedConversation :=
  {| schema := schema c; revision := revision c; conversation_id := conversation_id c;
     conversation_project := conversation_project c;
     session_creation_pending := session_creation_pending c; agent_session := agent_session c;
     turn_pending := b; title := title c; messages := messages c |}.

Definition set_agent_session (c : PersistedConversation) (s : PersistedAgentSession) :
    PersistedConversation :=
  {| schema := schema c; revision := revision c; conversation_id := conversation_id c;
     conversation_project := conversation_project c; session_creation_pending := false;
     agent_session := Some s; turn_pending := turn_pending c; title := title c;
     messages := messages c |}.

Definition set_revision (c : PersistedConversation) (n : N) : PersistedConversation :=
  {| schema := schema c; revision := n; conversation_id := conversation_id c;
     conversation_project := conversation_project c;
     session_creation_pending := session_creation_pending c; agent_session := agent_session c;
     turn_pending := turn_pending c; title := title c; messages := messages c |}.

(** ** Validation *)

Definition runtime_id_byte (b : N) : bool :=
  is_ascii_lowercase b || is_ascii_digit b || (b =? 45) || (b =? 95) || (b =? 46).

Definition validate_runtime_id (value : str) : Result unit :=
  if bool_decide (value = []) || (MAX_RUNTIME_ID_BYTES <? blen value)
     || negb (forallb runtime_id_byte (as_bytes value))
  then Err (persistence_error (u "project_state_runtime_id_invalid"))
  else Ok tt.

Definition session_id_byte (b : N) : bool :=
  is_ascii_alphanumeric b || (b =? 45) || (b =? 95).

Definition validate_session_id (value : SessionId) : Result unit :=
  if bool_decide (session_id_0 value = [])
     || (MAX_PERSISTED_SESSION_ID_BYTES <? blen (session_id_0 value))
     || negb (forallb session_id_byte (as_bytes (session_id_0 value)))
  then Err (persistence_error (u "project_state_session_id_invalid"))
  else Ok tt.

Definition PersistedAgentSession_validate (s : PersistedAgentSession) : Result unit :=
  let? _ := validate_runtime_id (as_runtime_id s) in
  let? _ := validate_session_id (as_session_id s) in
  match as_preferred_model s with
  | Some model => validate_target model
  | None => Ok tt
  end.

Definition PersistedProjectState_new (project_id : ProjectId) : PersistedProjectState :=
  {| ps_schema := PROJECT_STATE_SCHEMA_V1; ps_revision := 0; ps_project_id := project_id;
     ps_session_creation_pending := false; ps_agent_session := None; ps_route_policy := None |}.

Definition PersistedProjectState_validate (s : PersistedProjectState) : Result unit :=
  if negb (ps_schema s =? PROJECT_STATE_SCHEMA_V1) then
    Err (persistence_error (u "project_state_schema_unsupported"))
  else if ps_session_creation_pending s && is_some (ps_agent_session s) then
    Err (persistence_error (u "project_state_session_pending_conflict"))
  else
    let? _ := match ps_agent_session s with
              | Some session => PersistedAgentSession_validate session
              | None => Ok tt
              end in
    match ps_route_policy s with
    | Some policy => ModelRoutePolicyConfig_validate policy
    | None => Ok tt
    end.

Definition pending_creation (id : ConversationId) (project : ProjectId) : PersistedConversation :=
  {| schema := CONVERSATION_STATE_SCHEMA_V1; revision := 0; conversation_id := id;
     conversation_project := project; session_creation_pending := true; agent_session := None;
     turn_pending := false; title := None; messages := [] |}.

Definition message_text_invalid (text : str) : bool :=
  bool_decide (text = []) || (MAX_CONVERSATION_MESSAGE_BYTES <? blen text)
  || contains_char 0 text.

(** The loop of [PersistedConversation::validate] over the messages. *)
Fixpoint validate_messages (index total : N) (ms : list PersistedConversationMessage) :
    Result unit :=
  match ms with
  | [] => Ok tt
  | m :: ms =>
    if negb (sequence m =? index) then
      Err (persistence_error (u "conversation_message_sequence_invalid"))
    else if message_text_invalid (text m) then
      Err (persistence_error (u "conversation_message_invalid"))
    else
      let? total := ok_or (checked_add usize_max total (blen (text m)))
                      (persistence_error (u "conversation_text_too_large")) in
      if MAX_CONVERSATION_TEXT_BYTES <? total then
        Err (persistence_error (u "conversation_text_too_large"))
      else validate_messages (index + 1) total ms
  end.

Definition title_invalid (title : str) : bool :=
  bool_decide (title = []) || (MAX_CONVERSATION_TITLE_BYTES <? blen title)
  || negb (bool_decide (trim title = title)) || existsb is_control title.

Definition last_role (c : PersistedConversation) : option ConversationRole :=
  role <$> last (messages c).

Definition PersistedConversation_validate (c : PersistedConversation) : Result unit :=
  if negb (schema c =? CONVERSATION_STATE_SCHEMA_V1) then
    Err (persistence_error (u "conversation_state_schema_unsupported"))
  else if negb (xorb (session_creation_pending c) (is_some (agent_session c))) then
    Err (persistence_error (u "conversation_session_state_invalid"))
  else
    let? _ := match agent_session c with
              | Some session => PersistedAgentSession_validate session
              | None => Ok tt
              end in
    if session_creation_pending c
       && (turn_pending c || negb (bool_decide (messages c = []))) then
      Err (persistence_error (u "conversation_creation_pending_payload_invalid"))
    else if match title c with Some t => title_invalid t | None => false end then
      Err (persistence_error (u "conversation_title_invalid"))
    else if MAX_CONVERSATION_MESSAGES <? len (messages c) then
      Err (persistence_error (u "conversation_message_limit_exceeded"))
    else
      let? _ := validate_messages 0 0 (messages c) in
      if turn_pending c && negb (bool_decide (last_role c = Some User)) then
        Err (persistence_error (u "conversation_pending_turn_invalid"))
      else Ok tt.

(** ** Appending *)

(** [try_fold] with [checked_add] over the texts. *)
Fixpoint fold_text_bytes (total : N) (ms : list PersistedConversationMessage) : option N :=
  match ms with
  | [] => Some total
  | m :: ms => checked_add usize_max total (blen (text m)) ≫= fun total => fold_text_bytes total ms
  end.

Definition append_message (c : PersistedConversation) (role : ConversationRole) (text : str) :
    Result PersistedConversation :=
  if message_text_invalid text then Err (persistence_error (u "conversation_message_invalid"))
  else if MAX_CONVERSATION_MESSAGES <=? len (messages c) then
    Err (persistence_error (u "conversation_message_limit_exceeded"))
  else
    let? total := ok_or (fold_text_bytes 0 (messages c) ≫= fun total =>
                           checked_add usize_max total (blen text))
                    (persistence_error (u "conversation_text_too_large")) in
    if MAX_CONVERSATION_TEXT_BYTES <? total then
      Err (persistence_error (u "conversation_text_too_large"))
    else Ok (set_messages c (messages c ++ [mkMessage (len (messages c)) role text])).

(** ** Facts *)

Fixpoint text_bytes (ms : list PersistedConversationMessage) : N :=
  match ms with [] => 0 | m :: ms => blen (text m) + text_bytes ms end.

Lemma text_bytes_app ms ms' : text_bytes (ms ++ ms') = text_bytes ms + text_bytes ms'.
Proof. induction ms as [|m ms IH]; cbn; [done|]. rewrite IH. lia. Qed.

Lemma fold_text_bytes_Some total ms n :
  fold_text_bytes total ms = Some n <->
  n = total + text_bytes ms /\ (ms = [] \/ total + text_bytes ms <= usize_max).
Proof.
  revert total. induction ms as [|m ms IH]; intros total; cbn.
  - rewrite N.add_0_r. naive_solver.
  - rewrite bind_Some. setoid_rewrite checked_add_Some. setoid_rewrite IH. split.
    + intros (t & [-> ?] & -> & Hms). split; [lia|]. right.
      destruct Hms as [->|]; cbn; lia.
    + intros [-> [?|?]]; [done|]. eexists. split; [split; [done|lia]|]. split; [lia|]. right. lia.
Qed.

(** A list of stored messages is well formed: numbered from [i], each text valid. *)
Definition messages_ok (i : N) (ms : list PersistedConversationMessage) : Prop :=
  (forall k m, ms !! k = Some m -> sequence m = i + N.of_nat k) /\
  Forall (fun m => message_text_invalid (text m) = false) ms.

Lemma messages_ok_cons i m ms :
  messages_ok i (m :: ms) <->
  sequence m = i /\ message_text_invalid (text m) = false /\ messages_ok (i + 1) ms.
Proof.
  unfold messages_ok. rewrite Forall_cons. split.
  - intros [Hs [? ?]]. split_and!; try done.
    + rewrite (Hs 0%nat m); [lia|done].
    + intros k x Hx. rewrite (Hs (S k) x) by done. lia.
  - intros (Hm & ? & Hs & ?). split_and!; try done.
    intros [|k] x Hx; cbn in Hx; [injection Hx as <-; lia|]. rewrite (Hs k x Hx). lia.
Qed.

Lemma messages_ok_snoc i ms m :
  messages_ok i (ms ++ [m]) <->
  messages_ok i ms /\ sequence m = i + len ms /\ message_text_invalid (text m) = false.
Proof.
  revert i. induction ms as [|x ms IH]; intros i.
  - cbn [app]. rewrite messages_ok_cons. unfold messages_ok at 1 2. unfold len. cbn.
    split; intros; split_and!; try naive_solver; try lia; intros; set_solver.
  - cbn [app]. rewrite !messages_ok_cons, IH, len_cons.
    split; intros; destruct_and!; split_and!; try done; lia.
Qed.

Lemma validate_messages_ok i total ms :
  total <= MAX_CONVERSATION_TEXT_BYTES ->
  validate_messages i total ms = Ok tt <->
  messages_ok i ms /\ total + text_bytes ms <= MAX_CONVERSATION_TEXT_BYTES.
Proof.
  assert (Hmax : MAX_CONVERSATION_TEXT_BYTES < usize_max) by done.
  revert i total. induction ms as [|m ms IH]; intros i total Ht; cbn [validate_messages].
  - split; [|done]. intros _. split; [|cbn; lia]. split; [done|constructor].
  - rewrite messages_ok_cons. cbn [text_bytes].
    rewrite !if_err_ok, negb_false_iff, N.eqb_eq.
    destruct (checked_add usize_max total (blen (text m))) as [t|] eqn:E; cbn [ok_or].
    + apply checked_add_Some in E as [-> ?]. rewrite if_err_ok, N.ltb_ge. split.
      * intros (? & ? & ? & [? ?]%IH); [|lia]. split_and!; try done. lia.
      * intros ((? & ? & ?) & ?). split_and!; try done; [lia|]. apply IH; [lia|]. split; [done|lia].
    + split; [naive_solver|]. intros (_ & ?). exfalso.
      unfold checked_add in E. destruct (N.leb_spec (total + blen (text m)) usize_max); [done|].
      assert (0 <= text_bytes ms) by apply N.le_0_l. lia.
Qed.

(** What makes a conversation valid. *)
Definition session_ok (s : option PersistedAgentSession) : Prop :=
  match s with Some s => PersistedAgentSession_validate s = Ok tt | None => True end.
Definition title_ok (t : option str) : Prop :=
  match t with Some t => title_invalid t = false | None => True end.

Lemma PersistedConversation_validate_ok c :
  PersistedConversation_validate c = Ok tt <->
  schema c = CONVERSATION_STATE_SCHEMA_V1 /\
  xorb (session_creation_pending c) (is_some (agent_session c)) = true /\
  session_ok (agent_session c) /\
  (session_creation_pending c = true -> turn_pending c = false /\ messages c = []) /\
  title_ok (title c) /\
  len (messages c) <= MAX_CONVERSATION_MESSAGES /\
  messages_ok 0 (messages c) /\ text_bytes (messages c) <= MAX_CONVERSATION_TEXT_BYTES /\
  (turn_pending c = true -> last_role c = Some User).
Proof.
  unfold PersistedConversation_validate.
  rewrite !if_err_ok, !negb_false_iff, N.eqb_eq, seq_ok, !if_err_ok, N.ltb_ge, seq_ok, if_err_ok,
    (validate_messages_ok 0 0) by done.
  rewrite !andb_false_iff, !negb_false_iff, N.add_0_l.
  assert (Hp : forall b (P : Prop) `{Decision P}, b = false \/ bool_decide P = true <-> (b = true -> P)).
  { intros b P ?. rewrite bool_decide_eq_true. destruct b; naive_solver. }
  unfold session_ok, title_ok.
  destruct (agent_session c), (title c), (session_creation_pending c), (turn_pending c);
    rewrite ?bool_decide_eq_true; cbn;
    try (destruct (bool_decide_reflect (messages c = [])); cbn);
    naive_solver.
Qed.

(** What appending does, and exactly when it can. *)
Definition with_message (c : PersistedConversation) (r : ConversationRole) (t : str) :
    PersistedConversation :=
  set_messages c (messages c ++ [mkMessage (len (messages c)) r t]).

Lemma append_message_ok c r t c' :
  append_message c r t = Ok c' <->
  message_text_invalid t = false /\ len (messages c) < MAX_CONVERSATION_MESSAGES /\
  text_bytes (messages c) + blen t <= MAX_CONVERSATION_TEXT_BYTES /\ c' = with_message c r t.
Proof.
  assert (Hmax : MAX_CONVERSATION_TEXT_BYTES < usize_max) by done.
  unfold append_message. rewrite !if_err_ok, N.leb_gt.
  destruct (fold_text_bytes 0 (messages c) ≫= _) as [total|] eqn:E; cbn [ok_or].
  - apply bind_Some in E as (n & [-> _]%fold_text_bytes_Some & [-> ?]%checked_add_Some).
    rewrite N.add_0_l, if_err_ok, N.ltb_ge. unfold with_message. naive_solver.
  - split; [naive_solver|]. intros (_ & _ & Hle & _). exfalso.
    assert (fold_text_bytes 0 (messages c) = Some (text_bytes (messages c))) as Hf.
    { apply fold_text_bytes_Some. split; [lia|]. right. lia. }
    rewrite Hf in E. cbn in E. unfold checked_add in E.
    destruct (N.leb_spec (text_bytes (messages c) + blen t) usize_max); [done|lia].
Qed.

Lemma message_valid_bytes t : message_text_invalid t = false -> blen t <= MAX_CONVERSATION_MESSAGE_BYTES.
Proof. intros [[_ H%N.ltb_ge]%orb_false_iff _]%orb_false_iff. exact H. Qed.

(** Appending to a valid conversation with a session keeps it valid, as long as
    a pending turn stays at the user's message. *)
Lemma append_message_valid c r t c' :
  PersistedConversation_validate c = Ok tt -> session_creation_pending c = false ->
  (turn_pending c = true -> r = User) -> append_message c r t = Ok c' ->
  PersistedConversation_validate c' = Ok tt.
Proof.
  rewrite !PersistedConversation_validate_ok, append_message_ok.
  intros (? & ? & ? & ? & ? & ? & ? & ? & ?) Hc Hr (? & ? & ? & ->). unfold with_message. cbn.
  rewrite messages_ok_snoc, len_app, text_bytes_app, len_cons, len_nil, Hc in *. cbn [text_bytes text sequence].
  split_and!; try done; try lia.
  intros Ht. unfold last_role. cbn [messages set_messages]. rewrite last_snoc. cbn. by rewrite Hr.
Qed.

Lemma last_role_with_message c r t : last_role (with_message c r t) = Some r.
Proof. unfold last_role, with_message. cbn [messages set_messages]. by rewrite last_snoc. Qed.
