(* ===== verification/StateStore.v ===== *)
(** * The local store of projects and conversations ([vibecoder-persistence-local])

    A project state and a conversation are JSON files in two private directories.
    An update is a compare-and-swap on the revision: under the store's gate the file
    is read, compared and replaced by a temporary file renamed over it.  The code
    exists twice, for the two kinds of value; here it is written once, over a
    [Kind]. *)
From S2P Require Import Prelude RustStr RustPath Domain Program OsCalls Persistence.

Definition PRODUCT_ROOT_NAME : str := u "vibecoder".
Definition STATE_ROOT_NAME : str := u "state".
Definition PROJECT_STATE_ROOT_NAME : str := u "projects".
Definition CONVERSATION_STATE_ROOT_NAME : str := u "conversations".
Definition MAX_STATE_DIRECTORY_ENTRIES : N := 8192.
Definition TEMP_PREFIX : str := u ".vibecoder-state-tmp-".
Definition CONVERSATION_TEMP_PREFIX : str := u ".vibecoder-conversation-tmp-".

(** [serde_json::to_vec] and [from_slice] at the two types. *)
Class StateJson := {
  state_to_vec : PersistedProjectState -> option bytes;
  state_from_slice : bytes -> option PersistedProjectState;
  conversation_to_vec : PersistedConversation -> option bytes;
  conversation_from_slice : bytes -> option PersistedConversation
}.

Record LocalProjectStateStore := {
  app_private_root : str;
  project_state_root : str;
  conversation_state_root : str;
  gate_poisoned : bool
}.

(** [canonical_existing_dir], [reject_symlink_if_present] and
    [create_or_verify_fixed_child] map errors to fixed codes. *)
Definition or_code {A} (code : str) (p : prog (IoResult A)) : prog (Result A) :=
  do r <- p; Ret (match r with Ok a => Ok a | Err _ => Err (persistence_error code) end).

Definition canonical_existing_dir (path code : str) : prog (Result str) :=
  try canonical <- or_code code (call_ (Canonicalize path));
  try metadata <- or_code code (call_ (Metadata canonical));
  Ret (if negb (is_dir metadata) then Err (persistence_error code) else Ok canonical).

Definition reject_symlink_if_present (path code : str) : prog (Result unit) :=
  do r <- call_ (SymlinkMetadata path);
  Ret (match r with
       | Ok metadata => if is_symlink metadata then Err (persistence_error code) else Ok tt
       | Err NotFound => Ok tt
       | Err _ => Err (persistence_error (u "state_path_metadata_failed"))
       end).

Definition create_or_verify_fixed_child (parent name code : str) : prog (Result str) :=
  let child := push_str parent name in
  try _ <- reject_symlink_if_present child code;
  do created <- call_ (CreateDir child);
  try _ <- lift (match created with
                 | Ok _ | Err AlreadyExists => Ok tt
                 | Err _ => Err (persistence_error code)
                 end);
  try _ <- reject_symlink_if_present child code;
  try canonical <- canonical_existing_dir child code;
  if negb (same_path canonical child) || negb (path_starts_with canonical parent) then
    Ret (Err (persistence_error code))
  else
    try _ <- or_code code (call_ (Metadata canonical));
    try _ <- or_code code (call_ (SetPermissions canonical PRIVATE_DIR_MODE));
    Ret (Ok canonical).

Definition initialize (app_private_dir : str) : prog (Result LocalProjectStateStore) :=
  if negb (has_root app_private_dir) then
    Ret (Err (persistence_error (u "app_private_root_not_absolute")))
  else
    try _ <- reject_symlink_if_present app_private_dir (u "app_private_root_is_symlink");
    try app_private_root <-
      canonical_existing_dir app_private_dir (u "app_private_root_unavailable");
    try product_root <-
      create_or_verify_fixed_child app_private_root PRODUCT_ROOT_NAME (u "product_root_invalid");
    try state_root <-
      create_or_verify_fixed_child product_root STATE_ROOT_NAME (u "state_root_invalid");
    try project_state_root <-
      create_or_verify_fixed_child state_root PROJECT_STATE_ROOT_NAME
        (u "project_state_root_invalid");
    try conversation_state_root <-
      create_or_verify_fixed_child state_root CONVERSATION_STATE_ROOT_NAME
        (u "conversation_state_root_invalid");
    if negb (path_starts_with project_state_root app_private_root)
       || negb (path_starts_with conversation_state_root app_private_root) then
      Ret (Err (persistence_error (u "state_root_escaped_app_private_root")))
    else
      Ret (Ok {| app_private_root := app_private_root; project_state_root := project_state_root;
                 conversation_state_root := conversation_state_root; gate_poisoned := false |}).

(** ** Kinds of stored values *)

(** What the two copies of the code differ in.  Error codes start with [k_prefix],
    except those of the helpers both use. *)
Record Kind := {
  k_key : Type;
  k_value : Type;
  k_prefix : str;
  k_temp_prefix : str;
  k_root_name : str;
  k_limit : N;
  k_file_name : k_key -> str;
  k_to_vec : k_value -> option bytes;
  k_from_slice : bytes -> option k_value;
  k_validate : k_value -> Result unit;
  k_key_of : k_value -> k_key;
  k_key_eqb : k_key -> k_key -> bool;
  k_revision : k_value -> N;
  k_set_revision : k_value -> N -> k_value
}.

Definition ps_set_revision (s : PersistedProjectState) (n : N) : PersistedProjectState :=
  {| ps_schema := ps_schema s; ps_revision := n; ps_project_id := ps_project_id s;
     ps_session_creation_pending := ps_session_creation_pending s;
     ps_agent_session := ps_agent_session s; ps_route_policy := ps_route_policy s |}.

Section store.
Context `{UuidLib, StateJson}.
(** [geteuid()]. *)
Context (euid : N) (self : LocalProjectStateStore).

Definition state_file_name (project_id : ProjectId) : str :=
  uuid_hyphenated (project_uuid project_id) ++ u ".json".
Definition conversation_file_name (key : ProjectId * ConversationId) : str :=
  uuid_hyphenated (project_uuid key.1) ++ u "--"
    ++ uuid_hyphenated (conversation_uuid key.2) ++ u ".json".

Definition project_kind : Kind :=
  {| k_key := ProjectId; k_value := PersistedProjectState; k_prefix := u "project_state";
     k_temp_prefix := TEMP_PREFIX; k_root_name := PROJECT_STATE_ROOT_NAME;
     k_limit := MAX_PERSISTED_STATE_BYTES; k_file_name := state_file_name;
     k_to_vec := state_to_vec; k_from_slice := state_from_slice;
     k_validate := PersistedProjectState_validate; k_key_of := ps_project_id;
     k_key_eqb := fun a b => bool_decide (a = b); k_revision := ps_revision;
     k_set_revision := ps_set_revision |}.
Definition conversation_kind : Kind :=
  {| k_key := ProjectId * ConversationId; k_value := PersistedConversation;
     k_prefix := u "conversation"; k_temp_prefix := CONVERSATION_TEMP_PREFIX;
     k_root_name := CONVERSATION_STATE_ROOT_NAME; k_limit := MAX_PERSISTED_CONVERSATION_BYTES;
     k_file_name := conversation_file_name; k_to_vec := conversation_to_vec;
     k_from_slice := conversation_from_slice; k_validate := PersistedConversation_validate;
     k_key_of := fun c => (conversation_project c, conversation_id c);
     k_key_eqb := fun a b => bool_decide (a = b); k_revision := revision;
     k_set_revision := set_revision |}.

Definition kind_error (k : Kind) (suffix : string) : VibeCoderError :=
  persistence_error (k_prefix k ++ u suffix).

(** ** Descriptors *)

Definition cstring (code text : str) : Result str :=
  if contains_char 0 text then Err (persistence_error code) else Ok text.

Definition fstat (fd : Fd) (code : str) : prog (Result stat) := or_code code (call_ (Fstat fd)).

Definition verify_private_directory_fd (fd : Fd) (code : str) : prog (Result unit) :=
  try stat <- fstat fd code;
  Ret (if negb (is_dir stat) || negb (st_uid stat =? euid) then Err (persistence_error code)
       else Ok tt).

Definition verify_private_regular_stat (stat : stat) (code : str) : Result unit :=
  if negb (file_kind stat =? S_IFREG) || negb (st_nlink stat =? 1) || negb (st_uid stat =? euid)
     || negb (N.land (st_mode stat) 0x3F =? 0)     (* 0o077 *)
     || (N.land (st_mode stat) 0x100 =? 0)         (* 0o400 *)
  then Err (persistence_error code) else Ok tt.

Definition verify_private_regular_fd (fd : Fd) (code : str) : prog (Result unit) :=
  try stat <- fstat fd code; lift (verify_private_regular_stat stat code).

Definition open_directory_path_nofollow (path : str) : prog (Result Fd) :=
  try path <- lift (cstring (u "app_private_root_invalid") path);
  try fd <- or_code (u "app_private_root_open_failed") (call_ (OpenPath path));
  try _ <- verify_private_directory_fd fd (u "app_private_root_invalid");
  Ret (Ok fd).

Definition open_directory_at (parent : Fd) (name : str) : prog (Result Fd) :=
  try name <- lift (cstring (u "state_path_invalid") name);
  try fd <- or_code (u "state_directory_open_failed") (call_ (OpenAt parent name HowDirectory));
  try _ <- verify_private_directory_fd fd (u "state_directory_invalid");
  Ret (Ok fd).

Definition open_file_at (parent : Fd) (name : str) : prog (Result Fd) :=
  or_code (u "project_state_open_failed") (call_ (OpenAt parent name HowRead)).

Definition open_exclusive_private_file_at (parent : Fd) (name : str) : prog (Result Fd) :=
  or_code (u "project_state_temp_create_failed")
    (call_ (OpenAt parent name (HowCreate PRIVATE_FILE_MODE))).

Definition fstatat_nofollow (parent : Fd) (name code : str) : prog (Result stat) :=
  or_code code (call_ (FstatAt parent name)).

Definition fstatat_nofollow_optional (parent : Fd) (name : str) : prog (Result (option stat)) :=
  do r <- call_ (FstatAt parent name);
  Ret (match r with
       | Ok stat => Ok (Some stat)
       | Err NotFound => Ok None
       | Err _ => Err (persistence_error (u "project_state_stat_failed"))
       end).

Definition inspect_state_for_read (parent : Fd) (name : str) : prog (Result (option stat)) :=
  try o <- fstatat_nofollow_optional parent name;
  Ret (match o with
       | None => Ok None
       | Some stat =>
         let? _ := verify_private_regular_stat stat (u "project_state_target_invalid") in
         Ok (Some stat)
       end).

Definition inspect_existing_state_target (parent : Fd) (name : str) : prog (Result unit) :=
  try o <- fstatat_nofollow_optional parent name;
  Ret (match o with
       | None => Ok tt
       | Some stat => verify_private_regular_stat stat (u "project_state_target_invalid")
       end).

(** [open_project_state_root] and [open_conversation_state_root]. *)
Definition open_root (k : Kind) : prog (Result Fd) :=
  try app <- open_directory_path_nofollow (app_private_root self);
  try product <- open_directory_at app PRODUCT_ROOT_NAME;
  try state <- open_directory_at product STATE_ROOT_NAME;
  open_directory_at state (k_root_name k).

(** [TempCleanup]: an error before the rename is done unlinks the temporary file. *)
Definition with_cleanup (parent : Fd) (temp : str) (body : prog (Result unit)) :
    prog (Result unit) :=
  do r <- body;
  match r with
  | Ok _ => Ret (Ok tt)
  | Err error => do _ <- call_ (UnlinkAt parent temp false); Ret (Err error)
  end.

Definition target_name (k : Kind) (key : k_key k) : Result str :=
  cstring (k_prefix k ++ u "_name_invalid") (k_file_name k key).

(** [save_project_state] and [save_conversation]. *)
Definition save (k : Kind) (value : k_value k) : prog (Result unit) :=
  match k_to_vec k value with
  | None => Ret (Err (kind_error k "_serialize_failed"))
  | Some encoded =>
    if k_limit k <? len encoded then Ret (Err (kind_error k "_too_large"))
    else
      try root <- open_root k;
      try target <- lift (target_name k (k_key_of k value));
      try _ <- inspect_existing_state_target root target;
      do fresh <- call_ NewUuid;
      try temp <- lift (cstring (k_prefix k ++ u "_temp_name_invalid")
                          (k_temp_prefix k ++ uuid_simple fresh));
      try temp_fd <- open_exclusive_private_file_at root temp;
      try _ <- with_cleanup root temp (
        try _ <- verify_private_regular_fd temp_fd (k_prefix k ++ u "_temp_invalid");
        try _ <- or_code (k_prefix k ++ u "_write_failed") (call_ (WriteAll temp_fd encoded));
        try _ <- or_code (k_prefix k ++ u "_file_sync_failed") (call_ (SyncAll temp_fd));
        or_code (k_prefix k ++ u "_rename_failed") (call_ (RenameAt root temp root target)));
      or_code (k_prefix k ++ u "_parent_sync_failed") (call_ (Fsync root))
  end.

Definition size_exceeds (stat : stat) (max_bytes : N) : bool :=
  (st_size stat <? 0)%Z || (Z.of_N max_bytes <? st_size stat)%Z.

(** The end of [load_project_state] and [load_conversation]. *)
Definition decode (k : Kind) (key : k_key k) (bs : bytes) : Result (k_value k) :=
  let? value := ok_or (k_from_slice k bs) (kind_error k "_invalid_json") in
  let? _ := k_validate k value in
  if negb (k_key_eqb k (k_key_of k value) key) then Err (kind_error k "_id_mismatch")
  else Ok value.

(** [load_project_state] and [load_conversation]. *)
Definition load (k : Kind) (key : k_key k) : prog (Result (option (k_value k))) :=
  try root <- open_root k;
  try name <- lift (target_name k key);
  try expected <- inspect_state_for_read root name;
  match expected with
  | None => Ret (Ok None)
  | Some expected =>
    if size_exceeds expected (k_limit k) then Ret (Err (kind_error k "_too_large"))
    else
      try fd <- open_file_at root name;
      try actual <- fstat fd (k_prefix k ++ u "_stat_failed");
      try _ <- lift (verify_private_regular_stat actual (k_prefix k ++ u "_target_invalid"));
      if negb (same_inode actual expected) then
        Ret (Err (kind_error k "_changed_during_open"))
      else
        try bs <- or_code (k_prefix k ++ u "_read_failed") (call_ (ReadToEnd fd (k_limit k + 1)));
        Ret (if k_limit k <? len bs then Err (kind_error k "_too_large")
             else let? value := decode k key bs in Ok (Some value))
  end.

(** [remove_project_state] and [remove_conversation]. *)
Definition remove_value (k : Kind) (key : k_key k) : prog (Result unit) :=
  try root <- open_root k;
  try name <- lift (target_name k key);
  try found <- inspect_state_for_read root name;
  match found with
  | None => Ret (Ok tt)
  | Some _ =>
    do removed <- call_ (UnlinkAt root name false);
    match removed with
    | Ok _ | Err NotFound =>
      or_code (k_prefix k ++ u "_parent_sync_failed") (call_ (Fsync root))
    | Err _ => Ret (Err (kind_error k "_remove_failed"))
    end
  end.

Definition save_project_state : PersistedProjectState -> prog (Result unit) := save project_kind.
Definition save_conversation : PersistedConversation -> prog (Result unit) := save conversation_kind.
Definition load_project_state_sync : ProjectId -> prog (Result (option PersistedProjectState)) :=
  load project_kind.
Definition load_conversation_sync :
    ProjectId * ConversationId -> prog (Result (option PersistedConversation)) :=
  load conversation_kind.
Definition remove_project_state_sync : ProjectId -> prog (Result unit) := remove_value project_kind.
Definition remove_conversation_sync : ProjectId * ConversationId -> prog (Result unit) :=
  remove_value conversation_kind.

(** ** Listing *)

Definition uuid_of (text : str) : option N :=
  id ← uuid_parse text; if str_eqb text (uuid_hyphenated id) then Some id else None.

Definition parse_project_file_name (text : str) : option ProjectId :=
  stem ← strip_suffix (u ".json") text; MkProjectId <$> uuid_of stem.

Definition parse_conversation_file_name (text : str) : option (ProjectId * ConversationId) :=
  stem ← strip_suffix (u ".json") text;
  parts ← split_once (u "--") stem;
  if contains (u "--") parts.2 then None
  else
    project ← uuid_parse parts.1;
    conversation ← uuid_parse parts.2;
    if str_eqb parts.1 (uuid_hyphenated project)
       && str_eqb parts.2 (uuid_hyphenated conversation)
    then Some (MkProjectId project, MkConversationId conversation) else None.

(** The loop over [readdir]: [parse] reads an entry, [select] picks what is listed. *)
Fixpoint list_entries {K I} (k : Kind) (parse : str -> option K) (select : K -> option I)
    (max : N) (root : Fd) (errno_set : bool) (seen : N) (ids : list I) (raws : list bytes) :
    prog (Result (list I)) :=
  match raws with
  | [] => Ret (if errno_set then Err (kind_error k "_list_read_failed") else Ok ids)
  | raw :: raws =>
    if bool_decide (raw = as_bytes dot) || bool_decide (raw = as_bytes dotdot) then
      list_entries k parse select max root errno_set seen ids raws
    else if MAX_STATE_DIRECTORY_ENTRIES <? seen + 1 then
      Ret (Err (kind_error k "_directory_too_large"))
    else if bool_decide (take (length (as_bytes (k_temp_prefix k))) raw
                         = as_bytes (k_temp_prefix k)) then
      list_entries k parse select max root errno_set (seen + 1) ids raws
    else
      match from_utf8 raw with
      | None => Ret (Err (kind_error k "_directory_unexpected_entry"))
      | Some text =>
        match parse text with
        | None => Ret (Err (kind_error k "_directory_unexpected_entry"))
        | Some key =>
          try name <- lift (cstring (k_prefix k ++ u "_directory_unexpected_entry") text);
          try stat <- fstatat_nofollow root name (k_prefix k ++ u "_list_stat_failed");
          try _ <- lift (verify_private_regular_stat stat (k_prefix k ++ u "_target_invalid"));
          match select key with
          | None => list_entries k parse select max root errno_set (seen + 1) ids raws
          | Some id =>
            let ids := ids ++ [id] in
            if max <? len ids then Ret (Err (kind_error k "_list_limit_exceeded"))
            else list_entries k parse select max root errno_set (seen + 1) ids raws
          end
        end
      end
  end.

Definition list_ids {K I} (k : Kind) (parse : str -> option K) (select : K -> option I)
    (uuid : I -> N) (max : N) : prog (Result (list I)) :=
  try root <- open_root k;
  try duplicate <- or_code (k_prefix k ++ u "_list_dup_failed") (call_ (DupFd root));
  do stream <- call_ (FdOpenDir duplicate);
  match stream with
  | Err _ =>
    do _ <- call_ (CloseFd duplicate); Ret (Err (kind_error k "_list_open_failed"))
  | Ok _ =>
    do (raws, errno_set) <- call_ (ReadDirAll duplicate);
    try ids <- list_entries k parse select max root errno_set 0 [] raws;
    Ret (Ok (sort_by (fun id => uuid_hyphenated (uuid id)) ids))
  end.

Definition list_project_ids_sync (max : N) : prog (Result (list ProjectId)) :=
  list_ids project_kind parse_project_file_name Some project_uuid max.

Definition of_project (project_id : ProjectId) (key : ProjectId * ConversationId) :
    option ConversationId :=
  if bool_decide (key.1 = project_id) then Some key.2 else None.

Definition list_conversation_ids_sync (project_id : ProjectId) (max : N) :
    prog (Result (list ConversationId)) :=
  list_ids conversation_kind parse_conversation_file_name (of_project project_id)
    conversation_uuid max.

Fixpoint remove_conversations (project_id : ProjectId) (ids : list ConversationId) :
    prog (Result unit) :=
  match ids with
  | [] => Ret (Ok tt)
  | id :: ids =>
    try _ <- remove_conversation_sync (project_id, id);
    remove_conversations project_id ids
  end.

(** ** The store's methods

    Each takes the gate; what follows runs alone. *)
Definition lock_gate {A} (body : prog (Result A)) : prog (Result A) :=
  if gate_poisoned self then Ret (Err (persistence_error (u "project_state_gate_poisoned")))
  else body.

(** The body of [update_project_state] and [update_conversation]. *)
Definition compare_and_swap (k : Kind) (expected_revision : N) (value : k_value k) :
    prog (Result (k_value k)) :=
  try found <- load k (k_key_of k value);
  try current <- lift (ok_or found (kind_error k "_not_found"));
  if negb (k_revision k current =? expected_revision) then
    Ret (Err (kind_error k "_revision_conflict"))
  else
    try next <- lift (ok_or (checked_add u64_max expected_revision 1)
                        (kind_error k "_revision_overflow"));
    let committed := k_set_revision k value next in
    try _ <- save k committed;
    Ret (Ok committed).

Definition create_project_state (state : PersistedProjectState) : prog (Result unit) :=
  try _ <- lift (PersistedProjectState_validate state);
  if negb (ps_revision state =? 0) then
    Ret (Err (persistence_error (u "project_state_create_revision_invalid")))
  else
    lock_gate
      (try found <- load_project_state_sync (ps_project_id state);
       if is_some found then Ret (Err (persistence_error (u "project_state_already_exists")))
       else save_project_state state).

Definition update_project_state (expected_revision : N) (state : PersistedProjectState) :
    prog (Result PersistedProjectState) :=
  try _ <- lift (PersistedProjectState_validate state);
  if negb (ps_revision state =? expected_revision) then
    Ret (Err (persistence_error (u "project_state_expected_revision_mismatch")))
  else lock_gate (compare_and_swap project_kind expected_revision state).

Definition load_project_state (project_id : ProjectId) :
    prog (Result (option PersistedProjectState)) := lock_gate (load_project_state_sync project_id).

Definition list_project_ids (max_projects : N) : prog (Result (list ProjectId)) :=
  if (max_projects =? 0) || (MAX_PERSISTED_PROJECTS <? max_projects) then
    Ret (Err (persistence_error (u "project_state_list_limit_invalid")))
  else lock_gate (list_project_ids_sync max_projects).

Definition remove_project_state (project_id : ProjectId) : prog (Result unit) :=
  lock_gate (remove_project_state_sync project_id).

Definition create_conversation (conversation : PersistedConversation) : prog (Result unit) :=
  try _ <- lift (PersistedConversation_validate conversation);
  if negb (revision conversation =? 0) then
    Ret (Err (persistence_error (u "conversation_create_revision_invalid")))
  else
    lock_gate
      (try found <- load_conversation_sync
                      (conversation_project conversation, conversation_id conversation);
       if is_some found then Ret (Err (persistence_error (u "conversation_already_exists")))
       else
         try ids <- list_conversation_ids_sync (conversation_project conversation)
                      MAX_PERSISTED_CONVERSATIONS_PER_PROJECT;
         if MAX_PERSISTED_CONVERSATIONS_PER_PROJECT <=? len ids then
           Ret (Err (persistence_error (u "conversation_limit_exceeded")))
         else save_conversation conversation).

Definition update_conversation (expected_revision : N) (conversation : PersistedConversation) :
    prog (Result PersistedConversation) :=
  try _ <- lift (PersistedConversation_validate conversation);
  if negb (revision conversation =? expected_revision) then
    Ret (Err (persistence_error (u "conversation_expected_revision_mismatch")))
  else lock_gate (compare_and_swap conversation_kind expected_revision conversation).

Definition load_conversation (project_id : ProjectId) (conversation_id : ConversationId) :
    prog (Result (option PersistedConversation)) :=
  lock_gate (load_conversation_sync (project_id, conversation_id)).

Definition list_conversation_ids (project_id : ProjectId) (max_conversations : N) :
    prog (Result (list ConversationId)) :=
  if (max_conversations =? 0)
     || (MAX_PERSISTED_CONVERSATIONS_PER_PROJECT <? max_conversations) then
    Ret (Err (persistence_error (u "conversation_list_limit_invalid")))
  else lock_gate (list_conversation_ids_sync project_id max_conversations).

Definition remove_conversation (project_id : ProjectId) (conversation_id : ConversationId) :
    prog (Result unit) := lock_gate (remove_conversation_sync (project_id, conversation_id)).

Definition remove_project_conversations (project_id : ProjectId) : prog (Result unit) :=
  lock_gate
    (try ids <- list_conversation_ids_sync project_id MAX_PERSISTED_CONVERSATIONS_PER_PROJECT;
     remove_conversations project_id ids).
End store.
