(* ===== verification/StateNames.v ===== *)
(** * File names of stored values ([vibecoder-persistence-local])

    What is needed of UUIDs and of [serde_json], and what follows for the names of the
    files: they are read back as the key they were made of, and none is a temporary
    file's. *)
From S2P Require Import Prelude RustStr StrFacts RustPath Domain Program OsCalls Persistence.
From S2P Require Import StateStore.

(** The spellings of the [uuid] crate: five groups of lower-case hexadecimal digits. *)
Definition lower_hex (c : N) : bool := is_ascii_digit c || in_range 97 102 c.
Definition hyphen : N := 45.

Class UuidShape `{UuidLib} : Prop := {
  uuid_shape_parse :: UuidLaws;
  uuid_hyphenated_shape : forall id, exists a b c d e,
    uuid_hyphenated id = a ++ [hyphen] ++ b ++ [hyphen] ++ c ++ [hyphen] ++ d ++ [hyphen] ++ e /\
    Forall (fun g => g <> [] /\ Forall (fun c => lower_hex c = true) g) [a; b; c; d; e]
}.

(** What [serde] promises of a derived encoding: it reads back. *)
Class StateJsonLaws `{StateJson} : Prop := {
  state_roundtrip : forall s bs, state_to_vec s = Some bs -> state_from_slice bs = Some s;
  conversation_roundtrip : forall c bs,
    conversation_to_vec c = Some bs -> conversation_from_slice bs = Some c
}.

(** ** Names *)

Definition name_char (c : N) : bool := lower_hex c || (c =? hyphen).

Section names.
Context `{UuidShape}.

Lemma uuid_name_chars id : Forall (fun c => name_char c = true) (uuid_hyphenated id).
Proof.
  destruct (uuid_hyphenated_shape id) as (a & b & c & d & e & -> & Hg).
  assert (Hh : forall g, Forall (fun c => lower_hex c = true) g ->
            Forall (fun c => name_char c = true) g).
  { intros g Hg'. eapply Forall_impl; [exact Hg'|]. unfold name_char. by intros x ->. }
  repeat (apply Forall_cons in Hg as [[_ ?%Hh] Hg]).
  rewrite !Forall_app. repeat split; try done; by repeat constructor.
Qed.

(** Hyphens stand alone and between other characters; [after] says whether the
    character before was one. *)
Fixpoint lone_hyphens (after : bool) (s : str) : bool :=
  match s with
  | [] => negb after
  | c :: s =>
    if c =? hyphen then negb after && lone_hyphens true s else lone_hyphens false s
  end.

Lemma hex_group after g s :
  g <> [] -> Forall (fun c => lower_hex c = true) g ->
  lone_hyphens after (g ++ s) = lone_hyphens false s.
Proof.
  intros Hne Hg. revert after. induction Hg as [|c g Hc Hg IH]; intros after; [done|].
  cbn. assert ((c =? hyphen) = false) as -> by (apply N.eqb_neq; by intros ->).
  destruct g; [done|]. by apply IH.
Qed.

Lemma uuid_lone_hyphens id : lone_hyphens true (uuid_hyphenated id) = true.
Proof.
  destruct (uuid_hyphenated_shape id) as (a & b & c & d & e & -> & Hg).
  repeat (apply Forall_cons in Hg as [[? ?] Hg]).
  rewrite <-(app_nil_r e). repeat (rewrite hex_group by done; cbn). done.
Qed.

Lemma lone_hyphens_separator after s t i :
  lone_hyphens after s = true -> (i < length s)%nat ->
  ~ [hyphen; hyphen] `prefix_of` drop i (s ++ t).
Proof.
  revert after i. induction s as [|c s IH]; intros after i; [cbn; lia|]. cbn [lone_hyphens length].
  intros Hs Hi [k Hk]. destruct i as [|i].
  - injection Hk as Hc Hk. apply N.eqb_eq in Hc. rewrite Hc in Hs.
    apply andb_true_iff in Hs as [_ Hs]. destruct s as [|d s]; [done|].
    injection Hk as Hd _. apply N.eqb_eq in Hd. cbn [lone_hyphens] in Hs. by rewrite Hd in Hs.
  - destruct (c =? hyphen); [apply andb_true_iff in Hs as [_ Hs]|];
      (apply (IH _ i Hs); [lia|by exists k]).
Qed.

Lemma uuid_head id : exists c s, uuid_hyphenated id = c :: s /\ lower_hex c = true.
Proof.
  destruct (uuid_hyphenated_shape id) as (a & b & c & d & e & -> & Hg).
  apply Forall_cons in Hg as [[Hne Hh] _]. destruct a as [|x a]; [done|].
  apply Forall_cons in Hh as [? _]. by eexists _, _.
Qed.

Lemma uuid_no_separator id : contains (u "--") (uuid_hyphenated id) = false.
Proof.
  apply not_true_iff_false. intros (a & b & Hab)%contains_infix.
  eapply (lone_hyphens_separator true (uuid_hyphenated id) [] (length a));
    [apply uuid_lone_hyphens| |].
  - rewrite Hab, !length_app. cbn. lia.
  - rewrite app_nil_r, Hab, drop_app_length. by exists b.
Qed.

Lemma split_file_name project conversation :
  split_once (u "--") (uuid_hyphenated project ++ u "--" ++ uuid_hyphenated conversation)
  = Some (uuid_hyphenated project, uuid_hyphenated conversation).
Proof.
  apply split_once_app. intros i Hi. eapply lone_hyphens_separator; [|done]. apply uuid_lone_hyphens.
Qed.

Lemma uuid_chars id : Forall (fun c => 0 < c < 128) (uuid_hyphenated id).
Proof.
  eapply Forall_impl; [apply uuid_name_chars|]. intros c.
  unfold name_char, lower_hex, hyphen, is_ascii_digit, in_range. intros Hc. split_bools; lia.
Qed.

Lemma str_eqb_refl s : str_eqb s s = true.
Proof. by apply bool_decide_eq_true. Qed.

Lemma uuid_of_hyphenated id : uuid_of (uuid_hyphenated id) = Some id.
Proof.
  unfold uuid_of. rewrite uuid_parse_hyphenated. cbn. by rewrite str_eqb_refl.
Qed.

(** What is printed is read back. *)
Lemma parse_state_file_name project :
  parse_project_file_name (state_file_name project) = Some project.
Proof.
  unfold parse_project_file_name, state_file_name.
  rewrite (proj2 (strip_suffix_spec _ _ _) eq_refl). cbn. rewrite uuid_of_hyphenated.
  by destruct project.
Qed.

Lemma parse_file_name_of_conversation key :
  parse_conversation_file_name (conversation_file_name key) = Some key.
Proof.
  destruct key as [[project] [conversation]]. unfold parse_conversation_file_name.
  unfold conversation_file_name. cbn [fst snd project_uuid conversation_uuid].
  rewrite !app_assoc, (proj2 (strip_suffix_spec _ _ _) eq_refl), <-!app_assoc.
  cbn -[u contains uuid_hyphenated split_once]. rewrite split_file_name.
  cbn -[u contains uuid_hyphenated]. rewrite uuid_no_separator, !uuid_parse_hyphenated. cbn.
  by rewrite !str_eqb_refl.
Qed.

(** Only what is printed so is read: a listed key is the key of its file. *)
Lemma parse_project_file_name_inv text project :
  parse_project_file_name text = Some project -> text = state_file_name project.
Proof.
  unfold parse_project_file_name, uuid_of, state_file_name. intros (stem & Hs & Hp)%bind_Some.
  apply strip_suffix_spec in Hs as ->. apply fmap_Some in Hp as (id & Hp & ->).
  apply bind_Some in Hp as (id' & _ & Hp). destruct (str_eqb _ _) eqn:E; [|done].
  injection Hp as ->. by apply bool_decide_eq_true in E as ->.
Qed.

Lemma parse_conversation_file_name_inv text key :
  parse_conversation_file_name text = Some key -> text = conversation_file_name key.
Proof.
  unfold parse_conversation_file_name, conversation_file_name.
  intros (stem & Hs & ([a b] & Hab & Hp)%bind_Some)%bind_Some. apply strip_suffix_spec in Hs as ->.
  apply split_once_from_spec in Hab as (k & -> & -> & _); [|done]. cbn [fst snd rev app] in Hp.
  destruct (contains _ _); [done|]. apply bind_Some in Hp as (project & _ & Hp).
  apply bind_Some in Hp as (conversation & _ & Hp). destruct (_ && _) eqn:E; [|done].
  injection Hp as <-. apply andb_true_iff in E as [->%bool_decide_eq_true ->%bool_decide_eq_true].
  cbn. by rewrite <-!app_assoc.
Qed.
End names.

(** ** ASCII texts are their bytes *)

Lemma as_bytes_plain s : Forall (fun c => 0 < c < 128) s -> as_bytes s = s.
Proof. intros Hs. apply as_bytes_ascii. by eapply Forall_impl; [exact Hs|intros c [_ Hc]]. Qed.

Lemma from_utf8_ascii s : Forall (fun c => 0 < c < 128) s -> from_utf8 s = Some s.
Proof.
  intros Hs. assert (from_utf8_lossy s = s) as Hl.
  { induction Hs as [|c s Hc Hs IH]; [done|]. cbn [from_utf8_lossy].
    rewrite (proj2 (N.ltb_lt c 0x80)) by lia. by rewrite IH. }
  unfold from_utf8. rewrite Hl, as_bytes_plain by done. by rewrite bool_decide_true.
Qed.

(** ** What makes a kind of stored values work *)
Class KindOk (k : Kind) : Prop := {
  kind_name_chars : forall key, Forall (fun c => 0 < c < 128) (k_file_name k key);
  kind_name_head : forall key, exists c s, k_file_name k key = c :: s /\ c <> 46;
  kind_temp_head : exists s, k_temp_prefix k = 46 :: s;
  kind_name_inj :: Inj (=) (=) (k_file_name k);
  kind_roundtrip : forall v bs, k_to_vec k v = Some bs -> k_from_slice k bs = Some v;
  kind_key_eqb : forall a b, k_key_eqb k a b = true <-> a = b;
  kind_key_set_revision : forall v n, k_key_of k (k_set_revision k v n) = k_key_of k v;
  kind_valid_set_revision : forall v n,
    k_validate k v = Ok tt -> k_validate k (k_set_revision k v n) = Ok tt;
  kind_revision_set : forall v n, k_revision k (k_set_revision k v n) = n;
  kind_set_revision_id : forall v, k_set_revision k v (k_revision k v) = v
}.

Lemma kind_name_ok `{KindOk k} key : contains_char 0 (k_file_name k key) = false.
Proof.
  apply contains_char_false. intros Hin. pose proof (kind_name_chars key) as Hc.
  rewrite Forall_forall in Hc. specialize (Hc 0 Hin). lia.
Qed.

Lemma kind_name_not_temp `{KindOk k} key s : k_file_name k key <> k_temp_prefix k ++ s.
Proof.
  destruct (kind_name_head key) as (c & r & -> & Hc), kind_temp_head as [t ->]. by intros [= -> _].
Qed.

Section kinds.
Context `{UuidShape, SJ : StateJson, !StateJsonLaws}.

Lemma uuid_dot id s : exists c r, uuid_hyphenated id ++ s = c :: r /\ c <> 46.
Proof. destruct (uuid_head id) as (c & r & -> & Hc). exists c, (r ++ s). split; [done|]. by intros ->. Qed.

#[export] Instance project_kind_ok : KindOk project_kind.
Proof.
  constructor; cbn -[u].
  - intros key. apply Forall_app. split; [apply uuid_chars|by repeat constructor].
  - intros key. apply uuid_dot.
  - by eexists.
  - intros a b Hab. apply (f_equal parse_project_file_name) in Hab.
    rewrite !parse_state_file_name in Hab. by injection Hab.
  - apply state_roundtrip.
  - intros a b. apply bool_decide_eq_true.
  - done.
  - done.
  - done.
  - by intros [].
Qed.

#[export] Instance conversation_kind_ok : KindOk conversation_kind.
Proof.
  constructor; cbn -[u].
  - intros key. unfold conversation_file_name. rewrite !Forall_app.
    split_and!; [apply uuid_chars| |apply uuid_chars|]; by repeat constructor.
  - intros key. apply uuid_dot.
  - by eexists.
  - intros a b Hab. apply (f_equal parse_conversation_file_name) in Hab.
    rewrite !parse_file_name_of_conversation in Hab. by injection Hab.
  - apply conversation_roundtrip.
  - intros a b. apply bool_decide_eq_true.
  - done.
  - intros v n. by rewrite !PersistedConversation_validate_ok.
  - done.
  - by intros [].
Qed.
End kinds.

(** ** UUIDs for the examples *)

Definition ex_print (id : N) : str := replicate (N.to_nat id + 1) 97 ++ u "-b-c-d-e".

Definition ex_uuid : UuidLib :=
  {| uuid_hyphenated := ex_print; uuid_simple := ex_print;
     uuid_parse s :=
       let id := len s - 9 in if bool_decide (ex_print id = s) then Some id else None |}.

Lemma ex_uuid_shape : @UuidShape ex_uuid.
Proof.
  constructor.
  - intros id. cbn. assert (len (ex_print id) - 9 = id) as ->.
    { unfold ex_print, len. rewrite length_app, length_replicate. cbn. lia. }
    by rewrite bool_decide_true.
  - intros id. exists (replicate (N.to_nat id + 1) 97), (u "b"), (u "c"), (u "d"), (u "e").
    split; [done|]. repeat constructor; try done.
    + by destruct (N.to_nat id).
    + by apply Forall_replicate.
Qed.
