(* ===== verification/StateStoreFacts.v ===== *)
(** * What the operations of the local store do to the files ([vibecoder-persistence-local])

    In the file system of [FileSystem.v]: [save] replaces the file of one key, [load]
    and the listings change nothing, [remove_value] deletes one file; besides, only
    temporary files come and go, also when a call fails. *)
From stdpp Require Import sorting.
From S2P Require Import Prelude RustStr StrFacts RustPath Domain Program OsCalls.
From S2P Require Import FileSystem Persistence StateStore StateNames.

Section steps.
Context (self : LocalProjectStateStore) (euid : N).
Implicit Type s : fs.

(** ** Single calls *)

Lemma within_lift {A B} (r : Result A) (f : A -> prog (Result B)) Q s :
  (forall a, r = Ok a -> within fs_step (f a) Q s) -> (forall e, r = Err e -> Q s (Err e)) ->
  within fs_step (try a <- lift r; f a) Q s.
Proof. destruct r; cbn; auto. Qed.

Lemma within_or_code {A} code (p : prog (IoResult A)) (Q : fs -> Result A -> Prop) s :
  within fs_step p (fun s r => Q s (match r with Ok a => Ok a
                                    | Err _ => Err (persistence_error code) end)) s ->
  within fs_step (or_code code p) Q s.
Proof. intros H. by apply within_bind. Qed.

Lemma within_fstat fd p code Q s :
  fds s !! fd = Some p ->
  (forall st n, nodes s !! p = Some n -> stat_matches n st -> Q s (Ok st)) ->
  (forall e, Q s (Err e)) -> within fs_step (fstat fd code) Q s.
Proof.
  intros Hfd Hok Herr. apply within_or_code, within_call_. intros r s' Hs.
  destruct (Hs p Hfd) as [-> Hr]. destruct r as [st|]; [|done]. destruct Hr as (n & ? & ?). eauto.
Qed.

Lemma within_verify_directory fd p code Q s :
  fds s !! fd = Some p -> (forall r, Q s r) ->
  within fs_step (verify_private_directory_fd euid fd code) Q s.
Proof.
  intros Hfd HQ. apply within_try. eapply within_fstat; [exact Hfd| |].
  - intros st n _ _. apply HQ.
  - intros e. apply HQ.
Qed.

Lemma within_verify_file fd p code Q s :
  fds s !! fd = Some p -> (forall r, Q s r) ->
  within fs_step (verify_private_regular_fd euid fd code) Q s.
Proof.
  intros Hfd HQ. apply within_try. eapply within_fstat; [exact Hfd| |].
  - intros st n _ _. apply HQ.
  - intros e. apply HQ.
Qed.

Lemma within_open_directory_at fd p name Q s :
  fds s !! fd = Some p ->
  (forall s' fd', grown s s' -> fds s' !! fd' = Some (p ++ [name]) -> Q s' (Ok fd')) ->
  (forall s' e, grown s s' -> Q s' (Err e)) -> within fs_step (open_directory_at euid fd name) Q s.
Proof.
  intros Hfd Hok Herr. apply within_lift; [|intros; by apply Herr].
  intros name' [_ [= <-]]%if_err_ok. apply within_try, within_or_code, within_call_.
  intros r s' Hs. specialize (Hs p Hfd). destruct r as [fd'|e].
  - destruct Hs as (Hnew & _ & ->).
    assert (grown s (bind_fd s fd' (p ++ [name]))) by by apply grown_bind.
    assert (fds (bind_fd s fd' (p ++ [name])) !! fd' = Some (p ++ [name])) by apply lookup_insert_eq.
    apply within_try. eapply within_verify_directory; [done|]. intros [[]|e]; cbn; eauto.
  - cbn in Hs. subst. by apply Herr.
Qed.

Lemma within_open_directory_path path Q s :
  (forall s' fd, grown s s' -> fds s' !! fd = Some (absolute path) -> Q s' (Ok fd)) ->
  (forall s' e, grown s s' -> Q s' (Err e)) ->
  within fs_step (open_directory_path_nofollow euid path) Q s.
Proof.
  intros Hok Herr. apply within_lift; [|intros; by apply Herr].
  intros path' [_ [= <-]]%if_err_ok. apply within_try, within_or_code, within_call_.
  intros r s' Hs. destruct r as [fd|e].
  - destruct Hs as (Hnew & _ & ->).
    assert (grown s (bind_fd s fd (absolute path))) by by apply grown_bind.
    assert (fds (bind_fd s fd (absolute path)) !! fd = Some (absolute path)) by apply lookup_insert_eq.
    apply within_try. eapply within_verify_directory; [done|]. intros [[]|e]; cbn; eauto.
  - cbn in Hs. subst. by apply Herr.
Qed.

(** ** Paths *)
Definition root_path (k : Kind) : list str :=
  absolute (app_private_root self) ++ [PRODUCT_ROOT_NAME; STATE_ROOT_NAME; k_root_name k].
Definition entry (k : Kind) (key : k_key k) : list str := root_path k ++ [k_file_name k key].

Lemma within_open_root k Q s :
  (forall s' fd, grown s s' -> fds s' !! fd = Some (root_path k) -> Q s' (Ok fd)) ->
  (forall s' e, grown s s' -> Q s' (Err e)) -> within fs_step (open_root euid self k) Q s.
Proof.
  intros Hok Herr. apply within_try, within_open_directory_path; [|exact Herr].
  intros s1 fd1 H1 Hfd1. apply within_try. eapply within_open_directory_at; [exact Hfd1| |].
  - intros s2 fd2 H2 Hfd2. apply within_try. eapply within_open_directory_at; [exact Hfd2| |].
    + intros s3 fd3 H3 Hfd3. eapply within_open_directory_at; [exact Hfd3| |].
      * intros s4 fd4 H4 Hfd4. apply Hok; [by rewrite H1, H2, H3|].
        unfold root_path. by rewrite Hfd4, <-!app_assoc.
      * intros s4 e H4. apply Herr. by rewrite H1, H2, H3.
    + intros s3 e H3. apply Herr. by rewrite H1, H2.
  - intros s2 e H2. apply Herr. by rewrite H1.
Qed.

Lemma within_target_name k {Hk : KindOk k} key {B}
    (f : str -> prog (Result B)) Q s :
  within fs_step (f (k_file_name k key)) Q s ->
  within fs_step (try name <- lift (target_name k key); f name) Q s.
Proof.
  intros Hf. apply within_lift; unfold target_name, cstring; rewrite kind_name_ok.
  - by intros a [= <-].
  - done.
Qed.

(** What [fstatat] says of a name. *)
Lemma within_stat_optional d p name Q s :
  fds s !! d = Some p ->
  (nodes s !! (p ++ [name]) = None -> Q s (Ok None)) ->
  (forall st n, nodes s !! (p ++ [name]) = Some n -> stat_matches n st -> Q s (Ok (Some st))) ->
  (forall e, Q s (Err e)) -> within fs_step (fstatat_nofollow_optional d name) Q s.
Proof.
  intros Hd Hnone Hsome Herr. apply within_bind, within_call_. intros r s' Hs.
  destruct (Hs p Hd) as [-> Hr]. destruct r as [st|[]]; cbn; [|by auto..].
  destruct Hr as (n & ? & ?). eauto.
Qed.

Lemma within_inspect_existing d p name Q s :
  fds s !! d = Some p -> (forall r, Q s r) ->
  within fs_step (inspect_existing_state_target euid d name) Q s.
Proof.
  intros Hd HQ. apply within_try. eapply within_stat_optional; [exact Hd|intros; apply HQ..].
Qed.

(** A regular file passes the check on its metadata; nothing else does. *)
Lemma verified_file n st code :
  stat_matches n st -> verify_private_regular_stat euid st code = Ok tt ->
  exists mode content, n = NFile mode content.
Proof.
  intros Hn Hv. unfold verify_private_regular_stat in Hv. apply if_err_ok in Hv as [Hv _].
  assert (Hreg : file_kind st = S_IFREG) by (bool_prop; done).
  destruct n; cbn in Hn; [by rewrite Hreg in Hn|eauto|naive_solver].
Qed.

(** ** Saving *)
Section save.
Context `{UuidLib} (k : Kind) {Hk : KindOk k}.

Definition temp_name (fresh : N) : str := k_temp_prefix k ++ uuid_simple fresh.
Definition is_temp (p : list str) : Prop := exists fresh, p = root_path k ++ [temp_name fresh].

(** Nothing but temporary files of [k] differs. *)
Definition scratch (s s' : fs) : Prop := forall p, ~ is_temp p -> nodes s' !! p = nodes s !! p.

(** Besides, the file of [key] is there and contains [bs]. *)
Definition stored (key : k_key k) (bs : bytes) (s s' : fs) : Prop :=
  (exists mode, nodes s' !! entry k key = Some (NFile mode bs)) /\
  forall p, ~ is_temp p -> p <> entry k key -> nodes s' !! p = nodes s !! p.

#[export] Instance scratch_preorder : PreOrder scratch.
Proof.
  split; [by intros s p|]. intros a b c Hab Hbc p Hp. by rewrite Hbc, Hab.
Qed.

Lemma scratch_grown s s' : grown s s' -> scratch s s'.
Proof. intros [Hn _] p _. by rewrite Hn. Qed.

Lemma scratch_put s fresh n : scratch s (put s (root_path k ++ [temp_name fresh]) n).
Proof.
  intros p Hp. rewrite put_nodes. case_decide as E; [|done]. exfalso. apply Hp. by exists fresh.
Qed.

Lemma scratch_remove s fresh : scratch s (remove s (root_path k ++ [temp_name fresh])).
Proof.
  intros p Hp. rewrite remove_nodes. case_decide as E; [|done]. exfalso. apply Hp. by exists fresh.
Qed.

Lemma stored_scratch key bs s s1 s' : scratch s s1 -> stored key bs s1 s' -> stored key bs s s'.
Proof.
  intros Hs [Hm Hp]. split; [done|]. intros p Ht He. by rewrite Hp, Hs.
Qed.

Lemma entry_not_temp key : ~ is_temp (entry k key).
Proof. intros [fresh Hf]. apply app_inv_head in Hf. injection Hf as Hf. by eapply kind_name_not_temp. Qed.

(** The writes and the rename of [save], on a new temporary file. *)
Lemma within_write_and_rename root tfd mode fresh key encoded s :
  fds s !! root = Some (root_path k) -> fds s !! tfd = Some (root_path k ++ [temp_name fresh]) ->
  nodes s !! (root_path k ++ [temp_name fresh]) = Some (NFile mode []) ->
  within fs_step (
    try _ <- verify_private_regular_fd euid tfd (k_prefix k ++ u "_temp_invalid");
    try _ <- or_code (k_prefix k ++ u "_write_failed") (call_ (WriteAll tfd encoded));
    try _ <- or_code (k_prefix k ++ u "_file_sync_failed") (call_ (SyncAll tfd));
    or_code (k_prefix k ++ u "_rename_failed")
      (call_ (RenameAt root (temp_name fresh) root (k_file_name k key))))
    (fun s' r => match r with
                 | Ok _ => stored key encoded s s'
                 | Err _ => scratch s s' /\ fds s' !! root = Some (root_path k)
                 end) s.
Proof.
  intros Hroot Htfd Hn. apply within_try. eapply within_verify_file; [exact Htfd|]. intros [_|e]; [|by split].
  apply within_try, within_or_code, within_call_. intros r s1 Hw.
  specialize (Hw _ Htfd). destruct r as [?|e].
  2:{ destruct Hw as [->|(? & ? & ? & _ & ->)]; [done|]. split; [apply scratch_put|done]. }
  destruct Hw as (mode' & content & Hn' & ->). rewrite Hn in Hn'.
  injection Hn' as <- <-. cbn [app].
  apply within_try, within_or_code, within_call_. intros r s1 ->.
  destruct r as [?|e]; [|split; [apply scratch_put|done]].
  apply within_or_code, within_call_. intros r s2 Hr. specialize (Hr _ Hroot _ Hroot).
  destruct r as [?|e]; [|cbn in Hr; subst; split; [apply scratch_put|done]].
  destruct Hr as (n' & Hn' & _ & ->).
  rewrite put_nodes, decide_True in Hn' by done.
  injection Hn' as <-. split.
  - exists mode. by rewrite put_nodes, decide_True.
  - intros p Ht He. rewrite put_nodes, decide_False by done.
    rewrite (scratch_remove _ fresh p Ht). by apply scratch_put.
Qed.

Lemma within_cleanup root fresh body (P : fs -> Prop) s0 s :
  within fs_step body
    (fun s' r => match r with
                 | Ok _ => P s'
                 | Err _ => scratch s0 s' /\ fds s' !! root = Some (root_path k)
                 end) s ->
  within fs_step (with_cleanup root (temp_name fresh) body)
    (fun s' r => match r with Ok _ => P s' | Err _ => scratch s0 s' end) s.
Proof.
  intros Hb. apply within_bind. eapply within_mono; [exact Hb|]. intros s1 [[]|e]; [done|].
  intros [Hs Hroot]. apply within_bind, within_call_. intros r s2 Hr. specialize (Hr _ Hroot).
  cbn. rewrite Hs. destruct r as [?|[]]; cbn in Hr.
  - destruct Hr as [_ ->]. apply scratch_remove.
  - by destruct Hr as [_ ->].
  - by subst.
  - by subst.
Qed.

(** [save] either leaves everything as it was, or the file of the value's key holds
    its encoding; it reports the latter as an error only if the directory could not
    be synced. *)
Lemma within_save value Q s :
  (forall s' e, scratch s s' -> Q s' (Err e)) ->
  (forall s' encoded r, k_to_vec k value = Some encoded -> len encoded <= k_limit k ->
     stored (k_key_of k value) encoded s s' ->
     r = Ok tt \/ r = Err (kind_error k "_parent_sync_failed") -> Q s' r) ->
  within fs_step (save euid self k value) Q s.
Proof.
  intros Herr Hok. unfold save. destruct (k_to_vec k value) as [encoded|] eqn:Hv.
  2:{ by apply Herr. }
  destruct (k_limit k <? len encoded) eqn:Hlen; [by apply Herr|]. bool_prop.
  apply within_try, within_open_root.
  2:{ intros. by apply Herr, scratch_grown. }
  intros s1 root H1 Hroot. apply within_target_name; [done|]. apply within_try.
  assert (Herr1 : forall e, Q s1 (Err e)) by (intros; by apply Herr, scratch_grown).
  eapply within_inspect_existing; [exact Hroot|]. intros [_|e]; [|done].
  apply within_bind, within_call_. intros fresh s2 ->.
  apply within_lift; [|intros; done]. intros temp [_ [= <-]]%if_err_ok.
  apply within_try, within_or_code, within_call_. intros r s2 Hr. specialize (Hr _ Hroot).
  destruct r as [tfd|e]; [|cbn in Hr; by subst]. destruct Hr as (Hnew & _ & mode & _ & ->).
  set (s2 := bind_fd _ _ _).
  assert (H2 : scratch s s2) by (rewrite (scratch_grown _ _ H1); apply scratch_put).
  apply within_try. eapply within_mono.
  { apply (within_cleanup root fresh _ (stored (k_key_of k value) encoded s2) s2).
    eapply within_write_and_rename; cbn.
    - by rewrite lookup_insert_ne by (intros ->; by rewrite Hnew in Hroot).
    - apply lookup_insert_eq.
    - apply lookup_insert_eq. }
  intros s3 [_|e] H3; [|apply Herr; by rewrite H2].
  apply within_or_code, within_call_. intros r s4 ->. eapply Hok; [done|lia| |].
  - by eapply stored_scratch.
  - destruct r as [[]|]; [by left|by right].
Qed.

(** ** Loading and removing *)

Lemma within_load key Q s :
  (forall s' e, grown s s' -> Q s' (Err e)) ->
  (forall s', grown s s' -> nodes s !! entry k key = None -> Q s' (Ok None)) ->
  (forall s' mode content v, grown s s' -> nodes s !! entry k key = Some (NFile mode content) ->
     len content <= k_limit k -> decode k key content = Ok v ->
     Q s' (Ok (Some v))) ->
  within fs_step (load euid self k key) Q s.
Proof.
  intros Herr Hnone Hsome. apply within_try, within_open_root; [|exact Herr].
  intros s1 root H1 Hroot. apply within_target_name; [done|]. apply within_try, within_try.
  assert (Herr1 : forall e, Q s1 (Err e)) by (intros; by apply Herr).
  eapply within_stat_optional; [exact Hroot| | |done].
  { intros Hn. apply Hnone; [done|]. destruct H1 as [<- _]. done. }
  intros st n Hn Hst. destruct (verify_private_regular_stat _ _ _) as [[]|] eqn:Hv; [|by apply Herr1].
  destruct (verified_file _ _ _ Hst Hv) as (mode & content & ->). cbn [within].
  destruct (size_exceeds st (k_limit k)); [by apply Herr1|].
  apply within_try, within_or_code, within_call_. intros r s2 Hr. specialize (Hr _ Hroot).
  destruct r as [fd|e]; [|cbn in Hr; subst; by apply Herr1].
  destruct Hr as (Hnew & _ & ->). fold (entry k key). set (s2 := bind_fd _ _ _).
  assert (H2 : grown s s2) by (rewrite H1; by apply grown_bind).
  assert (Hfd : fds s2 !! fd = Some (entry k key)) by apply lookup_insert_eq.
  assert (Herr2 : forall e, Q s2 (Err e)) by (intros; by apply Herr).
  apply within_try. eapply within_fstat; [exact Hfd| |done]. intros st' n' _ _.
  apply within_lift; [|done]. intros [] _. destruct (negb _); [by apply Herr2|].
  apply within_try, within_or_code, within_call_. intros r s3 Hr. destruct (Hr _ Hfd) as [-> Hr'].
  destruct r as [bs|e]; [|by apply Herr2]. cbn [within]. specialize (Hr' mode).
  destruct (k_limit k <? len bs) eqn:Hlen; [by apply Herr2|]. bool_prop.
  destruct (decode k key bs) as [v|] eqn:Hd; [|by apply Herr2].
  assert (bs = take_bytes (k_limit k + 1) content) as -> by (by apply Hr').
  pose proof (read_whole _ _ Hlen) as Hall. rewrite Hall in Hlen, Hd.
  apply (Hsome s2 mode content v); [done|by destruct H1 as [<- _]|done..].
Qed.

(** The file of [key] is gone, everything else is as it was. *)
Definition dropped (key : k_key k) (s s' : fs) : Prop :=
  nodes s' = delete (entry k key) (nodes s).

Lemma within_remove key Q s :
  (forall s' e, grown s s' -> Q s' (Err e)) ->
  (forall s' r, dropped key s s' -> r = Ok tt \/ r = Err (kind_error k "_parent_sync_failed") ->
     Q s' r) ->
  within fs_step (remove_value euid self k key) Q s.
Proof.
  intros Herr Hok. apply within_try, within_open_root; [|exact Herr].
  intros s1 root H1 Hroot. apply within_target_name; [done|]. apply within_try, within_try.
  assert (Herr1 : forall e, Q s1 (Err e)) by (intros; by apply Herr).
  assert (Hsync : forall s2, dropped key s s2 ->
    within fs_step (or_code (k_prefix k ++ u "_parent_sync_failed") (call_ (Fsync root))) Q s2).
  { intros s2 H2. apply within_or_code, within_call_. intros r s3 ->. apply Hok; [done|].
    destruct r as [[]|]; [by left|by right]. }
  assert (Habsent : nodes s1 !! entry k key = None -> dropped key s s1).
  { unfold dropped. intros Hn. rewrite delete_id by (by destruct H1 as [<- _]). by destruct H1. }
  eapply within_stat_optional; [exact Hroot|intros Hn; apply Hok; [by apply Habsent|by left]| |done].
  intros st n Hn Hst. destruct (verify_private_regular_stat _ _ _) as [[]|]; [|by apply Herr1].
  cbn [within]. apply within_bind, within_call_. intros r s2 Hr. specialize (Hr _ Hroot).
  destruct r as [?|[]]; cbn [removes ev_resp] in Hr.
  - apply Hsync. destruct Hr as [_ ->], H1 as [H1 _]. unfold dropped. cbn. by rewrite H1.
  - destruct Hr as [Hnone ->]. by apply Hsync, Habsent.
  - subst. by apply Herr1.
  - subst. by apply Herr1.
Qed.
End save.

(** ** Listing *)
Section listing.
Context `{UuidLib} (k : Kind) {Hk : KindOk k} {I : Type}.
Context (parse : str -> option (k_key k)) (select : k_key k -> option I).
Context (parse_print : forall key, parse (k_file_name k key) = Some key).
Context (parse_inv : forall text key, parse text = Some key -> text = k_file_name k key).

Definition passed_over (raw : bytes) : bool :=
  bool_decide (raw = as_bytes dot) || bool_decide (raw = as_bytes dotdot)
  || bool_decide (take (length (as_bytes (k_temp_prefix k))) raw = as_bytes (k_temp_prefix k)).

Definition listed (raw : bytes) : option I :=
  if passed_over raw then None else text ← from_utf8 raw; key ← parse text; select key.

(** An entry that does not end the listing. *)
Definition entry_ok (s : fs) (raw : bytes) : Prop :=
  passed_over raw = true \/
  exists key, from_utf8 raw = Some (k_file_name k key) /\ is_Some (nodes s !! entry k key).

Lemma within_list_entries max root errno seen ids raws s :
  fds s !! root = Some (root_path k) ->
  within fs_step (list_entries euid k parse select max root errno seen ids raws)
    (fun s' r => s' = s /\
       match r with
       | Ok ids' => errno = false /\ ids' = ids ++ omap listed raws /\ (ids' = ids \/ len ids' <= max) /\
                    Forall (entry_ok s) raws
       | Err _ => True
       end) s.
Proof.
  intros Hroot. revert seen ids. induction raws as [|raw raws IH]; intros seen ids; cbn [list_entries].
  { destruct errno; cbn; [done|]. rewrite app_nil_r. split_and!; try done. by left. }
  assert (Hskip : passed_over raw = true -> forall seen',
    within fs_step (list_entries euid k parse select max root errno seen' ids raws)
      (fun s' r => s' = s /\
         match r with
         | Ok ids' => errno = false /\ ids' = ids ++ omap listed (raw :: raws) /\
                      (ids' = ids \/ len ids' <= max) /\ Forall (entry_ok s) (raw :: raws)
         | Err _ => True
         end) s).
  { intros Hp seen'. eapply within_mono; [apply IH|]. intros s' [ids'|e] [-> Hr]; [|done].
    split; [done|]. rewrite Forall_cons, omap_cons. unfold listed at 1. rewrite Hp.
    destruct Hr as (? & ? & ? & ?). split_and!; try done. by left. }
  destruct (_ || _) eqn:Hdot; [apply Hskip; unfold passed_over; by rewrite Hdot|].
  destruct (_ <? _); [done|].
  destruct (bool_decide (take _ _ = _)) eqn:Htemp;
    [apply Hskip; unfold passed_over; by rewrite Htemp, orb_true_r|].
  assert (Hp : passed_over raw = false) by (unfold passed_over; by rewrite Hdot, Htemp).
  destruct (from_utf8 raw) as [text|] eqn:Ht; [|done]. destruct (parse text) as [key|] eqn:Hkey; [|done].
  pose proof (parse_inv _ _ Hkey) as ->.
  apply within_lift; [|done]. intros name [_ [= <-]]%if_err_ok.
  apply within_try, within_or_code, within_call_. intros r s' Hr. destruct (Hr _ Hroot) as [-> Hst].
  destruct r as [st|]; [|done]. destruct Hst as (n & Hn & _).
  apply within_lift; [|done]. intros [] _.
  assert (Hok : entry_ok s raw) by (right; by exists key).
  assert (Hl : listed raw = select key) by (unfold listed; by rewrite Hp, Ht; cbn; rewrite parse_print).
  destruct (select key) as [id|] eqn:Hs.
  - destruct (max <? _) eqn:Hmax; [done|]. bool_prop. eapply within_mono; [apply IH|].
    intros s' [ids'|e] [-> Hr']; [|done]. split; [done|]. destruct Hr' as (? & -> & Hlen & Hall).
    rewrite Forall_cons, omap_cons, Hl, <-app_assoc. split_and!; try done.
    right. destruct Hlen as [Hlen|Hlen]; [|by rewrite <-app_assoc in Hlen].
    rewrite <-app_assoc in Hlen. by rewrite Hlen.
  - eapply within_mono; [apply IH|]. intros s' [ids'|e] [-> Hr']; [|done]. split; [done|].
    destruct Hr' as (? & ? & ? & Hall). by rewrite Forall_cons, omap_cons, Hl.
Qed.

(** The directory is not too large: an entry more than the limit ends the listing. *)
Definition is_entry (raw : bytes) : Prop := raw <> as_bytes dot /\ raw <> as_bytes dotdot.

Lemma within_entries_counted max root errno seen ids raws s :
  within fs_step (list_entries euid k parse select max root errno seen ids raws)
    (fun _ r => is_ok r = true ->
       seen + len (filter is_entry raws) <= N.max seen MAX_STATE_DIRECTORY_ENTRIES) s.
Proof.
  revert s seen ids. induction raws as [|raw raws IH]; intros s seen ids; cbn [list_entries].
  { intros _. rewrite filter_nil. unfold len. cbn. lia. }
  rewrite filter_cons. destruct (_ || _) eqn:Hdot.
  { rewrite decide_False; [apply IH|]. intros [? ?]. split_bools; done. }
  rewrite decide_True by (bool_prop; done). rewrite len_cons.
  destruct (_ <? _) eqn:Hlen; [done|]. bool_prop.
  assert (Hnext : forall s ids, within fs_step
    (list_entries euid k parse select max root errno (seen + 1) ids raws)
    (fun _ r => is_ok r = true ->
       seen + (1 + len (filter is_entry raws)) <= N.max seen MAX_STATE_DIRECTORY_ENTRIES) s).
  { intros s' ids'. eapply within_mono; [apply IH|]. intros ? r Hr Hok. specialize (Hr Hok). lia. }
  destruct (bool_decide _); [apply Hnext|]. destruct (from_utf8 raw) as [text|]; [|done].
  destruct (parse text) as [key|]; [|done]. apply within_lift; [|done]. intros name _.
  apply within_try, within_or_code, within_call_. intros r s' _. destruct r as [st|]; [|done].
  apply within_lift; [|done]. intros [] _. destruct (select key) as [id|]; [|apply Hnext].
  destruct (max <? _); [done|apply Hnext].
Qed.

(** A listed name is the name of a file, and every file is listed. *)
Lemma listed_name key : listed (as_bytes (k_file_name k key)) = select key.
Proof.
  unfold listed. destruct (kind_name_head key) as (c & r & Hname & Hc), (kind_temp_head (k := k)) as [t Ht].
  assert (passed_over (as_bytes (k_file_name k key)) = false) as ->.
  { rewrite as_bytes_plain by apply kind_name_chars. unfold passed_over.
    rewrite !orb_false_iff, !bool_decide_eq_false, Hname, Ht. rewrite as_bytes_cons.
    split_and!; by intros [= ->]. }
  rewrite as_bytes_plain, from_utf8_ascii by apply kind_name_chars. cbn. by rewrite parse_print.
Qed.

Lemma listed_ids raws s :
  (forall name, is_Some (nodes s !! (root_path k ++ [name])) -> as_bytes name ∈ raws) ->
  Forall (entry_ok s) raws ->
  forall id, id ∈ omap listed raws <->
    exists key, select key = Some id /\ is_Some (nodes s !! entry k key).
Proof.
  intros Hraws Hok id. rewrite list_elem_of_omap. split.
  - intros (raw & Hin & Hl). rewrite Forall_forall in Hok. specialize (Hok _ Hin).
    unfold listed in Hl. destruct Hok as [Hp|(key & Ht & Hn)].
    + by rewrite Hp in Hl.
    + destruct (passed_over raw); [done|]. rewrite Ht in Hl. cbn in Hl. rewrite parse_print in Hl.
      by exists key.
  - intros (key & Hs & Hn). exists (as_bytes (k_file_name k key)). split; [by apply Hraws|].
    by rewrite listed_name.
Qed.

(** A listing has each id of a file once, in order, and changes nothing. *)
Context (select_inj : forall a b id, select a = Some id -> select b = Some id -> a = b).

Lemma listed_inj x y id : listed x = Some id -> listed y = Some id -> x = y.
Proof.
  assert (Hl : forall raw, listed raw = Some id ->
            exists key, as_bytes (k_file_name k key) = raw /\ select key = Some id).
  { intros raw Hr. unfold listed in Hr. destruct (passed_over raw); [done|].
    apply bind_Some in Hr as (text & Ht & (key & Hkey & Hs)%bind_Some).
    pose proof (parse_inv _ _ Hkey) as ->. exists key. split; [by apply from_utf8_some|done]. }
  intros (a & <- & Ha)%Hl (b & <- & Hb)%Hl. by rewrite (select_inj a b id).
Qed.

(** No more files than a listing goes through. *)
Definition few_files (s : fs) : Prop :=
  forall keys, NoDup keys -> Forall (fun key => is_Some (nodes s !! entry k key)) keys ->
    len keys <= MAX_STATE_DIRECTORY_ENTRIES.

Lemma counted_few_files raws s :
  (forall name, is_Some (nodes s !! (root_path k ++ [name])) -> as_bytes name ∈ raws) ->
  len (filter is_entry raws) <= MAX_STATE_DIRECTORY_ENTRIES -> few_files s.
Proof.
  intros Hraws Hlen keys Hnd Hkeys.
  assert (Hsub : (fun key => as_bytes (k_file_name k key)) <$> keys ⊆+ filter is_entry raws).
  { apply NoDup_submseteq.
    - apply NoDup_fmap_2_strong; [|done]. intros a b _ _ Hab.
      rewrite !as_bytes_plain in Hab by apply kind_name_chars. by apply kind_name_inj.
    - intros raw (key & -> & Hin)%list_elem_of_fmap. apply list_elem_of_filter. split.
      + rewrite as_bytes_plain by apply kind_name_chars.
        destruct (kind_name_head key) as (c & r & -> & Hc). by split; intros [= -> _].
      + apply Hraws. rewrite Forall_forall in Hkeys. by apply Hkeys. }
  apply submseteq_length in Hsub. rewrite length_fmap in Hsub. unfold len in *. lia.
Qed.

Definition listing (uuid : I -> N) (max : N) (s : fs) (ids : list I) : Prop :=
  NoDup ids /\ Sorted (fun a b => str_leb (uuid_hyphenated (uuid a)) (uuid_hyphenated (uuid b)) = true) ids /\
  len ids <= max /\ few_files s /\
  forall id, id ∈ ids <-> exists key, select key = Some id /\ is_Some (nodes s !! entry k key).

Lemma within_list_ids (uuid : I -> N) max Q s :
  (forall s' e, grown s s' -> Q s' (Err e)) ->
  (forall s' ids, grown s s' -> listing uuid max s ids -> Q s' (Ok ids)) ->
  within fs_step (list_ids euid self k parse select uuid max) Q s.
Proof.
  intros Herr Hok. apply within_try, within_open_root; [|exact Herr].
  intros s1 root H1 Hroot. assert (Herr1 : forall e, Q s1 (Err e)) by (intros; by apply Herr).
  apply within_try, within_or_code, within_call_. intros r s2 Hr. specialize (Hr _ Hroot).
  destruct r as [dup|e]; [|cbn in Hr; subst; by apply Herr1].
  destruct Hr as (Hnew & _ & ->). set (s2 := bind_fd _ _ _).
  assert (H2 : grown s1 s2) by by apply grown_bind.
  assert (Hdup : fds s2 !! dup = Some (root_path k)) by apply lookup_insert_eq.
  assert (Herr2 : forall e, Q s2 (Err e)) by (intros; apply Herr; by rewrite H1).
  apply within_bind, within_call_. intros r s3 ->. destruct r as [[]|e].
  2:{ apply within_bind, within_call_. intros r s3 ->. apply Herr2. }
  apply within_bind, within_call_. intros [raws errno] s3 Hr. specialize (Hr _ Hdup).
  destruct Hr as (-> & Hnd & Hraws). cbn in Hnd, Hraws.
  apply within_try. eapply within_mono.
  { apply within_and; [apply within_list_entries; by eapply grown_fd|apply within_entries_counted]. }
  intros s3 [ids|e] [[-> Hr] Hfew]; [|by apply Herr2]. destruct Hr as (-> & -> & Hlen & Hall).
  specialize (Hraws eq_refl). cbn [app] in *. cbn [within]. apply Hok; [by rewrite H1|].
  split_and!.
  - rewrite sort_by_perm. apply NoDup_omap; [|done]. intros x y id. apply listed_inj.
  - apply sort_by_sorted.
  - destruct Hlen as [Hlen|Hlen].
    + rewrite Hlen. unfold len. cbn. lia.
    + unfold len in *. by rewrite sort_by_perm.
  - intros keys. destruct H1 as [<- _]. apply (counted_few_files raws s1); [done|]. specialize (Hfew eq_refl). lia.
  - intros id. rewrite sort_by_perm, listed_ids; [|done..].
    destruct H1 as [H1 _]. cbn. by rewrite H1.
Qed.
End listing.
End steps.
