(* ===== verification/Conversation.v ===== *)
(** * Conversation turns and the explicit agent loop: decisions
    ([vibecoder-core], with the data of [vibecoder-agent-contract] and
    [vibecoder-gateway-contract])

    The parts of the controller that decide without calling anything: validation
    of prompts, replies and tool transcripts, the context sent to a model, and the
    reply protocol of the explicit loop. *)
From S2P Require Import Prelude RustStr StrFacts Domain Routing Persistence.

Definition MAX_CONVERSATION_MODEL_MESSAGES : N := 64.
Definition MAX_CONVERSATION_MODEL_MESSAGE_BYTES : N := 128 * 1024.
Definition MAX_CONVERSATION_MODEL_CONTEXT_BYTES : N := 256 * 1024.
Definition MAX_CONVERSATION_MODEL_OUTPUT_TOKENS : N := 8192.
Definition MAX_CONVERSATION_MODEL_ID_BYTES : N := 512.
Definition MAX_AGENT_ACTION_TOOL_CALLS : N := 32.
Definition MAX_AGENT_ACTION_CALL_ID_BYTES : N := 256.
Definition AGENT_ACTION_FILE_TOOLS : list str :=
  [u "read"; u "write"; u "edit"; u "multiedit"; u "apply_patch"; u "patch"; u "agentgrep";
   u "ls"].
Definition AGENT_ACTION_MUTATION_TOOLS : list str :=
  [u "write"; u "edit"; u "multiedit"; u "apply_patch"; u "patch"].

Definition DEFAULT_EXPLICIT_AGENT_LOOP_MAX_TURNS : N := 4.
Definition MAX_EXPLICIT_AGENT_LOOP_TURNS : N := 8.
Definition DEFAULT_EXPLICIT_AGENT_LOOP_MAX_TOTAL_TOOL_CALLS : N := 96.
Definition MAX_EXPLICIT_AGENT_LOOP_TOTAL_TOOL_CALLS : N := 256.
Definition DEFAULT_EXPLICIT_AGENT_LOOP_MAX_SAME_WORKSPACE_OCCURRENCES : N := 2.
Definition MAX_EXPLICIT_AGENT_LOOP_SAME_WORKSPACE_OCCURRENCES : N := 3.
Definition EXPLICIT_AGENT_LOOP_COMPLETE_MARKER : str := u "VIBECODER_LOOP_STATUS=complete".
Definition EXPLICIT_AGENT_LOOP_CONTINUE_MARKER : str := u "VIBECODER_LOOP_STATUS=continue".

Definition invalid_request (code : str) : VibeCoderError := InvalidRequest code.

(** ** Data of the agent and gateway contracts *)

Record RuntimeCapabilities := {
  sessions : bool;
  streaming_events : bool;
  permissions : bool;
  model_selection : bool;
  file_tools : bool;
  command_tools : bool
}.

Record ModelGatewayBridgeIdentity := {
  bridge_gateway_id : str;
  transport_provider : str;
  exact_model_id_passthrough : bool
}.

Record GatewayExecutionProfile := {
  profile_gateway_id : str;
  upstream_version : str;
  profile_id : str;
  profile_sha256 : str;
  exact_model_only : bool;
  hidden_model_reroutes_disabled : bool
}.

Definition permits_exact_model_execution (p : GatewayExecutionProfile) : bool :=
  exact_model_only p && hidden_model_reroutes_disabled p.

Inductive GatewayChatRole := GwSystem | GwUser | GwAssistant.

Record GatewayChatMessage := mkChat { chat_role : GatewayChatRole; content : str }.

Record GatewayChatRequest := {
  req_model : ModelRef;
  req_messages : list GatewayChatMessage;
  max_output_tokens : N
}.

Record GatewayChatResponse := {
  requested_model_id : str;
  observed_model_id : option str;
  response_text : str;
  finish_reason : option str;
  usage : option TokenUsage
}.

(** ** Explicit loop policy *)

Record ExplicitAgentLoopPolicy := {
  max_turns : N;
  max_total_tool_calls : N;
  max_same_workspace_occurrences : N
}.

Definition ExplicitAgentLoopPolicy_default : ExplicitAgentLoopPolicy :=
  {| max_turns := DEFAULT_EXPLICIT_AGENT_LOOP_MAX_TURNS;
     max_total_tool_calls := DEFAULT_EXPLICIT_AGENT_LOOP_MAX_TOTAL_TOOL_CALLS;
     max_same_workspace_occurrences :=
       DEFAULT_EXPLICIT_AGENT_LOOP_MAX_SAME_WORKSPACE_OCCURRENCES |}.

Definition ExplicitAgentLoopPolicy_validate (p : ExplicitAgentLoopPolicy) :
    Result ExplicitAgentLoopPolicy :=
  if (max_turns p =? 0) || (MAX_EXPLICIT_AGENT_LOOP_TURNS <? max_turns p) then
    Err (invalid_request (u "explicit_agent_loop_turn_budget_invalid"))
  else if (max_total_tool_calls p =? 0)
          || (MAX_EXPLICIT_AGENT_LOOP_TOTAL_TOOL_CALLS <? max_total_tool_calls p) then
    Err (invalid_request (u "explicit_agent_loop_tool_budget_invalid"))
  else if (max_same_workspace_occurrences p <? 2)
          || (MAX_EXPLICIT_AGENT_LOOP_SAME_WORKSPACE_OCCURRENCES
              <? max_same_workspace_occurrences p) then
    Err (invalid_request (u "explicit_agent_loop_repeat_limit_invalid"))
  else Ok p.

Inductive ExplicitAgentLoopStopReason :=
| Completed
| LoopStopCancelled
| TurnBudgetExhausted
| ToolBudgetExhausted
| RepeatedWorkspaceState.

#[export] Instance ExplicitAgentLoopStopReason_eq_dec : EqDecision ExplicitAgentLoopStopReason.
Proof. solve_decision. Defined.

Inductive ExplicitAgentLoopDecision := Complete | Continue.

(** ** Prompts and capacity *)

Definition is_ascii_graphic (b : N) : bool := in_range 33 126 b.

Definition validate_conversation_model_id (value : str) : Result unit :=
  if bool_decide (value = []) || (MAX_CONVERSATION_MODEL_ID_BYTES <? blen value)
     || negb (bool_decide (trim value = value)) || negb (forallb is_ascii_graphic (as_bytes value))
  then Err (invalid_request (u "conversation_model_id_invalid"))
  else Ok tt.

Definition validate_conversation_model_prompt (value : str) : Result unit :=
  if bool_decide (trim value = []) || (MAX_CONVERSATION_MODEL_MESSAGE_BYTES <? blen value)
     || contains_char 0 value
  then Err (invalid_request (u "conversation_model_prompt_invalid"))
  else Ok tt.

(** [ensure_conversation_model_turn_capacity] and
    [ensure_conversation_agent_action_capacity] differ in the prefix of their codes. *)
Definition ensure_capacity (prefix : str) (c : PersistedConversation) (prompt : str) :
    Result unit :=
  if saturating_sub MAX_CONVERSATION_MESSAGES 2 <? len (messages c) then
    Err (Domain.Persistence (prefix ++ u "_message_capacity_exhausted"))
  else
    let? existing_bytes := ok_or (fold_text_bytes 0 (messages c))
      (Domain.Persistence (prefix ++ u "_text_capacity_exhausted")) in
    let? reserved := ok_or (checked_add usize_max existing_bytes (blen prompt) ≫= fun value =>
                              checked_add usize_max value MAX_CONVERSATION_MESSAGE_BYTES)
      (Domain.Persistence (prefix ++ u "_text_capacity_exhausted")) in
    if MAX_CONVERSATION_TEXT_BYTES <? reserved then
      Err (Domain.Persistence (prefix ++ u "_text_capacity_exhausted"))
    else Ok tt.
Definition ensure_conversation_model_turn_capacity : PersistedConversation -> str -> Result unit :=
  ensure_capacity (u "conversation_model_turn").
Definition ensure_conversation_agent_action_capacity : PersistedConversation -> str -> Result unit :=
  ensure_capacity (u "conversation_agent_action").

(** ** Tool transcripts *)

Definition tool_name_byte (b : N) : bool := is_ascii_alphanumeric b || (b =? 95).

Definition agent_action_tool_identity_is_safe (tool call_id : str) : bool :=
  negb (bool_decide (tool = [])) && bool_decide (trim tool = tool) && (blen tool <=? 64)
  && forallb tool_name_byte (as_bytes tool)
  && negb (bool_decide (call_id = [])) && bool_decide (trim call_id = call_id)
  && (blen call_id <=? MAX_AGENT_ACTION_CALL_ID_BYTES) && negb (existsb is_control call_id).

Definition is_file_tool (tool : str) : bool := existsb (str_eqb tool) AGENT_ACTION_FILE_TOOLS.
Definition is_mutation_tool (tool : str) : bool :=
  existsb (str_eqb tool) AGENT_ACTION_MUTATION_TOOLS.

Record ObservedAgentToolCall := { ob_tool : str; ob_finished : bool; ob_ok : bool }.

Record AgentActionObservation := {
  calls : gmap str ObservedAgentToolCall;
  protocol_failure : bool
}.

Definition AgentActionObservation_default : AgentActionObservation :=
  {| calls := ∅; protocol_failure := false |}.

Definition fail_protocol (s : AgentActionObservation) : AgentActionObservation :=
  {| calls := calls s; protocol_failure := true |}.

(** [AgentActionObservation::observe].  The [insert] at the end of the condition
    replaces an entry even when it makes the condition true. *)
Definition observe_tool (event : AgentEvent) (s : AgentActionObservation) :
    AgentActionObservation :=
  match event with
  | ToolStarted tool call_id =>
    if negb (agent_action_tool_identity_is_safe tool call_id) || negb (is_file_tool tool)
       || (MAX_AGENT_ACTION_TOOL_CALLS <=? N.of_nat (size (calls s)))
    then fail_protocol s
    else
      {| calls := <[call_id := {| ob_tool := tool; ob_finished := false; ob_ok := false |}]> (calls s);
         protocol_failure := protocol_failure s || is_some (calls s !! call_id) |}
  | ToolFinished tool call_id ok _ _ =>
    match calls s !! call_id with
    | Some call =>
      if str_eqb (ob_tool call) tool && negb (ob_finished call) then
        {| calls := <[call_id := {| ob_tool := ob_tool call; ob_finished := true; ob_ok := ok |}]>
                      (calls s);
           protocol_failure := protocol_failure s |}
      else fail_protocol s
    | None => fail_protocol s
    end
  | _ => s
  end.

Definition agent_error (code : str) : VibeCoderError := Agent code.

(** The loop of [validate_agent_file_tool_turn]; [seen] is [turn_call_ids]. *)
Fixpoint check_tool_calls (observation : AgentActionObservation) (seen : gset str)
    (files mutations : N) (tool_calls : list ToolCallResult) : Result (N * N) :=
  match tool_calls with
  | [] => Ok (files, mutations)
  | call :: tool_calls =>
    if negb (agent_action_tool_identity_is_safe (tc_tool call) (tc_call_id call))
       || negb (is_file_tool (tc_tool call)) || bool_decide (tc_call_id call ∈ seen)
    then Err (agent_error (u "agent_action_tool_result_identity_invalid"))
    else
      let? observed := ok_or (calls observation !! tc_call_id call)
                         (agent_error (u "agent_action_tool_result_unobserved")) in
      let result_ok := is_none (tc_error call) in
      if negb (str_eqb (ob_tool observed) (tc_tool call)) || negb (ob_finished observed)
         || negb (eqb (ob_ok observed) result_ok)
      then Err (agent_error (u "agent_action_tool_result_event_mismatch"))
      else
        check_tool_calls observation ({[tc_call_id call]} ∪ seen)
          (files + if result_ok then 1 else 0)
          (mutations + if result_ok && is_mutation_tool (tc_tool call) then 1 else 0)
          tool_calls
  end.

Definition validate_agent_file_tool_turn (turn : TurnResult)
    (observation : AgentActionObservation) : Result (N * N * N) :=
  if protocol_failure observation then
    Err (agent_error (u "agent_action_tool_event_protocol_invalid"))
  else if bool_decide (trim (tr_text turn) = [])
          || (MAX_CONVERSATION_MESSAGE_BYTES <? blen (tr_text turn))
          || contains_char 0 (tr_text turn) then
    Err (agent_error (u "agent_action_final_response_invalid"))
  else if bool_decide (tr_tool_calls turn = [])
          || (MAX_AGENT_ACTION_TOOL_CALLS <? len (tr_tool_calls turn)) then
    Err (agent_error (u "agent_action_tool_count_invalid"))
  else if negb (N.of_nat (size (calls observation)) =? len (tr_tool_calls turn)) then
    Err (agent_error (u "agent_action_tool_transcript_count_mismatch"))
  else
    let? (files, mutations) := check_tool_calls observation ∅ 0 0 (tr_tool_calls turn) in
    if files =? 0 then Err (agent_error (u "agent_action_no_successful_file_tool"))
    else Ok (N.of_nat (size (calls observation)), files, mutations).

Definition validate_agent_action_turn (turn : TurnResult)
    (observation : AgentActionObservation) : Result (N * N * N) :=
  let? result := validate_agent_file_tool_turn turn observation in
  if result.2 =? 0 then Err (agent_error (u "agent_action_no_successful_mutation"))
  else Ok result.

Definition validate_agent_loop_iteration_turn (turn : TurnResult)
    (observation : AgentActionObservation) : Result (N * N * N) :=
  validate_agent_file_tool_turn turn observation.

(** ** The explicit loop's reply protocol *)

Definition lf : str := [10].

Definition build_explicit_agent_loop_iteration_prompt (original_prompt : str)
    (iteration max_turns : N) : Result str :=
  if (iteration =? 0) || (max_turns <? iteration) || (max_turns =? 0) then
    Err (invalid_request (u "explicit_agent_loop_iteration_invalid"))
  else
    let prompt :=
      original_prompt ++ lf ++ lf ++ u "[VibeCoder explicit loop control]" ++ lf
      ++ u "This loop was explicitly requested by the user. Iteration " ++ u (pretty iteration)
      ++ u " of at most " ++ u (pretty max_turns)
      ++ u ". Inspect the current workspace with the allowed file tools before deciding. Continue working only if the original task is not yet complete. Do not use shell, browser, MCP, or external tools."
      ++ lf ++ u "Your final non-empty line MUST be exactly one of:" ++ lf
      ++ EXPLICIT_AGENT_LOOP_COMPLETE_MARKER ++ lf
      ++ EXPLICIT_AGENT_LOOP_CONTINUE_MARKER ++ lf
      ++ u "Use `complete` only when the original task is satisfied based on the evidence available through the allowed file tools. Use `continue` only when another file-mutation iteration is genuinely required. Put the user-facing explanation before the marker." in
    if (1024 * 1024 <? blen prompt) || contains_char 0 prompt then
      Err (invalid_request (u "explicit_agent_loop_iteration_prompt_too_large"))
    else Ok prompt.

Definition ends_with (p s : str) : bool := starts_with (rev p) (rev s).

(** [str::strip_suffix]. *)
Definition strip_suffix (p s : str) : option str :=
  if ends_with p s then Some (take (length s - length p) s) else None.

Definition is_blank (c : N) : bool := (c =? 13) || (c =? 10) || (c =? 32) || (c =? 9).

Definition parse_explicit_agent_loop_response (text : str) :
    Result (ExplicitAgentLoopDecision * str) :=
  if message_text_invalid text then
    Err (agent_error (u "explicit_agent_loop_response_invalid"))
  else
    let trimmed := trim_end text in
    let? (body, decision) :=
      match strip_suffix EXPLICIT_AGENT_LOOP_COMPLETE_MARKER trimmed with
      | Some body => Ok (body, Complete)
      | None =>
        match strip_suffix EXPLICIT_AGENT_LOOP_CONTINUE_MARKER trimmed with
        | Some body => Ok (body, Continue)
        | None => Err (agent_error (u "explicit_agent_loop_status_marker_missing"))
        end
      end in
    let body := trim_end_matches is_blank body in
    if bool_decide (trim body = [])
       || contains EXPLICIT_AGENT_LOOP_COMPLETE_MARKER body
       || contains EXPLICIT_AGENT_LOOP_CONTINUE_MARKER body
       || (MAX_CONVERSATION_MESSAGE_BYTES <? blen body)
    then Err (agent_error (u "explicit_agent_loop_response_body_invalid"))
    else Ok (decision, body).

Definition explicit_agent_loop_stop_message (reason : ExplicitAgentLoopStopReason) : str :=
  match reason with
  | Completed => u "Explicit loop completed."
  | LoopStopCancelled =>
    u "Explicit loop cancelled. Workspace restored to the pre-loop checkpoint."
  | TurnBudgetExhausted =>
    u "Explicit loop stopped at its turn limit. Workspace restored to the pre-loop checkpoint."
  | ToolBudgetExhausted =>
    u "Explicit loop stopped at its tool-call limit. Workspace restored to the pre-loop checkpoint."
  | RepeatedWorkspaceState =>
    u "Explicit loop stopped after repeating a workspace state. Workspace restored to the pre-loop checkpoint."
  end.

(** ** Direct model turns *)

Definition gateway_error (code : str) : VibeCoderError := Gateway code.

(** [filter] and two calls of [next]. *)
Definition select_exact_gateway_model (catalog : list ModelRef) (requested_model_id : str) :
    Result ModelRef :=
  match filter (fun candidate => mr_id candidate = requested_model_id) catalog with
  | [] => Err (gateway_error (u "conversation_model_not_in_catalog"))
  | [model] => Ok model
  | _ => Err (gateway_error (u "conversation_model_catalog_ambiguous"))
  end.

Definition chat_message (m : PersistedConversationMessage) : GatewayChatMessage :=
  mkChat (match role m with User => GwUser | Assistant => GwAssistant end) (text m).

(** The loop of [build_gateway_conversation_context] over the reversed messages;
    [reversed] is the vector, last pushed last. *)
Fixpoint collect_context (reversed : list GatewayChatMessage) (total_bytes : N)
    (rev_messages : list PersistedConversationMessage) :
    Result (list GatewayChatMessage * N) :=
  match rev_messages with
  | [] => Ok (reversed, total_bytes)
  | message :: rev_messages =>
    if (len reversed =? MAX_CONVERSATION_MODEL_MESSAGES)
       || (MAX_CONVERSATION_MODEL_MESSAGE_BYTES <? blen (text message))
    then Ok (reversed, total_bytes)
    else
      let? next_total := ok_or (checked_add usize_max total_bytes (blen (text message)))
        (invalid_request (u "conversation_model_context_too_large")) in
      if MAX_CONVERSATION_MODEL_CONTEXT_BYTES <? next_total then Ok (reversed, total_bytes)
      else collect_context (reversed ++ [chat_message message]) next_total rev_messages
  end.

Definition is_role (r : GatewayChatRole) (m : GatewayChatMessage) : bool :=
  match r, chat_role m with
  | GwSystem, GwSystem | GwUser, GwUser | GwAssistant, GwAssistant => true
  | _, _ => false
  end.

Definition build_gateway_conversation_context (c : PersistedConversation) :
    Result (list GatewayChatMessage * N) :=
  let? (reversed, total_bytes) := collect_context [] 0 (rev (messages c)) in
  if bool_decide (length reversed = O) then
    Err (invalid_request (u "conversation_model_context_empty"))
  else
    let ordered := rev reversed in
    let (ordered, total_bytes) :=
      match ordered with
      | first :: rest =>
        if is_role GwAssistant first
        then (rest, saturating_sub total_bytes (blen (content first)))
        else (ordered, total_bytes)
      | [] => (ordered, total_bytes)
      end in
    if match last ordered with Some m => negb (is_role GwUser m) | None => true end then
      Err (Domain.Persistence (u "conversation_model_context_latest_user_missing"))
    else Ok (ordered, total_bytes).

Definition validate_conversation_model_response (model : ModelRef)
    (response : GatewayChatResponse) : Result unit :=
  if negb (str_eqb (requested_model_id response) (mr_id model)) then
    Err (gateway_error (u "conversation_model_response_request_mismatch"))
  else if match observed_model_id response with
          | Some observed => negb (str_eqb observed (mr_id model))
          | None => false
          end then
    Err (gateway_error (u "conversation_model_response_identity_mismatch"))
  else if message_text_invalid (response_text response) then
    Err (gateway_error (u "conversation_model_response_text_invalid"))
  else Ok tt.

(** ASCII hex digits but the upper case ones. *)
Definition is_lower_hex (b : N) : bool := is_ascii_digit b || in_range 97 102 b.

Definition require_deterministic_gateway_profile (profile : GatewayExecutionProfile) :
    Result unit :=
  if bool_decide (profile_gateway_id profile = []) || bool_decide (upstream_version profile = [])
     || bool_decide (profile_id profile = [])
     || negb (blen (profile_sha256 profile) =? 64)
     || negb (forallb is_lower_hex (as_bytes (profile_sha256 profile)))
     || negb (permits_exact_model_execution profile)
  then Err (gateway_error (u "deterministic_gateway_runtime_profile_required"))
  else Ok tt.

Definition require_agent_gateway_bridge_matches_profile (bridge : ModelGatewayBridgeIdentity)
    (profile : GatewayExecutionProfile) : Result unit :=
  if negb (str_eqb (bridge_gateway_id bridge) (profile_gateway_id profile))
     || bool_decide (transport_provider bridge = [])
     || negb (bool_decide (trim (transport_provider bridge) = transport_provider bridge))
     || existsb is_control (transport_provider bridge)
     || negb (exact_model_id_passthrough bridge)
  then Err (gateway_error (u "agent_model_gateway_bridge_profile_mismatch"))
  else Ok tt.
