(* ===== verification/TaskOrchestration.v ===== *)
(** * Backend task state machine ([vibecoder-task-orchestration])

    One backend task: the route attempt it holds, the corroboration phases it
    must pass before inference, and the observer shared with the event stream.
    [BackendTaskEventObserver] is an [Arc<Mutex<..>>] cloned into the agent
    adapter: here a handle, the index of its cell in a shared store, so that all
    clones of one observer write the same cell. *)
From S2P Require Import Prelude RustStr Domain Routing.

Definition MAX_PROMPT_BYTES : N := 1024 * 1024.

Inductive BackendTaskPhase :=
| Prepared
| AgentCatalogCorroborated
| ActiveModelCorroborated
| Running
| Stopped.

#[export] Instance BackendTaskPhase_eq_dec : EqDecision BackendTaskPhase.
Proof. solve_decision. Defined.

Record AttemptProgress := mkProgress {
  ap_response_started : bool;
  ap_tool_activity_started : bool
}.

Definition no_progress : AttemptProgress := mkProgress false false.

(** The store of observer cells and a handle into it. *)
Abbreviation store := (list AttemptProgress) (only parsing).
Abbreviation BackendTaskEventObserver := nat (only parsing).

Definition observe_progress (event : AgentEvent) (p : AttemptProgress) : AttemptProgress :=
  match event with
  | TextDelta _ | BackgroundProgress _ _ _ _ _ =>
    mkProgress true (ap_tool_activity_started p)
  | ToolStarted _ _ | ToolFinished _ _ _ _ _ =>
    mkProgress (ap_response_started p) true
  | MessageAccepted | SessionStatus _ | EvTokenUsage _ | PermissionRequired _
  | TurnCompleted | Warning _ => p
  end.

(** [BackendTaskEventObserver::observe]; a poisoned lock is entered all the same. *)
Definition observe (h : store) (o : BackendTaskEventObserver) (event : AgentEvent) : store :=
  alter (observe_progress event) o h.

Definition snapshot (h : store) (o : BackendTaskEventObserver) : AttemptProgress :=
  default no_progress (h !! o).

Inductive BackendTaskFailureDecision :=
| RetryConfiguredFallback
| StopTask (reason : RouteStopReason).

Record BackendTaskStateMachine := mkTask {
  task_id : N;
  bt_project_id : ProjectId;
  bt_session_id : SessionId;
  route_policy : ResolvedModelRoutePolicy;
  attempt : option RouteAttemptState;
  selected_model : ModelRef;
  phase : BackendTaskPhase;
  observer : option BackendTaskEventObserver
}.

Definition set_phase (ph : BackendTaskPhase) (m : BackendTaskStateMachine) :
    BackendTaskStateMachine :=
  mkTask (task_id m) (bt_project_id m) (bt_session_id m) (route_policy m)
    (attempt m) (selected_model m) ph (observer m).

Definition task_error (code : str) : VibeCoderError := Domain.Routing code.

(** [BackendTaskStateMachine::prepare]; [new_task_id] is the fresh
    [Uuid::new_v4].  [None] is the panic of [route_policy.primary()] on an empty
    policy. *)
Definition prepare (new_task_id : N) (project_id : ProjectId) (session_id : SessionId)
    (prompt : str) (policy : ResolvedModelRoutePolicy) :
    option (Result BackendTaskStateMachine) :=
  if bool_decide (trim prompt = []) || (MAX_PROMPT_BYTES <? blen prompt) then
    Some (Err (task_error (u "invalid_backend_task_prompt")))
  else
    match primary policy with
    | None => None
    | Some model =>
      Some (Ok (mkTask new_task_id project_id session_id policy
                  (Some (start_attempt policy)) model Prepared None))
    end.

Definition require_phase (m : BackendTaskStateMachine) (expected : BackendTaskPhase) :
    Result unit :=
  if negb (bool_decide (phase m = expected)) then
    Err (task_error (u "backend_task_phase_violation"))
  else Ok tt.

Definition require_provider (model : ModelRef) (code : str) : Result str :=
  match mr_provider model with
  | Some p => if bool_decide (p = []) then Err (task_error code) else Ok p
  | None => Err (task_error code)
  end.

Definition require_exact_identity (expected actual : ModelRef) (code : str) : Result unit :=
  let? expected_provider :=
    require_provider expected (u "gateway_model_provider_missing") in
  let? actual_provider :=
    require_provider actual (u "agent_model_provider_missing") in
  if negb (bool_decide (mr_id expected = mr_id actual))
     || negb (bool_decide (expected_provider = actual_provider))
  then Err (task_error code)
  else Ok tt.

(** The catalog loop of both corroboration methods. *)
Fixpoint scan_catalog (selected_id : str) (seen : gset str) (exact : option ModelRef)
    (catalog : list ModelRef) : Result (option ModelRef) :=
  match catalog with
  | [] => Ok exact
  | candidate :: catalog =>
    if bool_decide (mr_id candidate ∈ seen) then
      Err (task_error (u "ambiguous_agent_catalog_model_id"))
    else
      scan_catalog selected_id ({[mr_id candidate]} ∪ seen)
        (if bool_decide (mr_id candidate = selected_id) then Some candidate else exact)
        catalog
  end.

Definition check_agent_catalog (m : BackendTaskStateMachine) (catalog : list ModelRef) :
    Result bool :=
  let? _ := require_phase m Prepared in
  let? _ := require_provider (selected_model m) (u "gateway_model_provider_missing") in
  let? exact := scan_catalog (mr_id (selected_model m)) ∅ None catalog in
  match exact with
  | None => Ok false
  | Some candidate =>
    let? _ := require_exact_identity (selected_model m) candidate
                (u "agent_catalog_identity_mismatch") in
    Ok true
  end.

(** The phase moves when the check answers [true] and stays otherwise. *)
Definition corroborate_agent_catalog (m : BackendTaskStateMachine)
    (catalog : list ModelRef) : Result bool * BackendTaskStateMachine :=
  let r := check_agent_catalog m catalog in
  (r, match r with Ok true => set_phase AgentCatalogCorroborated m | _ => m end).

Definition check_bridged_agent_catalog (m : BackendTaskStateMachine)
    (catalog : list ModelRef) (transport_provider : str) : Result bool :=
  let? _ := require_phase m Prepared in
  let? _ := require_provider (selected_model m) (u "gateway_model_provider_missing") in
  if bool_decide (transport_provider = [])
     || negb (bool_decide (trim transport_provider = transport_provider))
     || existsb is_control transport_provider
  then Err (task_error (u "agent_bridge_transport_provider_invalid"))
  else
    let? exact := scan_catalog (mr_id (selected_model m)) ∅ None catalog in
    match exact with
    | None => Ok false
    | Some candidate =>
      if negb (bool_decide (mr_provider candidate = Some transport_provider)) then
        Err (task_error (u "agent_bridge_transport_provider_mismatch"))
      else Ok true
    end.

Definition corroborate_bridged_agent_catalog (m : BackendTaskStateMachine)
    (catalog : list ModelRef) (transport_provider : str) :
    Result bool * BackendTaskStateMachine :=
  let r := check_bridged_agent_catalog m catalog transport_provider in
  (r, match r with Ok true => set_phase AgentCatalogCorroborated m | _ => m end).

Definition corroborate_active_model (m : BackendTaskStateMachine) (active : ModelRef) :
    Result unit * BackendTaskStateMachine :=
  match (let? _ := require_phase m AgentCatalogCorroborated in
         require_exact_identity (selected_model m) active
           (u "agent_active_identity_mismatch")) with
  | Err e => (Err e, m)
  | Ok _ => (Ok tt, set_phase ActiveModelCorroborated m)
  end.

(** [begin_inference] allocates a fresh cell and returns its handle. *)
Definition begin_inference (h : store) (m : BackendTaskStateMachine) :
    Result BackendTaskEventObserver * (store * BackendTaskStateMachine) :=
  match require_phase m ActiveModelCorroborated with
  | Err e => (Err e, (h, m))
  | Ok _ =>
    let o := length h in
    (Ok o, (h ++ [no_progress],
            mkTask (task_id m) (bt_project_id m) (bt_session_id m) (route_policy m)
              (attempt m) (selected_model m) Running (Some o)))
  end.

(** [decide_failure]: the attempt and the observer are taken out of the machine
    first, and stay out on an error. *)
Definition decide_failure (h : store) (m : BackendTaskStateMachine)
    (failure : RouteFailureClass) :
    Result BackendTaskFailureDecision * BackendTaskStateMachine :=
  if bool_decide (phase m = Stopped) then
    (Err (task_error (u "backend_task_failure_in_invalid_phase")), m)
  else
    match attempt m with
    | None => (Err (task_error (u "backend_task_attempt_already_consumed")), m)
    | Some a =>
      let a := match observer m with
               | None => a
               | Some o =>
                 let progress := snapshot h o in
                 let a := if ap_response_started progress
                          then mark_response_started a else a in
                 if ap_tool_activity_started progress
                 then mark_tool_activity_started a else a
               end in
      let taken ph att model :=
        mkTask (task_id m) (bt_project_id m) (bt_session_id m) (route_policy m)
          att model ph None in
      match decision_after_failure (route_policy m) a failure with
      | Err e => (Err e, taken (phase m) None (selected_model m))
      | Ok (Fallback next_attempt model) =>
        (Ok RetryConfiguredFallback, taken Prepared (Some next_attempt) model)
      | Ok (Stop reason) =>
        (Ok (StopTask reason), taken Stopped None (selected_model m))
      end
    end.

Record BackendTaskOutcome := {
  out_task_id : N;
  out_project_id : ProjectId;
  out_session_id : SessionId;
  out_model : ModelRef;
  out_attempt_index : N;
  out_turn : TurnResult
}.

(** [complete] consumes the machine. *)
Definition complete (m : BackendTaskStateMachine) (turn : TurnResult) :
    Result BackendTaskOutcome :=
  let? _ := require_phase m Running in
  if tr_cancelled turn then Err Cancelled
  else
    let? a := ok_or (attempt m)
                (task_error (u "backend_task_attempt_already_consumed")) in
    Ok {| out_task_id := task_id m; out_project_id := bt_project_id m;
          out_session_id := bt_session_id m; out_model := selected_model m;
          out_attempt_index := route_index a; out_turn := turn |}.

Definition classify_agent_failure (error : VibeCoderError) : RouteFailureClass :=
  match error with
  | Cancelled => FcCancelled
  | Agent _ => Unknown
  | InvalidRequest _ => FcInvalidRequest
  | _ => ProtocolError
  end.

(** ** One task as a transition system

    The state is the observer store and the machine; a call is an operation of
    the machine or an event delivered to some clone of an observer. *)
Abbreviation world := (list AttemptProgress * BackendTaskStateMachine)%type (only parsing).

Inductive task_call :=
| CallCatalog (catalog : list ModelRef)
| CallBridged (catalog : list ModelRef) (transport_provider : str)
| CallActive (active : ModelRef)
| CallBegin
| CallFailure (failure : RouteFailureClass)
| CallObserve (o : BackendTaskEventObserver) (event : AgentEvent).

Definition run_call (w : world) (c : task_call) : world :=
  let '(h, m) := w in
  match c with
  | CallCatalog catalog => (h, snd (corroborate_agent_catalog m catalog))
  | CallBridged catalog tp => (h, snd (corroborate_bridged_agent_catalog m catalog tp))
  | CallActive active => (h, snd (corroborate_active_model m active))
  | CallBegin => snd (begin_inference h m)
  | CallFailure f => (h, snd (decide_failure h m f))
  | CallObserve o event => (observe h o event, m)
  end.

(** Only a handle that [begin_inference] has returned can be used. *)
Inductive task_step : world -> task_call -> world -> Prop :=
| task_step_call w c :
    match c with CallObserve o _ => (o < length w.1)%nat | _ => True end ->
    task_step w c (run_call w c).

(** Ownership of the attempt and the observer, phase by phase. *)
Definition task_inv (policy : ResolvedModelRoutePolicy) (w : world) : Prop :=
  let '(h, m) := w in
  route_policy m = policy /\
  match attempt m with
  | Some a =>
    phase m <> Stopped /\
    a = pristine (route_index a) /\
    routes policy !! N.to_nat (route_index a) = Some (selected_model m)
  | None => phase m = Stopped
  end /\
  match observer m with
  | Some o => phase m = Running /\ (o < length h)%nat
  | None => phase m <> Running
  end.

(** What an event must be to count as observable progress. *)
Definition is_progress (event : AgentEvent) : bool :=
  match event with
  | TextDelta _ | BackgroundProgress _ _ _ _ _
  | ToolStarted _ _ | ToolFinished _ _ _ _ _ => true
  | _ => false
  end.

Definition progress_seen (p : AttemptProgress) : bool :=
  ap_response_started p || ap_tool_activity_started p.

(** The calls that deliver progress to the cell [o]. *)
Definition progress_on (o : BackendTaskEventObserver) (c : task_call) : bool :=
  match c with
  | CallObserve o' event => bool_decide (o' = o) && is_progress event
  | _ => false
  end.

(** ** Lemmas *)

Lemma require_phase_ok m ph : require_phase m ph = Ok tt <-> phase m = ph.
Proof.
  unfold require_phase. rewrite if_err_ok, negb_false_iff, bool_decide_eq_true. naive_solver.
Qed.

Lemma require_phase_err m ph :
  phase m <> ph -> require_phase m ph = Err (task_error (u "backend_task_phase_violation")).
Proof. intros H. unfold require_phase. by rewrite bool_decide_eq_false_2. Qed.

Lemma check_agent_catalog_phase m catalog b :
  check_agent_catalog m catalog = Ok b -> phase m = Prepared.
Proof. unfold check_agent_catalog. by intros [?%require_phase_ok _]%seq_ok. Qed.

Lemma check_bridged_agent_catalog_phase m catalog tp b :
  check_bridged_agent_catalog m catalog tp = Ok b -> phase m = Prepared.
Proof. unfold check_bridged_agent_catalog. by intros [?%require_phase_ok _]%seq_ok. Qed.

(** The two calls that may confirm the agent's catalog. *)
Definition confirms_catalog (m : BackendTaskStateMachine) (c : task_call) : Prop :=
  match c with
  | CallCatalog catalog => check_agent_catalog m catalog = Ok true
  | CallBridged catalog tp => check_bridged_agent_catalog m catalog tp = Ok true
  | _ => False
  end.

Definition confirms_active (m : BackendTaskStateMachine) (c : task_call) : Prop :=
  match c with
  | CallActive active =>
    phase m = AgentCatalogCorroborated /\
    require_exact_identity (selected_model m) active
      (u "agent_active_identity_mismatch") = Ok tt
  | _ => False
  end.

(** Every call is one of: no change to the machine, a phase advance, the start of
    inference, a failure decision. *)
Inductive machine_move (h : store) (m : BackendTaskStateMachine) (c : task_call) :
    BackendTaskStateMachine -> Prop :=
| move_stay : machine_move h m c m
| move_catalog :
    phase m = Prepared -> confirms_catalog m c ->
    machine_move h m c (set_phase AgentCatalogCorroborated m)
| move_active :
    phase m = AgentCatalogCorroborated -> confirms_active m c ->
    machine_move h m c (set_phase ActiveModelCorroborated m)
| move_begin m' :
    c = CallBegin -> phase m = ActiveModelCorroborated ->
    m' = mkTask (task_id m) (bt_project_id m) (bt_session_id m) (route_policy m)
           (attempt m) (selected_model m) Running (Some (length h)) ->
    machine_move h m c m'
| move_failure f m' :
    c = CallFailure f -> m' = snd (decide_failure h m f) -> machine_move h m c m'.

Lemma run_call_move h m c : machine_move h m c (snd (run_call (h, m) c)).
Proof.
  destruct c as [cat|cat tp|active| |f|o ev]; simpl.
  - unfold corroborate_agent_catalog. simpl.
    destruct (check_agent_catalog m cat) as [[]|] eqn:E; [|constructor..].
    apply move_catalog; [by eapply check_agent_catalog_phase|done].
  - unfold corroborate_bridged_agent_catalog. simpl.
    destruct (check_bridged_agent_catalog m cat tp) as [[]|] eqn:E; [|constructor..].
    apply move_catalog; [by eapply check_bridged_agent_catalog_phase|done].
  - unfold corroborate_active_model.
    destruct (let? _ := _ in _) as [[]|] eqn:E; [|constructor].
    apply seq_ok in E as [?%require_phase_ok ?]. by apply move_active.
  - unfold begin_inference. destruct (require_phase m _) as [[]|] eqn:E; [|constructor].
    apply require_phase_ok in E. by apply move_begin.
  - by eapply move_failure.
  - constructor.
Qed.

(** The effect of a call on the observer cell [o]. *)
Definition cell_effect (o : BackendTaskEventObserver) (c : task_call)
    (p : AttemptProgress) : AttemptProgress :=
  match c with
  | CallObserve o' event => if decide (o' = o) then observe_progress event p else p
  | _ => p
  end.

Lemma run_call_cell h m c o p :
  h !! o = Some p -> (run_call (h, m) c).1 !! o = Some (cell_effect o c p).
Proof.
  intros Ho. destruct c as [| | | | |o' ev]; simpl; [done..| | done |].
  - unfold begin_inference. destruct (require_phase m _); simpl; [|done].
    by apply lookup_app_l_Some.
  - unfold observe. case_decide as Hd.
    + subst. rewrite list_lookup_alter_eq, Ho. done.
    + by rewrite list_lookup_alter_ne.
Qed.

Lemma run_call_store_mono h m c o :
  (o < length h)%nat -> (o < length (run_call (h, m) c).1)%nat.
Proof.
  intros [p Hp]%lookup_lt_is_Some. eapply lookup_lt_Some. by apply run_call_cell.
Qed.

Lemma run_call_begin_store h m :
  phase m = ActiveModelCorroborated ->
  (run_call (h, m) CallBegin).1 = h ++ [no_progress].
Proof. intros Hp. simpl. unfold begin_inference. by rewrite (proj2 (require_phase_ok _ _)). Qed.

Lemma observe_progress_seen event p :
  progress_seen (observe_progress event p) = progress_seen p || is_progress event.
Proof. unfold progress_seen. destruct event, p as [[] []]; done. Qed.

Lemma cell_effect_seen o c p :
  progress_seen (cell_effect o c p) = progress_seen p || progress_on o c.
Proof.
  destruct c; simpl; rewrite ?orb_false_r; try done.
  case_decide as Hd.
  - subst. by rewrite observe_progress_seen, bool_decide_eq_true_2.
  - rewrite bool_decide_eq_false_2 by done. by rewrite orb_false_r.
Qed.

(** The progress a failure decision takes into account. *)
Definition current_progress (h : store) (m : BackendTaskStateMachine) : AttemptProgress :=
  match observer m with Some o => snapshot h o | None => no_progress end.

Lemma decide_failure_eq policy h m a f :
  task_inv policy (h, m) -> attempt m = Some a ->
  decide_failure h m f =
  let taken ph att model :=
    mkTask (task_id m) (bt_project_id m) (bt_session_id m) policy att model ph None in
  if progress_seen (current_progress h m) then
    (Ok (StopTask ObservableProgressAlreadyStarted),
     taken Stopped None (selected_model m))
  else
    match decision_after_failure policy (pristine (route_index a)) f with
    | Err e => (Err e, taken (phase m) None (selected_model m))
    | Ok (Fallback next model) =>
      (Ok RetryConfiguredFallback, taken Prepared (Some next) model)
    | Ok (Stop reason) => (Ok (StopTask reason), taken Stopped None (selected_model m))
    end.
Proof.
  intros (Hpol & Hatt & Hobs) Ha. rewrite Ha in Hatt. destruct Hatt as (Hph & Hpri & Hm).
  unfold decide_failure, current_progress. rewrite bool_decide_eq_false_2, Ha by done.
  rewrite Hpri, Hpol. cbn [route_index pristine].
  assert (Hb : (len (routes policy) <=? route_index a) = false).
  { apply lookup_lt_Some in Hm. apply N.leb_gt. unfold len. lia. }
  destruct (observer m) as [o|]; [|done].
  destruct (snapshot h o) as [[] []]; simpl; try done;
    unfold decision_after_failure; simpl; rewrite Hb;
    by destruct (fallback_boundary policy).
Qed.

(** Within an attempt, a decision is never an internal error. *)
Lemma decision_in_bounds policy i f m :
  routes policy !! N.to_nat i = Some m ->
  exists d, decision_after_failure policy (pristine i) f = Ok d /\
    forall next model, d = Fallback next model ->
      next = pristine (i + 1) /\ routes policy !! N.to_nat (i + 1) = Some model.
Proof.
  intros Hm. destruct (decision_after_failure policy (pristine i) f) as [d|e] eqn:E.
  - exists d. split; [done|]. intros next model ->.
    apply decision_fallback_iff in E. naive_solver.
  - exfalso. revert E. unfold decision_after_failure. simpl.
    assert ((len (routes policy) <=? i) = false) as ->.
    { apply lookup_lt_Some in Hm. apply N.leb_gt. unfold len. lia. }
    by repeat case_match.
Qed.

Lemma decide_failure_inv policy h m f :
  task_inv policy (h, m) -> task_inv policy (h, snd (decide_failure h m f)).
Proof.
  intros Hinv. destruct (attempt m) as [a|] eqn:Ha.
  - rewrite (decide_failure_eq _ _ _ _ _ Hinv Ha). destruct Hinv as (_ & Hatt & _).
    rewrite Ha in Hatt. destruct Hatt as (_ & _ & Hm).
    destruct (decision_in_bounds _ _ f _ Hm) as (d & -> & Hd).
    cbv zeta. case_match; [done|].
    destruct d as [next model|]; simpl; [|done].
    destruct (Hd _ _ eq_refl) as [-> ?]. split_and!; done.
  - destruct Hinv as (Hpol & Hatt & Hobs). rewrite Ha in Hatt.
    unfold decide_failure. rewrite bool_decide_eq_true_2 by done. simpl.
    split_and!; [done|by rewrite Ha|done].
Qed.

Lemma set_phase_inv policy h m ph :
  task_inv policy (h, m) -> phase m <> Stopped -> phase m <> Running ->
  ph <> Stopped -> ph <> Running -> task_inv policy (h, set_phase ph m).
Proof.
  intros (? & Hatt & Hobs) Hs Hr ? ?. split_and!; [done| |]; simpl.
  - destruct (attempt m); [naive_solver|done].
  - destruct (observer m); [naive_solver|done].
Qed.

Lemma run_call_inv policy h m c :
  task_inv policy (h, m) -> task_inv policy (run_call (h, m) c).
Proof.
  intros Hinv.
  assert (Hm : task_inv policy (h, snd (run_call (h, m) c)) \/
    (c = CallBegin /\ phase m = ActiveModelCorroborated)).
  { destruct (run_call_move h m c) as [|Hp _|Hp _|m' -> Hp _|f m' -> ->].
    - by left.
    - left. apply set_phase_inv; rewrite ?Hp; done.
    - left. apply set_phase_inv; rewrite ?Hp; done.
    - by right.
    - left. by apply decide_failure_inv. }
  destruct Hm as [(Hp & Ha & Ho)|[-> Hp]].
  - pose proof (run_call_store_mono h m c) as Hs.
    destruct (run_call (h, m) c) as [h' m']. cbn [fst snd] in *.
    split_and!; [done|done|]. destruct (observer m') as [o|]; [|done].
    destruct Ho as [? Hlt]. split; [done|by apply Hs].
  - destruct Hinv as (Hpol & Hatt & Hobs). simpl. unfold begin_inference.
    rewrite (proj2 (require_phase_ok _ _) Hp). simpl.
    split_and!; [done| |done|rewrite length_app; simpl; lia].
    destruct (attempt m); [naive_solver congruence|congruence].
Qed.

Lemma task_steps_inv policy w tr w' :
  task_inv policy w -> steps task_step w tr w' -> task_inv policy w'.
Proof.
  intros Hi. apply steps_invariant; [|done].
  intros [h m] c b Ha Hs. inversion Hs; subst. by apply run_call_inv.
Qed.

Lemma prepare_inv tid pid sid prompt policy m h :
  prepare tid pid sid prompt policy = Some (Ok m) -> task_inv policy (h, m).
Proof.
  unfold prepare, primary. intros H. destruct (_ || _); [done|].
  destruct (routes policy) as [|r rs] eqn:Er; simplify_eq/=.
  rewrite Er. split_and!; done.
Qed.

(** A resolved policy has a primary route. *)
Lemma prepare_total config catalog tid pid sid prompt policy :
  resolve config catalog = Ok policy -> exists r, prepare tid pid sid prompt policy = Some r.
Proof.
  intros (_ & _ & Hr & _)%resolve_spec. unfold prepare, primary. case_match; [by eexists|].
  destruct (routes policy); [by inversion Hr|by eexists].
Qed.

(** ** Corroboration evidence *)

Lemma require_provider_ok model code p :
  require_provider model code = Ok p <-> mr_provider model = Some p /\ p <> [].
Proof.
  unfold require_provider. destruct (mr_provider model) as [q|]; [|naive_solver].
  case_bool_decide; naive_solver.
Qed.

Lemma require_exact_identity_ok expected actual code :
  require_exact_identity expected actual code = Ok tt <->
  mr_id expected = mr_id actual /\
  exists p, p <> [] /\ mr_provider expected = Some p /\ mr_provider actual = Some p.
Proof.
  unfold require_exact_identity. split.
  - destruct (require_provider expected _) as [p|] eqn:Ep; [|done].
    destruct (require_provider actual _) as [q|] eqn:Eq; [|done].
    apply require_provider_ok in Ep as [? ?], Eq as [? ?].
    rewrite if_err_ok, orb_false_iff, !negb_false_iff, !bool_decide_eq_true. naive_solver.
  - intros (Hid & p & Hp & He & Ha).
    rewrite (proj2 (require_provider_ok expected _ p)) by done.
    rewrite (proj2 (require_provider_ok actual _ p)) by done.
    by rewrite Hid, !bool_decide_eq_true_2.
Qed.

Lemma scan_catalog_ok sel seen exact catalog r :
  scan_catalog sel seen exact catalog = Ok r ->
  NoDup (mr_id <$> catalog) /\ Forall (fun x => mr_id x ∉ seen) catalog /\
  (r = exact \/ exists x, r = Some x /\ x ∈ catalog /\ mr_id x = sel).
Proof.
  revert seen exact. induction catalog as [|x catalog IH]; intros seen exact; simpl.
  { intros [= ->]. split_and!; [constructor|done|by left]. }
  intros [Hx%bool_decide_eq_false_1 H]%if_err_ok.
  apply IH in H as (Hnd & Hseen & Hr). rewrite Forall_forall in Hseen.
  split_and!.
  - constructor; [|done]. set_solver.
  - constructor; [done|]. apply Forall_forall. set_solver.
  - case_bool_decide; destruct Hr as [->|(y & -> & ? & ?)]; [right|right|by left|right];
      set_solver.
Qed.

Lemma scan_catalog_Some sel catalog x :
  scan_catalog sel ∅ None catalog = Ok (Some x) ->
  NoDup (mr_id <$> catalog) /\ x ∈ catalog /\ mr_id x = sel.
Proof. intros (? & _ & [?|?])%scan_catalog_ok; naive_solver. Qed.

(** What a confirming catalog call says about the selected model. *)
Definition catalog_names (model : ModelRef) (c : task_call) : Prop :=
  match c with
  | CallCatalog catalog =>
    NoDup (mr_id <$> catalog) /\
    exists x p, x ∈ catalog /\ mr_id x = mr_id model /\ p <> [] /\
      mr_provider x = Some p /\ mr_provider model = Some p
  | CallBridged catalog tp =>
    NoDup (mr_id <$> catalog) /\ tp <> [] /\
    exists x, x ∈ catalog /\ mr_id x = mr_id model /\ mr_provider x = Some tp
  | _ => False
  end.

Definition active_names (model : ModelRef) (c : task_call) : Prop :=
  exists active p, c = CallActive active /\ mr_id active = mr_id model /\ p <> [] /\
    mr_provider active = Some p /\ mr_provider model = Some p.

Lemma confirms_catalog_names m c :
  confirms_catalog m c -> catalog_names (selected_model m) c.
Proof.
  destruct c as [catalog|catalog tp| | | |]; simpl; try done.
  - unfold check_agent_catalog. intros [_ H]%seq_ok.
    destruct (require_provider _ _); [|done].
    destruct (scan_catalog _ _ _ _) as [[x|]|] eqn:Es; [|done..].
    apply seq_ok in H as [(Hid & p & ? & ? & ?)%require_exact_identity_ok _].
    apply scan_catalog_Some in Es as (? & ? & ?). split; [done|].
    exists x, p. done.
  - unfold check_bridged_agent_catalog. intros [_ H]%seq_ok.
    destruct (require_provider _ _); [|done].
    apply if_err_ok in H as [Htp H]. bool_prop.
    destruct (scan_catalog _ _ _ _) as [[x|]|] eqn:Es; [|done..].
    apply if_err_ok in H as [Hp _]. bool_prop.
    apply scan_catalog_Some in Es as (? & ? & ?). split_and!; [done|done|].
    exists x. done.
Qed.

Lemma confirms_active_names m c : confirms_active m c -> active_names (selected_model m) c.
Proof.
  destruct c as [| |active| | |]; try done.
  intros [_ (Hid & p & ? & ? & ?)%require_exact_identity_ok].
  exists active, p. done.
Qed.

(** In [tr], a call that named [model] in the agent's catalog while [model] was
    the selected one. *)
Definition catalog_evidence (w0 : world) (tr : list task_call) (model : ModelRef) : Prop :=
  exists tr1 c tr2 h1 m1, tr = tr1 ++ c :: tr2 /\ steps task_step w0 tr1 (h1, m1) /\
    selected_model m1 = model /\ catalog_names model c.

(** ... followed by one that named it as the agent's active model. *)
Definition active_evidence (w0 : world) (tr : list task_call) (model : ModelRef) : Prop :=
  exists tr1 c tr2 h1 m1, tr = tr1 ++ c :: tr2 /\ steps task_step w0 tr1 (h1, m1) /\
    selected_model m1 = model /\ active_names model c /\ catalog_evidence w0 tr1 model.

Definition evidence_inv (w0 : world) (tr : list task_call) (m : BackendTaskStateMachine) :
    Prop :=
  match phase m with
  | Prepared | Stopped => True
  | AgentCatalogCorroborated => catalog_evidence w0 tr (selected_model m)
  | ActiveModelCorroborated | Running => active_evidence w0 tr (selected_model m)
  end.

Lemma catalog_evidence_snoc w0 tr c model :
  catalog_evidence w0 tr model -> catalog_evidence w0 (tr ++ [c]) model.
Proof.
  intros (tr1 & c1 & tr2 & h1 & m1 & -> & ?). exists tr1, c1, (tr2 ++ [c]), h1, m1.
  by rewrite <-app_assoc.
Qed.

Lemma active_evidence_snoc w0 tr c model :
  active_evidence w0 tr model -> active_evidence w0 (tr ++ [c]) model.
Proof.
  intros (tr1 & c1 & tr2 & h1 & m1 & -> & ?). exists tr1, c1, (tr2 ++ [c]), h1, m1.
  by rewrite <-app_assoc.
Qed.

Lemma evidence_inv_snoc w0 tr c m :
  evidence_inv w0 tr m -> evidence_inv w0 (tr ++ [c]) m.
Proof.
  unfold evidence_inv.
  destruct (phase m); auto using catalog_evidence_snoc, active_evidence_snoc.
Qed.

Lemma decide_failure_phase h m f :
  snd (decide_failure h m f) = m \/
  phase (snd (decide_failure h m f)) = Prepared \/
  phase (snd (decide_failure h m f)) = Stopped \/
  is_err (fst (decide_failure h m f)) = true.
Proof.
  unfold decide_failure. case_bool_decide; [by left|].
  destruct (attempt m); [|by left].
  destruct (decision_after_failure _ _ _) as [[]|]; simpl; auto.
Qed.

Lemma task_step_eq w c w' : task_step w c w' -> w' = run_call w c.
Proof. by inversion 1. Qed.

Lemma steps_evidence policy w0 tr w :
  task_inv policy w0 -> phase w0.2 = Prepared ->
  steps task_step w0 tr w -> evidence_inv w0 tr w.2.
Proof.
  intros Hinv Hp0. revert w. induction tr as [|c tr IH] using rev_ind; intros w Htr.
  { apply steps_nil_inv in Htr. subst w0. unfold evidence_inv. by rewrite Hp0. }
  apply steps_snoc_inv in Htr as ([h1 m1] & Htr & ->%task_step_eq).
  specialize (IH _ Htr). cbn [snd] in IH. pose proof (task_steps_inv _ _ _ _ Hinv Htr) as Hinv1.
  pose proof (run_call_move h1 m1 c) as Hmv.
  destruct Hmv as [|Hp Hc|Hp Hc|m' -> Hp ->|f m' -> ->].
  - by apply evidence_inv_snoc.
  - exists tr, c, [], h1, m1. split_and!; [done..|exact (confirms_catalog_names _ _ Hc)].
  - unfold evidence_inv in IH. rewrite Hp in IH.
    exists tr, c, [], h1, m1. split_and!; [done..|exact (confirms_active_names _ _ Hc)|done].
  - apply (evidence_inv_snoc _ _ CallBegin) in IH. unfold evidence_inv in *.
    rewrite Hp in IH. done.
  - destruct (decide_failure_phase h1 m1 f) as [->|[Hp|[Hp|He]]].
    + by apply evidence_inv_snoc.
    + unfold evidence_inv. by rewrite Hp.
    + unfold evidence_inv. by rewrite Hp.
    + destruct (attempt m1) as [a|] eqn:Ha.
      * rewrite (decide_failure_eq _ _ _ _ _ Hinv1 Ha) in He.
        destruct Hinv1 as (_ & Hatt & _). rewrite Ha in Hatt. destruct Hatt as (_ & _ & Hm).
        destruct (decision_in_bounds _ _ f _ Hm) as (d & Hd & _). rewrite Hd in He.
        cbv zeta in He. by repeat case_match.
      * unfold decide_failure. rewrite Ha. case_bool_decide; by apply evidence_inv_snoc.
Qed.

Lemma steps_cell o w tr w' p :
  steps task_step w tr w' -> w.1 !! o = Some p ->
  exists p', w'.1 !! o = Some p' /\
    progress_seen p' = progress_seen p || existsb (progress_on o) tr.
Proof.
  intros Htr. revert p. induction Htr as [w|w c w1 tr w2 Hst _ IH]; intros p Hp.
  - exists p. by rewrite orb_false_r.
  - apply task_step_eq in Hst. subst w1. destruct w as [h m].
    destruct (IH _ (run_call_cell h m c o p Hp)) as (p' & ? & Hs).
    exists p'. split; [done|]. by rewrite Hs, cell_effect_seen, <-orb_assoc.
Qed.

Lemma decision_pristine_no_progress policy i f :
  decision_after_failure policy (pristine i) f <> Ok (Stop ObservableProgressAlreadyStarted).
Proof.
  unfold decision_after_failure. destruct (fallback_boundary policy).
  simpl. by repeat case_match.
Qed.

(** ** Properties *)

(** C30. A task prepared under a resolved policy never panics, and in every
    reachable state either it is stopped with its attempt consumed, or it holds
    exactly one attempt whose index is the position of the selected model in the
    configured routes; a failure decision is then never an internal error, and
    it either stops the task or moves to the next configured route, back in the
    phase that requires corroboration again. *)
Theorem task_follows_policy config catalog policy tid pid sid prompt :
  resolve config catalog = Ok policy ->
  exists r, prepare tid pid sid prompt policy = Some r /\
  forall m0 h0 tr h m, r = Ok m0 -> steps task_step (h0, m0) tr (h, m) ->
  (phase m = Stopped /\ attempt m = None) \/
  exists a, attempt m = Some a /\ phase m <> Stopped /\
    routes policy !! N.to_nat (route_index a) = Some (selected_model m) /\
    forall f, exists d, fst (decide_failure h m f) = Ok d /\
      match d with
      | RetryConfiguredFallback =>
        phase (snd (decide_failure h m f)) = Prepared /\
        attempt (snd (decide_failure h m f)) = Some (pristine (route_index a + 1))
      | StopTask _ => phase (snd (decide_failure h m f)) = Stopped
      end.
Proof.
  intros Hres. destruct (prepare_total _ _ tid pid sid prompt _ Hres) as [r Ep].
  exists r. split; [done|]. intros m0 h0 tr h m -> Htr.
  pose proof (task_steps_inv _ _ _ _ (prepare_inv _ _ _ _ _ _ h0 Ep) Htr) as Hinv.
  destruct (attempt m) as [a|] eqn:Ha; [right|left].
  - pose proof Hinv as (_ & Hatt & _). rewrite Ha in Hatt. destruct Hatt as (Hs & _ & Hm).
    exists a. split_and!; [done..|]. intros f.
    rewrite (decide_failure_eq _ _ _ _ _ Hinv Ha). cbv zeta.
    destruct (decision_in_bounds _ _ f _ Hm) as (d & -> & Hd).
    case_match; [by eexists|].
    destruct d as [next model|reason]; [|by eexists].
    destruct (Hd _ _ eq_refl) as [-> ?]. by eexists.
  - destruct Hinv as (_ & Hatt & _). by rewrite Ha in Hatt.
Qed.

(** Inference is only ever running on a model that, while it was the
    selected route, was first named by the agent's own catalog (with the same
    provider, or with the attested bridge transport provider) and afterwards
    reported by the agent as active with the same id and provider. *)
Theorem inference_requires_corroboration tid pid sid prompt policy h0 m0 tr h m :
  prepare tid pid sid prompt policy = Some (Ok m0) ->
  steps task_step (h0, m0) tr (h, m) ->
  phase m = ActiveModelCorroborated \/ phase m = Running ->
  active_evidence (h0, m0) tr (selected_model m).
Proof.
  intros Hp Htr Hph. pose proof (prepare_inv _ _ _ _ _ _ h0 Hp) as Hinv.
  assert (Hp0 : phase m0 = Prepared).
  { unfold prepare, primary in Hp. repeat case_match; by simplify_eq/=. }
  pose proof (steps_evidence _ _ _ _ Hinv Hp0 Htr) as He. unfold evidence_inv in He.
  simpl in He. by destruct Hph as [Hph|Hph]; rewrite Hph in He.
Qed.

(** From the moment an observer is handed out, the failure decision of that
    attempt is "observable progress already started" exactly when some clone of
    that very observer has been given a text, tool or background-progress event;
    events delivered to the observers of earlier attempts change nothing. *)
Theorem progress_decides_fallback tid pid sid prompt policy h0 m0 tr1 h1 m1 tr2 h m f :
  prepare tid pid sid prompt policy = Some (Ok m0) ->
  steps task_step (h0, m0) tr1 (h1, m1) ->
  phase m1 = ActiveModelCorroborated ->
  steps task_step (run_call (h1, m1) CallBegin) tr2 (h, m) ->
  observer m = Some (length h1) ->
  fst (decide_failure h m f) = Ok (StopTask ObservableProgressAlreadyStarted) <->
  existsb (progress_on (length h1)) tr2 = true.
Proof.
  intros Hp Htr1 Hph Htr2 Hobs.
  pose proof (task_steps_inv _ _ _ _ (prepare_inv _ _ _ _ _ _ h0 Hp) Htr1) as Hinv1.
  pose proof (task_steps_inv _ _ _ _ (run_call_inv _ _ _ CallBegin Hinv1) Htr2) as Hinv.
  destruct (steps_cell (length h1) _ _ _ no_progress Htr2) as (p & Hcell & Hseen).
  { rewrite run_call_begin_store by done. by apply list_lookup_middle. }
  cbn [fst] in Hcell. simpl in Hseen.
  assert (exists a, attempt m = Some a) as [a Ha].
  { destruct Hinv as (_ & Hatt & Ho). rewrite Hobs in Ho.
    destruct (attempt m); [by eexists|]. destruct Ho. congruence. }
  rewrite (decide_failure_eq _ _ _ _ _ Hinv Ha). cbv zeta.
  unfold current_progress, snapshot. rewrite Hobs, Hcell. cbn [default].
  change (progress_seen (id p)) with (progress_seen p). rewrite Hseen.
  destruct (existsb _ tr2); [by split|]. split; [|done].
  destruct (decision_after_failure _ _ _) as [[]|] eqn:Ed; simpl; [done| |done].
  intros [= ->]. by apply decision_pristine_no_progress in Ed.
Qed.

(** Completion succeeds exactly for a task whose inference is running and
    whose turn was not cancelled; the outcome then carries the configured route
    at the recorded attempt index and the turn unchanged, and a stopped task
    accepts no further call. *)
Theorem complete_outcome tid pid sid prompt policy h0 m0 tr h m turn :
  prepare tid pid sid prompt policy = Some (Ok m0) ->
  steps task_step (h0, m0) tr (h, m) ->
  (is_ok (complete m turn) = true <-> phase m = Running /\ tr_cancelled turn = false) /\
  (forall out, complete m turn = Ok out ->
     out_task_id out = tid /\ out_project_id out = pid /\ out_session_id out = sid /\
     out_turn out = turn /\
     routes policy !! N.to_nat (out_attempt_index out) = Some (out_model out)) /\
  (phase m = Stopped -> forall c, snd (run_call (h, m) c) = m).
Proof.
  intros Hp Htr.
  pose proof (task_steps_inv _ _ _ _ (prepare_inv _ _ _ _ _ _ h0 Hp) Htr) as Hinv.
  assert (Hids : task_id m = tid /\ bt_project_id m = pid /\ bt_session_id m = sid).
  { eapply (steps_invariant task_step (fun w => task_id w.2 = tid /\
      bt_project_id w.2 = pid /\ bt_session_id w.2 = sid) (h0, m0) tr (h, m)); [..|done].
    - intros [ha ma] c b Hids ->%task_step_eq.
      destruct (run_call_move ha ma c) as [| | |m' _ _ ->|f m' _ ->]; try done.
      unfold decide_failure. by repeat case_match.
    - unfold prepare in Hp. repeat case_match; by simplify_eq/=. }
  pose proof Hinv as (_ & Hatt & Hobs). split_and!.
  - rewrite is_ok_true. split.
    + intros [out H]. unfold complete in H.
      by apply seq_ok in H as [?%require_phase_ok [? _]%if_err_ok].
    + intros [Hr Hc]. unfold complete. rewrite (proj2 (require_phase_ok _ _) Hr), Hc.
      destruct (attempt m); [by eexists|congruence].
  - intros out H. unfold complete in H.
    apply seq_ok in H as [Hr%require_phase_ok [_ H]%if_err_ok].
    destruct (attempt m) as [a|]; [|done]. simpl in H. simplify_eq/=.
    destruct Hids as (? & ? & ?). naive_solver.
  - intros Hs c. destruct (run_call_move h m c) as [|?|?|? _ ?|f m' _ ->]; try congruence.
    unfold decide_failure. by rewrite bool_decide_eq_true_2.
Qed.

(** ** Concrete runs *)

Fixpoint calls_enabled (w : world) (tr : list task_call) : bool :=
  match tr with
  | [] => true
  | c :: tr =>
    match c with CallObserve o _ => bool_decide (o < length w.1)%nat | _ => true end
    && calls_enabled (run_call w c) tr
  end.

Lemma steps_run w tr :
  calls_enabled w tr = true -> steps task_step w tr (foldl run_call w tr).
Proof.
  revert w. induction tr as [|c tr IH]; intros w H; simpl; [constructor|].
  simpl in H. apply andb_true_iff in H as [Hc H].
  eapply steps_cons; [|by apply IH]. constructor. by destruct c; bool_prop.
Qed.

Definition ex_task : BackendTaskStateMachine :=
  mkTask 7 (MkProjectId 1) (MkSessionId (u "session-1")) ex_policy
    (Some (pristine 0)) (ex_model "provider-a/model-a" "provider-a") Prepared None.
Definition ex_turn : TurnResult :=
  {| tr_text := u "done"; tr_cancelled := false; tr_tool_calls := []; tr_usage := None |}.

(** First attempt corroborated and rate limited before any output, second one
    corroborated and running. *)
Definition ex_calls : list task_call :=
  [CallCatalog ex_catalog; CallActive (ex_model "provider-a/model-a" "provider-a");
   CallBegin; CallFailure RateLimited; CallObserve 0 (TextDelta (u "late"));
   CallBridged [mkModelRef (u "provider-b/model-b") None (Some (u "OpenAI-compatible"))]
     (u "OpenAI-compatible");
   CallActive (ex_model "provider-b/model-b" "provider-b")].

Lemma ex_prepare :
  prepare 7 (MkProjectId 1) (MkSessionId (u "session-1")) (u "fix it") ex_policy
  = Some (Ok ex_task).
Proof. vm_compute. reflexivity. Qed.

Lemma task_follows_policy_witness :
  exists r, prepare 7 (MkProjectId 1) (MkSessionId (u "session-1")) (u "fix it") ex_policy
    = Some r.
Proof.
  destruct (task_follows_policy ex_config ex_catalog ex_policy 7 (MkProjectId 1)
    (MkSessionId (u "session-1")) (u "fix it") ex_resolve) as (r & Hr & _).
  exists r. exact Hr.
Defined.

Lemma inference_requires_corroboration_witness :
  active_evidence ([], ex_task) (ex_calls ++ [CallBegin])
    (ex_model "provider-b/model-b" "provider-b").
Proof.
  apply (inference_requires_corroboration _ _ _ _ _ [] ex_task _
    (foldl run_call ([], ex_task) (ex_calls ++ [CallBegin])).1
    (foldl run_call ([], ex_task) (ex_calls ++ [CallBegin])).2 ex_prepare).
  - apply steps_run. vm_compute. reflexivity.
  - right. vm_compute. reflexivity.
Defined.

Lemma progress_decides_fallback_witness :
  exists h m, steps task_step
      (run_call (foldl run_call ([], ex_task) ex_calls) CallBegin)
      [CallObserve 1%nat (ToolStarted (u "write") (u "c1"))] (h, m) /\
    fst (decide_failure h m RateLimited) = Ok (StopTask ObservableProgressAlreadyStarted).
Proof.
  set (w1 := foldl run_call ([], ex_task) ex_calls).
  set (tr2 := [CallObserve 1%nat (ToolStarted (u "write") (u "c1"))]).
  set (w2 := foldl run_call (run_call w1 CallBegin) tr2).
  exists w2.1, w2.2.
  assert (Hs : steps task_step (run_call (w1.1, w1.2) CallBegin) tr2 (w2.1, w2.2)).
  { apply steps_run. vm_compute. reflexivity. }
  split; [exact Hs|].
  apply (progress_decides_fallback _ _ _ _ _ [] ex_task ex_calls w1.1 w1.2 tr2 w2.1 w2.2
    RateLimited ex_prepare); [|vm_compute; reflexivity|exact Hs|vm_compute; reflexivity|].
  - apply steps_run. vm_compute. reflexivity.
  - vm_compute. reflexivity.
Defined.

Lemma complete_outcome_witness :
  exists m, phase m = Running /\ is_ok (complete m ex_turn) = true.
Proof.
  set (w := foldl run_call ([], ex_task) (ex_calls ++ [CallBegin])).
  exists w.2. split; [vm_compute; reflexivity|].
  apply (complete_outcome _ _ _ _ _ [] ex_task (ex_calls ++ [CallBegin]) w.1 w.2 ex_turn
    ex_prepare); [|split; vm_compute; reflexivity].
  apply steps_run. vm_compute. reflexivity.
Defined.
