(* ===== verification/CommandPolicy.v ===== *)
(** * Command authorization policy ([vibecoder-command-policy])

    Validation of structured command requests, the pending-request table, and the
    move-only execution envelopes tied to a per-project authorization epoch.  The
    engine's [Mutex] is a flag for the poisoned lock and the state it guards; the
    envelopes already handed out are values the caller owns. *)
From S2P Require Import Prelude RustStr RustPath Domain.

Definition MAX_ARGUMENTS : N := 64.
Definition MAX_ARGUMENT_BYTES : N := 4096.
Definition MAX_TOTAL_ARGUMENT_BYTES : N := 32 * 1024.
Definition MAX_RELATIVE_PATH_BYTES : N := 4096.
Definition MAX_PATH_COMPONENT_BYTES : N := 255.
Definition MAX_RUNTIME_TOOL_ID_BYTES : N := 64.
Definition MAX_ALLOWED_RUNTIME_TOOLS : N := 64.
Definition MAX_SESSION_ID_BYTES : N := 256.
Definition MAX_PENDING_COMMANDS : N := 64.
Definition MAX_PENDING_PER_SESSION : N := 8.
Definition INTERNAL_TEMP_PREFIX : str := u ".vibecoder-tmp-".

Inductive CommandProgram :=
| RuntimeTool (tool_id : str)
| WorkspaceExecutable (relative_path : os_path).

Record CommandSpec := mkCommand {
  program : CommandProgram;
  args : list str;
  working_dir : os_path
}.

Inductive CommandApprovalDecision := AllowOnce | Deny.

Record CommandApprovalRequest := {
  ar_request_id : str;
  ar_session_id : SessionId;
  ar_project_id : ProjectId;
  ar_command : CommandSpec
}.

Inductive CommandRequestOutcome :=
| ApprovalRequired (request : CommandApprovalRequest)
| RequestDenied (code : str).

Inductive CommandEnvironmentPolicy := RuntimeManagedClean.

Record CommandExecutionEnvelope := {
  env_request_id : str;
  env_session_id : SessionId;
  env_project_id : ProjectId;
  env_command : CommandSpec;
  environment_policy : CommandEnvironmentPolicy;
  project_epoch : N
}.

Inductive CommandDecisionOutcome :=
| Authorized (envelope : CommandExecutionEnvelope)
| DecisionDenied (code : str).

Record CommandPolicyConfig := {
  allowed_runtime_tools : gset str;
  allow_workspace_executables : bool
}.

Record PendingCommand := {
  pc_session_id : SessionId;
  pc_project_id : ProjectId;
  pc_command : CommandSpec
}.

Record CommandPolicyState := mkState {
  pending : gmap str PendingCommand;
  project_epochs : gmap ProjectId N
}.

Record CommandPolicyEngine := mkEngine {
  config : CommandPolicyConfig;
  poisoned : bool;
  state : CommandPolicyState
}.

Definition with_state (e : CommandPolicyEngine) (s : CommandPolicyState) :
    CommandPolicyEngine := mkEngine (config e) (poisoned e) s.

(** [PartialEq] of the derives: paths compare by components. *)
Definition program_eqb (p q : CommandProgram) : bool :=
  match p, q with
  | RuntimeTool a, RuntimeTool b => bool_decide (a = b)
  | WorkspaceExecutable a, WorkspaceExecutable b => path_eqb a b
  | _, _ => false
  end.

Definition command_eqb (c d : CommandSpec) : bool :=
  program_eqb (program c) (program d) && bool_decide (args c = args d)
  && path_eqb (working_dir c) (working_dir d).

Definition command_error (code : str) : VibeCoderError := Command code.

Definition is_forbidden_display_char (c : N) : bool :=
  is_control c
  || ((c =? 0x61c) || (c =? 0x200e) || (c =? 0x200f)
      || in_range 0x202a 0x202e c || in_range 0x2066 0x2069 c).

Definition has_forbidden_display_char (value : str) : bool :=
  existsb is_forbidden_display_char value.

Definition validate_session_scope (session_id : SessionId) : Result unit :=
  let value := session_id_0 session_id in
  if bool_decide (trim value = []) || negb (bool_decide (trim value = value))
     || (MAX_SESSION_ID_BYTES <? blen value) || has_forbidden_display_char value
  then Err (command_error (u "command_session_id_invalid"))
  else Ok tt.

Definition validate_request_id `{UuidLib} (request_id : str) : Result unit :=
  let? parsed := ok_or (uuid_parse request_id)
                   (command_error (u "command_request_id_invalid")) in
  if negb (bool_decide (uuid_hyphenated parsed = request_id)) then
    Err (command_error (u "command_request_id_invalid"))
  else Ok tt.

Definition shell_tools : list str :=
  [u "sh"; u "bash"; u "dash"; u "zsh"; u "fish"; u "cmd"; u "cmd.exe";
   u "powershell"; u "powershell.exe"; u "pwsh"; u "pwsh.exe"].

Definition tool_id_byte (b : N) : bool :=
  is_ascii_alphanumeric b || (b =? 46) || (b =? 95) || (b =? 45).

Definition validate_runtime_tool_id (tool_id : str) : Result str :=
  if bool_decide (tool_id = []) || (MAX_RUNTIME_TOOL_ID_BYTES <? blen tool_id)
     || negb (forallb tool_id_byte (as_bytes tool_id))
  then Err (command_error (u "command_runtime_tool_id_invalid"))
  else if bool_decide (to_ascii_lowercase tool_id ∈ shell_tools) then
    Err (command_error (u "command_runtime_shell_tool_forbidden"))
  else Ok tool_id.

(** The component loop of [normalize_project_relative]; [normalized] is the
    [PathBuf] built so far. *)
Fixpoint normalize_components (normalized : str) (cs : list component) : Result str :=
  match cs with
  | [] => Ok normalized
  | CurDir :: cs => normalize_components normalized cs
  | Normal value :: cs =>
    if bool_decide (value = []) || (MAX_PATH_COMPONENT_BYTES <? blen value)
       || starts_with INTERNAL_TEMP_PREFIX value
    then Err (command_error (u "command_path_component_invalid"))
    else normalize_components (push_str normalized value) cs
  | ParentDir :: _ => Err (command_error (u "command_path_parent_forbidden"))
  | RootDir :: _ => Err (command_error (u "command_path_must_be_project_relative"))
  end.

Definition normalize_project_relative (path : os_path) (allow_root : bool) :
    Result os_path :=
  if is_absolute path then
    Err (command_error (u "command_path_must_be_project_relative"))
  else
    let? text := ok_or (path_to_str path)
                   (command_error (u "command_path_must_be_utf8")) in
    if (MAX_RELATIVE_PATH_BYTES <? blen text) || contains_char 92 text
       || has_forbidden_display_char text
    then Err (command_error (u "command_path_invalid"))
    else
      let? normalized := normalize_components [] (components path) in
      if bool_decide (normalized = []) then
        if negb allow_root then
          Err (command_error (u "command_executable_path_empty"))
        else Ok (Utf8Path dot)
      else Ok (Utf8Path normalized).

(** The argument loop of [validate_command_spec]. *)
Fixpoint check_args (total : N) (as_ : list str) : Result (list str) :=
  match as_ with
  | [] => Ok []
  | arg :: as_ =>
    if (MAX_ARGUMENT_BYTES <? blen arg) || has_forbidden_display_char arg then
      Err (command_error (u "command_argument_invalid"))
    else
      let? total := ok_or (checked_add usize_max total (blen arg))
                      (command_error (u "command_argument_bytes_exceeded")) in
      if MAX_TOTAL_ARGUMENT_BYTES <? total then
        Err (command_error (u "command_argument_bytes_exceeded"))
      else
        let? rest := check_args total as_ in Ok (arg :: rest)
  end.

Definition validate_program (p : CommandProgram) : Result CommandProgram :=
  match p with
  | RuntimeTool tool_id =>
    let? tool_id := validate_runtime_tool_id tool_id in Ok (RuntimeTool tool_id)
  | WorkspaceExecutable relative_path =>
    let? relative_path := normalize_project_relative relative_path false in
    Ok (WorkspaceExecutable relative_path)
  end.

Definition validate_command_spec (command : CommandSpec) : Result CommandSpec :=
  if MAX_ARGUMENTS <? len (args command) then
    Err (command_error (u "command_argument_count_exceeded"))
  else
    let? args := check_args 0 (args command) in
    let? working_dir := normalize_project_relative (working_dir command) true in
    let? program := validate_program (program command) in
    Ok (mkCommand program args working_dir).

(** ** Configuration *)

Definition deny_all : CommandPolicyConfig :=
  {| allowed_runtime_tools := ∅; allow_workspace_executables := false |}.

Fixpoint add_tools (tools : gset str) (ts : list str) : Result (gset str) :=
  match ts with
  | [] => Ok tools
  | tool :: ts =>
    if MAX_ALLOWED_RUNTIME_TOOLS <=? N.of_nat (size tools) then
      Err (command_error (u "command_policy_runtime_tool_limit"))
    else
      let? tool := validate_runtime_tool_id tool in
      if bool_decide (tool ∈ tools) then
        Err (command_error (u "command_policy_duplicate_runtime_tool"))
      else add_tools ({[tool]} ∪ tools) ts
  end.

Definition CommandPolicyConfig_new (tools : list str) (allow_ws : bool) :
    Result CommandPolicyConfig :=
  let? tools := add_tools ∅ tools in
  Ok {| allowed_runtime_tools := tools; allow_workspace_executables := allow_ws |}.

Definition CommandPolicyEngine_new (c : CommandPolicyConfig) : CommandPolicyEngine :=
  mkEngine c false (mkState ∅ ∅).

(** ** The engine *)

Definition policy_denial (e : CommandPolicyEngine) (command : CommandSpec) : option str :=
  match program command with
  | RuntimeTool tool_id =>
    if bool_decide (tool_id ∈ allowed_runtime_tools (config e)) then None
    else Some (u "command_runtime_tool_not_allowed")
  | WorkspaceExecutable _ =>
    if allow_workspace_executables (config e) then None
    else Some (u "command_workspace_executable_not_allowed")
  end.

Definition pending_len (s : CommandPolicyState) : N := N.of_nat (size (pending s)).

Definition session_pending (session_id : SessionId) (p : gmap str PendingCommand) :
    gmap str PendingCommand :=
  filter (fun kv => pc_session_id kv.2 = session_id) p.

Definition same_pending (session_id : SessionId) (project_id : ProjectId)
    (command : CommandSpec) (p : PendingCommand) : bool :=
  bool_decide (pc_session_id p = session_id)
  && bool_decide (pc_project_id p = project_id)
  && command_eqb (pc_command p) command.

(** [fresh] is the UUID drawn by [Uuid::new_v4]. *)
Definition request_command `{UuidLib} (fresh : N) (e : CommandPolicyEngine)
    (session_id : SessionId) (project_id : ProjectId) (command : CommandSpec) :
    Result CommandRequestOutcome * CommandPolicyEngine :=
  match (let? _ := validate_session_scope session_id in
         validate_command_spec command) with
  | Err err => (Err err, e)
  | Ok command =>
    match policy_denial e command with
    | Some code => (Ok (RequestDenied code), e)
    | None =>
      if poisoned e then (Err (command_error (u "command_policy_state_poisoned")), e)
      else if MAX_PENDING_COMMANDS <=? pending_len (state e) then
        (Err (command_error (u "command_pending_global_limit")), e)
      else if MAX_PENDING_PER_SESSION
              <=? N.of_nat (size (session_pending session_id (pending (state e)))) then
        (Err (command_error (u "command_pending_session_limit")), e)
      else if existsb (fun kv => same_pending session_id project_id command kv.2)
                (map_to_list (pending (state e))) then
        (Err (command_error (u "command_request_duplicate_pending")), e)
      else
        let request_id := uuid_hyphenated fresh in
        match pending (state e) !! request_id with
        | Some _ => (Err (command_error (u "command_request_id_collision")), e)
        | None =>
          (Ok (ApprovalRequired {| ar_request_id := request_id;
                 ar_session_id := session_id; ar_project_id := project_id;
                 ar_command := command |}),
           with_state e (mkState
             (<[request_id := {| pc_session_id := session_id;
                pc_project_id := project_id; pc_command := command |}]>
                (pending (state e)))
             (project_epochs (state e))))
        end
    end
  end.

Definition epoch_of (e : CommandPolicyEngine) (project_id : ProjectId) : N :=
  default 0 (project_epochs (state e) !! project_id).

Definition decide_approval `{UuidLib} (e : CommandPolicyEngine) (session_id : SessionId)
    (project_id : ProjectId) (approval : CommandApprovalRequest)
    (decision : CommandApprovalDecision) :
    Result CommandDecisionOutcome * CommandPolicyEngine :=
  match (let? _ := validate_session_scope session_id in
         let? _ := validate_session_scope (ar_session_id approval) in
         validate_request_id (ar_request_id approval)) with
  | Err err => (Err err, e)
  | Ok _ =>
    if negb (bool_decide (ar_session_id approval = session_id))
       || negb (bool_decide (ar_project_id approval = project_id)) then
      (Err (command_error (u "command_approval_context_mismatch")), e)
    else if poisoned e then
      (Err (command_error (u "command_policy_state_poisoned")), e)
    else
      match pending (state e) !! ar_request_id approval with
      | None => (Err (command_error (u "command_request_not_pending")), e)
      | Some p =>
        if negb (bool_decide (pc_session_id p = session_id))
           || negb (bool_decide (pc_project_id p = project_id)) then
          (Err (command_error (u "command_request_scope_mismatch")), e)
        else if match decision with
                | AllowOnce => negb (command_eqb (pc_command p) (ar_command approval))
                | Deny => false
                end then
          (Err (command_error (u "command_approval_payload_mismatch")), e)
        else
          let e' := with_state e (mkState (delete (ar_request_id approval) (pending (state e)))
                                    (project_epochs (state e))) in
          match decision with
          | Deny => (Ok (DecisionDenied (u "command_denied_by_user")), e')
          | AllowOnce =>
            (Ok (Authorized {| env_request_id := ar_request_id approval;
                   env_session_id := pc_session_id p;
                   env_project_id := pc_project_id p;
                   env_command := pc_command p;
                   environment_policy := RuntimeManagedClean;
                   project_epoch := epoch_of e (pc_project_id p) |}), e')
          end
      end
  end.

Definition revoke_pending_for_session (e : CommandPolicyEngine) (session_id : SessionId) :
    Result N * CommandPolicyEngine :=
  match validate_session_scope session_id with
  | Err err => (Err err, e)
  | Ok _ =>
    if poisoned e then (Err (command_error (u "command_policy_state_poisoned")), e)
    else
      let kept := filter (fun kv => pc_session_id kv.2 <> session_id) (pending (state e)) in
      (Ok (saturating_sub (pending_len (state e)) (N.of_nat (size kept))),
       with_state e (mkState kept (project_epochs (state e))))
  end.

(** The pending requests of the project are gone even when the epoch overflows. *)
Definition invalidate_project_authorizations (e : CommandPolicyEngine)
    (project_id : ProjectId) : Result N * CommandPolicyEngine :=
  if poisoned e then (Err (command_error (u "command_policy_state_poisoned")), e)
  else
    let kept := filter (fun kv => pc_project_id kv.2 <> project_id) (pending (state e)) in
    match checked_add u64_max (epoch_of e project_id) 1 with
    | None =>
      (Err (command_error (u "command_project_epoch_overflow")),
       with_state e (mkState kept (project_epochs (state e))))
    | Some next =>
      (Ok (saturating_sub (pending_len (state e)) (N.of_nat (size kept))),
       with_state e (mkState kept (<[project_id := next]> (project_epochs (state e)))))
    end.

Definition validate_execution_envelope (e : CommandPolicyEngine)
    (envelope : CommandExecutionEnvelope) : Result unit :=
  if poisoned e then Err (command_error (u "command_policy_state_poisoned"))
  else if negb (bool_decide (project_epoch envelope = epoch_of e (env_project_id envelope)))
  then Err (command_error (u "command_execution_envelope_stale_project_epoch"))
  else Ok tt.

Definition pending_count (e : CommandPolicyEngine) : Result N :=
  if poisoned e then Err (command_error (u "command_policy_state_poisoned"))
  else Ok (pending_len (state e)).

(** ** Specification of normalized paths *)

Definition component_ok (name : str) : Prop :=
  plain_name name /\ blen name <= MAX_PATH_COMPONENT_BYTES /\
  starts_with INTERNAL_TEMP_PREFIX name = false.

Definition text_ok (s : str) : Prop :=
  blen s <= MAX_RELATIVE_PATH_BYTES /\ (92 ∉ s) /\ has_forbidden_display_char s = false.

(** ** Path lemmas *)

Lemma join_path_snoc ps p : ps <> [] -> join_path (ps ++ [p]) = join_path ps ++ slash :: p.
Proof.
  destruct ps as [|q ps]; [done|]. intros _. simpl.
  rewrite bind_app, <-app_assoc. simpl. by rewrite app_nil_r.
Qed.

Lemma last_join ps :
  ps <> [] -> Forall plain_name ps -> exists c, last (join_path ps) = Some c /\ c <> slash.
Proof.
  destruct ps as [|p ps _] using rev_ind; [done|]. intros _ [_ Hp]%Forall_app.
  apply Forall_singleton in Hp as (Hne & Hs & _).
  destruct p as [|c p _] using rev_ind; [done|]. exists c. split; [|set_solver].
  destruct ps as [|q ps].
  - simpl. by rewrite app_nil_r, last_snoc.
  - rewrite join_path_snoc by done.
    by rewrite app_comm_cons, app_assoc, last_snoc.
Qed.

Lemma push_str_join ps p :
  Forall plain_name ps -> push_str (join_path ps) p = join_path (ps ++ [p]).
Proof.
  intros Hf. unfold push_str. destruct ps as [|q ps]; [simpl; by rewrite app_nil_r|].
  rewrite bool_decide_eq_false_2.
  2:{ apply Forall_cons in Hf as [[Hq _] _]. by destruct q. }
  destruct (last_join (q :: ps)) as (c & -> & Hc); [done|done|].
  rewrite bool_decide_eq_false_2 by congruence. by rewrite join_path_snoc.
Qed.

Lemma normalize_components_iff ps cs n :
  Forall plain_name ps -> (forall p, Normal p ∈ cs -> plain_name p) ->
  normalize_components (join_path ps) cs = Ok n <->
  Forall (fun c => c = CurDir \/ exists p, c = Normal p /\ component_ok p) cs /\
  n = join_path (ps ++ omap normal_name cs).
Proof.
  revert ps. induction cs as [|c cs IH]; intros ps Hps Hcs; simpl.
  - rewrite app_nil_r. split; [intros [= <-]; by split|by intros [_ ->]].
  - rewrite Forall_cons. assert (forall p, Normal p ∈ cs -> plain_name p) by set_solver.
    destruct c as [| | |p]; simpl; try (split; [done|]; intros [[[?|(? & ? & _)] _] _]; done).
    + rewrite IH by done. naive_solver.
    + assert (Hp : plain_name p) by (apply Hcs; by left).
      rewrite if_err_ok, push_str_join, IH, <-app_assoc; [|by apply Forall_app; auto|done|done].
      rewrite !orb_false_iff, bool_decide_eq_false, N.ltb_ge. unfold component_ok at 2.
      split.
      * intros ([[??]?] & ? & ?). split_and!; [right; by exists p|done|done].
      * intros ([[?|(p' & [= <-] & [??] & ? & ?)] ?] & ?); [done|].
        split_and!; done.
Qed.

Lemma omap_piece_sublist ps :
  (omap normal_name (ps ≫= piece_component false) ≫= (fun q => slash :: q))
    `sublist_of` (ps ≫= (fun q => slash :: q)).
Proof.
  induction ps as [|p ps IH]; csimpl; [constructor|].
  unfold piece_component at 1. case_bool_decide; [|case_bool_decide; [|case_bool_decide]];
    csimpl; try by apply (sublist_inserts_l (slash :: p)).
  apply sublist_skip. by apply sublist_app.
Qed.

Lemma join_names_sublist s :
  has_root s = false ->
  join_path (omap normal_name (text_components s)) `sublist_of` s.
Proof.
  intros Hr. unfold text_components.
  destruct (split_from_concat slash [] s) as (p & ps & Hsp & Hs). unfold split.
  rewrite Hsp, Hr. simpl in Hs. rewrite Hs. cbn [negb]. rewrite app_nil_l.
  rewrite omap_app. pose proof (omap_piece_sublist ps) as Hsub.
  set (ns := omap normal_name (ps ≫= piece_component false)) in *.
  assert (Hns : join_path ns `sublist_of` p ++ (ps ≫= (fun q => slash :: q))).
  { apply sublist_inserts_l. destruct ns as [|n ns]; [apply sublist_nil_l|].
    simpl in Hsub. etransitivity; [|exact Hsub]. by apply sublist_cons. }
  unfold piece_component. case_bool_decide; [|case_bool_decide; [|case_bool_decide]]; csimpl;
    try exact Hns.
  by apply sublist_app.
Qed.

Lemma text_ok_sublist s t : s `sublist_of` t -> text_ok t -> text_ok s.
Proof.
  intros Hs (Hl & Hb & Hd). unfold text_ok. pose proof (blen_sublist _ _ Hs).
  split_and!; [lia| |by eapply existsb_sublist].
  intros Hin. apply Hb. by eapply elem_of_sublist.
Qed.

Lemma path_names_plain p : Forall plain_name (path_names p).
Proof.
  apply Forall_forall. intros n Hn. unfold path_names in Hn.
  apply list_elem_of_omap in Hn as ([| | |m] & Hin & Hm); simplify_eq/=.
  by eapply text_components_normal.
Qed.

Lemma join_path_nil_iff ps : Forall plain_name ps -> join_path ps = [] <-> ps = [].
Proof.
  intros Hf. destruct ps as [|p ps]; [done|]. split; [|done]. intros H.
  apply Forall_cons in Hf as [[Hp _] _]. simpl in H. by apply app_eq_nil in H as [? _].
Qed.

Lemma path_names_join ps : Forall plain_name ps -> path_names (Utf8Path (join_path ps)) = ps.
Proof.
  intros Hf. unfold path_names, components. cbn [path_text].
  rewrite text_components_join by done. induction ps as [|p ps IH]; csimpl; [done|].
  f_equal. apply IH. by apply Forall_cons in Hf as [_ ?].
Qed.

Lemma join_path_no_root ps : Forall plain_name ps -> has_root (join_path ps) = false.
Proof.
  intros Hf. destruct ps as [|[|c p] ps]; [done| |].
  - by apply Forall_cons in Hf as [[? _] _].
  - apply Forall_cons in Hf as [(_ & Hs & _) _]. simpl. apply N.eqb_neq. set_solver.
Qed.

(** The text [normalize_project_relative] returns for a list of names. *)
Definition names_text (ns : list str) : str :=
  match ns with [] => dot | _ => join_path ns end.

Definition relative_ok (path : os_path) (allow_root : bool) : Prop :=
  exists text, path = Utf8Path text /\ has_root text = false /\ text_ok text /\
  Forall (fun c => c = CurDir \/ exists p, c = Normal p /\ component_ok p)
    (text_components text) /\
  (allow_root = true \/ path_names path <> []).

Lemma normalize_iff path allow_root q :
  normalize_project_relative path allow_root = Ok q <->
  relative_ok path allow_root /\ q = Utf8Path (names_text (path_names path)).
Proof.
  unfold normalize_project_relative, relative_ok, is_absolute, components.
  rewrite if_err_ok. destruct path as [t|b]; cbn [path_text path_to_str ok_or].
  2:{ split; [by intros [_ ?]|by intros [(? & ? & _) _]]. }
  rewrite if_err_ok, !orb_false_iff, contains_char_false, N.ltb_ge.
  assert (Hpl : forall p, Normal p ∈ text_components t -> plain_name p)
    by (intros p; apply text_components_normal).
  pose proof (fun n => normalize_components_iff [] (text_components t) n
    ltac:(constructor) Hpl) as Hn. simpl in Hn.
  pose proof (path_names_plain (Utf8Path t)) as Hp.
  change (omap normal_name (text_components t)) with (path_names (Utf8Path t)) in Hn.
  unfold text_ok. split.
  - intros (? & ((? & ?) & ?) & Hres).
    destruct (normalize_components [] _) as [n|] eqn:En; [|done].
    destruct (proj1 (Hn n) eq_refl) as [? ->].
    destruct (path_names (Utf8Path t)) as [|m ms] eqn:Em.
    + simpl in Hres. destruct allow_root; simplify_eq/=. split; [|done]. exists t. naive_solver.
    + rewrite bool_decide_eq_false_2 in Hres by (by rewrite join_path_nil_iff).
      simplify_eq. split; [|done]. exists t. naive_solver.
  - intros [(t' & [= <-] & ? & (? & ? & ?) & Hc & Hr) ->]. split_and!; try done.
    rewrite (proj2 (Hn _) (conj Hc eq_refl)).
    destruct (path_names (Utf8Path t)) as [|m ms] eqn:Em.
    + simpl. by destruct Hr as [->|?].
    + by rewrite bool_decide_eq_false_2 by (by rewrite join_path_nil_iff).
Qed.

Lemma relative_ok_names path allow_root :
  relative_ok path allow_root -> Forall component_ok (path_names path).
Proof.
  intros (t & -> & _ & _ & Hc & _). apply Forall_forall. intros n Hn.
  apply list_elem_of_omap in Hn as ([| | |m] & Hin & Hm); simplify_eq/=.
  rewrite Forall_forall in Hc. destruct (Hc _ Hin) as [?|(p & [= <-] & ?)]; done.
Qed.

Lemma path_names_text path : path_names (Utf8Path (names_text (path_names path))) = path_names path.
Proof.
  pose proof (path_names_plain path) as Hp.
  destruct (path_names path) as [|m ms]; [done|]. by apply path_names_join.
Qed.

Lemma normalized_ok path allow_root :
  relative_ok path allow_root ->
  relative_ok (Utf8Path (names_text (path_names path))) allow_root.
Proof.
  intros H. pose proof (relative_ok_names _ _ H) as Hc. pose proof (path_names_plain path) as Hp.
  destruct H as (t & Ht & Hr & Ho & _ & Ha). subst path.
  eexists. split; [done|]. rewrite path_names_text.
  destruct (path_names (Utf8Path t)) as [|m ms] eqn:Em.
  - refine (conj _ (conj _ (conj _ _))); [done| | |done].
    + split_and!; [by vm_compute| |by vm_compute]. by apply contains_char_false.
    + constructor; [by left|constructor].
  - cbn [names_text].
    refine (conj _ (conj _ (conj _ _))); [by apply join_path_no_root| | |done].
    + eapply text_ok_sublist; [|exact Ho]. rewrite <-Em. by apply join_names_sublist.
    + rewrite text_components_join by done. apply Forall_fmap.
      eapply Forall_impl; [exact Hc|]. intros n ?. right. by exists n.
Qed.

Lemma normalize_idempotent path allow_root q :
  normalize_project_relative path allow_root = Ok q ->
  normalize_project_relative q allow_root = Ok q.
Proof.
  rewrite normalize_iff. intros [Hok ->]. rewrite normalize_iff, path_names_text.
  split; [by apply normalized_ok|done].
Qed.

(** ** Validated commands *)

Definition tool_ok (t : str) : Prop :=
  t <> [] /\ blen t <= MAX_RUNTIME_TOOL_ID_BYTES /\
  forallb tool_id_byte (as_bytes t) = true /\ to_ascii_lowercase t ∉ shell_tools.

Definition arg_ok (a : str) : Prop :=
  blen a <= MAX_ARGUMENT_BYTES /\ has_forbidden_display_char a = false.

Definition total_arg_bytes (l : list str) : N := foldr (fun a n => blen a + n) 0 l.

Definition program_ok (p : CommandProgram) : Prop :=
  match p with
  | RuntimeTool t => tool_ok t
  | WorkspaceExecutable path => normalize_project_relative path false = Ok path
  end.

(** A command as the engine stores it. *)
Definition command_valid (c : CommandSpec) : Prop :=
  len (args c) <= MAX_ARGUMENTS /\ Forall arg_ok (args c) /\
  total_arg_bytes (args c) <= MAX_TOTAL_ARGUMENT_BYTES /\
  normalize_project_relative (working_dir c) true = Ok (working_dir c) /\
  program_ok (program c).

Lemma validate_runtime_tool_id_ok t r :
  validate_runtime_tool_id t = Ok r <-> r = t /\ tool_ok t.
Proof.
  unfold validate_runtime_tool_id, tool_ok.
  rewrite !if_err_ok, !orb_false_iff, !bool_decide_eq_false, N.ltb_ge, negb_false_iff.
  split.
  - intros (((? & ?) & ?) & ? & [= ->]). done.
  - by intros (-> & ? & ? & ? & ?).
Qed.

Lemma check_args_ok total l r :
  total <= MAX_TOTAL_ARGUMENT_BYTES ->
  check_args total l = Ok r <->
  r = l /\ Forall arg_ok l /\ total + total_arg_bytes l <= MAX_TOTAL_ARGUMENT_BYTES.
Proof.
  assert (MAX_TOTAL_ARGUMENT_BYTES < usize_max /\ MAX_ARGUMENT_BYTES <= MAX_TOTAL_ARGUMENT_BYTES)
    as [Hmax Hm2] by by vm_compute.
  revert total r. induction l as [|a l IH]; intros total r Ht; simpl.
  { rewrite N.add_0_r. split; [intros [= <-]; auto|by intros [-> _]]. }
  rewrite if_err_ok, orb_false_iff, N.ltb_ge, Forall_cons. unfold arg_ok at 1.
  unfold checked_add. destruct (N.leb_spec (total + blen a) usize_max) as [Hb|Hb]; cbn [ok_or].
  - rewrite if_err_ok, N.ltb_ge. split.
    + intros ([? ?] & Hle & Hr). destruct (check_args (total + blen a) l) as [rest|] eqn:E; [|done].
      apply IH in E as (-> & ? & ?); [|done]. simplify_eq. split_and!; try done. lia.
    + intros (-> & [? ?] & ?). split_and!; [naive_solver|naive_solver|lia|].
      rewrite (proj2 (IH (total + blen a) l ltac:(lia))); [done|]. split_and!; [done..|lia].
  - split; [by intros (_ & ?)|]. intros (_ & [[? _] _] & ?). lia.
Qed.

(** Validation fixes its own results and bounds them. *)
Lemma validate_command_spec_valid c r :
  validate_command_spec c = Ok r -> command_valid r.
Proof.
  unfold validate_command_spec. intros [Hlen%N.ltb_ge H]%if_err_ok.
  destruct (check_args 0 (args c)) as [as_|] eqn:Ea; [|done].
  apply check_args_ok in Ea as (-> & ? & ?); [|by vm_compute].
  destruct (normalize_project_relative _ _) as [wd|] eqn:Ew; [|done].
  destruct (validate_program _) as [p|] eqn:Ep; [|done]. simplify_eq.
  split_and!; simpl; try done.
  - by apply normalize_idempotent in Ew.
  - unfold validate_program in Ep. destruct (program c) as [t|path].
    + destruct (validate_runtime_tool_id t) as [t'|] eqn:Et; simplify_eq.
      by apply validate_runtime_tool_id_ok in Et as [-> ?].
    + destruct (normalize_project_relative path false) as [q|] eqn:Eq; simplify_eq.
      by apply normalize_idempotent in Eq.
Qed.

Lemma validate_command_spec_fixed c : command_valid c -> validate_command_spec c = Ok c.
Proof.
  intros (? & ? & ? & Hw & Hp). unfold validate_command_spec.
  apply if_err_ok. split; [by apply N.ltb_ge|].
  rewrite (proj2 (check_args_ok 0 _ (args c) ltac:(by vm_compute))) by done.
  rewrite Hw. destruct c as [[t|path] as_ wd]; simpl in *.
  - by rewrite (proj2 (validate_runtime_tool_id_ok t t)).
  - by rewrite Hp.
Qed.

(** ** The engine as a transition system *)

Inductive policy_call :=
| PRequest (fresh : N) (session_id : SessionId) (project_id : ProjectId)
    (command : CommandSpec) (r : Result CommandRequestOutcome)
| PDecide (session_id : SessionId) (project_id : ProjectId)
    (approval : CommandApprovalRequest) (decision : CommandApprovalDecision)
    (r : Result CommandDecisionOutcome)
| PRevoke (session_id : SessionId) (r : Result N)
| PInvalidate (project_id : ProjectId) (r : Result N).

Inductive policy_step `{UuidLib} :
    CommandPolicyEngine -> policy_call -> CommandPolicyEngine -> Prop :=
| step_request e fresh sid pid c r e' :
    request_command fresh e sid pid c = (r, e') ->
    policy_step e (PRequest fresh sid pid c r) e'
| step_decide e sid pid a d r e' :
    decide_approval e sid pid a d = (r, e') ->
    policy_step e (PDecide sid pid a d r) e'
| step_revoke e sid r e' :
    revoke_pending_for_session e sid = (r, e') -> policy_step e (PRevoke sid r) e'
| step_invalidate e pid r e' :
    invalidate_project_authorizations e pid = (r, e') -> policy_step e (PInvalidate pid r) e'.

Definition policy_allows (c : CommandPolicyConfig) (p : CommandProgram) : Prop :=
  match p with
  | RuntimeTool t => t ∈ allowed_runtime_tools c
  | WorkspaceExecutable _ => allow_workspace_executables c = true
  end.

Definition engine_inv (c : CommandPolicyConfig) (e : CommandPolicyEngine) : Prop :=
  config e = c /\
  pending_len (state e) <= MAX_PENDING_COMMANDS /\
  (forall sid, N.of_nat (size (session_pending sid (pending (state e))))
    <= MAX_PENDING_PER_SESSION) /\
  (forall id p, pending (state e) !! id = Some p ->
    command_valid (pc_command p) /\ policy_allows c (program (pc_command p))) /\
  (forall id1 id2 p1 p2, pending (state e) !! id1 = Some p1 ->
    pending (state e) !! id2 = Some p2 ->
    same_pending (pc_session_id p2) (pc_project_id p2) (pc_command p2) p1 = true ->
    id1 = id2).

(** ** Steps of the pending table *)

Lemma engine_inv_mono c e e' :
  engine_inv c e -> config e' = config e -> pending (state e') ⊆ pending (state e) ->
  engine_inv c e'.
Proof.
  intros (Hc & Hl & Hs & Hv & Hd) He Hsub. unfold engine_inv, pending_len in *.
  split_and!.
  - congruence.
  - apply map_subseteq_size in Hsub. lia.
  - intros sid. specialize (Hs sid). unfold session_pending in *.
    apply (map_filter_subseteq_mono (fun kv => pc_session_id kv.2 = sid)) in Hsub.
    apply map_subseteq_size in Hsub. lia.
  - intros id p Hp. eapply Hv. by eapply lookup_weaken.
  - intros id1 id2 p1 p2 H1 H2. by eapply Hd; eapply lookup_weaken.
Qed.

(** What a granted request did. *)
Lemma request_granted `{UuidLib} fresh e sid pid c r e' :
  request_command fresh e sid pid c = (Ok (ApprovalRequired r), e') ->
  exists c', validate_session_scope sid = Ok tt /\ validate_command_spec c = Ok c' /\
    policy_denial e c' = None /\ poisoned e = false /\
    pending_len (state e) < MAX_PENDING_COMMANDS /\
    N.of_nat (size (session_pending sid (pending (state e)))) < MAX_PENDING_PER_SESSION /\
    (forall id p, pending (state e) !! id = Some p -> same_pending sid pid c' p = false) /\
    pending (state e) !! uuid_hyphenated fresh = None /\
    r = {| ar_request_id := uuid_hyphenated fresh; ar_session_id := sid;
           ar_project_id := pid; ar_command := c' |} /\
    e' = with_state e (mkState
           (<[uuid_hyphenated fresh := {| pc_session_id := sid; pc_project_id := pid;
               pc_command := c' |}]> (pending (state e)))
           (project_epochs (state e))).
Proof.
  unfold request_command. intros Hreq.
  destruct (let? _ := _ in _) as [c'|] eqn:E; [|done]. apply seq_ok in E as [? ?].
  destruct (policy_denial e c') eqn:Ed; [done|].
  repeat (case_match; [done|]). bool_prop.
  destruct (pending (state e) !! _) eqn:El; [done|]. injection Hreq as <- <-.
  exists c'. split_and!; try done. intros id p Hp.
  match goal with H : existsb _ _ = false |- _ => rewrite existsb_false_iff in H;
    apply (H (id, p)) end.
  by apply elem_of_map_to_list.
Qed.

Lemma request_other `{UuidLib} fresh e sid pid c r e' :
  request_command fresh e sid pid c = (r, e') ->
  (forall a, r <> Ok (ApprovalRequired a)) -> e' = e.
Proof.
  unfold request_command. intros Hreq Hr.
  destruct (let? _ := _ in _) as [c'|]; [|by injection Hreq].
  repeat (case_match; [by injection Hreq|]).
  injection Hreq as <- _. by destruct (Hr _ eq_refl).
Qed.

(** What a settled approval did. *)
Lemma decide_settled `{UuidLib} e sid pid a d o e' :
  decide_approval e sid pid a d = (Ok o, e') ->
  exists p, pending (state e) !! ar_request_id a = Some p /\ poisoned e = false /\
    ar_session_id a = sid /\ ar_project_id a = pid /\
    pc_session_id p = sid /\ pc_project_id p = pid /\
    e' = with_state e (mkState (delete (ar_request_id a) (pending (state e)))
                         (project_epochs (state e))) /\
    match o with
    | DecisionDenied _ => d = Deny
    | Authorized env =>
      d = AllowOnce /\ command_eqb (pc_command p) (ar_command a) = true /\
      env_request_id env = ar_request_id a /\ env_session_id env = sid /\
      env_project_id env = pid /\ env_command env = pc_command p /\
      project_epoch env = epoch_of e pid
    end.
Proof.
  unfold decide_approval. intros Hd.
  destruct (let? _ := _ in _) as [[]|]; [|done].
  case_match eqn:Ec; [done|]. destruct (poisoned e) eqn:Ep; [done|].
  destruct (pending (state e) !! ar_request_id a) as [p|] eqn:El; [|done].
  case_match eqn:Es; [done|]. case_match eqn:Em; [done|].
  exists p. bool_prop. destruct d; bool_prop; injection Hd as <- <-;
    split_and!; simpl; congruence.
Qed.

Lemma decide_failed `{UuidLib} e sid pid a d err e' :
  decide_approval e sid pid a d = (Err err, e') -> e' = e.
Proof.
  unfold decide_approval. intros Hd.
  destruct (let? _ := _ in _) as [[]|]; [|by injection Hd].
  case_match; [by injection Hd|]. destruct (poisoned e); [by injection Hd|].
  destruct (pending (state e) !! ar_request_id a) as [p|]; [|by injection Hd].
  case_match; [by injection Hd|]. case_match; [by injection Hd|]. by destruct d.
Qed.

(** Every step keeps the configuration and the lock, and adds to the table at
    most the request it grants. *)
Lemma policy_step_pending `{UuidLib} e l e' :
  policy_step e l e' ->
  config e' = config e /\ poisoned e' = poisoned e /\
  ((exists fresh sid pid c r, l = PRequest fresh sid pid c (Ok (ApprovalRequired r))) \/
   pending (state e') ⊆ pending (state e)).
Proof.
  destruct 1 as [e fresh sid pid c r e' Hr|e sid pid a d r e' Hd|e sid r e' Hr|e pid r e' Hi].
  - destruct r as [[a|code]|err].
    + pose proof Hr as Hr'.
      apply request_granted in Hr' as (c' & _ & _ & _ & _ & _ & _ & _ & _ & _ & ->).
      split_and!; [done..|left]. by eexists _, _, _, _, _.
    + apply request_other in Hr as ->; [by auto|done].
    + apply request_other in Hr as ->; [by auto|done].
  - destruct r as [o|err].
    + apply decide_settled in Hd as (p & _ & _ & _ & _ & _ & _ & -> & _).
      split_and!; [done..|right]. apply delete_subseteq.
    + apply decide_failed in Hd as ->. auto.
  - unfold revoke_pending_for_session in Hr.
    repeat case_match; injection Hr as _ <-; auto.
    split_and!; [done..|right]. apply map_filter_subseteq.
  - unfold invalidate_project_authorizations in Hi.
    repeat case_match; injection Hi as _ <-; auto;
      (split_and!; [done..|right]); apply map_filter_subseteq.
Qed.

Lemma same_pending_sym s1 p1 c1 s2 p2 c2 :
  same_pending s1 p1 c1 {| pc_session_id := s2; pc_project_id := p2; pc_command := c2 |} =
  same_pending s2 p2 c2 {| pc_session_id := s1; pc_project_id := p1; pc_command := c1 |}.
Proof.
  assert (Hbd : forall {A} `{EqDecision A} (a b : A), bool_decide (a = b) = bool_decide (b = a))
    by (intros; by apply bool_decide_ext).
  assert (Hpath : forall p q, path_eqb p q = path_eqb q p)
    by (intros [] []; simpl; auto).
  unfold same_pending, command_eqb. simpl.
  rewrite (Hbd _ _ s2), (Hbd _ _ p2), (Hbd _ _ (args c2)), (Hpath (working_dir c2)).
  do 3 f_equal. destruct (program c1), (program c2); simpl; auto.
Qed.

Lemma policy_denial_None e c : policy_denial e c = None -> policy_allows (config e) (program c).
Proof.
  unfold policy_denial, policy_allows. destruct (program c); intros H; by inv_match.
Qed.

Lemma engine_inv_step `{UuidLib} c e l e' :
  engine_inv c e -> policy_step e l e' -> engine_inv c e'.
Proof.
  intros Hinv Hst. pose proof (policy_step_pending _ _ _ Hst) as (Hc & _ & [Hg|Hsub]).
  2:{ by eapply engine_inv_mono. }
  destruct Hg as (fresh & sid & pid & cmd & r & ->). inversion Hst; subst; clear Hst.
  match goal with H : request_command _ _ _ _ _ = _ |- _ => apply request_granted in H as
    (c' & _ & Hval & Hden & _ & Hl & Hs & Hdup & Hfresh & -> & ->) end.
  destruct Hinv as (Hcfg & _ & Hs' & Hv & Hd).
  apply validate_command_spec_valid in Hval. apply policy_denial_None in Hden.
  rewrite Hcfg in Hden. unfold engine_inv, pending_len in *. cbn [state with_state pending].
  split_and!.
  - done.
  - rewrite map_size_insert_None by done. lia.
  - intros sid'. unfold session_pending in *. rewrite map_filter_insert. case_decide as Hsid.
    + simpl in Hsid. subst sid'. rewrite map_size_insert_None; [lia|].
      apply map_lookup_filter_None. by left.
    + rewrite map_filter_delete. pose proof (Hs' sid') as Hle.
      set (f := filter (fun kv => pc_session_id kv.2 = sid') (pending (state e))) in *.
      pose proof (map_subseteq_size _ _ (delete_subseteq f (uuid_hyphenated fresh))).
      lia.
  - intros id p [[_ <-]|[_ Hp]]%lookup_insert_Some; [done|by eapply Hv].
  - intros id1 id2 p1 p2 [[<- <-]|[Hn1 H1]]%lookup_insert_Some
      [[<- <-]|[Hn2 H2]]%lookup_insert_Some Hsame; [done| | |by eapply Hd].
    + rewrite same_pending_sym in Hsame. destruct p2. simpl in *.
      by rewrite (Hdup _ _ H2) in Hsame.
    + simpl in Hsame. by rewrite (Hdup _ _ H1) in Hsame.
Qed.

Lemma engine_inv_new c : engine_inv c (CommandPolicyEngine_new c).
Proof.
  unfold engine_inv, CommandPolicyEngine_new, pending_len, session_pending. simpl.
  split_and!.
  - done.
  - rewrite map_size_empty. by vm_compute.
  - intros sid. rewrite map_filter_empty, map_size_empty. by vm_compute.
  - intros id p. by rewrite lookup_empty.
  - intros id1 id2 p1 p2. by rewrite lookup_empty.
Qed.

Lemma engine_inv_steps `{UuidLib} c tr e :
  steps policy_step (CommandPolicyEngine_new c) tr e -> engine_inv c e.
Proof.
  intros Htr. eapply steps_invariant; [|apply engine_inv_new|exact Htr].
  intros a l b ? ?. by eapply engine_inv_step.
Qed.

Lemma poisoned_steps `{UuidLib} e tr e' :
  steps policy_step e tr e' -> poisoned e' = poisoned e.
Proof.
  induction 1 as [|? ? ? ? ? Hst _ IH]; [done|].
  rewrite IH. by apply policy_step_pending in Hst as (_ & ? & _).
Qed.

(** ** The ledger of requests *)

Definition issues (id : str) (l : policy_call) : bool :=
  match l with
  | PRequest _ _ _ _ (Ok (ApprovalRequired r)) => bool_decide (ar_request_id r = id)
  | _ => false
  end.

Definition settles (id : str) (l : policy_call) : bool :=
  match l with
  | PDecide _ _ a _ (Ok _) => bool_decide (ar_request_id a = id)
  | _ => false
  end.

Definition is_pending (id : str) (e : CommandPolicyEngine) : N :=
  match pending (state e) !! id with Some _ => 1 | None => 0 end.

Lemma ledger_step `{UuidLib} id e l e' :
  policy_step e l e' ->
  (if settles id l then 1 else 0) + is_pending id e'
  <= is_pending id e + (if issues id l then 1 else 0).
Proof.
  intros Hst. pose proof (policy_step_pending _ _ _ Hst) as (_ & _ & Hp).
  assert (Hmono : pending (state e') ⊆ pending (state e) -> is_pending id e' <= is_pending id e).
  { intros Hsub. unfold is_pending. destruct (pending (state e') !! id) eqn:E; [|lia].
    rewrite (lookup_weaken _ _ _ _ E Hsub). lia. }
  inversion Hst as [? ? ? ? ? r ? Hr|? ? ? a ? r ? Hd|? ? ? ? Hr|? ? ? ? Hi]; subst;
    cbn [settles issues].
  - destruct r as [[r|]|]; [|apply request_other in Hr as ->; [lia|done]..].
    apply request_granted in Hr as (c' & _ & _ & _ & _ & _ & _ & _ & Hf & -> & ->).
    unfold is_pending. cbn. rewrite lookup_insert.
    case_decide as Hid; [rewrite bool_decide_eq_true_2 by done|
      rewrite bool_decide_eq_false_2 by done].
    + subst id. rewrite Hf. lia.
    + lia.
  - destruct r as [o|]; [|apply decide_failed in Hd as ->; lia].
    apply decide_settled in Hd as (p & Hp' & _ & _ & _ & _ & _ & -> & _).
    unfold is_pending. cbn. rewrite lookup_delete.
    case_decide as Hid; [rewrite bool_decide_eq_true_2 by done|
      rewrite bool_decide_eq_false_2 by done].
    + subst id. rewrite Hp'. lia.
    + lia.
  - destruct Hp as [(?&?&?&?&?&[=])|?%Hmono]. lia.
  - destruct Hp as [(?&?&?&?&?&[=])|?%Hmono]. lia.
Qed.

Lemma ledger_steps `{UuidLib} id e tr e' :
  steps policy_step e tr e' ->
  count (settles id) tr + is_pending id e' <= is_pending id e + count (issues id) tr.
Proof.
  induction 1 as [|? ? ? ? ? Hst _ IH]; simpl; [lia|].
  apply (ledger_step id) in Hst. lia.
Qed.

(** The request a pending entry comes from, unsettled since. *)
Lemma pending_origin `{UuidLib} c tr e id p :
  steps policy_step (CommandPolicyEngine_new c) tr e -> pending (state e) !! id = Some p ->
  exists tr1 fresh sid pid cmd r tr2,
    tr = tr1 ++ PRequest fresh sid pid cmd (Ok (ApprovalRequired r)) :: tr2 /\
    ar_request_id r = id /\ ar_session_id r = pc_session_id p /\
    ar_project_id r = pc_project_id p /\ ar_command r = pc_command p /\
    sid = pc_session_id p /\ pid = pc_project_id p /\
    validate_command_spec cmd = Ok (pc_command p) /\
    count (settles id) tr2 = 0.
Proof.
  revert e. induction tr as [|l tr IH] using rev_ind; intros e Htr Hp.
  { apply steps_nil_inv in Htr. subst e. simpl in Hp. by rewrite lookup_empty in Hp. }
  apply steps_snoc_inv in Htr as (e1 & Htr & Hst).
  assert (Hold : pending (state e1) !! id = Some p -> settles id l = false -> exists tr1 fresh sid pid cmd r tr2,
    tr ++ [l] = tr1 ++ PRequest fresh sid pid cmd (Ok (ApprovalRequired r)) :: tr2 /\
    ar_request_id r = id /\ ar_session_id r = pc_session_id p /\
    ar_project_id r = pc_project_id p /\ ar_command r = pc_command p /\
    sid = pc_session_id p /\ pid = pc_project_id p /\
    validate_command_spec cmd = Ok (pc_command p) /\
    count (settles id) tr2 = 0).
  { intros Hp1 Hs. destruct (IH _ Htr Hp1) as (tr1 & f & s & pr & cm & r & tr2 & -> & ? & ? & ? & ? & ? & ? & ? & Hc).
    exists tr1, f, s, pr, cm, r, (tr2 ++ [l]). rewrite <-app_assoc. split_and!; try done.
    rewrite count_app, Hc. simpl. by rewrite Hs. }
  pose proof (policy_step_pending _ _ _ Hst) as (_ & _ & [(f & s & pr & cm & r & ->)|Hsub]).
  - inversion Hst as [? ? ? ? ? ? ? Hr| | |]; subst.
    apply request_granted in Hr as (c' & _ & Hval & _ & _ & _ & _ & _ & _ & -> & ->).
    simpl in Hp. apply lookup_insert_Some in Hp as [[<- <-]|[_ Hp]]; [|by apply Hold].
    eexists tr, f, s, pr, cm, _, []. by split_and!.
  - apply Hold; [by eapply lookup_weaken|].
    destruct (settles id l) eqn:Hs; [|done]. exfalso.
    destruct l as [|s pr a d [o|]| |]; try done. simpl in Hs. bool_prop. subst id.
    inversion Hst as [|? ? ? ? ? ? ? Hd| |]; subst.
    apply decide_settled in Hd as (? & _ & _ & _ & _ & _ & _ & -> & _).
    simpl in Hp. by rewrite lookup_delete_eq in Hp.
Qed.

(** ** Epochs *)

Definition invalidates (pid : ProjectId) (l : policy_call) : bool :=
  match l with
  | PInvalidate p (Ok _) => bool_decide (p = pid)
  | _ => false
  end.

Lemma epoch_step `{UuidLib} pid e l e' :
  policy_step e l e' -> epoch_of e' pid = epoch_of e pid + (if invalidates pid l then 1 else 0).
Proof.
  intros Hst. inversion Hst as [? ? ? ? ? r ? Hr|? ? ? a ? r ? Hd|? ? ? ? Hr|? pid' ? ? Hi]; subst;
    cbn [invalidates]; rewrite ?N.add_0_r.
  - destruct r as [[r|]|]; [|by apply request_other in Hr as ->..].
    by apply request_granted in Hr as (c' & _ & _ & _ & _ & _ & _ & _ & _ & _ & ->).
  - destruct r as [o|]; [|by apply decide_failed in Hd as ->].
    by apply decide_settled in Hd as (p & _ & _ & _ & _ & _ & _ & -> & _).
  - unfold revoke_pending_for_session in Hr. by repeat case_match; injection Hr as _ <-.
  - unfold invalidate_project_authorizations in Hi.
    case_match; [injection Hi as <- <-; by rewrite N.add_0_r|].
    destruct (checked_add _ _ _) as [next|] eqn:Ec; injection Hi as <- <-;
      [|by rewrite N.add_0_r].
    apply checked_add_Some in Ec as [-> _]. unfold epoch_of. cbn.
    rewrite lookup_insert. case_decide as Hp.
    + subst. by rewrite bool_decide_eq_true_2.
    + rewrite bool_decide_eq_false_2 by done. by rewrite N.add_0_r.
Qed.

Lemma epoch_steps `{UuidLib} pid e tr e' :
  steps policy_step e tr e' -> epoch_of e' pid = epoch_of e pid + count (invalidates pid) tr.
Proof.
  induction 1 as [|? ? ? ? ? Hst _ IH]; simpl; [lia|].
  apply (epoch_step pid) in Hst. lia.
Qed.

(** ** Configuration *)

Lemma add_tools_ok tools ts tools' :
  add_tools tools ts = Ok tools' ->
  (forall t, t ∈ tools' -> t ∈ tools \/ tool_ok t).
Proof.
  revert tools. induction ts as [|t ts IH]; intros tools; simpl.
  { intros [= ->]. auto. }
  intros [_ Hr]%if_err_ok.
  destruct (validate_runtime_tool_id t) as [t'|] eqn:Et; [|done].
  apply validate_runtime_tool_id_ok in Et as [-> Ht].
  apply if_err_ok in Hr as [_ Hr]. intros x Hx.
  destruct (IH _ Hr x Hx) as [[->%elem_of_singleton|?]%elem_of_union|?]; auto.
Qed.

(** ** Properties *)

(** A path accepted by [normalize_project_relative] is rewritten to the same
    file names joined by single slashes (or to [.] for the project root, only
    where the root is allowed): every name is a plain one, at most 255 bytes,
    outside the internal temporary namespace; the text is within 4096 bytes with
    no backslash, control or bidirectional character; and normalizing the result
    again changes nothing. *)
Theorem normalize_project_relative_sound path allow_root q :
  normalize_project_relative path allow_root = Ok q ->
  path_names q = path_names path /\
  Forall component_ok (path_names q) /\
  (exists s, q = Utf8Path s /\ text_ok s /\ has_root s = false /\
     (s = dot /\ allow_root = true \/ path_names q <> [] /\ s = join_path (path_names q))) /\
  normalize_project_relative q allow_root = Ok q.
Proof.
  intros Hq. pose proof (normalize_idempotent _ _ _ Hq) as Hi.
  apply normalize_iff in Hq as [Hok ->]. rewrite path_names_text.
  split_and!; [done|by eapply relative_ok_names| |done].
  eexists. split; [done|].
  apply normalized_ok in Hok as (t & [= <-] & Hr & Ht & _ & Ha). rewrite path_names_text in Ha.
  destruct (path_names path); [|by auto].
  destruct Ha as [->|?]; [by auto|done].
Qed.

(** C36. In every state the engine can reach, at most 64 requests are pending, at
    most 8 of one session, each a validated command the configuration allows,
    and no two of them are the same command of one session and project. *)
Theorem engine_invariant `{UuidLib} c tr e :
  steps policy_step (CommandPolicyEngine_new c) tr e ->
  config e = c /\
  pending_len (state e) <= 64 /\
  (forall sid, N.of_nat (size (session_pending sid (pending (state e)))) <= 8) /\
  (forall id p, pending (state e) !! id = Some p ->
    validate_command_spec (pc_command p) = Ok (pc_command p) /\
    policy_allows c (program (pc_command p))) /\
  (forall id1 id2 p1 p2, pending (state e) !! id1 = Some p1 ->
    pending (state e) !! id2 = Some p2 ->
    same_pending (pc_session_id p2) (pc_project_id p2) (pc_command p2) p1 = true ->
    id1 = id2).
Proof.
  intros Htr. destruct (engine_inv_steps _ _ _ Htr) as (? & ? & ? & Hv & ?).
  split_and!; try done. intros id p Hp. destruct (Hv id p Hp).
  split; [by apply validate_command_spec_fixed|done].
Qed.

(** Over any history, the decisions that settled a request id, plus one if
    it is still pending, never outnumber the approvals issued under that id: one
    approval request yields at most one authorization or denial. *)
Theorem authorization_at_most_once `{UuidLib} c tr e id :
  steps policy_step (CommandPolicyEngine_new c) tr e ->
  count (settles id) tr + is_pending id e <= count (issues id) tr.
Proof.
  intros Htr. pose proof (ledger_steps id _ _ _ Htr) as Hl.
  unfold is_pending at 2 in Hl. simpl in Hl. rewrite lookup_empty in Hl. lia.
Qed.

(** C37. An authorization carries exactly the command that was validated and
    shown for approval under its id, for the session and project that asked,
    with no settlement of the id in between; that command is within the argument
    and path limits, allowed by the configuration, and its tool is never a shell
    interpreter, whatever the case of its spelling. *)
Theorem authorization_faithful `{UuidLib} tools allow_ws c tr sid pid a env e :
  CommandPolicyConfig_new tools allow_ws = Ok c ->
  steps policy_step (CommandPolicyEngine_new c)
    (tr ++ [PDecide sid pid a AllowOnce (Ok (Authorized env))]) e ->
  (exists tr1 fresh cmd r tr2,
    tr = tr1 ++ PRequest fresh sid pid cmd (Ok (ApprovalRequired r)) :: tr2 /\
    ar_request_id r = env_request_id env /\ ar_command r = env_command env /\
    validate_command_spec cmd = Ok (env_command env) /\
    env_session_id env = sid /\ env_project_id env = pid /\
    count (settles (env_request_id env)) tr2 = 0) /\
  command_eqb (env_command env) (ar_command a) = true /\
  command_valid (env_command env) /\ policy_allows c (program (env_command env)) /\
  (forall t, program (env_command env) = RuntimeTool t ->
     to_ascii_lowercase t ∉ shell_tools).
Proof.
  intros Hc (e1 & Htr & Hst)%steps_snoc_inv.
  inversion Hst as [|? ? ? ? ? ? ? Hd| |]; subst.
  apply decide_settled in Hd as (p & Hp & _ & _ & _ & Hs & Hpr & _ & _ & Heq & Hid & Hes & Hep & Hcmd & _).
  destruct (pending_origin _ _ _ _ _ Htr Hp)
    as (tr1 & f & s & pr & cm & r & tr2 & -> & ? & ? & ? & ? & -> & -> & ? & ?).
  destruct (engine_inv_steps _ _ _ Htr) as (_ & _ & _ & Hv & _).
  destruct (Hv _ _ Hp) as [Hval Hall]. rewrite Hid, Hcmd. split_and!.
  - exists tr1, f, cm, r, tr2. rewrite Hs, Hpr in *. split_and!; congruence.
  - done.
  - done.
  - done.
  - intros t Ht. destruct Hval as (_ & _ & _ & _ & Hval). rewrite Ht in Hval.
    by destruct Hval as (_ & _ & _ & ?).
Qed.

(** An envelope stays valid exactly as long as no invalidation of its
    project succeeds after it was issued; from then on it is stale for ever. *)
Theorem envelope_epoch `{UuidLib} c tr1 sid pid a env e1 e2 tr2 e3 :
  steps policy_step (CommandPolicyEngine_new c) tr1 e1 ->
  policy_step e1 (PDecide sid pid a AllowOnce (Ok (Authorized env))) e2 ->
  steps policy_step e2 tr2 e3 ->
  validate_execution_envelope e3 env = Ok tt <->
  forall l, l ∈ tr2 -> invalidates (env_project_id env) l = false.
Proof.
  intros Htr1 Hst Htr2.
  assert (Hpo : poisoned e3 = false).
  { rewrite (poisoned_steps _ _ _ Htr2).
    destruct (policy_step_pending _ _ _ Hst) as (_ & -> & _).
    by rewrite (poisoned_steps _ _ _ Htr1). }
  pose proof (epoch_step (env_project_id env) _ _ _ Hst) as He2.
  inversion Hst as [|? ? ? ? ? ? ? Hd| |]; subst.
  apply decide_settled in Hd as (p & _ & _ & _ & _ & _ & _ & _ & _ & _ & _ & _ & Hpid & _ & Hep).
  rewrite <-count_zero. unfold validate_execution_envelope.
  rewrite Hpo, if_err_ok, negb_false_iff, bool_decide_eq_true, (epoch_steps _ _ _ _ Htr2), He2.
  rewrite Hep, Hpid. cbn [invalidates]. split; [intros [? _]|intros ->; split; [|done]]; lia.
Qed.

(** A request that has just been granted can be approved: the decision of
    the same session and project on the returned approval request succeeds and
    removes it from the table, so the same approval cannot be used again. *)
Theorem granted_request_authorizable `{UuidLaws} fresh e sid pid cmd r e1 :
  request_command fresh e sid pid cmd = (Ok (ApprovalRequired r), e1) ->
  exists env e2, decide_approval e1 sid pid r AllowOnce = (Ok (Authorized env), e2) /\
    env_command env = ar_command r /\ validate_execution_envelope e2 env = Ok tt /\
    forall d, fst (decide_approval e2 sid pid r d)
              = Err (command_error (u "command_request_not_pending")).
Proof.
  intros Hr. apply request_granted in Hr
    as (c' & Hs & Hval & _ & Hpo & _ & _ & _ & _ & -> & ->).
  apply validate_command_spec_valid in Hval.
  assert (Hid : validate_request_id (uuid_hyphenated fresh) = Ok tt).
  { unfold validate_request_id. rewrite uuid_parse_hyphenated. simpl.
    by rewrite bool_decide_eq_true_2. }
  assert (Heq : command_eqb c' c' = true).
  { unfold command_eqb. destruct Hval as (_ & _ & _ & Hw & Hp).
    assert (Hpath : forall b q, normalize_project_relative q b = Ok q -> path_eqb q q = true).
    { intros b q [(t & -> & _) _]%normalize_iff. simpl. by rewrite bool_decide_eq_true_2. }
    rewrite (Hpath _ _ Hw), bool_decide_eq_true_2, !andb_true_r by done.
    destruct (program c') as [t|q]; simpl in *; [by rewrite bool_decide_eq_true_2|eauto]. }
  eexists _, _. unfold decide_approval at 1. cbn [ar_session_id ar_request_id ar_project_id].
  rewrite !Hs, Hid, !bool_decide_eq_true_2 by done. cbn. rewrite Hpo, lookup_insert_eq. cbn.
  rewrite !bool_decide_eq_true_2, Heq by done. cbn. split; [reflexivity|].
  split_and!; [done| |].
  - unfold validate_execution_envelope. cbn. rewrite Hpo. by rewrite bool_decide_eq_true_2.
  - intros d. unfold decide_approval. cbn [ar_session_id ar_request_id ar_project_id].
    rewrite !Hs, Hid, !bool_decide_eq_true_2 by done. cbn.
    by rewrite Hpo, lookup_delete_eq.
Qed.

(** ** A concrete engine *)

(** One character per identifier: a spelling that parses back. *)
Definition ex_uuid : UuidLib :=
  {| uuid_hyphenated id := [id]; uuid_simple id := [id];
     uuid_parse s := match s with [id] => Some id | _ => None end |}.
#[local] Existing Instance ex_uuid.

Lemma ex_uuid_laws : UuidLaws.
Proof. done. Qed.
#[local] Existing Instance ex_uuid_laws.

Definition ex_tools : list str := [u "gradle"; u "node"].
Definition ex_cfg : CommandPolicyConfig :=
  {| allowed_runtime_tools := {[u "node"]} ∪ ({[u "gradle"]} ∪ ∅);
     allow_workspace_executables := true |}.
Definition ex_session : SessionId := MkSessionId (u "session-1").
Definition ex_project : ProjectId := MkProjectId 1.
Definition ex_command : CommandSpec :=
  mkCommand (RuntimeTool (u "gradle")) [u ":app:assembleDebug"] (Utf8Path (u "./app//src/")).
Definition ex_normal : CommandSpec :=
  mkCommand (RuntimeTool (u "gradle")) [u ":app:assembleDebug"] (Utf8Path (u "app/src")).
Definition ex_request : CommandApprovalRequest :=
  {| ar_request_id := [65]; ar_session_id := ex_session; ar_project_id := ex_project;
     ar_command := ex_normal |}.
Definition ex_engine1 : CommandPolicyEngine :=
  snd (request_command 65 (CommandPolicyEngine_new ex_cfg) ex_session ex_project ex_command).
Definition ex_envelope : CommandExecutionEnvelope :=
  {| env_request_id := [65]; env_session_id := ex_session; env_project_id := ex_project;
     env_command := ex_normal; environment_policy := RuntimeManagedClean;
     project_epoch := 0 |}.
Definition ex_engine2 : CommandPolicyEngine :=
  snd (decide_approval ex_engine1 ex_session ex_project ex_request AllowOnce).
Definition ex_policy_trace : list policy_call :=
  [PRequest 65 ex_session ex_project ex_command (Ok (ApprovalRequired ex_request))].
Definition ex_decide : policy_call :=
  PDecide ex_session ex_project ex_request AllowOnce (Ok (Authorized ex_envelope)).

Lemma ex_policy_steps :
  steps policy_step (CommandPolicyEngine_new ex_cfg) ex_policy_trace ex_engine1.
Proof. apply steps_one. constructor. vm_compute. reflexivity. Qed.

Lemma ex_decide_step : policy_step ex_engine1 ex_decide ex_engine2.
Proof. constructor. vm_compute. reflexivity. Qed.

Lemma ex_policy_steps2 :
  steps policy_step (CommandPolicyEngine_new ex_cfg) (ex_policy_trace ++ [ex_decide]) ex_engine2.
Proof. eapply steps_app; [apply ex_policy_steps|]. apply steps_one, ex_decide_step. Qed.

Lemma normalize_project_relative_sound_witness :
  normalize_project_relative (Utf8Path (u "./app//src/")) true = Ok (Utf8Path (u "app/src")) /\
  path_names (Utf8Path (u "app/src")) = path_names (Utf8Path (u "./app//src/")).
Proof.
  assert (H : normalize_project_relative (Utf8Path (u "./app//src/")) true
              = Ok (Utf8Path (u "app/src"))) by (vm_compute; reflexivity).
  split; [exact H|]. destruct (normalize_project_relative_sound _ _ _ H) as (Hn & _). exact Hn.
Defined.

Lemma engine_invariant_witness : pending_len (state ex_engine1) <= 64.
Proof. destruct (engine_invariant ex_cfg _ _ ex_policy_steps) as (_ & H & _). exact H. Defined.

Lemma authorization_at_most_once_witness :
  count (settles [65]) (ex_policy_trace ++ [ex_decide]) + is_pending [65] ex_engine2
  <= count (issues [65]) (ex_policy_trace ++ [ex_decide]).
Proof. apply (authorization_at_most_once ex_cfg _ _ [65] ex_policy_steps2). Defined.

Lemma authorization_faithful_witness :
  command_eqb (env_command ex_envelope) (ar_command ex_request) = true.
Proof.
  assert (Hc : CommandPolicyConfig_new ex_tools true = Ok ex_cfg) by (vm_compute; reflexivity).
  destruct (authorization_faithful ex_tools true ex_cfg ex_policy_trace ex_session ex_project
    ex_request ex_envelope ex_engine2 Hc ex_policy_steps2) as (_ & H & _).
  exact H.
Defined.

Lemma envelope_epoch_witness : validate_execution_envelope ex_engine2 ex_envelope = Ok tt.
Proof.
  apply (envelope_epoch ex_cfg ex_policy_trace ex_session ex_project ex_request ex_envelope
    ex_engine1 ex_engine2 [] ex_engine2 ex_policy_steps ex_decide_step).
  - constructor.
  - intros l Hl. by apply elem_of_nil in Hl.
Defined.

Lemma granted_request_authorizable_witness :
  exists env e2, decide_approval ex_engine1 ex_session ex_project ex_request AllowOnce
    = (Ok (Authorized env), e2).
Proof.
  destruct (granted_request_authorizable 65 (CommandPolicyEngine_new ex_cfg) ex_session
    ex_project ex_command ex_request ex_engine1) as (env & e2 & H & _).
  - vm_compute. reflexivity.
  - exists env, e2. exact H.
Defined.
