(* ===== verification/ProcessContract.v ===== *)
(** * Process contract ([vibecoder-process-contract])

    The options, events and result of one authorized local process, and the
    bounded drain of its event queue. *)
From S2P Require Import Prelude RustStr Domain.

Definition DEFAULT_TIMEOUT_MS : N := 10 * 60 * 1000.
Definition MIN_TIMEOUT_MS : N := 1000.
Definition MAX_TIMEOUT_MS : N := 30 * 60 * 1000.
Definition DEFAULT_STDOUT_LIMIT_BYTES : N := 4 * 1024 * 1024.
Definition DEFAULT_STDERR_LIMIT_BYTES : N := 4 * 1024 * 1024.
Definition MAX_STREAM_CAPTURE_BYTES : N := 16 * 1024 * 1024.
Definition MAX_EVENT_DRAIN : N := 256.

Record ProcessId := MkProcessId { process_uuid : N }.

#[export] Instance ProcessId_eq_dec : EqDecision ProcessId.
Proof. solve_decision. Defined.

Definition process_error (code : str) : VibeCoderError := Process code.

Record ProcessExecutionOptions := {
  timeout_ms : N;
  max_stdout_bytes : N;
  max_stderr_bytes : N
}.

Definition ProcessExecutionOptions_validate (o : ProcessExecutionOptions) :
    Result ProcessExecutionOptions :=
  if negb (in_range MIN_TIMEOUT_MS MAX_TIMEOUT_MS (timeout_ms o)) then
    Err (process_error (u "process_timeout_out_of_range"))
  else if (MAX_STREAM_CAPTURE_BYTES <? max_stdout_bytes o)
          || (MAX_STREAM_CAPTURE_BYTES <? max_stderr_bytes o) then
    Err (process_error (u "process_capture_limit_out_of_range"))
  else Ok o.

Definition ProcessExecutionOptions_default : ProcessExecutionOptions :=
  {| timeout_ms := DEFAULT_TIMEOUT_MS;
     max_stdout_bytes := DEFAULT_STDOUT_LIMIT_BYTES;
     max_stderr_bytes := DEFAULT_STDERR_LIMIT_BYTES |}.

Inductive ProcessTermination := Exited | Signaled | TimedOut | TermCancelled.

#[export] Instance ProcessTermination_eq_dec : EqDecision ProcessTermination.
Proof. solve_decision. Defined.

Inductive ProcessEvent :=
| PeStarted (process_id : ProcessId)
| PeStdout (chunk : bytes)
| PeStderr (chunk : bytes)
| PeEventQueueOverflow
| PeFinished (process_id : ProcessId) (termination : ProcessTermination)
    (exit_code : option Z).

Record ProcessResult := {
  res_process_id : ProcessId;
  termination : ProcessTermination;
  exit_code : option Z;
  stdout : bytes;
  stderr : bytes;
  res_stdout_truncated : bool;
  res_stderr_truncated : bool;
  event_queue_overflowed : bool;
  duration_ms : N
}.

Definition ProcessResult_success (r : ProcessResult) : bool :=
  bool_decide (termination r = Exited) && bool_decide (exit_code r = Some 0%Z).

(** A running process: its identity and the receiving end of its event channel,
    the events sent so far and not yet received, oldest first.  [events_poisoned]
    is the state of the receiver's mutex. *)
Record RunningProcess := {
  rp_process_id : ProcessId;
  events_poisoned : bool;
  events : list ProcessEvent
}.

Definition with_events (p : RunningProcess) (evs : list ProcessEvent) : RunningProcess :=
  {| rp_process_id := rp_process_id p; events_poisoned := events_poisoned p;
     events := evs |}.

(** The [try_recv] loop: [room] is [max_events - events.len()]. *)
Fixpoint try_recv_up_to (room : nat) (queue : list ProcessEvent) :
    list ProcessEvent * list ProcessEvent :=
  match room, queue with
  | S room, e :: queue =>
    let '(got, rest) := try_recv_up_to room queue in (e :: got, rest)
  | _, _ => ([], queue)
  end.

Definition drain_process_events (p : RunningProcess) (max_events : N) :
    Result (list ProcessEvent) * RunningProcess :=
  if (max_events =? 0) || (MAX_EVENT_DRAIN <? max_events) then
    (Err (process_error (u "process_event_drain_limit")), p)
  else if events_poisoned p then
    (Err (process_error (u "process_event_queue_poisoned")), p)
  else
    let '(got, rest) := try_recv_up_to (N.to_nat max_events) (events p) in
    (Ok got, with_events p rest).

(** ** Lemmas *)

Lemma try_recv_up_to_spec room queue :
  try_recv_up_to room queue = (take room queue, drop room queue).
Proof.
  revert queue. induction room as [|room IH]; intros [|e queue]; simpl; try done.
  by rewrite IH.
Qed.

Lemma drain_process_events_ok p n got p' :
  drain_process_events p n = (Ok got, p') ->
  0 < n <= MAX_EVENT_DRAIN /\ events_poisoned p = false /\
  got = take (N.to_nat n) (events p) /\ p' = with_events p (drop (N.to_nat n) (events p)).
Proof.
  unfold drain_process_events. rewrite try_recv_up_to_spec.
  case_match eqn:E; [done|]. bool_prop. destruct (events_poisoned p); [done|].
  intros [= <- <-]. split_and!; auto; lia.
Qed.

Lemma drain_process_events_err p n e p' :
  drain_process_events p n = (Err e, p') -> p' = p.
Proof.
  unfold drain_process_events. rewrite try_recv_up_to_spec.
  repeat case_match; congruence.
Qed.
