(* ===== verification/BuildContract.v ===== *)
(** * Build job contract ([vibecoder-build-contract])

    Build identity, the normalized diagnostics, artifacts and result of one
    build process, and the translation of its process events. *)
From S2P Require Import Prelude RustStr RustPath Domain CommandPolicy ProcessContract.

Definition MAX_BUILD_DIAGNOSTICS : N := 512.
Definition MAX_BUILD_ARTIFACTS : N := 64.
Definition MAX_DIAGNOSTIC_CODE_BYTES : N := 256.
Definition MAX_DIAGNOSTIC_MESSAGE_BYTES : N := 16 * 1024.
Definition MAX_ARTIFACT_RELATIVE_PATH_BYTES : N := 4096.
Definition MAX_ARTIFACT_PATH_COMPONENT_BYTES : N := 255.
Definition INTERNAL_TEMP_PREFIX : str := u ".vibecoder-tmp-".

Record BuildId := MkBuildId { build_uuid : N }.

#[export] Instance BuildId_eq_dec : EqDecision BuildId.
Proof. solve_decision. Defined.

Inductive BuildTargetKind := Website | Android.

#[export] Instance BuildTargetKind_eq_dec : EqDecision BuildTargetKind.
Proof. solve_decision. Defined.

Inductive BuildState := BsQueued | BsRunning | BsSucceeded | BsFailed | BsCancelled | BsTimedOut.

#[export] Instance BuildState_eq_dec : EqDecision BuildState.
Proof. solve_decision. Defined.

Definition is_terminal (s : BuildState) : bool :=
  match s with
  | BsSucceeded | BsFailed | BsCancelled | BsTimedOut => true
  | BsQueued | BsRunning => false
  end.

Inductive BuildOutputStream := StreamStdout | StreamStderr.
Inductive BuildDiagnosticSeverity := SevError | SevWarning | SevInfo.
Inductive BuildArtifactKind := WebsiteBundle | AndroidApk | AndroidAab | OtherArtifact.

Record BuildDiagnostic := mkDiagnostic {
  severity : BuildDiagnosticSeverity;
  diag_code : option str;
  message : str;
  diag_relative_path : option os_path;
  line : option N;
  column : option N
}.

Definition build_error (code : str) : VibeCoderError := Build code.

Definition is_bidi_control (c : N) : bool :=
  (c =? 0x61c) || (c =? 0x200e) || (c =? 0x200f) || (c =? 0x202a) || (c =? 0x202b)
  || (c =? 0x202c) || (c =? 0x202d) || (c =? 0x202e) || (c =? 0x2066) || (c =? 0x2067)
  || (c =? 0x2068) || (c =? 0x2069).

(** A character no diagnostic, artifact path or code may carry. *)
Definition unprintable (c : N) : bool := is_control c || is_bidi_control c.

(** The component loop of [validate_relative_artifact_path]. *)
Fixpoint join_artifact_components (normalized : str) (cs : list component) : Result str :=
  match cs with
  | [] => Ok normalized
  | Normal value :: cs =>
    if bool_decide (value = []) || (MAX_ARTIFACT_PATH_COMPONENT_BYTES <? blen value)
       || starts_with INTERNAL_TEMP_PREFIX value
    then Err (build_error (u "build_relative_path_invalid"))
    else
      join_artifact_components
        ((if bool_decide (normalized = []) then normalized else normalized ++ [slash])
           ++ value) cs
  | _ :: _ => Err (build_error (u "build_relative_path_invalid"))
  end.

Definition validate_relative_artifact_path (path : os_path) : Result unit :=
  let? raw := ok_or (path_to_str path) (build_error (u "build_relative_path_invalid")) in
  if bool_decide (raw = []) || (MAX_ARTIFACT_RELATIVE_PATH_BYTES <? blen raw)
     || contains_char 92 raw || existsb unprintable raw
  then Err (build_error (u "build_relative_path_invalid"))
  else
    let? normalized := join_artifact_components [] (components path) in
    if bool_decide (normalized = []) || negb (bool_decide (normalized = raw))
    then Err (build_error (u "build_relative_path_invalid"))
    else Ok tt.

Definition BuildDiagnostic_new (severity : BuildDiagnosticSeverity) (code : option str)
    (message : str) (relative_path : option os_path) (line column : option N) :
    Result BuildDiagnostic :=
  if bool_decide (message = []) || (MAX_DIAGNOSTIC_MESSAGE_BYTES <? blen message)
     || existsb unprintable message
  then Err (build_error (u "build_diagnostic_message_invalid"))
  else if match code with
          | Some code => bool_decide (code = []) || (MAX_DIAGNOSTIC_CODE_BYTES <? blen code)
                         || existsb unprintable code
          | None => false
          end
  then Err (build_error (u "build_diagnostic_code_invalid"))
  else
    let? _ := match relative_path with
              | Some path => validate_relative_artifact_path path
              | None => Ok tt
              end in
    if bool_decide (line = Some 0) || bool_decide (column = Some 0)
    then Err (build_error (u "build_diagnostic_location_invalid"))
    else Ok (mkDiagnostic severity code message relative_path line column).

Record BuildArtifact := mkArtifact {
  art_kind : BuildArtifactKind;
  art_relative_path : os_path;
  size_bytes : N;
  sha256_hex : option str
}.

Definition is_lower_hex (b : N) : bool := is_ascii_digit b || in_range 97 102 b.

Definition BuildArtifact_new (kind : BuildArtifactKind) (relative_path : os_path)
    (size : N) (sha256 : option str) : Result BuildArtifact :=
  let? _ := validate_relative_artifact_path relative_path in
  if match sha256 with
     | Some digest => negb (blen digest =? 64) || negb (forallb is_lower_hex (as_bytes digest))
     | None => false
     end
  then Err (build_error (u "build_artifact_sha256_invalid"))
  else Ok (mkArtifact kind relative_path size sha256).

Record BuildOutput := {
  out_stdout : bytes;
  out_stderr : bytes;
  stdout_truncated : bool;
  stderr_truncated : bool;
  live_event_queue_overflowed : bool
}.

Record BuildJobDescriptor := {
  jd_build_id : BuildId;
  jd_project_id : ProjectId;
  jd_target : BuildTargetKind
}.

(** [fresh] is the UUID of [BuildId::new]. *)
Definition BuildJobDescriptor_new (fresh : N) (project_id : ProjectId)
    (target : BuildTargetKind) : BuildJobDescriptor :=
  {| jd_build_id := MkBuildId fresh; jd_project_id := project_id; jd_target := target |}.

Record BuildResult := mkBuildResult {
  br_build_id : BuildId;
  br_project_id : ProjectId;
  br_target : BuildTargetKind;
  br_state : BuildState;
  br_process_id : ProcessId;
  br_exit_code : option Z;
  br_duration_ms : N;
  br_output : BuildOutput;
  br_diagnostics : list BuildDiagnostic;
  br_artifacts : list BuildArtifact
}.

Definition from_process_result (descriptor : BuildJobDescriptor) (process : ProcessResult) :
    BuildResult :=
  let st := match termination process with
            | Exited => if bool_decide (exit_code process = Some 0%Z)
                        then BsSucceeded else BsFailed
            | Signaled => BsFailed
            | TimedOut => BsTimedOut
            | TermCancelled => BsCancelled
            end in
  {| br_build_id := jd_build_id descriptor;
     br_project_id := jd_project_id descriptor;
     br_target := jd_target descriptor;
     br_state := st;
     br_process_id := res_process_id process;
     br_exit_code := exit_code process;
     br_duration_ms := duration_ms process;
     br_output := {| out_stdout := stdout process; out_stderr := stderr process;
                     stdout_truncated := res_stdout_truncated process;
                     stderr_truncated := res_stderr_truncated process;
                     live_event_queue_overflowed := event_queue_overflowed process |};
     br_diagnostics := [];
     br_artifacts := [] |}.

Definition BuildResult_success (r : BuildResult) : bool := bool_decide (br_state r = BsSucceeded).

Definition with_diagnostics (r : BuildResult) (ds : list BuildDiagnostic) : BuildResult :=
  mkBuildResult (br_build_id r) (br_project_id r) (br_target r) (br_state r)
    (br_process_id r) (br_exit_code r) (br_duration_ms r) (br_output r) ds (br_artifacts r).
Definition with_artifacts (r : BuildResult) (arts : list BuildArtifact) : BuildResult :=
  mkBuildResult (br_build_id r) (br_project_id r) (br_target r) (br_state r)
    (br_process_id r) (br_exit_code r) (br_duration_ms r) (br_output r) (br_diagnostics r) arts.

Definition set_diagnostics (r : BuildResult) (diagnostics : list BuildDiagnostic) :
    Result unit * BuildResult :=
  if MAX_BUILD_DIAGNOSTICS <? len diagnostics then
    (Err (build_error (u "build_diagnostic_limit")), r)
  else (Ok tt, with_diagnostics r diagnostics).

(** The duplicate check of [set_artifacts]; the set compares paths as [PathBuf]. *)
Fixpoint check_artifact_paths (seen : list os_path) (arts : list BuildArtifact) : Result unit :=
  match arts with
  | [] => Ok tt
  | a :: arts =>
    if existsb (path_eqb (art_relative_path a)) seen then
      Err (build_error (u "build_artifact_duplicate_path"))
    else check_artifact_paths (art_relative_path a :: seen) arts
  end.

Definition set_artifacts (r : BuildResult) (arts : list BuildArtifact) :
    Result unit * BuildResult :=
  if MAX_BUILD_ARTIFACTS <? len arts then
    (Err (build_error (u "build_artifact_limit")), r)
  else
    match check_artifact_paths [] arts with
    | Err e => (Err e, r)
    | Ok _ => (Ok tt, with_artifacts r arts)
    end.

Inductive BuildEvent :=
| BeQueued (build_id : BuildId)
| BeStarted (build_id : BuildId) (process_id : ProcessId)
| BeOutput (build_id : BuildId) (stream : BuildOutputStream) (chunk : bytes)
| BeEventQueueOverflow (build_id : BuildId)
| BeFinished (build_id : BuildId) (state : BuildState) (exit_code : option Z).

Definition state_from_termination (t : ProcessTermination) (code : option Z) : BuildState :=
  match t with
  | Exited => if bool_decide (code = Some 0%Z) then BsSucceeded else BsFailed
  | Signaled => BsFailed
  | TimedOut => BsTimedOut
  | TermCancelled => BsCancelled
  end.

Definition normalize_event (build_id : BuildId) (event : ProcessEvent) : Result BuildEvent :=
  Ok match event with
     | PeStarted process_id => BeStarted build_id process_id
     | PeStdout chunk => BeOutput build_id StreamStdout chunk
     | PeStderr chunk => BeOutput build_id StreamStderr chunk
     | PeEventQueueOverflow => BeEventQueueOverflow build_id
     | PeFinished _ t code => BeFinished build_id (state_from_termination t code) code
     end.

Record RunningBuildJob := {
  job_descriptor : BuildJobDescriptor;
  job_process : RunningProcess
}.

Fixpoint normalize_events (build_id : BuildId) (evs : list ProcessEvent) :
    Result (list BuildEvent) :=
  match evs with
  | [] => Ok []
  | e :: evs =>
    let? b := normalize_event build_id e in
    let? bs := normalize_events build_id evs in Ok (b :: bs)
  end.

Definition drain_events (job : RunningBuildJob) (max_events : N) :
    Result (list BuildEvent) * RunningBuildJob :=
  if (max_events =? 0) || (MAX_EVENT_DRAIN <? max_events) then
    (Err (build_error (u "build_event_drain_limit")), job)
  else
    let '(r, p) := drain_process_events (job_process job) max_events in
    ((let? evs := r in normalize_events (jd_build_id (job_descriptor job)) evs),
     {| job_descriptor := job_descriptor job; job_process := p |}).

(** [wait]: the process completes with [r]. *)
Definition wait (job : RunningBuildJob) (r : Result ProcessResult) : Result BuildResult :=
  let? process := r in Ok (from_process_result (job_descriptor job) process).

(** ** Lemmas *)

Lemma is_forbidden_unprintable c : is_forbidden_display_char c = unprintable c.
Proof.
  unfold is_forbidden_display_char, unprintable, is_bidi_control, in_range.
  destruct (is_control c); [done|]. simpl.
  repeat match goal with
  | |- context [(c =? ?k)%N] => destruct (N.eqb_spec c k); [subst; reflexivity|]
  end.
  simpl. rewrite !orb_false_iff, !andb_false_iff, !N.leb_gt.
  split; lia.
Qed.

Lemma join_artifact_components_iff ps cs n :
  Forall plain_name ps -> (forall p, Normal p ∈ cs -> plain_name p) ->
  join_artifact_components (join_path ps) cs = Ok n <->
  Forall (fun c => exists p, c = Normal p /\ component_ok p) cs /\
  n = join_path (ps ++ omap normal_name cs).
Proof.
  revert ps. induction cs as [|c cs IH]; intros ps Hps Hcs; simpl.
  - rewrite app_nil_r. split; [intros [= <-]; by split|by intros [_ ->]].
  - rewrite Forall_cons. assert (forall p, Normal p ∈ cs -> plain_name p) by set_solver.
    destruct c as [| | |p]; simpl; try (split; [done|]; by intros [[(? & ? & _) _] _]).
    assert (Hp : plain_name p) by (apply Hcs; by left).
    rewrite if_err_ok.
    replace ((if bool_decide (join_path ps = []) then join_path ps
              else join_path ps ++ [slash]) ++ p) with (join_path (ps ++ [p])).
    2:{ case_bool_decide as Hj.
        - apply join_path_nil_iff in Hj as ->; [|done]. simpl. by rewrite app_nil_r.
        - rewrite join_path_snoc, <-app_assoc; [done|]. by intros ->. }
    rewrite IH, <-app_assoc; [|by apply Forall_app; auto|done].
    rewrite !orb_false_iff, bool_decide_eq_false, N.ltb_ge. unfold component_ok at 2.
    split.
    + intros ([[??]?] & ? & ?). split_and!; [by exists p|done|done].
    + intros ([(p' & [= <-] & [??] & ? & ?) ?] & ?). destruct Hp. by split_and!.
Qed.

Lemma existsb_unprintable s : existsb unprintable s = has_forbidden_display_char s.
Proof.
  unfold has_forbidden_display_char.
  induction s as [|c s IH]; simpl; [done|]. by rewrite IH, is_forbidden_unprintable.
Qed.

Lemma normal_names_ok cs :
  Forall (fun c => exists p, c = Normal p /\ component_ok p) cs ->
  Forall component_ok (omap normal_name cs).
Proof.
  induction 1 as [|c cs (p & -> & Hp) _ IH]; csimpl; [constructor|]. by constructor.
Qed.

Lemma component_ok_plain ns : Forall component_ok ns -> Forall plain_name ns.
Proof. intros H. eapply Forall_impl; [exact H|]. by intros n [? _]. Qed.

(** An accepted artifact path is a non-empty list of plain names. *)
Lemma artifact_path_iff p :
  validate_relative_artifact_path p = Ok tt <->
  exists ns, ns <> [] /\ Forall component_ok ns /\ p = Utf8Path (join_path ns) /\
    text_ok (join_path ns).
Proof.
  unfold validate_relative_artifact_path, components. destruct p as [t|b]; cbn [path_to_str ok_or].
  2:{ split; [done|]. by intros (? & _ & _ & ? & _). }
  assert (Hpl : forall p, Normal p ∈ text_components t -> plain_name p)
    by (intros p; apply text_components_normal).
  pose proof (fun n => join_artifact_components_iff [] (text_components t) n
    ltac:(constructor) Hpl) as Hn. simpl in Hn.
  rewrite if_err_ok, !orb_false_iff, contains_char_false, N.ltb_ge, existsb_unprintable.
  cbn [path_text]. split.
  - intros ((((Hne & ?) & ?) & ?) & Hr).
    destruct (join_artifact_components [] _) as [n|] eqn:En; [|done].
    destruct (proj1 (Hn n) eq_refl) as [Hc ->].
    apply if_err_ok in Hr as [Hr _]. bool_prop.
    match goal with H : join_path _ = t |- _ => rename H into Ht end.
    exists (omap normal_name (text_components t)). rewrite Ht.
    split_and!; [|by apply normal_names_ok|done|by split_and!].
    intros Hz. rewrite Hz in Ht. simpl in Ht. by subst t.
  - intros (ns & Hne & Hns & [= ->] & (? & ? & ?)).
    pose proof (component_ok_plain _ Hns) as Hp.
    assert (Hj : join_path ns <> []) by by rewrite join_path_nil_iff.
    split; [by rewrite bool_decide_eq_false_2|].
    rewrite (proj2 (Hn (join_path ns))).
    + by rewrite bool_decide_eq_false_2, bool_decide_eq_true_2.
    + rewrite text_components_join by done. split.
      * apply Forall_fmap. eapply Forall_impl; [exact Hns|]. intros q ?. by exists q.
      * f_equal. clear. induction ns as [|q ns IH]; csimpl; [done|]. by rewrite <-IH.
Qed.

Lemma artifact_path_text p :
  validate_relative_artifact_path p = Ok tt ->
  exists t, p = Utf8Path t /\ t <> [] /\ existsb unprintable t = false.
Proof.
  intros (ns & Hne & Hns & -> & _ & _ & Ht)%artifact_path_iff. exists (join_path ns).
  rewrite existsb_unprintable. split_and!; [done| |done].
  by rewrite join_path_nil_iff; [|apply component_ok_plain].
Qed.

Lemma artifact_path_normal p :
  validate_relative_artifact_path p = Ok tt <-> normalize_project_relative p false = Ok p.
Proof.
  rewrite artifact_path_iff, normalize_iff. split.
  - intros (ns & Hne & Hns & -> & Ht). pose proof (component_ok_plain _ Hns) as Hp.
    rewrite path_names_join by done. split; [|by destruct ns].
    exists (join_path ns). split_and!; try done; [by apply join_path_no_root|..].
    + rewrite text_components_join by done. apply Forall_fmap.
      eapply Forall_impl; [exact Hns|]. intros q ?. right. by exists q.
    + right. by rewrite path_names_join.
  - intros [Hok Hp]. exists (path_names p). pose proof (relative_ok_names _ _ Hok) as Hns.
    destruct Hok as (t & Ht & _ & Hto & _ & [?|Hne]); [done|].
    destruct (path_names p) as [|n ns] eqn:En; [done|]. cbn [names_text] in Hp.
    split_and!; try done. rewrite Hp in Ht. injection Ht as <-. done.
Qed.

Lemma path_eqb_valid p q :
  validate_relative_artifact_path p = Ok tt -> validate_relative_artifact_path q = Ok tt ->
  path_eqb p q = true <-> p = q.
Proof.
  intros (ns & _ & Hns & -> & _)%artifact_path_iff (ms & _ & Hms & -> & _)%artifact_path_iff.
  cbn [path_eqb]. rewrite bool_decide_eq_true. split; [|by intros ->].
  intros Heq. f_equal. f_equal.
  rewrite <-(path_names_join ns), <-(path_names_join ms) by by apply component_ok_plain.
  unfold path_names. by rewrite Heq.
Qed.

Lemma check_artifact_paths_ok seen arts :
  Forall (fun p => validate_relative_artifact_path p = Ok tt) seen ->
  Forall (fun a => validate_relative_artifact_path (art_relative_path a) = Ok tt) arts ->
  check_artifact_paths seen arts = Ok tt <->
  NoDup (art_relative_path <$> arts) /\ Forall (fun a => art_relative_path a ∉ seen) arts.
Proof.
  intros Hs Ha. revert seen Hs. induction Ha as [|a arts Hva _ IH]; intros seen Hs; simpl.
  { split; [|done]. intros _. split; constructor. }
  rewrite if_err_ok, IH by (by constructor).
  rewrite existsb_false_iff, NoDup_cons, Forall_cons, !Forall_forall.
  rewrite Forall_forall in Hs.
  assert ((forall x, x ∈ seen -> path_eqb (art_relative_path a) x = false)
    <-> art_relative_path a ∉ seen) as ->.
  { split.
    - intros H Hin. specialize (H _ Hin). rewrite (proj2 (path_eqb_valid _ _ Hva Hva)) in H; done.
    - intros Hn x Hx. apply not_true_iff_false. intros Heq.
      apply path_eqb_valid in Heq; [|done|by apply Hs]. by subst x. }
  set_solver.
Qed.

(** ** Properties *)

(** The build contract and the command policy accept the same path text: an
    artifact path is valid exactly when it is its own normal form as a project
    path that is not the root. *)
Theorem artifact_path_is_normalized p :
  validate_relative_artifact_path p = Ok tt <-> normalize_project_relative p false = Ok p.
Proof. apply artifact_path_normal. Qed.

(** The result of a job and the events drained while it ran tell the same
    story: draining yields the oldest events in order, tagged with the job's
    build id, at most 256 at a time, none lost or repeated between two drains;
    and a process's finish event is translated to the very state the result
    built from that process has, a terminal one, successful exactly when the
    process is. *)
Theorem drain_and_result_agree job n evs job' r :
  drain_events job n = (Ok evs, job') ->
  len evs <= 256 /\
  (exists pevs, events (job_process job) = pevs ++ events (job_process job') /\
     Forall2 (fun pe be => normalize_event (jd_build_id (job_descriptor job)) pe = Ok be)
       pevs evs /\ len pevs = N.min n (len (events (job_process job)))) /\
  job_descriptor job' = job_descriptor job /\
  (forall b pid, wait job' (Ok r) = Ok b ->
     normalize_event (br_build_id b) (PeFinished pid (termination r) (exit_code r))
     = Ok (BeFinished (br_build_id b) (br_state b) (br_exit_code b)) /\
     br_build_id b = jd_build_id (job_descriptor job) /\
     is_terminal (br_state b) = true /\ BuildResult_success b = ProcessResult_success r).
Proof.
  assert (Hnorm : forall id l, exists k, normalize_events id l = Ok k /\
    Forall2 (fun pe be => normalize_event id pe = Ok be) l k).
  { intros id. induction l as [|pe l (k & Hk & IH)]; simpl; [by eexists|].
    rewrite Hk. eexists. split; [done|]. by constructor. }
  unfold drain_events. case_match eqn:E; [done|].
  destruct (drain_process_events _ _) as [[got|] p] eqn:Ed; [|done].
  apply drain_process_events_ok in Ed as ([? Hn] & _ & -> & ->).
  destruct (Hnorm (jd_build_id (job_descriptor job)) (take (N.to_nat n) (events (job_process job))))
    as (k & -> & Hk). intros [= <- <-].
  pose proof (Forall2_length _ _ _ Hk) as Hlen. rewrite length_take in Hlen.
  unfold MAX_EVENT_DRAIN in Hn. split_and!.
  - unfold len. lia.
  - exists (take (N.to_nat n) (events (job_process job))).
    split_and!; [symmetry; apply take_drop|done|]. unfold len. rewrite length_take. lia.
  - done.
  - intros b pid [= <-].
    unfold BuildResult_success, ProcessResult_success, normalize_event, state_from_termination.
    cbn.
    destruct (termination r); cbn; try done.
    by destruct (bool_decide (exit_code r = Some 0%Z)).
Qed.

(** [set_artifacts] accepts exactly at most 64 artifacts with pairwise
    different paths, replaces the list then and only then, and touches nothing
    else of the result. *)
Theorem set_artifacts_exact r arts res r' :
  Forall (fun a => validate_relative_artifact_path (art_relative_path a) = Ok tt) arts ->
  set_artifacts r arts = (res, r') ->
  (res = Ok tt <-> len arts <= 64 /\ NoDup (art_relative_path <$> arts)) /\
  r' = (if is_ok res then with_artifacts r arts else r).
Proof.
  intros Ha. unfold set_artifacts, MAX_BUILD_ARTIFACTS.
  pose proof (check_artifact_paths_ok [] arts ltac:(constructor) Ha) as Hc.
  destruct (N.ltb_spec 64 (len arts)) as [Hl|Hl].
  { intros [= <- <-]. split; [|done]. split; [done|]. lia. }
  destruct (check_artifact_paths [] arts) as [[]|e]; intros [= <- <-].
  - destruct (proj1 Hc eq_refl). by split.
  - split; [|done]. split; [done|]. intros [_ Hnd].
    assert (Err e = Ok tt) as [=]. apply Hc. split; [done|].
    apply Forall_forall. set_solver.
Qed.

(** ** Concrete cases *)

Definition ex_artifact (p : string) : BuildArtifact :=
  mkArtifact WebsiteBundle (Utf8Path (u p)) 10 None.
Definition ex_process_result : ProcessResult :=
  {| res_process_id := MkProcessId 9; termination := Exited; exit_code := Some 1%Z;
     stdout := as_bytes (u "vite build"); stderr := as_bytes (u "error TS2304");
     res_stdout_truncated := false; res_stderr_truncated := false;
     event_queue_overflowed := false; duration_ms := 5 |}.
Definition ex_descriptor : BuildJobDescriptor :=
  BuildJobDescriptor_new 3 (MkProjectId 1) Website.
Definition ex_build : BuildResult := from_process_result ex_descriptor ex_process_result.
Definition ex_job : RunningBuildJob :=
  {| job_descriptor := ex_descriptor;
     job_process := {| rp_process_id := MkProcessId 9; events_poisoned := false;
       events := [PeStarted (MkProcessId 9); PeStdout [1; 2];
                  PeFinished (MkProcessId 9) Exited (Some 1%Z)] |} |}.

Lemma drain_and_result_agree_witness :
  exists evs job', drain_events ex_job 2 = (Ok evs, job') /\ len evs <= 256.
Proof.
  destruct (drain_events ex_job 2) as [[evs|e] job'] eqn:E; [|vm_compute in E; discriminate E].
  exists evs, job'. split; [reflexivity|].
  destruct (drain_and_result_agree ex_job 2 evs job' ex_process_result E) as [H _]. exact H.
Defined.

Lemma set_artifacts_exact_witness :
  fst (set_artifacts ex_build [ex_artifact "dist/index.html"; ex_artifact "dist/app.js"]) = Ok tt.
Proof.
  set (arts := [ex_artifact "dist/index.html"; ex_artifact "dist/app.js"]).
  assert (Ha : Forall (fun a =>
    validate_relative_artifact_path (art_relative_path a) = Ok tt) arts)
    by (repeat constructor; vm_compute; reflexivity).
  destruct (set_artifacts ex_build arts) as [res r'] eqn:E.
  destruct (set_artifacts_exact ex_build arts res r' Ha E) as [H _].
  apply H. split; [by vm_compute|]. apply (bool_decide_unpack _). by vm_compute.
Defined.
