(* ===== verification/BuildLoop.v ===== *)
(** * Repair/rebuild loop guard ([vibecoder-build-loop])

    The guard counts repair attempts, detects a repeated failure, hands out the
    permits of one repair turn and one rebuild, and stops on cancellation.  The
    cancellation flag is an [AtomicBool] shared with every clone of the handle:
    it is a field of the guard's state that [request] sets at any time.  Each
    operation loads it at most once, so an operation is one atomic step.  The
    UUID of a new loop is an argument. *)
From S2P Require Import Prelude RustStr StrFacts Domain ProcessContract BuildContract.
From S2P Require Import BuildRepair.

Definition DEFAULT_MAX_REPAIR_ATTEMPTS : N := 3.
Definition MAX_REPAIR_ATTEMPTS : N := 8.
Definition DEFAULT_MAX_SAME_FAILURE_OCCURRENCES : N := 2.
Definition MAX_SAME_FAILURE_OCCURRENCES : N := 4.

Definition loop_error (code : str) : VibeCoderError := Build code.

Record BuildRepairLoopPolicy := {
  max_repair_attempts : N;
  max_same_failure_occurrences : N
}.

Definition BuildRepairLoopPolicy_default : BuildRepairLoopPolicy :=
  {| max_repair_attempts := DEFAULT_MAX_REPAIR_ATTEMPTS;
     max_same_failure_occurrences := DEFAULT_MAX_SAME_FAILURE_OCCURRENCES |}.

Definition BuildRepairLoopPolicy_validate (p : BuildRepairLoopPolicy) :
    Result BuildRepairLoopPolicy :=
  if (max_repair_attempts p =? 0) || (MAX_REPAIR_ATTEMPTS <? max_repair_attempts p) then
    Err (loop_error (u "build_loop_retry_budget_invalid"))
  else if (max_same_failure_occurrences p <? 2)
          || (MAX_SAME_FAILURE_OCCURRENCES <? max_same_failure_occurrences p) then
    Err (loop_error (u "build_loop_same_failure_limit_invalid"))
  else Ok p.

Inductive BuildRepairLoopStopReason :=
| Succeeded
| LoopCancelled
| LoopTimedOut
| RetryBudgetExhausted
| RepeatedFailure
| RepairTurnCancelled.

Inductive LoopPhase :=
| AwaitingBuildResult
| RepairRunning (attempt : N)
| AwaitingRebuild (attempt : N)
| Terminal (reason : BuildRepairLoopStopReason).

Record RepairAttemptPermit := {
  rap_loop_id : Uuid;
  rap_project_id : ProjectId;
  rap_attempt : N;
  rap_fingerprint_sha256 : str;
  rap_evidence : BuildFailureEvidence
}.

Record RebuildAttemptPermit := {
  rbp_loop_id : Uuid;
  rbp_project_id : ProjectId;
  rbp_target : BuildTargetKind;
  rbp_attempt : N
}.

Inductive RepairAuthorization :=
| Repair (permit : RepairAttemptPermit)
| Stop (reason : BuildRepairLoopStopReason).

Record BuildRepairLoopGuard := mkGuard {
  loop_id : Uuid;
  project_id : ProjectId;
  target : BuildTargetKind;
  policy : BuildRepairLoopPolicy;
  cancel_requested : bool;
  phase : LoopPhase;
  repair_attempts_started : N;
  last_failure_fingerprint : option str;
  same_failure_occurrences : N
}.

Definition set_phase (g : BuildRepairLoopGuard) (p : LoopPhase) : BuildRepairLoopGuard :=
  mkGuard (loop_id g) (project_id g) (target g) (policy g) (cancel_requested g) p
    (repair_attempts_started g) (last_failure_fingerprint g) (same_failure_occurrences g).
Definition set_failure (g : BuildRepairLoopGuard) (fp : option str) (n : N) :
    BuildRepairLoopGuard :=
  mkGuard (loop_id g) (project_id g) (target g) (policy g) (cancel_requested g) (phase g)
    (repair_attempts_started g) fp n.
Definition set_attempts (g : BuildRepairLoopGuard) (n : N) : BuildRepairLoopGuard :=
  mkGuard (loop_id g) (project_id g) (target g) (policy g) (cancel_requested g) (phase g)
    n (last_failure_fingerprint g) (same_failure_occurrences g).

(** [BuildRepairLoopCancellation::request] on a clone of the guard's handle. *)
Definition request (g : BuildRepairLoopGuard) : BuildRepairLoopGuard :=
  mkGuard (loop_id g) (project_id g) (target g) (policy g) true (phase g)
    (repair_attempts_started g) (last_failure_fingerprint g) (same_failure_occurrences g).

Definition BuildRepairLoopGuard_new (fresh : Uuid) (pid : ProjectId) (t : BuildTargetKind)
    (p : BuildRepairLoopPolicy) : Result BuildRepairLoopGuard :=
  let? p := BuildRepairLoopPolicy_validate p in
  Ok {| loop_id := fresh; project_id := pid; target := t; policy := p;
        cancel_requested := false; phase := AwaitingBuildResult;
        repair_attempts_started := 0; last_failure_fingerprint := None;
        same_failure_occurrences := 0 |}.

Definition stop_reason (g : BuildRepairLoopGuard) : option BuildRepairLoopStopReason :=
  match phase g with
  | Terminal reason => Some reason
  | _ => if cancel_requested g then Some LoopCancelled else None
  end.

Definition scope_mismatch (g : BuildRepairLoopGuard) (result : BuildResult) : bool :=
  negb (bool_decide (br_project_id result = project_id g))
  || negb (bool_decide (br_target result = target g)).

Definition awaiting_build_result (g : BuildRepairLoopGuard) : bool :=
  match phase g with AwaitingBuildResult => true | _ => false end.

Definition finish_nonfailed_build (g : BuildRepairLoopGuard) (result : BuildResult) :
    Result BuildRepairLoopStopReason * BuildRepairLoopGuard :=
  if scope_mismatch g result then
    (Err (loop_error (u "build_loop_result_scope_mismatch")), g)
  else if negb (awaiting_build_result g) then
    (Err (loop_error (u "build_loop_not_awaiting_build_result")), g)
  else
    match br_state result with
    | BsSucceeded => (Ok Succeeded, set_phase g (Terminal Succeeded))
    | BsCancelled => (Ok LoopCancelled, set_phase g (Terminal LoopCancelled))
    | BsTimedOut => (Ok LoopTimedOut, set_phase g (Terminal LoopTimedOut))
    | BsFailed =>
      (Err (loop_error (u "build_loop_failed_result_requires_repair_authorization")), g)
    | BsQueued | BsRunning =>
      (Err (loop_error (u "build_loop_requires_terminal_build_result")), g)
    end.

(** The part of [authorize_repair] after the evidence of a failed build is known. *)
Definition count_failure (g : BuildRepairLoopGuard) (fingerprint : str) : BuildRepairLoopGuard :=
  if bool_decide (last_failure_fingerprint g = Some fingerprint) then
    set_failure g (last_failure_fingerprint g)
      (saturating_add u8_max (same_failure_occurrences g) 1)
  else set_failure g (Some fingerprint) 1.

Definition authorize_counted (g : BuildRepairLoopGuard) (evidence : BuildFailureEvidence) :
    Result RepairAuthorization * BuildRepairLoopGuard :=
  let fingerprint := ev_fingerprint_sha256 evidence in
  let g := count_failure g fingerprint in
  if max_same_failure_occurrences (policy g) <=? same_failure_occurrences g then
    (Ok (Stop RepeatedFailure), set_phase g (Terminal RepeatedFailure))
  else if max_repair_attempts (policy g) <=? repair_attempts_started g then
    (Ok (Stop RetryBudgetExhausted), set_phase g (Terminal RetryBudgetExhausted))
  else
    let attempt := saturating_add u8_max (repair_attempts_started g) 1 in
    (Ok (Repair {| rap_loop_id := loop_id g; rap_project_id := project_id g;
                   rap_attempt := attempt; rap_fingerprint_sha256 := fingerprint;
                   rap_evidence := evidence |}),
     set_phase (set_attempts g attempt) (RepairRunning attempt)).

Definition authorize_repair `{Sha256} (g : BuildRepairLoopGuard) (result : BuildResult) :
    Result RepairAuthorization * BuildRepairLoopGuard :=
  if scope_mismatch g result then
    (Err (loop_error (u "build_loop_result_scope_mismatch")), g)
  else if negb (awaiting_build_result g) then
    (Err (loop_error (u "build_loop_not_awaiting_build_result")), g)
  else
    let stop reason := (Ok (Stop reason), set_phase g (Terminal reason)) in
    match br_state result with
    | BsSucceeded => stop Succeeded
    | BsCancelled => stop LoopCancelled
    | BsTimedOut => stop LoopTimedOut
    | BsQueued | BsRunning =>
      (Err (loop_error (u "build_loop_requires_terminal_build_result")), g)
    | BsFailed =>
      if cancel_requested g then stop LoopCancelled
      else
        match from_failed_build result with
        | Err e => (Err e, g)
        | Ok plan => authorize_counted g (plan_evidence plan)
        end
    end.

Definition verify_repair_permit (g : BuildRepairLoopGuard) (permit : RepairAttemptPermit) :
    Result unit :=
  if negb (rap_loop_id permit =? loop_id g)
     || negb (bool_decide (rap_project_id permit = project_id g)) then
    Err (loop_error (u "build_loop_repair_permit_scope_mismatch"))
  else
    match phase g with
    | RepairRunning attempt =>
      if negb (attempt =? rap_attempt permit) then
        Err (loop_error (u "build_loop_repair_attempt_mismatch"))
      else Ok tt
    | _ => Err (loop_error (u "build_loop_repair_not_running"))
    end.

Definition finish_repair (g : BuildRepairLoopGuard) (permit : RepairAttemptPermit)
    (turn : TurnResult) (observed_fingerprint : str) : Result unit * BuildRepairLoopGuard :=
  match verify_repair_permit g permit with
  | Err e => (Err e, g)
  | Ok _ =>
    if negb (bool_decide (rap_fingerprint_sha256 permit = observed_fingerprint)) then
      (Err (loop_error (u "build_loop_repair_fingerprint_mismatch")), g)
    else if cancel_requested g then (Ok tt, set_phase g (Terminal LoopCancelled))
    else if tr_cancelled turn then (Ok tt, set_phase g (Terminal RepairTurnCancelled))
    else (Ok tt, set_phase g (AwaitingRebuild (rap_attempt permit)))
  end.

Definition rebuild_permit (g : BuildRepairLoopGuard) : Result RebuildAttemptPermit :=
  if cancel_requested g then Err Cancelled
  else
    match phase g with
    | AwaitingRebuild attempt =>
      Ok {| rbp_loop_id := loop_id g; rbp_project_id := project_id g;
            rbp_target := target g; rbp_attempt := attempt |}
    | _ => Err (loop_error (u "build_loop_not_awaiting_rebuild"))
    end.

Definition mark_rebuild_prepared (g : BuildRepairLoopGuard) (permit : RebuildAttemptPermit) :
    Result unit * BuildRepairLoopGuard :=
  if negb (rbp_loop_id permit =? loop_id g)
     || negb (bool_decide (rbp_project_id permit = project_id g))
     || negb (bool_decide (rbp_target permit = target g)) then
    (Err (loop_error (u "build_loop_rebuild_permit_scope_mismatch")), g)
  else
    match phase g with
    | AwaitingRebuild attempt =>
      if negb (attempt =? rbp_attempt permit) then
        (Err (loop_error (u "build_loop_rebuild_attempt_mismatch")), g)
      else if cancel_requested g then
        (Err Cancelled, set_phase g (Terminal LoopCancelled))
      else (Ok tt, set_phase g AwaitingBuildResult)
    | _ => (Err (loop_error (u "build_loop_not_awaiting_rebuild")), g)
    end.

(** ** The loop as a step relation

    Labels are calls with their results.  Calls take any permit, of this loop or
    not, spent or not. *)
Inductive LoopOp :=
| OpRequestCancel
| OpFinishNonfailed (result : BuildResult)
| OpAuthorize (result : BuildResult)
| OpFinishRepair (permit : RepairAttemptPermit) (turn : TurnResult) (observed : str)
| OpRebuildPermit
| OpMarkPrepared (permit : RebuildAttemptPermit).

Inductive LoopOut :=
| OutRequestCancel
| OutFinishNonfailed (r : Result BuildRepairLoopStopReason)
| OutAuthorize (r : Result RepairAuthorization)
| OutFinishRepair (r : Result unit)
| OutRebuildPermit (r : Result RebuildAttemptPermit)
| OutMarkPrepared (r : Result unit).

Definition loop_call `{Sha256} (g : BuildRepairLoopGuard) (op : LoopOp) :
    LoopOut * BuildRepairLoopGuard :=
  match op with
  | OpRequestCancel => (OutRequestCancel, request g)
  | OpFinishNonfailed result =>
    let '(r, g) := finish_nonfailed_build g result in (OutFinishNonfailed r, g)
  | OpAuthorize result => let '(r, g) := authorize_repair g result in (OutAuthorize r, g)
  | OpFinishRepair permit turn observed =>
    let '(r, g) := finish_repair g permit turn observed in (OutFinishRepair r, g)
  | OpRebuildPermit => (OutRebuildPermit (rebuild_permit g), g)
  | OpMarkPrepared permit =>
    let '(r, g) := mark_rebuild_prepared g permit in (OutMarkPrepared r, g)
  end.

Abbreviation LoopLabel := (LoopOp * LoopOut)%type.

Definition loop_step `{Sha256} (g : BuildRepairLoopGuard) (l : LoopLabel)
    (g' : BuildRepairLoopGuard) : Prop :=
  loop_call g l.1 = (l.2, g').

(** The repair permits given out along a trace. *)
Definition granted_permit (l : LoopLabel) : option RepairAttemptPermit :=
  match l.2 with OutAuthorize (Ok (Repair permit)) => Some permit | _ => None end.
Definition granted (tr : list LoopLabel) : list RepairAttemptPermit := omap granted_permit tr.

(** A call that goes ahead: a permit given, a repair finished, a rebuild prepared. *)
Definition advances (l : LoopLabel) : bool :=
  match l.2 with
  | OutAuthorize (Ok (Repair _)) => true
  | OutFinishRepair (Ok _) => true
  | OutMarkPrepared (Ok _) => true
  | _ => false
  end.

Definition is_cancel (l : LoopLabel) : bool :=
  match l.1 with OpRequestCancel => true | _ => false end.

(** ** Specification over the history of failures

    [h]: the fingerprints of the repairs permitted so far, the latest first. *)
Fixpoint leading (fp : str) (h : list str) : N :=
  match h with
  | [] => 0
  | f :: h => if bool_decide (f = fp) then 1 + leading fp h else 0
  end.

Definition spec_decision (p : BuildRepairLoopPolicy) (h : list str) (fp : str) :
    option BuildRepairLoopStopReason :=
  if max_same_failure_occurrences p <=? 1 + leading fp h then Some RepeatedFailure
  else if max_repair_attempts p <=? len h then Some RetryBudgetExhausted
  else None.

Definition history (tr : list LoopLabel) : list str :=
  rev (rap_fingerprint_sha256 <$> granted tr).

Definition running (g : BuildRepairLoopGuard) : Prop :=
  match phase g with Terminal _ => False | _ => True end.

Definition phase_ok (g : BuildRepairLoopGuard) : Prop :=
  match phase g with
  | AwaitingBuildResult | Terminal _ => True
  | RepairRunning a | AwaitingRebuild a => a = repair_attempts_started g /\ 1 <= a
  end.

Definition policy_ok (p : BuildRepairLoopPolicy) : Prop :=
  1 <= max_repair_attempts p <= 8 /\ 2 <= max_same_failure_occurrences p <= 4.

(** The guard's counters are those of the history. *)
Definition tracks (g : BuildRepairLoopGuard) (h : list str) : Prop :=
  repair_attempts_started g = len h /\
  (running g ->
   last_failure_fingerprint g = head h /\
   same_failure_occurrences g = match h with [] => 0 | fp :: _ => leading fp h end /\
   same_failure_occurrences g < max_same_failure_occurrences (policy g)).

Definition loop_inv (g0 : BuildRepairLoopGuard) (tr : list LoopLabel)
    (g : BuildRepairLoopGuard) : Prop :=
  (loop_id g, project_id g, target g, policy g)
  = (loop_id g0, project_id g0, target g0, policy g0) /\
  phase_ok g /\ tracks g (history tr) /\
  repair_attempts_started g <= max_repair_attempts (policy g) /\
  rap_attempt <$> granted tr = N.of_nat <$> seq 1 (N.to_nat (repair_attempts_started g)) /\
  Forall (fun p => rap_loop_id p = loop_id g /\ rap_project_id p = project_id g) (granted tr) /\
  cancel_requested g = existsb is_cancel tr.

(** ** The phases, by rules

    What a call does to the phase, the number of attempts and the flag. *)
Inductive loop_rule : LoopPhase * N * bool -> LoopLabel -> LoopPhase * N * bool -> Prop :=
| rule_cancel p n c :
    loop_rule (p, n, c) (OpRequestCancel, OutRequestCancel) (p, n, true)
| rule_stay p n c l :
    is_cancel l = false -> advances l = false -> loop_rule (p, n, c) l (p, n, c)
| rule_stop p n c l r :
    is_cancel l = false -> advances l = false ->
    p = AwaitingBuildResult \/ (c = true /\ exists a, p = AwaitingRebuild a) ->
    loop_rule (p, n, c) l (Terminal r, n, c)
| rule_grant n op permit :
    is_cancel (op, OutRequestCancel) = false -> rap_attempt permit = n + 1 ->
    loop_rule (AwaitingBuildResult, n, false) (op, OutAuthorize (Ok (Repair permit)))
      (RepairRunning (n + 1), n + 1, false)
| rule_finish_repair n permit turn observed :
    rap_fingerprint_sha256 permit = observed -> tr_cancelled turn = false ->
    loop_rule (RepairRunning (rap_attempt permit), n, false)
      (OpFinishRepair permit turn observed, OutFinishRepair (Ok tt))
      (AwaitingRebuild (rap_attempt permit), n, false)
| rule_repair_cancelled n c permit turn observed r :
    rap_fingerprint_sha256 permit = observed -> c = true \/ tr_cancelled turn = true ->
    loop_rule (RepairRunning (rap_attempt permit), n, c)
      (OpFinishRepair permit turn observed, OutFinishRepair (Ok tt)) (Terminal r, n, c)
| rule_mark n permit :
    loop_rule (AwaitingRebuild (rbp_attempt permit), n, false)
      (OpMarkPrepared permit, OutMarkPrepared (Ok tt)) (AwaitingBuildResult, n, false).

Definition view (g : BuildRepairLoopGuard) : LoopPhase * N * bool :=
  (phase g, repair_attempts_started g, cancel_requested g).

(** Calls a running attempt has still ahead, and those that went ahead so far. *)
Definition pending (p : LoopPhase) : N :=
  match p with
  | RepairRunning _ => 2
  | AwaitingRebuild _ => 1
  | AwaitingBuildResult | Terminal _ => 0
  end.

(** ** Lemmas *)

Lemma policy_validate_iff p q :
  BuildRepairLoopPolicy_validate p = Ok q <-> q = p /\ policy_ok p.
Proof.
  unfold BuildRepairLoopPolicy_validate, policy_ok, MAX_REPAIR_ATTEMPTS,
    MAX_SAME_FAILURE_OCCURRENCES.
  rewrite !if_err_ok, !orb_false_iff, N.eqb_neq, !N.ltb_ge. split.
  - intros ([??] & [??] & [= ->]). split_and!; try done; lia.
  - intros [-> ?]. split_and!; try done; lia.
Qed.

Lemma granted_snoc tr l :
  granted (tr ++ [l]) = granted tr ++ match granted_permit l with Some p => [p] | None => [] end.
Proof. unfold granted. by rewrite omap_app. Qed.

Lemma history_snoc tr l :
  history (tr ++ [l]) =
  match granted_permit l with Some p => rap_fingerprint_sha256 p :: history tr | None => history tr end.
Proof.
  unfold history. rewrite granted_snoc, fmap_app, rev_app_distr.
  by destruct (granted_permit l).
Qed.

(** A call that grants nothing: the history stays, a terminal guard need not
    track it. *)
Lemma loop_inv_quiet g0 tr g l g' :
  loop_inv g0 tr g -> granted_permit l = None ->
  (loop_id g', project_id g', target g', policy g')
  = (loop_id g, project_id g, target g, policy g) ->
  repair_attempts_started g' = repair_attempts_started g ->
  cancel_requested g' = is_cancel l || cancel_requested g -> phase_ok g' ->
  (running g' -> running g /\ last_failure_fingerprint g' = last_failure_fingerprint g /\
                 same_failure_occurrences g' = same_failure_occurrences g) ->
  loop_inv g0 (tr ++ [l]) g'.
Proof.
  intros (Hid & Hp & (Hlen & Htr) & Hmax & Hat & Hown & Hc) Hl Hid' Hs Hc' Hp' Hrun.
  unfold loop_inv, tracks. rewrite granted_snoc, history_snoc, Hl, app_nil_r, Hs, existsb_app.
  simplify_eq. simpl. rewrite orb_false_r, <-Hc, Hc', orb_comm.
  split_and!; try congruence; [|by eapply Forall_impl; [exact Hown|]; intros ? [??]; split; congruence].
  intros Hr. destruct (Hrun Hr) as (Hr' & -> & ->). replace (policy g') with (policy g) by congruence.
  by apply Htr.
Qed.

(** Counting a failure is counting the run at the front of the history. *)
Lemma count_failure_eq g h fp :
  tracks g h -> running g -> policy_ok (policy g) ->
  count_failure g fp = set_failure g (Some fp) (1 + leading fp h).
Proof.
  intros [_ Htr] Hr [_ Hp]. destruct (Htr Hr) as (Hlast & Hsame & Hlt).
  unfold count_failure. rewrite Hlast. destruct h as [|f h]; cbn [head].
  - by rewrite bool_decide_eq_false_2.
  - destruct (decide (f = fp)) as [->|Hne].
    + rewrite bool_decide_eq_true_2 by done. f_equal. rewrite <-Hsame.
      rewrite saturating_add_small; unfold u8_max; lia.
    + rewrite bool_decide_eq_false_2 by congruence. f_equal. cbn [leading].
      by rewrite bool_decide_eq_false_2.
Qed.

Definition permit_for (g : BuildRepairLoopGuard) (ev : BuildFailureEvidence) :
    RepairAttemptPermit :=
  {| rap_loop_id := loop_id g; rap_project_id := project_id g;
     rap_attempt := repair_attempts_started g + 1;
     rap_fingerprint_sha256 := ev_fingerprint_sha256 ev; rap_evidence := ev |}.

Lemma authorize_counted_eq g h ev :
  tracks g h -> running g -> policy_ok (policy g) ->
  repair_attempts_started g <= max_repair_attempts (policy g) ->
  let fp := ev_fingerprint_sha256 ev in
  let g' := set_failure g (Some fp) (1 + leading fp h) in
  authorize_counted g ev =
  match spec_decision (policy g) h fp with
  | Some r => (Ok (Stop r), set_phase g' (Terminal r))
  | None =>
    let n := repair_attempts_started g + 1 in
    (Ok (Repair (permit_for g ev)), set_phase (set_attempts g' n) (RepairRunning n))
  end.
Proof.
  intros Htr Hr Hp Hle fp g'. unfold authorize_counted, spec_decision.
  rewrite (count_failure_eq g h _ Htr Hr Hp). fold fp. fold g'.
  cbn [policy set_failure same_failure_occurrences repair_attempts_started loop_id project_id g'].
  destruct (_ <=? _); [done|]. destruct Htr as [Hlen _]. rewrite <-Hlen.
  destruct (_ <=? _); [done|].
  rewrite saturating_add_small; [done|]. destruct Hp. unfold u8_max. lia.
Qed.

Lemma loop_inv_granted g0 tr g ev op :
  loop_inv g0 tr g -> policy_ok (policy g0) -> phase g = AwaitingBuildResult ->
  is_cancel (op, OutAuthorize (Ok (Repair (permit_for g ev)))) = false ->
  let fp := ev_fingerprint_sha256 ev in
  let n := repair_attempts_started g + 1 in
  spec_decision (policy g) (history tr) fp = None ->
  loop_inv g0 (tr ++ [(op, OutAuthorize (Ok (Repair (permit_for g ev))))])
    (set_phase (set_attempts (set_failure g (Some fp) (1 + leading fp (history tr))) n)
       (RepairRunning n)).
Proof.
  intros (Hid & Hph & (Hlen & Htr) & Hmax & Hat & Hown & Hc) Hpol Hphase Hcan fp n Hspec.
  unfold spec_decision in Hspec.
  destruct (N.leb_spec (max_same_failure_occurrences (policy g)) (1 + leading fp (history tr)));
    [done|].
  destruct (N.leb_spec (max_repair_attempts (policy g)) (len (history tr))); [done|].
  unfold loop_inv, tracks, phase_ok. rewrite granted_snoc, history_snoc. cbn -[leading].
  rewrite existsb_app. cbn [existsb]. rewrite Hcan, !orb_false_r.
  split_and!; try done; try lia.
  - rewrite len_cons. lia.
  - intros _. split_and!; [done| |lia]. cbn [leading]. by rewrite bool_decide_eq_true_2.
  - rewrite fmap_app, Hat. subst n. rewrite N2Nat.inj_add, Nat.add_comm. cbn [Nat.add].
    change (N.to_nat 1 + N.to_nat (repair_attempts_started g))%nat
      with (S (N.to_nat (repair_attempts_started g))).
    rewrite seq_S, fmap_app. cbn. do 2 f_equal. lia.
  - apply Forall_app. split; [done|]. by repeat constructor.
Qed.

Lemma verify_repair_permit_iff g p r :
  verify_repair_permit g p = Ok r <->
  rap_loop_id p = loop_id g /\ rap_project_id p = project_id g /\
  phase g = RepairRunning (rap_attempt p).
Proof.
  destruct r. unfold verify_repair_permit.
  rewrite if_err_ok, orb_false_iff, !negb_false_iff, N.eqb_eq, bool_decide_eq_true.
  destruct (phase g) as [|a|a|reason]; try naive_solver.
  rewrite if_err_ok, negb_false_iff, N.eqb_eq. naive_solver.
Qed.

(** A call that leaves the guard as it is, or only changes its phase. *)
Ltac quiet Hs Hq := intros; simplify_eq; first [by apply Hs | by apply Hq].

Lemma loop_inv_step `{Sha256} g0 tr g l g' :
  policy_ok (policy g0) -> loop_inv g0 tr g -> loop_step g l g' -> loop_inv g0 (tr ++ [l]) g'.
Proof.
  intros Hpol Hinv. destruct l as [op out]. unfold loop_step. cbn [fst snd].
  pose proof Hinv as (Hid & Hph & Htr & Hmax & _).
  assert (Hq : forall p, granted_permit (op, out) = None -> is_cancel (op, out) = false ->
    phase_ok (set_phase g p) -> running g -> loop_inv g0 (tr ++ [(op, out)]) (set_phase g p)).
  { intros p Hg Hc Hp Hr. apply (loop_inv_quiet g0 tr g); try done. cbn. by rewrite Hc. }
  assert (Hs : granted_permit (op, out) = None -> is_cancel (op, out) = false ->
    loop_inv g0 (tr ++ [(op, out)]) g).
  { intros Hg Hc. apply (loop_inv_quiet g0 tr g); try done. by rewrite Hc. }
  assert (Hpg : policy_ok (policy g)) by (simplify_eq; congruence).
  destruct op as [|r|r|pm turn fp| |pm]; cbn [loop_call].
  - intros [= <- <-]. by apply (loop_inv_quiet g0 tr g).
  - unfold finish_nonfailed_build, awaiting_build_result.
    repeat case_match; intros; simplify_eq; auto; apply Hq; try done; unfold running;
      match goal with H : phase g = _ |- _ => by rewrite H end.
  - unfold authorize_repair, awaiting_build_result.
    destruct (scope_mismatch g r); [quiet Hs Hq|].
    destruct (phase g) eqn:Ephase; cbn [negb]; [|quiet Hs Hq..].
    assert (Hr : running g) by (unfold running; by rewrite Ephase).
    destruct (br_state r); try quiet Hs Hq.
    destruct (cancel_requested g); [quiet Hs Hq|].
    destruct (from_failed_build r) as [plan|]; [|quiet Hs Hq].
    rewrite (authorize_counted_eq g (history tr)) by done.
    destruct (spec_decision _ _ _) eqn:Espec; cbv beta zeta iota; intros [= <- <-];
      [by apply (loop_inv_quiet g0 tr g)|by apply loop_inv_granted].
  - unfold finish_repair.
    destruct (verify_repair_permit g pm) eqn:Ev; [|quiet Hs Hq].
    apply verify_repair_permit_iff in Ev as (_ & _ & Ephase).
    assert (Hr : running g) by (unfold running; by rewrite Ephase).
    unfold phase_ok in Hph. rewrite Ephase in Hph.
    repeat case_match; quiet Hs Hq.
  - intros; simplify_eq; auto.
  - unfold mark_rebuild_prepared.
    repeat case_match; intros; simplify_eq; auto; apply Hq; try done;
      unfold running; match goal with H : phase g = _ |- _ => by rewrite H end.
Qed.

Lemma loop_inv_new fresh pid t p g0 :
  BuildRepairLoopGuard_new fresh pid t p = Ok g0 -> policy_ok (policy g0) /\ loop_inv g0 [] g0.
Proof.
  unfold BuildRepairLoopGuard_new.
  destruct (BuildRepairLoopPolicy_validate p) as [q|] eqn:E; [|done].
  apply policy_validate_iff in E as [-> Hp]. intros [= <-]. split; [done|].
  split_and!; cbn; try done; [|lia]. split; [done|]. intros _. cbn. destruct Hp. split_and!; try done; lia.
Qed.

Lemma loop_inv_steps `{Sha256} fresh pid t p g0 tr g :
  BuildRepairLoopGuard_new fresh pid t p = Ok g0 -> steps loop_step g0 tr g ->
  policy_ok (policy g0) /\ loop_inv g0 tr g.
Proof.
  intros [Hp H0]%loop_inv_new. split; [done|].
  eapply steps_trace_invariant; [|exact H0|done]. intros. by eapply loop_inv_step.
Qed.

Lemma loop_step_rule `{Sha256} g0 tr g l g' :
  policy_ok (policy g0) -> loop_inv g0 tr g -> loop_step g l g' -> loop_rule (view g) l (view g').
Proof.
  intros Hpol Hinv. destruct l as [op out]. unfold loop_step. cbn [fst snd].
  pose proof Hinv as (Hid & _ & Htr & Hmax & _).
  assert (Hpg : policy_ok (policy g)) by (simplify_eq; congruence).
  destruct op as [|r|r|pm turn fp| |pm]; cbn [loop_call].
  - intros [= <- <-]. apply rule_cancel.
  - unfold finish_nonfailed_build, awaiting_build_result.
    destruct (scope_mismatch g r); [intros [= <- <-]; by apply rule_stay|].
    destruct (phase g) eqn:Ephase; cbn [negb]; [|intros [= <- <-]; by apply rule_stay..].
    destruct (br_state r); intros [= <- <-]; try (by apply rule_stay);
      apply rule_stop; auto.
  - unfold authorize_repair, awaiting_build_result.
    destruct (scope_mismatch g r); [intros [= <- <-]; by apply rule_stay|].
    destruct (phase g) eqn:Ephase; cbn [negb]; [|intros [= <- <-]; by apply rule_stay..].
    assert (Hr : running g) by (unfold running; by rewrite Ephase).
    destruct (br_state r); cbv zeta;
      try (intros [= <- <-]; by (apply rule_stay || (apply rule_stop; auto))).
    destruct (cancel_requested g) eqn:Ec; [intros [= <- <-]; apply rule_stop; auto|].
    destruct (from_failed_build r) as [plan|]; [|intros [= <- <-]; by apply rule_stay].
    rewrite (authorize_counted_eq g (history tr)) by done. unfold view.
    destruct (spec_decision _ _ _); cbv beta zeta iota; intros [= <- <-]; cbn; rewrite Ephase, Ec.
    + apply rule_stop; auto.
    + by apply rule_grant.
  - unfold finish_repair.
    destruct (verify_repair_permit g pm) eqn:Ev; [|intros [= <- <-]; by apply rule_stay].
    apply verify_repair_permit_iff in Ev as (_ & _ & Ephase). unfold view.
    case_bool_decide as Hfp; cbn [negb]; [|intros [= <- <-]; by apply rule_stay].
    destruct (cancel_requested g) eqn:Ec; [|destruct (tr_cancelled turn) eqn:Et];
      intros [= <- <-]; cbn; rewrite Ephase, Ec; [apply rule_repair_cancelled; auto..|].
    by apply rule_finish_repair.
  - intros [= <- <-]. by apply rule_stay.
  - unfold mark_rebuild_prepared. destruct (_ || _); [intros [= <- <-]; by apply rule_stay|].
    unfold view. destruct (phase g) as [|a|a|rs] eqn:Ephase;
      try (intros [= <- <-]; rewrite Ephase; by apply rule_stay).
    destruct (N.eqb_spec a (rbp_attempt pm)) as [->|]; cbn [negb];
      [|intros [= <- <-]; rewrite Ephase; by apply rule_stay].
    destruct (cancel_requested g) eqn:Ec; intros [= <- <-]; cbn; rewrite Ec.
    + apply rule_stop; eauto.
    + apply rule_mark.
Qed.

Lemma advance_count p n c l p' n' c' :
  loop_rule (p, n, c) l (p', n', c') ->
  (if advances l then 1 else 0) + pending p' + 3 * n <= pending p + 3 * n'.
Proof.
  inversion 1; subst; cbn [advances pending snd];
    repeat match goal with Ha : advances _ = false |- _ => rewrite Ha; clear Ha end;
    try lia.
Qed.

(** A repair attempt that is over: it is not running and never will be again. *)
Definition repair_over (a : N) (s : LoopPhase * N * bool) : Prop :=
  a <= s.1.2 /\ s.1.1 <> RepairRunning a.
Definition rebuild_over (a : N) (s : LoopPhase * N * bool) : Prop :=
  repair_over a s /\ s.1.1 <> AwaitingRebuild a.

Lemma over_rule a s l s' :
  loop_rule s l s' ->
  (repair_over a s -> repair_over a s') /\ (rebuild_over a s -> rebuild_over a s').
Proof.
  unfold rebuild_over, repair_over. inversion 1; subst; cbn [fst snd]; split; try naive_solver.
  - intros [Hle _]. split; [lia|]. intros [=]. lia.
  - intros [[Hle _] _]. split_and!; [lia| |done]. intros [=]. lia.
Qed.

Lemma over_steps `{Sha256} g0 tr g tr' g' a :
  policy_ok (policy g0) -> loop_inv g0 tr g -> steps loop_step g tr' g' ->
  loop_inv g0 (tr ++ tr') g' /\
  (repair_over a (view g) -> repair_over a (view g')) /\
  (rebuild_over a (view g) -> rebuild_over a (view g')).
Proof.
  intros Hpol Hinv Hst. revert tr Hinv.
  induction Hst as [g|g l g1 ls g2 Hs _ IH]; intros tr Hinv; [by rewrite app_nil_r|].
  pose proof (loop_inv_step _ _ _ _ _ Hpol Hinv Hs) as Hinv1.
  destruct (over_rule a _ _ _ (loop_step_rule _ _ _ _ _ Hpol Hinv Hs)).
  destruct (IH _ Hinv1) as (Hi & ? & ?). rewrite <-app_assoc in Hi. naive_solver.
Qed.

Lemma steps_inv_split `{Sha256} g0 tr1 l tr2 g :
  policy_ok (policy g0) -> loop_inv g0 [] g0 -> steps loop_step g0 (tr1 ++ l :: tr2) g ->
  exists g1 g2, steps loop_step g0 tr1 g1 /\ loop_inv g0 tr1 g1 /\ loop_step g1 l g2 /\
    loop_inv g0 (tr1 ++ [l]) g2 /\ steps loop_step g2 tr2 g.
Proof.
  intros Hp Hi (g1 & H1 & (g2 & Hl & H2)%steps_cons_inv)%steps_app_inv.
  assert (loop_inv g0 tr1 g1) as Hi1.
  { eapply steps_trace_invariant; [|exact Hi|exact H1]. intros. by eapply loop_inv_step. }
  exists g1, g2. split_and!; try done. by eapply loop_inv_step.
Qed.

Lemma finish_accepted `{Sha256} g pm turn fp g' :
  loop_step g (OpFinishRepair pm turn fp, OutFinishRepair (Ok tt)) g' ->
  rap_loop_id pm = loop_id g /\ phase g = RepairRunning (rap_attempt pm) /\
  phase g' <> RepairRunning (rap_attempt pm) /\
  repair_attempts_started g' = repair_attempts_started g.
Proof.
  unfold loop_step. cbn [fst snd loop_call]. unfold finish_repair.
  destruct (verify_repair_permit g pm) eqn:Ev; [|done].
  apply verify_repair_permit_iff in Ev as (? & _ & ?).
  repeat case_match; intros; simplify_eq; by split_and!.
Qed.

Lemma mark_accepted `{Sha256} g pm g' :
  loop_step g (OpMarkPrepared pm, OutMarkPrepared (Ok tt)) g' ->
  rbp_loop_id pm = loop_id g /\ phase g = AwaitingRebuild (rbp_attempt pm) /\
  g' = set_phase g AwaitingBuildResult.
Proof.
  unfold loop_step. cbn [fst snd loop_call]. unfold mark_rebuild_prepared.
  destruct (_ || _) eqn:Eb; [done|]. destruct (phase g) as [|a|a|r]; try done.
  destruct (N.eqb_spec a (rbp_attempt pm)) as [->|]; [|done].
  destruct (cancel_requested g); [done|]. intros [= <-]. split_and!; try done.
  bool_prop. done.
Qed.

Definition stopped (s : LoopPhase * N * bool) : Prop :=
  (exists r, s.1.1 = Terminal r) \/ s.2 = true.

Lemma stop_reason_stopped g : is_some (stop_reason g) = true <-> stopped (view g).
Proof.
  unfold stop_reason, stopped, view. cbn.
  destruct (phase g), (cancel_requested g); cbn; naive_solver.
Qed.

Lemma not_advancing l :
  advances l = false -> granted_permit l = None /\ l.2 <> OutMarkPrepared (Ok tt).
Proof.
  destruct l as [op out]. unfold advances, granted_permit. cbn.
  repeat case_match; naive_solver.
Qed.

Lemma stopped_rule s l s' :
  loop_rule s l s' -> stopped s ->
  stopped s' /\ granted_permit l = None /\ l.2 <> OutMarkPrepared (Ok tt) /\
  (forall r, s.1.1 = Terminal r -> s'.1.1 = Terminal r /\ advances l = false).
Proof.
  unfold stopped. inversion 1; subst; cbn [fst snd];
    try match goal with Ha : advances _ = false |- _ => destruct (not_advancing _ Ha) end;
    naive_solver.
Qed.

Lemma terminal_unchanged `{Sha256} g l g' r :
  phase g = Terminal r -> is_cancel l = false -> loop_step g l g' -> g' = g.
Proof.
  destruct l as [op out]. unfold loop_step, is_cancel. cbn [fst snd]. intros Hph Hc.
  destruct op; cbn [loop_call]; [done|..];
    unfold finish_nonfailed_build, authorize_repair, finish_repair, verify_repair_permit,
      mark_rebuild_prepared, awaiting_build_result; rewrite ?Hph; cbn [negb];
    repeat case_match; naive_solver.
Qed.

(** ** Properties *)

(** C38. In any trace of calls, with any permits and any build results, the
    repair attempts are numbered 1, 2, 3, ... without gap, at most
    [max_repair_attempts] (at most 8) of them, and at most three calls go ahead
    for each: the loop always comes to an end. *)
Theorem loop_attempts_bounded `{Sha256} fresh pid t p g0 tr g :
  BuildRepairLoopGuard_new fresh pid t p = Ok g0 -> steps loop_step g0 tr g ->
  let n := repair_attempts_started g in
  rap_attempt <$> granted tr = N.of_nat <$> seq 1 (N.to_nat n) /\
  n <= max_repair_attempts p <= 8 /\ count advances tr <= 3 * n.
Proof.
  intros Hnew Hst n.
  destruct (loop_inv_steps _ _ _ _ _ _ _ Hnew Hst) as [Hpol Hinv].
  pose proof Hinv as (Hid & _ & _ & Hmax & Hat & _).
  assert (policy g0 = p) as Hpp.
  { unfold BuildRepairLoopGuard_new in Hnew.
    destruct (BuildRepairLoopPolicy_validate p) eqn:E; [|done].
    apply policy_validate_iff in E as [-> _]. by injection Hnew as <-. }
  assert (policy g = p) as Hpg by (simplify_eq; congruence).
  destruct Hpol as [[??] _]. rewrite Hpp in *. rewrite Hpg in Hmax.
  split_and!; try done.
  enough (count advances tr + pending (phase g) <= 3 * n) by lia.
  clear -Hnew Hst. subst n. destruct (loop_inv_new _ _ _ _ _ Hnew) as [Hpol H0].
  assert (loop_inv g0 tr g /\ count advances tr + pending (phase g)
    <= 3 * repair_attempts_started g) as [_ ?]; [|done].
  eapply (steps_trace_invariant _ (fun tr g => loop_inv g0 tr g /\
    count advances tr + pending (phase g) <= 3 * repair_attempts_started g)); [|split|done]; [|done|].
  - intros tr' a l b [Hi Hle] Hs. split; [by eapply loop_inv_step|].
    pose proof (advance_count _ _ _ _ _ _ _ (loop_step_rule _ _ _ _ _ Hpol Hi Hs)).
    rewrite count_app. cbn [count]. lia.
  - unfold BuildRepairLoopGuard_new in Hnew.
    destruct (BuildRepairLoopPolicy_validate p); [|done]. by injection Hnew as <-.
Qed.

(** The guard decides by the history of the loop: a failed build in scope,
    when no cancellation was requested, stops the loop exactly when its
    fingerprint would be the [max_same_failure_occurrences]-th in a row or when
    the repair budget is spent; otherwise its permit carries the next attempt
    number, the fingerprint and the evidence of this build. *)
Theorem authorize_repair_by_history `{Sha256} fresh pid t p g0 tr g result plan :
  BuildRepairLoopGuard_new fresh pid t p = Ok g0 -> steps loop_step g0 tr g ->
  phase g = AwaitingBuildResult -> existsb is_cancel tr = false ->
  br_project_id result = pid -> br_target result = t -> br_state result = BsFailed ->
  from_failed_build result = Ok plan ->
  let ev := plan_evidence plan in
  fst (authorize_repair g result) =
    Ok match spec_decision p (history tr) (ev_fingerprint_sha256 ev) with
       | Some reason => Stop reason
       | None =>
         Repair {| rap_loop_id := fresh; rap_project_id := pid;
                   rap_attempt := len (history tr) + 1;
                   rap_fingerprint_sha256 := ev_fingerprint_sha256 ev; rap_evidence := ev |}
       end.
Proof.
  intros Hnew Hst Hph Hcan Hpid Ht Hfail Hplan ev.
  destruct (loop_inv_steps _ _ _ _ _ _ _ Hnew Hst) as [Hpol Hinv].
  pose proof Hinv as (Hid & _ & Htr & Hmax & _ & _ & Hc). pose proof Htr as [Hlen _].
  unfold BuildRepairLoopGuard_new in Hnew.
  destruct (BuildRepairLoopPolicy_validate p) as [q|] eqn:E; [|done].
  apply policy_validate_iff in E as [-> _]. injection Hnew as <-. cbn in Hid.
  injection Hid as Hl Hp Htg Hpo. cbn in Hpol.
  unfold authorize_repair, scope_mismatch, awaiting_build_result.
  rewrite Hp, Htg, Hph, Hfail, Hc, Hcan, Hplan, !bool_decide_eq_true_2 by done. cbn [negb orb].
  rewrite (authorize_counted_eq g (history tr)); [|done|by unfold running; rewrite Hph|congruence|done].
  rewrite Hpo. fold ev. destruct (spec_decision _ _ _); [done|]. cbn [fst].
  unfold permit_for. by rewrite Hl, Hp, Hlen.
Qed.

(** A repair attempt is finished at most once and its rebuild prepared at
    most once: after [finish_repair] accepted a permit no later call accepts a
    permit of the same attempt, spent or forged, and likewise for
    [mark_rebuild_prepared]; permits of another loop are never accepted. *)
Theorem permits_single_use `{Sha256} fresh pid t p g0 tr1 l tr2 g :
  BuildRepairLoopGuard_new fresh pid t p = Ok g0 ->
  steps loop_step g0 (tr1 ++ l :: tr2) g ->
  (forall pm turn fp, l = (OpFinishRepair pm turn fp, OutFinishRepair (Ok tt)) ->
     rap_loop_id pm = fresh /\
     forall pm' turn' fp', rap_attempt pm' = rap_attempt pm ->
       (OpFinishRepair pm' turn' fp', OutFinishRepair (Ok tt)) ∉ tr2) /\
  (forall pm, l = (OpMarkPrepared pm, OutMarkPrepared (Ok tt)) ->
     rbp_loop_id pm = fresh /\
     forall pm', rbp_attempt pm' = rbp_attempt pm ->
       (OpMarkPrepared pm', OutMarkPrepared (Ok tt)) ∉ tr2).
Proof.
  intros Hnew Hst. pose proof (loop_inv_new _ _ _ _ _ Hnew) as [Hpol H0].
  destruct (steps_inv_split _ _ _ _ _ Hpol H0 Hst) as (g1 & g2 & _ & Hi1 & Hl & Hi2 & Hst2).
  assert (Hfresh : loop_id g1 = fresh).
  { destruct Hi1 as [Hid _]. unfold BuildRepairLoopGuard_new in Hnew.
    destruct (BuildRepairLoopPolicy_validate p); [|done]. injection Hnew as <-.
    cbn in Hid. congruence. }
  pose proof Hi1 as (_ & Hok & _). unfold phase_ok in Hok. split.
  - intros pm turn fp ->. destruct (finish_accepted _ _ _ _ _ Hl) as (Hlid & Hph & Hph' & Hn).
    split; [congruence|]. intros pm' turn' fp' Heq (t1 & t2 & ->)%list_elem_of_split.
    rewrite Hph in Hok.
    apply steps_app_inv in Hst2 as (g3 & Hst3 & (g4 & Hfin & _)%steps_cons_inv).
    destruct (over_steps _ _ _ _ _ (rap_attempt pm) Hpol Hi2 Hst3) as (_ & Hover & _).
    destruct Hover as [_ Hne]; [split; cbn; [lia|done]|]. cbn in Hne.
    destruct (finish_accepted _ _ _ _ _ Hfin) as (_ & Hph3 & _). congruence.
  - intros pm ->. destruct (mark_accepted _ _ _ Hl) as (Hlid & Hph & ->).
    split; [congruence|]. intros pm' Heq (t1 & t2 & ->)%list_elem_of_split.
    rewrite Hph in Hok.
    apply steps_app_inv in Hst2 as (g3 & Hst3 & (g4 & Hfin & _)%steps_cons_inv).
    destruct (over_steps _ _ _ _ _ (rbp_attempt pm) Hpol Hi2 Hst3) as (_ & _ & Hover).
    destruct Hover as [_ Hne]; [split; [split|]; cbn; [lia|done..]|]. cbn in Hne.
    destruct (mark_accepted _ _ _ Hfin) as (_ & Hph3 & _). congruence.
Qed.

(** Stopping is final and cancellation stops: once a phase is terminal, and
    equally once a cancellation was requested, no repair permit, no rebuild
    permit and no prepared rebuild is given any more, a stop reason is reported,
    and a terminal reason never changes; the operations of a terminal loop are
    errors that leave it as it is. *)
Theorem stopped_loop_stays_stopped `{Sha256} fresh pid t p g0 tr g l g' :
  BuildRepairLoopGuard_new fresh pid t p = Ok g0 -> steps loop_step g0 tr g ->
  is_some (stop_reason g) = true -> loop_step g l g' ->
  is_some (stop_reason g') = true /\ granted_permit l = None /\
  (forall permit, l.2 <> OutRebuildPermit (Ok permit)) /\ l.2 <> OutMarkPrepared (Ok tt) /\
  (forall r, phase g = Terminal r -> phase g' = Terminal r /\
     (is_cancel l = false -> advances l = false /\ g' = g)).
Proof.
  intros Hnew Hst Hstop Hl. destruct (loop_inv_steps _ _ _ _ _ _ _ Hnew Hst) as [Hpol Hinv].
  pose proof (loop_step_rule _ _ _ _ _ Hpol Hinv Hl) as Hrule.
  assert (Hnoreb : forall permit, l.2 <> OutRebuildPermit (Ok permit)).
  { intros permit Hout. unfold loop_step in Hl. rewrite Hout in Hl.
    destruct (l.1); cbn in Hl; repeat case_match; simplify_eq. unfold rebuild_permit in *.
    unfold stop_reason in Hstop. repeat case_match; simplify_eq. }
  apply stop_reason_stopped in Hstop. destruct (stopped_rule _ _ _ Hrule Hstop) as (? & ? & ? & Hterm).
  split_and!; try done; [by apply stop_reason_stopped|].
  intros r Hr. destruct (Hterm r Hr). split_and!; [done|]. intros Hc. split; [done|].
  by eapply terminal_unchanged.
Qed.

(** A failed build whose evidence is within every bound of its own can be
    refused for the size of its prompt, and is then neither repaired nor counted:
    the guard answers with an error and goes on waiting for a build result, for
    any loop in that phase. *)
Theorem oversized_prompt_is_not_counted `{Sha256} (g : BuildRepairLoopGuard) :
  br_state ex_deep_build = BsFailed /\
  Forall diagnostic_valid (br_diagnostics ex_deep_build) /\
  is_ok (capture_build_failure ex_deep_build) = true /\
  from_failed_build ex_deep_build = Err (Build (u "build_repair_prompt_limit")) /\
  (scope_mismatch g ex_deep_build = false -> phase g = AwaitingBuildResult ->
   cancel_requested g = false ->
   authorize_repair g ex_deep_build = (Err (Build (u "build_repair_prompt_limit")), g)).
Proof.
  destruct repair_prompt_budget as (Hst & Hv & Hc & Hb).
  refine (conj Hst (conj Hv (conj Hc (conj Hb _)))).
  generalize dependent ex_deep_build. intros r Hst _ _ Hb Hs Hp Hcan.
  unfold authorize_repair, awaiting_build_result. by rewrite Hs, Hp, Hst, Hcan, Hb.
Qed.

(** ** Concrete cases *)

Definition ex_guard : BuildRepairLoopGuard :=
  {| loop_id := 7; project_id := MkProjectId 1; target := Website;
     policy := BuildRepairLoopPolicy_default; cancel_requested := false;
     phase := AwaitingBuildResult; repair_attempts_started := 0;
     last_failure_fingerprint := None; same_failure_occurrences := 0 |}.

Lemma ex_guard_new :
  BuildRepairLoopGuard_new 7 (MkProjectId 1) Website BuildRepairLoopPolicy_default = Ok ex_guard.
Proof. reflexivity. Qed.

(** Running calls one after the other. *)
Fixpoint run_calls `{Sha256} (g : BuildRepairLoopGuard) (ops : list LoopOp) :
    list LoopLabel * BuildRepairLoopGuard :=
  match ops with
  | [] => ([], g)
  | op :: ops =>
    let '(out, g) := loop_call g op in
    let '(tr, g) := run_calls g ops in ((op, out) :: tr, g)
  end.

Lemma run_calls_steps `{Sha256} g ops : steps loop_step g (run_calls g ops).1 (run_calls g ops).2.
Proof.
  revert g. induction ops as [|op ops IH]; intros g; cbn [run_calls]; [constructor|].
  destruct (loop_call g op) as [out g1] eqn:E. specialize (IH g1).
  destruct (run_calls g1 ops) as [tr g2]. by apply steps_cons with g1.
Qed.

Definition ex_turn : TurnResult :=
  {| tr_text := []; tr_cancelled := false; tr_tool_calls := []; tr_usage := None |}.
Definition ex_plan : option BuildRepairPlan :=
  match @from_failed_build ex_sha256 ex_failed_build with Ok p => Some p | Err _ => None end.
Definition ex_fingerprint : str :=
  match ex_plan with Some p => ev_fingerprint_sha256 (plan_evidence p) | None => [] end.
Definition ex_permit : option RepairAttemptPermit :=
  permit_for ex_guard ∘ plan_evidence <$> ex_plan.

(** A repair, its rebuild, the same failure again. *)
Definition ex_calls (permit : RepairAttemptPermit) : list LoopOp :=
  [OpAuthorize ex_failed_build; OpFinishRepair permit ex_turn ex_fingerprint;
   OpMarkPrepared {| rbp_loop_id := 7; rbp_project_id := MkProjectId 1; rbp_target := Website;
                     rbp_attempt := 1 |};
   OpAuthorize ex_failed_build].

Example ex_repeated_failure :
  match ex_permit with
  | Some permit =>
    let '(tr, g) := @run_calls ex_sha256 ex_guard (ex_calls permit) in
    (count advances tr, phase g) = (3, Terminal RepeatedFailure)
  | None => False
  end.
Proof. by vm_compute. Qed.

Lemma loop_attempts_bounded_witness :
  count advances (@run_calls ex_sha256 ex_guard
    [OpAuthorize ex_failed_build; OpRequestCancel]).1 <= 24.
Proof.
  destruct (@loop_attempts_bounded ex_sha256 _ _ _ _ _ _ _ ex_guard_new
    (@run_calls_steps ex_sha256 ex_guard [OpAuthorize ex_failed_build; OpRequestCancel]))
    as (_ & Hn & Hc).
  etransitivity; [exact Hc|]. vm_compute. discriminate.
Defined.

Lemma authorize_repair_by_history_witness :
  exists permit, fst (@authorize_repair ex_sha256 ex_guard ex_failed_build) = Ok (Repair permit).
Proof.
  destruct (@from_failed_build ex_sha256 ex_failed_build) as [plan|e] eqn:E;
    [|vm_compute in E; discriminate E].
  eexists.
  rewrite (@authorize_repair_by_history ex_sha256 _ _ _ _ _ [] ex_guard ex_failed_build plan
    ex_guard_new (steps_nil _ _) eq_refl eq_refl eq_refl eq_refl eq_refl E).
  reflexivity.
Defined.

Definition ex_permit_value : RepairAttemptPermit :=
  match ex_permit with
  | Some permit => permit
  | None => permit_for ex_guard (ex_evidence_of "")
  end.
Definition ex_run := @run_calls ex_sha256 ex_guard (ex_calls ex_permit_value).

Lemma permits_single_use_witness :
  exists l1 tr2,
    ex_run.1 = [l1] ++ (OpFinishRepair ex_permit_value ex_turn ex_fingerprint,
                        OutFinishRepair (Ok tt)) :: tr2 /\
    forall turn fp, (OpFinishRepair ex_permit_value turn fp, OutFinishRepair (Ok tt)) ∉ tr2.
Proof.
  assert (Hst : @steps _ _ (@loop_step ex_sha256) ex_guard ex_run.1 ex_run.2)
    by (unfold ex_run; apply run_calls_steps).
  assert (H : exists l1 tr2, ex_run.1 = [l1] ++ (OpFinishRepair ex_permit_value ex_turn
    ex_fingerprint, OutFinishRepair (Ok tt)) :: tr2) by (vm_compute; eauto).
  destruct H as (l1 & tr2 & Heq). exists l1, tr2. split; [exact Heq|]. intros turn fp.
  rewrite Heq in Hst.
  destruct (@permits_single_use ex_sha256 _ _ _ _ _ [l1] _ tr2 _ ex_guard_new Hst) as [H _].
  destruct (H ex_permit_value ex_turn ex_fingerprint eq_refl) as [_ Hno].
  exact (Hno ex_permit_value turn fp eq_refl).
Defined.

Lemma stopped_loop_stays_stopped_witness :
  is_some (stop_reason (request ex_guard)) = true.
Proof.
  assert (Hl : @loop_step ex_sha256 (request ex_guard)
    (OpRequestCancel, OutRequestCancel) (request ex_guard)) by reflexivity.
  destruct (@stopped_loop_stays_stopped ex_sha256 _ _ _ _ _
    [(OpRequestCancel, OutRequestCancel)] (request ex_guard) _ (request ex_guard)
    ex_guard_new (steps_one _ _ _ _ (eq_refl : @loop_step ex_sha256 ex_guard
      (OpRequestCancel, OutRequestCancel) (request ex_guard))) eq_refl Hl) as [H _].
  exact H.
Defined.

Lemma oversized_prompt_is_not_counted_witness :
  @authorize_repair ex_sha256 ex_guard ex_deep_build =
  (Err (Build (u "build_repair_prompt_limit")), ex_guard).
Proof.
  destruct (@oversized_prompt_is_not_counted ex_sha256 ex_guard) as (_ & _ & _ & _ & H).
  apply H; reflexivity.
Defined.
