(* ===== verification/Checkpoint.v ===== *)
(** * Checkpoints of a project tree ([vibecoder-checkpoint-contract])

    The metadata of a checkpoint and when it is valid. *)
From S2P Require Import Prelude RustStr Domain.

Definition CHECKPOINT_SCHEMA_V1 : N := 1.
Definition MAX_CHECKPOINTS_PER_PROJECT : N := 64.
Definition MAX_CHECKPOINT_FILES : N := 100000.
Definition MAX_CHECKPOINT_TOTAL_BYTES : N := 4 * 1024 * 1024 * 1024.
Definition MAX_CHECKPOINT_DEPTH : N := 128.
Definition SHA256_HEX_BYTES : N := 64.

Record CheckpointId := MkCheckpointId { checkpoint_uuid : N }.

#[export] Instance CheckpointId_eq_dec : EqDecision CheckpointId.
Proof. solve_decision. Defined.

Inductive CheckpointReason :=
| Manual
| BeforeAgentChange
| AgentChangeVerification
| BeforeBuildRepair
| BeforeRollback.

#[export] Instance CheckpointReason_eq_dec : EqDecision CheckpointReason.
Proof. solve_decision. Defined.

Record CheckpointMetadata := {
  cm_schema : N;
  cm_checkpoint_id : CheckpointId;
  cm_project_id : ProjectId;
  created_unix_ms : N;
  cm_reason : CheckpointReason;
  file_count : N;
  total_bytes : N;
  tree_sha256 : str
}.

Record RollbackResult := {
  rb_project_id : ProjectId;
  rb_checkpoint_id : CheckpointId;
  restored_file_count : N;
  restored_total_bytes : N;
  rb_tree_sha256 : str
}.

Definition checkpoint_error (code : str) : VibeCoderError := Domain.Checkpoint code.

Definition digest_byte (b : N) : bool := is_ascii_digit b || in_range 97 102 b.

Definition CheckpointMetadata_validate (m : CheckpointMetadata) : Result unit :=
  if negb (cm_schema m =? CHECKPOINT_SCHEMA_V1) then
    Err (checkpoint_error (u "checkpoint_schema_unsupported"))
  else if MAX_CHECKPOINT_FILES <? file_count m then
    Err (checkpoint_error (u "checkpoint_file_count_invalid"))
  else if MAX_CHECKPOINT_TOTAL_BYTES <? total_bytes m then
    Err (checkpoint_error (u "checkpoint_total_bytes_invalid"))
  else if negb (blen (tree_sha256 m) =? SHA256_HEX_BYTES)
          || negb (forallb digest_byte (as_bytes (tree_sha256 m))) then
    Err (checkpoint_error (u "checkpoint_digest_invalid"))
  else Ok tt.
