(* ===== verification/CheckpointStore.v ===== *)
(** * The local checkpoint store ([vibecoder-checkpoint-local/src/lib.rs])

    A checkpoint is a private copy of a project's tree with its digest.  It is
    published by a rename once the digests of the source, of the copy and of the
    source again agree.  A rollback copies the snapshot next to the project and
    exchanges the two directories atomically. *)
From S2P Require Import Prelude RustStr RustPath StrFacts Domain Program OsCalls Checkpoint.

(** ** Calls of the checkpoint store to the operating system

    Unlike the other local crates this one works with [std::fs] on paths, partly
    through [/proc/self/fd], which names what an open descriptor refers to. *)

Inductive place :=
| PathAt (path : str)
| SelfFd (fd : Fd)                       (* /proc/self/fd/N *)
| Beneath (fd : Fd) (name : str)         (* /proc/self/fd/N/name *)
| Entry (dir : place) (raw : bytes).     (* DirEntry::path *)

Inductive tree_call :=
| SymlinkMetadata (p : place)
| Metadata (p : place)
| Canonicalize (path : str)
| CreateDir (p : place)
| RemoveFile (p : place)
| RemoveDirAll (p : place)
| Exists (p : place)
| SetPermissions (p : place) (mode : N)
| Rename (p q : place)
| ReadDir (p : place)
| OpenDir (p : place)                    (* O_RDONLY|O_DIRECTORY|O_NOFOLLOW|O_CLOEXEC *)
| OpenFile (p : place)                   (* O_RDONLY|O_NOFOLLOW|O_CLOEXEC *)
| CreateNew (p : place) (mode : N)       (* O_WRONLY|O_CREAT|O_EXCL|O_NOFOLLOW|O_CLOEXEC *)
| FileMetadata (fd : Fd)
| Read (fd : Fd) (n : N)                 (* at most n bytes, none at the end *)
| ReadToEnd (fd : Fd) (limit : N)        (* read_to_end of Read::take(limit) *)
| WriteAll (fd : Fd) (contents : bytes)
| SyncAll (fd : Fd)
| Exchange (dir : Fd) (left right : str) (* renameat2 with RENAME_EXCHANGE *)
| Now                                    (* milliseconds since the epoch *)
| NewUuid.

(** An entry of a directory whose reading failed is [None]. *)
Definition tree_resp (c : tree_call) : Type :=
  match c with
  | SymlinkMetadata _ | Metadata _ | FileMetadata _ => IoResult stat
  | Canonicalize _ => IoResult str
  | Exists _ => bool
  | ReadDir _ => IoResult (list (option bytes))
  | OpenDir _ | OpenFile _ | CreateNew _ _ => IoResult N
  | Read _ _ | ReadToEnd _ _ => IoResult bytes
  | Now => option N
  | NewUuid => N
  | _ => IoResult unit
  end.

Canonical Structure tree_sig : signature := Sig tree_call tree_resp.
Abbreviation tree_prog := (program tree_sig).

Definition is_file (s : stat) : bool := file_kind s =? S_IFREG.
(** [Metadata::len]. *)
Definition stat_len (s : stat) : N := Z.to_N (st_size s).
Definition executable (mode : N) : bool := negb (N.land mode 0x40 =? 0).   (* 0o100 *)

Definition PRODUCT_ROOT_NAME : str := u "vibecoder".
Definition PROJECTS_ROOT_NAME : str := u "projects".
Definition CHECKPOINTS_ROOT_NAME : str := u "checkpoints".
Definition SNAPSHOT_TREE_NAME : str := u "tree".
Definition METADATA_NAME : str := u "metadata.json".
Definition CHECKPOINT_TEMP_PREFIX : str := u ".vibecoder-checkpoint-tmp-".
Definition ROLLBACK_TEMP_PREFIX : str := u ".vibecoder-rollback-".
Definition WORKSPACE_TEMP_PREFIX : str := u ".vibecoder-tmp-".
Definition MAX_METADATA_BYTES : N := 64 * 1024.
Definition BUFFER_BYTES : N := 64 * 1024.

(** [serde_json::to_vec_pretty] and [from_slice] of the metadata. *)
Class MetadataJson := {
  metadata_to_vec : CheckpointMetadata -> option bytes;
  metadata_from_slice : bytes -> option CheckpointMetadata
}.

Record LocalCheckpointStore := {
  projects_root : str;
  checkpoints_root : str;
  gate_poisoned : bool
}.

Record TreeDigest := { td_file_count : N; td_total_bytes : N; td_sha256 : str }.

#[export] Instance TreeDigest_eq_dec : EqDecision TreeDigest.
Proof. solve_decision. Defined.

Definition fails {A} (code : string) : Result A := Err (checkpoint_error (u code)).

(** [map_err] to a fixed code. *)
Definition or_code {A} (code : string) (p : tree_prog (IoResult A)) : tree_prog (Result A) :=
  do r <- p; Ret (match r with Ok a => Ok a | Err _ => fails code end).

Definition give {A} (r : Result A) : tree_prog (Result A) := Ret r.

(** [?] in a loop. *)
Fixpoint try_fold {S A} (f : S -> A -> tree_prog (Result S)) (l : list A) (s : S) :
    tree_prog (Result S) :=
  match l with
  | [] => Ret (Ok s)
  | x :: l => try s <- f s x; try_fold f l s
  end.

(** ** The digest of a tree *)

(** [hashed]: what the hasher has been given. *)
Record DigestState := { hashed : bytes; ds_file_count : N; ds_total_bytes : N }.

Definition digest_new : DigestState := {| hashed := []; ds_file_count := 0; ds_total_bytes := 0 |}.

Definition update (st : DigestState) (bs : bytes) : DigestState :=
  {| hashed := hashed st ++ bs; ds_file_count := ds_file_count st;
     ds_total_bytes := ds_total_bytes st |}.

(** What [record_path] feeds to the hasher. *)
Definition path_bytes (value : str) : bytes := be_bytes 8 (blen value) ++ as_bytes value.
Definition record_path (st : DigestState) (value : str) : DigestState :=
  update (update st (be_bytes 8 (blen value))) (as_bytes value).

Definition record_dir (st : DigestState) (relative : str) : DigestState :=
  record_path (update st (as_bytes (u "D"))) relative.

Definition begin_file (st : DigestState) (relative : str) (size : N) (exec : bool) :
    Result DigestState :=
  let? count := ok_or (checked_add u64_max (ds_file_count st) 1)
                  (checkpoint_error (u "checkpoint_file_count_overflow")) in
  if MAX_CHECKPOINT_FILES <? count then fails "checkpoint_file_count_limit"
  else
    let? total := ok_or (checked_add u64_max (ds_total_bytes st) size)
                    (checkpoint_error (u "checkpoint_total_bytes_overflow")) in
    if MAX_CHECKPOINT_TOTAL_BYTES <? total then fails "checkpoint_total_bytes_limit"
    else
      let st := {| hashed := hashed st; ds_file_count := count; ds_total_bytes := total |} in
      let st := record_path (update st (as_bytes (u "F"))) relative in
      Ok (update (update st (be_bytes 8 size)) [bool_byte exec]).

Definition finish `{Sha256} (st : DigestState) : TreeDigest :=
  {| td_file_count := ds_file_count st; td_total_bytes := ds_total_bytes st;
     td_sha256 := digest_hex (hashed st) |}.

(** ** Walking a directory *)

Record PinnedDirectory := { pinned : Fd; names : list str }.

Definition name_forbidden (name : str) : bool :=
  bool_decide (name = []) || existsb is_control name || contains_char 47 name
  || contains_char 92 name
  || starts_with WORKSPACE_TEMP_PREFIX name || starts_with ROLLBACK_TEMP_PREFIX name
  || starts_with CHECKPOINT_TEMP_PREFIX name.

(** The loop over the entries. *)
Fixpoint entry_names (acc : list str) (entries : list (option bytes)) : Result (list str) :=
  match entries with
  | [] => Ok acc
  | None :: _ => fails "checkpoint_tree_read_dir_failed"
  | Some raw :: entries =>
    match from_utf8 raw with
    | None => fails "checkpoint_path_not_utf8"
    | Some name =>
      if name_forbidden name then fails "checkpoint_path_component_invalid"
      else entry_names (acc ++ [name]) entries
    end
  end.

Definition pin_directory (path : place) : tree_prog (Result PinnedDirectory) :=
  try file <- or_code "checkpoint_tree_directory_open_failed" (call_ (OpenDir path));
  try metadata <- or_code "checkpoint_tree_directory_metadata_failed" (call_ (FileMetadata file));
  if negb (is_dir metadata) then Ret (fails "checkpoint_tree_directory_invalid")
  else
    try entries <- or_code "checkpoint_tree_read_dir_failed" (call_ (ReadDir (SelfFd file)));
    try names <- give (entry_names [] entries);
    Ret (Ok {| pinned := file; names := sort_by (fun name => name) names |}).

Definition relative_name (prefix name : str) : str :=
  if bool_decide (prefix = []) then name else prefix ++ u "/" ++ name.

Definition set_private_dir_mode (path : place) : tree_prog (Result unit) :=
  try _ <- or_code "checkpoint_directory_mode_stat_failed" (call_ (Metadata path));
  or_code "checkpoint_directory_mode_failed" (call_ (SetPermissions path PRIVATE_DIR_MODE)).

Definition sync_dir (path : place) : tree_prog (Result unit) :=
  try dir <- or_code "checkpoint_directory_open_failed" (call_ (OpenDir path));
  or_code "checkpoint_directory_sync_failed" (call_ (SyncAll dir)).

(** The loop [while remaining > 0]: every turn reads a byte or ends it, so [remaining]
    turns are enough.  [sink] is what else is done with what was read. *)
Fixpoint read_remaining (read_failed short : string) (sink : bytes -> tree_prog (Result unit))
    (fuel : nat) (fd : Fd) (remaining : N) (st : DigestState) : tree_prog (Result DigestState) :=
  if remaining =? 0 then Ret (Ok st)
  else
    match fuel with
    | O => Ret (Ok st)
    | S fuel =>
      try got <- or_code read_failed (call_ (Read fd (N.min BUFFER_BYTES remaining)));
      if len got =? 0 then Ret (fails short)
      else
        let st := update st got in
        try _ <- sink got;
        read_remaining read_failed short sink fuel fd (remaining - len got) st
    end.

Definition no_sink (_ : bytes) : tree_prog (Result unit) := Ret (Ok tt).

(** One more byte would mean that the file has grown. *)
Definition at_end (read_failed grew : string) (fd : Fd) : tree_prog (Result unit) :=
  try extra <- or_code read_failed (call_ (Read fd 1));
  Ret (if negb (len extra =? 0) then fails grew else Ok tt).

Definition changed_since (before after : stat) : bool :=
  negb (st_dev after =? st_dev before) || negb (st_ino after =? st_ino before)
  || negb (stat_len after =? stat_len before) || negb (st_nlink after =? 1).

Definition copy_file (path dest : place) (relative : str) (before : stat) (st : DigestState) :
    tree_prog (Result DigestState) :=
  if negb (st_nlink before =? 1) then Ret (fails "checkpoint_hard_link_forbidden")
  else
    let exec := executable (st_mode before) in
    try st <- give (begin_file st relative (stat_len before) exec);
    try input <- or_code "checkpoint_source_file_open_failed" (call_ (OpenFile path));
    try opened <- or_code "checkpoint_source_file_stat_failed" (call_ (FileMetadata input));
    if negb (is_file opened) || negb (st_nlink opened =? 1)
       || negb (st_dev opened =? st_dev before) || negb (st_ino opened =? st_ino before) then
      Ret (fails "checkpoint_source_changed_during_open")
    else
      let mode := N.lor PRIVATE_FILE_MODE (if exec then 0x40 else 0) in
      try output <- or_code "checkpoint_copy_file_create_failed" (call_ (CreateNew dest mode));
      try st <- read_remaining "checkpoint_source_file_read_failed"
                  "checkpoint_source_file_short_read"
                  (fun got => or_code "checkpoint_copy_file_write_failed" (call_ (WriteAll output got)))
                  (N.to_nat (stat_len before)) input (stat_len before) st;
      try _ <- at_end "checkpoint_source_file_read_failed" "checkpoint_source_file_grew_during_copy"
                 input;
      try _ <- or_code "checkpoint_copy_file_sync_failed" (call_ (SyncAll output));
      try after <- or_code "checkpoint_source_file_post_stat_failed" (call_ (SymlinkMetadata path));
      Ret (if changed_since before after then fails "checkpoint_source_changed_during_copy"
           else Ok st).

(** One turn of the loop of [copy_dir_recursive]; [copy_below] is the recursive call. *)
Definition copy_entry (copy_below : place -> place -> str -> DigestState -> tree_prog (Result DigestState))
    (source_dir destination_dir : PinnedDirectory) (prefix : str) (st : DigestState) (name : str) :
    tree_prog (Result DigestState) :=
  let path := Beneath (pinned source_dir) name in
  let relative := relative_name prefix name in
  let dest := Beneath (pinned destination_dir) name in
  try before <- or_code "checkpoint_tree_entry_metadata_failed" (call_ (SymlinkMetadata path));
  if is_symlink before then Ret (fails "checkpoint_symlink_forbidden")
  else if is_dir before then
    let st := record_dir st relative in
    try _ <- or_code "checkpoint_copy_dir_create_failed" (call_ (CreateDir dest));
    try _ <- set_private_dir_mode dest;
    try st <- copy_below path dest relative st;
    try _ <- sync_dir dest;
    Ret (Ok st)
  else if is_file before then copy_file path dest relative before st
  else Ret (fails "checkpoint_special_file_forbidden").

(** [fuel] is the number of levels left, so running out of it is [depth > MAX_CHECKPOINT_DEPTH]. *)
Fixpoint copy_dir_recursive (fuel : nat) (source destination : place) (prefix : str)
    (st : DigestState) : tree_prog (Result DigestState) :=
  match fuel with
  | O => Ret (fails "checkpoint_depth_limit")
  | S fuel =>
    try source_dir <- pin_directory source;
    try destination_dir <- pin_directory destination;
    try_fold (copy_entry (copy_dir_recursive fuel) source_dir destination_dir prefix)
      (names source_dir) st
  end.

Definition hash_file (path : place) (relative : str) (before : stat) (st : DigestState) :
    tree_prog (Result DigestState) :=
  if negb (st_nlink before =? 1) then Ret (fails "checkpoint_hard_link_forbidden")
  else
    try st <- give (begin_file st relative (stat_len before) (executable (st_mode before)));
    try file <- or_code "checkpoint_hash_file_open_failed" (call_ (OpenFile path));
    try opened <- or_code "checkpoint_hash_file_stat_failed" (call_ (FileMetadata file));
    if negb (st_dev opened =? st_dev before) || negb (st_ino opened =? st_ino before)
       || negb (st_nlink opened =? 1) then
      Ret (fails "checkpoint_hash_file_changed_during_open")
    else
      try st <- read_remaining "checkpoint_hash_file_read_failed" "checkpoint_hash_file_short_read"
                  no_sink (N.to_nat (stat_len before)) file (stat_len before) st;
      try _ <- at_end "checkpoint_hash_file_read_failed" "checkpoint_hash_file_grew" file;
      try after <- or_code "checkpoint_hash_file_post_stat_failed" (call_ (SymlinkMetadata path));
      Ret (if changed_since before after then fails "checkpoint_hash_file_changed" else Ok st).

Definition hash_entry (hash_below : place -> str -> DigestState -> tree_prog (Result DigestState))
    (source_dir : PinnedDirectory) (prefix : str) (st : DigestState) (name : str) :
    tree_prog (Result DigestState) :=
  let path := Beneath (pinned source_dir) name in
  let relative := relative_name prefix name in
  try before <- or_code "checkpoint_tree_entry_metadata_failed" (call_ (SymlinkMetadata path));
  if is_symlink before then Ret (fails "checkpoint_symlink_forbidden")
  else if is_dir before then hash_below path relative (record_dir st relative)
  else if is_file before then hash_file path relative before st
  else Ret (fails "checkpoint_special_file_forbidden").

Fixpoint hash_dir_recursive (fuel : nat) (root : place) (prefix : str) (st : DigestState) :
    tree_prog (Result DigestState) :=
  match fuel with
  | O => Ret (fails "checkpoint_depth_limit")
  | S fuel =>
    try source_dir <- pin_directory root;
    try_fold (hash_entry (hash_dir_recursive fuel) source_dir prefix) (names source_dir) st
  end.

(** Levels 0 to [MAX_CHECKPOINT_DEPTH]. *)
Definition LEVELS : nat := N.to_nat (MAX_CHECKPOINT_DEPTH + 1).

Definition copy_tree_and_digest `{Sha256} (source destination : place) :
    tree_prog (Result TreeDigest) :=
  try st <- copy_dir_recursive LEVELS source destination [] digest_new; Ret (Ok (finish st)).

Definition digest_tree `{Sha256} (root : place) : tree_prog (Result TreeDigest) :=
  try st <- hash_dir_recursive LEVELS root [] digest_new; Ret (Ok (finish st)).

(** ** Files and directories of the store *)

Definition reject_symlink (path : str) (code : string) : tree_prog (Result unit) :=
  do r <- call_ (SymlinkMetadata (PathAt path));
  Ret (match r with
       | Ok metadata => if is_symlink metadata then fails code else Ok tt
       | Err NotFound => Ok tt
       | Err _ => fails "checkpoint_path_metadata_failed"
       end).

Definition canonical_private_dir (path : str) : tree_prog (Result str) :=
  try canonical <- or_code "checkpoint_app_private_root_unavailable" (call_ (Canonicalize path));
  try metadata <- or_code "checkpoint_app_private_root_unavailable"
                    (call_ (Metadata (PathAt canonical)));
  Ret (if negb (is_dir metadata) then fails "checkpoint_app_private_root_invalid" else Ok canonical).

Definition create_or_verify_private_child (parent name : str) : tree_prog (Result str) :=
  if bool_decide (name = []) || contains_char 47 name || contains_char 92 name
     || existsb is_control name then
    Ret (fails "checkpoint_fixed_child_name_invalid")
  else
    let child := push_str parent name in
    try _ <- reject_symlink child "checkpoint_fixed_child_is_symlink";
    do created <- call_ (CreateDir (PathAt child));
    try _ <- give (match created with
                   | Ok _ | Err AlreadyExists => Ok tt
                   | Err _ => fails "checkpoint_fixed_child_create_failed"
                   end);
    try _ <- reject_symlink child "checkpoint_fixed_child_is_symlink";
    try canonical <- or_code "checkpoint_fixed_child_unavailable" (call_ (Canonicalize child));
    if negb (same_path canonical child) || negb (has_parent canonical parent) then
      Ret (fails "checkpoint_fixed_child_containment_failed")
    else
      try _ <- set_private_dir_mode (PathAt canonical);
      Ret (Ok canonical).

Definition exchange_children (parent left right : str) : tree_prog (Result unit) :=
  try parent_fd <- or_code "checkpoint_exchange_parent_open_failed" (call_ (OpenDir (PathAt parent)));
  if contains_char 0 left || contains_char 0 right then
    Ret (fails "checkpoint_exchange_name_invalid")
  else
    or_code "checkpoint_atomic_exchange_failed" (call_ (Exchange parent_fd left right)).

Section store.
Context `{UuidLib, Sha256, MetadataJson}.

(** The loop of [list_checkpoint_ids]. *)
Fixpoint checkpoint_entries (parent : str) (ids : list CheckpointId) (entries : list (option bytes)) :
    tree_prog (Result (list CheckpointId)) :=
  match entries with
  | [] => Ret (Ok ids)
  | None :: _ => Ret (fails "checkpoint_list_failed")
  | Some raw :: entries =>
    match from_utf8 raw with
    | None => Ret (fails "checkpoint_directory_name_invalid")
    | Some name =>
      if starts_with CHECKPOINT_TEMP_PREFIX name then checkpoint_entries parent ids entries
      else
        match uuid_parse name with
        | None => Ret (fails "checkpoint_directory_name_invalid")
        | Some uuid =>
          if negb (str_eqb (uuid_hyphenated uuid) name) then
            Ret (fails "checkpoint_directory_name_noncanonical")
          else
            try meta <- or_code "checkpoint_directory_metadata_failed"
                          (call_ (SymlinkMetadata (Entry (PathAt parent) raw)));
            if is_symlink meta || negb (is_dir meta) then Ret (fails "checkpoint_directory_invalid")
            else
              let ids := ids ++ [MkCheckpointId uuid] in
              if MAX_CHECKPOINTS_PER_PROJECT <? len ids then
                Ret (fails "checkpoint_project_limit_exceeded")
              else checkpoint_entries parent ids entries
        end
    end
  end.

(** Ids are ordered by their 16 bytes, which is their order as numbers. *)
Definition list_checkpoint_ids (parent : str) : tree_prog (Result (list CheckpointId)) :=
  try metadata <- or_code "checkpoint_project_directory_unavailable"
                    (call_ (SymlinkMetadata (PathAt parent)));
  if is_symlink metadata || negb (is_dir metadata) then
    Ret (fails "checkpoint_project_directory_invalid")
  else
    try entries <- or_code "checkpoint_list_failed" (call_ (ReadDir (PathAt parent)));
    try ids <- checkpoint_entries parent [] entries;
    Ret (Ok (sort_by (fun id => [checkpoint_uuid id]) ids)).

Definition temp_name (id : CheckpointId) : str :=
  CHECKPOINT_TEMP_PREFIX ++ uuid_hyphenated (checkpoint_uuid id).

(** The loop [for _ in 0..8]. *)
Fixpoint fresh_checkpoint_id (tries : nat) (parent : str) : tree_prog (Result CheckpointId) :=
  match tries with
  | O => Ret (fails "checkpoint_id_collision")
  | S tries =>
    do uuid <- call_ NewUuid;
    let id := MkCheckpointId uuid in
    do final_exists <- call_ (Exists (PathAt (push_str parent (uuid_hyphenated uuid))));
    if (final_exists : bool) then fresh_checkpoint_id tries parent
    else
      do temp_exists <- call_ (Exists (PathAt (push_str parent (temp_name id))));
      if (temp_exists : bool) then fresh_checkpoint_id tries parent else Ret (Ok id)
  end.

Definition write_metadata (path : str) (metadata : CheckpointMetadata) : tree_prog (Result unit) :=
  match metadata_to_vec metadata with
  | None => Ret (fails "checkpoint_metadata_serialize_failed")
  | Some bs =>
    if MAX_METADATA_BYTES <? len bs then Ret (fails "checkpoint_metadata_too_large")
    else
      try file <- or_code "checkpoint_metadata_create_failed"
                    (call_ (CreateNew (PathAt path) PRIVATE_FILE_MODE));
      try _ <- or_code "checkpoint_metadata_write_failed" (call_ (WriteAll file bs));
      or_code "checkpoint_metadata_sync_failed" (call_ (SyncAll file))
  end.

(** What [cleanup_rollback_staging] and [cleanup_checkpoint_temps] remove: canonical
    names with a prefix. *)
Definition leftover (prefix : str) (raw : bytes) : bool :=
  match from_utf8 raw with
  | None => false
  | Some name =>
    starts_with prefix name &&
    match uuid_parse (drop (length prefix) name) with
    | Some uuid => str_eqb (uuid_hyphenated uuid) (drop (length prefix) name)
    | None => false
    end
  end.

Fixpoint cleanup_entries (prefix : str) (list_failed stat_failed failed invalid : string)
    (dir : place) (entries : list (option bytes)) : tree_prog (Result unit) :=
  match entries with
  | [] => Ret (Ok tt)
  | None :: _ => Ret (fails list_failed)
  | Some raw :: entries =>
    if leftover prefix raw then
      let path := Entry dir raw in
      try metadata <- or_code stat_failed (call_ (SymlinkMetadata path));
      try _ <- (if is_symlink metadata then or_code failed (call_ (RemoveFile path))
                else if is_dir metadata then or_code failed (call_ (RemoveDirAll path))
                else Ret (fails invalid));
      cleanup_entries prefix list_failed stat_failed failed invalid dir entries
    else cleanup_entries prefix list_failed stat_failed failed invalid dir entries
  end.

Section methods.
Context (self : LocalCheckpointStore).

Definition cleanup_rollback_staging : tree_prog (Result unit) :=
  let dir := PathAt (projects_root self) in
  try entries <- or_code "checkpoint_projects_list_failed" (call_ (ReadDir dir));
  cleanup_entries ROLLBACK_TEMP_PREFIX "checkpoint_projects_list_failed"
    "checkpoint_rollback_cleanup_metadata_failed" "checkpoint_rollback_cleanup_failed"
    "checkpoint_rollback_staging_invalid" dir entries.

Fixpoint cleanup_projects (entries : list (option bytes)) : tree_prog (Result unit) :=
  match entries with
  | [] => Ret (Ok tt)
  | None :: _ => Ret (fails "checkpoint_cleanup_list_failed")
  | Some raw :: entries =>
    let project := Entry (PathAt (checkpoints_root self)) raw in
    try project_meta <- or_code "checkpoint_cleanup_metadata_failed"
                          (call_ (SymlinkMetadata project));
    if is_symlink project_meta || negb (is_dir project_meta) then
      Ret (fails "checkpoint_project_directory_invalid")
    else
      try found <- or_code "checkpoint_cleanup_list_failed" (call_ (ReadDir project));
      try _ <- cleanup_entries CHECKPOINT_TEMP_PREFIX "checkpoint_cleanup_list_failed"
                 "checkpoint_cleanup_metadata_failed" "checkpoint_temp_cleanup_failed"
                 "checkpoint_temp_staging_invalid" project found;
      cleanup_projects entries
  end.

Definition cleanup_checkpoint_temps : tree_prog (Result unit) :=
  try entries <- or_code "checkpoint_cleanup_list_failed"
                   (call_ (ReadDir (PathAt (checkpoints_root self))));
  cleanup_projects entries.

Definition lock_gate {A} (body : tree_prog (Result A)) : tree_prog (Result A) :=
  if gate_poisoned self then Ret (fails "checkpoint_gate_poisoned") else body.

Definition project_name (id : ProjectId) : str := uuid_hyphenated (project_uuid id).
Definition expected_project_root (id : ProjectId) : str :=
  push_str (projects_root self) (project_name id).

Definition verify_project (project : ProjectRef) : tree_prog (Result unit) :=
  let expected := expected_project_root (pr_id project) in
  if negb (same_path (pr_root project) expected) || negb (has_root (pr_root project)) then
    Ret (fails "checkpoint_project_root_mismatch")
  else
    try metadata <- or_code "checkpoint_project_root_unavailable"
                      (call_ (SymlinkMetadata (PathAt (pr_root project))));
    if is_symlink metadata || negb (is_dir metadata) then
      Ret (fails "checkpoint_project_root_invalid")
    else
      try canonical <- or_code "checkpoint_project_root_unavailable"
                         (call_ (Canonicalize (pr_root project)));
      Ret (if negb (same_path canonical expected)
              || negb (path_starts_with canonical (projects_root self))
           then fails "checkpoint_project_root_not_contained" else Ok tt).

Definition project_checkpoint_dir (id : ProjectId) : str :=
  push_str (checkpoints_root self) (project_name id).
Definition checkpoint_dir (project_id : ProjectId) (id : CheckpointId) : str :=
  push_str (project_checkpoint_dir project_id) (uuid_hyphenated (checkpoint_uuid id)).

(** The end of [load_metadata_sync]. *)
Definition decode_metadata (project_id : ProjectId) (id : CheckpointId) (bs : bytes) :
    Result CheckpointMetadata :=
  let? parsed := ok_or (metadata_from_slice bs)
                   (checkpoint_error (u "checkpoint_metadata_json_invalid")) in
  let? _ := CheckpointMetadata_validate parsed in
  if bool_decide (cm_project_id parsed = project_id)
     && bool_decide (cm_checkpoint_id parsed = id)
  then Ok parsed else fails "checkpoint_metadata_identity_mismatch".

Definition load_metadata_sync (project_id : ProjectId) (id : CheckpointId) :
    tree_prog (Result (option CheckpointMetadata)) :=
  let dir := checkpoint_dir project_id id in
  do found <- call_ (SymlinkMetadata (PathAt dir));
  match found with
  | Err NotFound => Ret (Ok None)
  | Err _ => Ret (fails "checkpoint_directory_metadata_failed")
  | Ok metadata =>
    if is_symlink metadata || negb (is_dir metadata) then Ret (fails "checkpoint_directory_invalid")
    else
      try file <- or_code "checkpoint_metadata_open_failed"
                    (call_ (OpenFile (PathAt (push_str dir METADATA_NAME))));
      try metadata <- or_code "checkpoint_metadata_stat_failed" (call_ (FileMetadata file));
      if negb (is_file metadata) || negb (st_nlink metadata =? 1)
         || (MAX_METADATA_BYTES <? stat_len metadata) then
        Ret (fails "checkpoint_metadata_invalid")
      else
        try bs <- or_code "checkpoint_metadata_read_failed"
                    (call_ (ReadToEnd file (MAX_METADATA_BYTES + 1)));
        Ret (if MAX_METADATA_BYTES <? len bs then fails "checkpoint_metadata_too_large"
             else let? parsed := decode_metadata project_id id bs in Ok (Some parsed))
  end.

(** ** Creating a checkpoint *)

(** The closure that fills and publishes the temporary directory: once the tree is copied
    and digested, and before. *)
Definition publish (project : ProjectRef) (reason : CheckpointReason) (id : CheckpointId)
    (dir temp_dir final_dir : str) (copied : TreeDigest) : tree_prog (Result CheckpointMetadata) :=
  do now <- call_ Now;
  try now <- give (ok_or now (checkpoint_error (u "checkpoint_clock_invalid")));
  if u64_max <? now then Ret (fails "checkpoint_clock_overflow")
  else
    let metadata :=
      {| cm_schema := CHECKPOINT_SCHEMA_V1; cm_checkpoint_id := id;
         cm_project_id := pr_id project; created_unix_ms := now; cm_reason := reason;
         file_count := td_file_count copied; total_bytes := td_total_bytes copied;
         tree_sha256 := td_sha256 copied |} in
    try _ <- give (CheckpointMetadata_validate metadata);
    try _ <- write_metadata (push_str temp_dir METADATA_NAME) metadata;
    try _ <- sync_dir (PathAt (push_str temp_dir SNAPSHOT_TREE_NAME));
    try _ <- sync_dir (PathAt temp_dir);
    try _ <- or_code "checkpoint_publish_rename_failed"
               (call_ (Rename (PathAt temp_dir) (PathAt final_dir)));
    try _ <- sync_dir (PathAt dir);
    Ret (Ok metadata).

Definition fill_and_publish (project : ProjectRef) (reason : CheckpointReason) (id : CheckpointId)
    (dir temp_dir final_dir : str) : tree_prog (Result CheckpointMetadata) :=
  let tree := PathAt (push_str temp_dir SNAPSHOT_TREE_NAME) in
  let root := PathAt (pr_root project) in
  try _ <- or_code "checkpoint_tree_create_failed" (call_ (CreateDir tree));
  try _ <- set_private_dir_mode tree;
  try source_before <- digest_tree root;
  try copied <- copy_tree_and_digest root tree;
  try copied_verify <- digest_tree tree;
  if negb (bool_decide (copied = copied_verify)) then
    Ret (fails "checkpoint_copy_integrity_mismatch")
  else
    try source_after <- digest_tree root;
    if negb (bool_decide (source_before = copied)) || negb (bool_decide (copied = source_after)) then
      Ret (fails "checkpoint_source_changed_during_snapshot")
    else publish project reason id dir temp_dir final_dir copied.

Definition create_checkpoint_sync (project : ProjectRef) (reason : CheckpointReason) :
    tree_prog (Result CheckpointMetadata) :=
  try _ <- verify_project project;
  lock_gate (
    try dir <- create_or_verify_private_child (checkpoints_root self) (project_name (pr_id project));
    try existing <- list_checkpoint_ids dir;
    if MAX_CHECKPOINTS_PER_PROJECT <=? len existing then
      Ret (fails "checkpoint_project_limit_reached")
    else
      try id <- fresh_checkpoint_id 8 dir;
      let temp_dir := push_str dir (temp_name id) in
      try _ <- or_code "checkpoint_temp_create_failed" (call_ (CreateDir (PathAt temp_dir)));
      try _ <- set_private_dir_mode (PathAt temp_dir);
      let final_dir := push_str dir (uuid_hyphenated (checkpoint_uuid id)) in
      do result <- fill_and_publish project reason id dir temp_dir final_dir;
      if is_err result then
        do there <- call_ (Exists (PathAt temp_dir));
        if (there : bool) then do _ <- call_ (RemoveDirAll (PathAt temp_dir)); Ret result
        else Ret result
      else Ret result).

(** ** Rolling back *)

Definition staging_name (fresh : N) : str := ROLLBACK_TEMP_PREFIX ++ uuid_hyphenated fresh.

(** What is done when the exchanged project does not stand: exchange again and sync. *)
Definition recover (project_id : ProjectId) (staging : str) (code : string) :
    tree_prog (Result RollbackResult) :=
  do recovery <- (try _ <- exchange_children (projects_root self) (project_name project_id) staging;
                  sync_dir (PathAt (projects_root self)));
  if is_err recovery then Ret (fails "checkpoint_rollback_recovery_failed")
  else
    do _ <- call_ (RemoveDirAll (PathAt (push_str (projects_root self) staging)));
    Ret (fails code).

Definition exchange_and_verify (project : ProjectRef) (id : CheckpointId) (staging : str)
    (metadata : CheckpointMetadata) (snapshot_digest : TreeDigest) :
    tree_prog (Result RollbackResult) :=
  let projects := PathAt (projects_root self) in
  try _ <- exchange_children (projects_root self) (project_name (pr_id project)) staging;
  do synced <- sync_dir projects;
  if is_err synced then
    recover (pr_id project) staging "checkpoint_rollback_exchange_sync_failed"
  else
    do restored <- digest_tree (PathAt (pr_root project));
    if negb (bool_decide (match restored with Ok d => Some d | Err _ => None end
                          = Some snapshot_digest)) then
      recover (pr_id project) staging "checkpoint_rollback_post_exchange_verify_failed"
    else
      do removed <- call_ (RemoveDirAll (PathAt (push_str (projects_root self) staging)));
      do _ <- (if is_ok removed then sync_dir projects else Ret (Ok tt));
      Ret (Ok {| rb_project_id := pr_id project; rb_checkpoint_id := id;
                 restored_file_count := file_count metadata;
                 restored_total_bytes := total_bytes metadata;
                 rb_tree_sha256 := tree_sha256 metadata |}).

(** The block for Android and Linux. *)
Definition stage_and_exchange (project : ProjectRef) (id : CheckpointId) (metadata : CheckpointMetadata)
    (snapshot_tree : place) (snapshot_digest : TreeDigest) : tree_prog (Result RollbackResult) :=
  do fresh <- call_ NewUuid;
  let staging := PathAt (push_str (projects_root self) (staging_name fresh)) in
  try _ <- or_code "checkpoint_rollback_stage_create_failed" (call_ (CreateDir staging));
  try _ <- set_private_dir_mode staging;
  do staged <- copy_tree_and_digest snapshot_tree staging;
  match staged with
  | Err error => do _ <- call_ (RemoveDirAll staging); Ret (Err error)
  | Ok staged =>
    try verified <- (if negb (bool_decide (staged = snapshot_digest)) then Ret (Ok false)
                     else
                       try again <- digest_tree staging;
                       Ret (Ok (bool_decide (again = snapshot_digest))));
    if negb verified then
      do _ <- call_ (RemoveDirAll staging);
      Ret (fails "checkpoint_rollback_stage_integrity_failed")
    else exchange_and_verify project id (staging_name fresh) metadata snapshot_digest
  end.

Definition rollback_sync (project : ProjectRef) (id : CheckpointId) :
    tree_prog (Result RollbackResult) :=
  try _ <- verify_project project;
  lock_gate (
    try found <- load_metadata_sync (pr_id project) id;
    try metadata <- give (ok_or found (checkpoint_error (u "checkpoint_not_found")));
    let snapshot_tree := PathAt (push_str (checkpoint_dir (pr_id project) id)
                                   SNAPSHOT_TREE_NAME) in
    try snapshot_digest <- digest_tree snapshot_tree;
    if negb (bool_decide (td_sha256 snapshot_digest = tree_sha256 metadata))
       || negb (td_file_count snapshot_digest =? file_count metadata)
       || negb (td_total_bytes snapshot_digest =? total_bytes metadata) then
      Ret (fails "checkpoint_integrity_verification_failed")
    else stage_and_exchange project id metadata snapshot_tree snapshot_digest).

(** ** Listing and removing *)

(** Newest first, then by descending id. *)
Definition newer_first (a b : CheckpointMetadata) : bool :=
  (created_unix_ms b <? created_unix_ms a)
  || ((created_unix_ms b =? created_unix_ms a)
      && (checkpoint_uuid (cm_checkpoint_id b) <=? checkpoint_uuid (cm_checkpoint_id a))).

Fixpoint insert_newest (x : CheckpointMetadata) (l : list CheckpointMetadata) :
    list CheckpointMetadata :=
  match l with
  | [] => [x]
  | y :: l' => if newer_first x y then x :: l else y :: insert_newest x l'
  end.

Definition list_checkpoints (project_id : ProjectId) (max_results : N) :
    tree_prog (Result (list CheckpointMetadata)) :=
  if (max_results =? 0) || (MAX_CHECKPOINTS_PER_PROJECT <? max_results) then
    Ret (fails "checkpoint_list_limit_invalid")
  else
    lock_gate (
      let dir := project_checkpoint_dir project_id in
      do there <- call_ (Exists (PathAt dir));
      if negb there then Ret (Ok [])
      else
        try ids <- list_checkpoint_ids dir;
        try out <- try_fold (fun out id =>
                     try found <- load_metadata_sync project_id id;
                     Ret (Ok (out ++ match found with Some m => [m] | None => [] end))) ids [];
        Ret (Ok (take (N.to_nat max_results) (foldr insert_newest [] out)))).

Definition load_checkpoint (project_id : ProjectId) (id : CheckpointId) :
    tree_prog (Result (option CheckpointMetadata)) :=
  lock_gate (load_metadata_sync project_id id).

Definition remove_checkpoint (project_id : ProjectId) (id : CheckpointId) : tree_prog (Result unit) :=
  lock_gate (
    let dir := checkpoint_dir project_id id in
    try metadata <- or_code "checkpoint_not_found" (call_ (SymlinkMetadata (PathAt dir)));
    if is_symlink metadata || negb (is_dir metadata) then Ret (fails "checkpoint_directory_invalid")
    else
      try _ <- or_code "checkpoint_remove_failed" (call_ (RemoveDirAll (PathAt dir)));
      sync_dir (PathAt (project_checkpoint_dir project_id))).
End methods.

Definition initialize (app_private_dir : str) : tree_prog (Result LocalCheckpointStore) :=
  if negb (has_root app_private_dir) then
    Ret (fails "checkpoint_app_private_root_not_absolute")
  else
    try _ <- reject_symlink app_private_dir "checkpoint_app_private_root_is_symlink";
    try app_private_root <- canonical_private_dir app_private_dir;
    try product_root <- create_or_verify_private_child app_private_root PRODUCT_ROOT_NAME;
    try projects_root <- create_or_verify_private_child product_root PROJECTS_ROOT_NAME;
    try checkpoints_root <- create_or_verify_private_child product_root CHECKPOINTS_ROOT_NAME;
    if negb (path_starts_with projects_root app_private_root)
       || negb (path_starts_with checkpoints_root app_private_root) then
      Ret (fails "checkpoint_root_escaped_app_private_root")
    else
      let store := {| projects_root := projects_root; checkpoints_root := checkpoints_root;
                      gate_poisoned := false |} in
      try _ <- cleanup_rollback_staging store;
      try _ <- cleanup_checkpoint_temps store;
      Ret (Ok store).
End store.
