(* ===== verification/TreeDigest.v ===== *)
(** * What the digest of a tree says ([vibecoder-checkpoint-local])

    A project as the checkpoint store sees it: names, contents and the executable
    bit.  [dir_bytes] are the bytes that walking a directory hashes; they determine
    the tree, although no entry marks where a directory ends. *)
From S2P Require Import Prelude RustStr StrFacts RustPath Domain Program OsCalls.
From S2P Require Import CheckpointStore Checkpoint.

Inductive tree :=
| File (exec : bool) (content : bytes)
| Dir (kids : forest)
with forest :=
| Empty
| Kid (name : str) (t : tree) (rest : forest).

Scheme tree_forest_ind := Induction for tree Sort Prop
with forest_tree_ind := Induction for forest Sort Prop.

(** What is hashed for one entry, and for what is in a directory. *)
Fixpoint entry_bytes (prefix name : str) (t : tree) : bytes :=
  let relative := relative_name prefix name in
  match t with
  | File exec content =>
    as_bytes (u "F") ++ path_bytes relative ++ be_bytes 8 (len content) ++ [bool_byte exec] ++ content
  | Dir kids => as_bytes (u "D") ++ path_bytes relative ++ dir_bytes relative kids
  end
with dir_bytes (prefix : str) (kids : forest) : bytes :=
  match kids with
  | Empty => []
  | Kid name t rest => entry_bytes prefix name t ++ dir_bytes prefix rest
  end.

(** Files and bytes of a tree. *)
Fixpoint tree_files (t : tree) : N :=
  match t with File _ _ => 1 | Dir kids => kids_files kids end
with kids_files (kids : forest) : N :=
  match kids with Empty => 0 | Kid _ t rest => tree_files t + kids_files rest end.
Fixpoint tree_size (t : tree) : N :=
  match t with File _ content => len content | Dir kids => kids_size kids end
with kids_size (kids : forest) : N :=
  match kids with Empty => 0 | Kid _ t rest => tree_size t + kids_size rest end.

(** Names the walk accepts, and sizes a file can have. *)
Definition name_ok (name : str) : Prop := name_forbidden name = false /\ Forall scalar name.

Fixpoint tree_ok (t : tree) : Prop :=
  match t with File _ content => len content < 2 ^ 64 | Dir kids => kids_ok kids end
with kids_ok (kids : forest) : Prop :=
  match kids with
  | Empty => True
  | Kid name t rest => name_ok name /\ tree_ok t /\ kids_ok rest
  end.

(** ** The bytes determine the tree *)

Lemma name_ok_no_slash name : name_ok name -> name <> [] /\ 47 ∉ name.
Proof.
  intros [Hf _]. unfold name_forbidden in Hf. repeat (apply orb_false_iff in Hf as [Hf ?]).
  bool_prop. split; [done|]. by apply contains_char_false.
Qed.

(** [prefix/]: what the paths of everything in a directory start with. *)
Definition within_dir (prefix : str) : str := if bool_decide (prefix = []) then [] else prefix ++ u "/".

Lemma relative_within prefix name : relative_name prefix name = within_dir prefix ++ name.
Proof. unfold relative_name, within_dir. case_bool_decide; [done|]. by rewrite <-app_assoc. Qed.

(** The paths under a directory, and those that are not. *)
Definition below (prefix path : str) : Prop := within_dir prefix `prefix_of` path.

Lemma below_relative prefix name : below prefix (relative_name prefix name).
Proof. rewrite relative_within. by eexists. Qed.

Lemma within_relative prefix name : name <> [] -> within_dir (relative_name prefix name) = within_dir prefix ++ name ++ u "/".
Proof.
  intros Hn. unfold within_dir at 1. rewrite bool_decide_false.
  - by rewrite relative_within, <-app_assoc.
  - rewrite relative_within. intros [_ ?]%app_eq_nil. done.
Qed.

(** What is not below a directory is not below an entry of it, and a sibling is not. *)
Lemma not_below_entry prefix name path :
  name <> [] -> ~ below prefix path -> ~ below (relative_name prefix name) path.
Proof.
  intros Hn Hp Hb. apply Hp. unfold below in Hb. rewrite within_relative in Hb by done.
  destruct Hb as [k ->]. rewrite <-!app_assoc. by eexists.
Qed.

Lemma sibling_not_below prefix n m :
  n <> [] -> 47 ∉ m -> ~ below (relative_name prefix n) (relative_name prefix m).
Proof.
  intros Hn Hm Hb. unfold below in Hb. rewrite within_relative, relative_within in Hb by done.
  destruct Hb as [k Hk]. rewrite <-app_assoc in Hk. apply app_inv_head in Hk as ->.
  apply Hm. rewrite !elem_of_app. left. right. by left.
Qed.

(** Every path fits the length field, as every string in memory does. *)
Definition path_fits (path : str) : Prop := blen path < 2 ^ 64 /\ Forall scalar path.

Fixpoint fits (prefix : str) (kids : forest) : Prop :=
  match kids with
  | Empty => True
  | Kid name t rest =>
    path_fits (relative_name prefix name) /\ tree_fits (relative_name prefix name) t /\ fits prefix rest
  end
with tree_fits (relative : str) (t : tree) : Prop :=
  match t with File _ _ => True | Dir kids => fits relative kids end.

Lemma path_bytes_inj p q r k :
  path_fits p -> path_fits q -> path_bytes p ++ r = path_bytes q ++ k -> p = q /\ r = k.
Proof.
  intros [Hp Hsp] [Hq Hsq] Heq. unfold path_bytes in Heq. rewrite <-!app_assoc in Heq.
  apply be_bytes_inj in Heq as [Hlen Heq]; [|done..]. apply app_inj_1 in Heq as [Heq ->].
  - by apply as_bytes_inj in Heq.
  - apply Nat2N.inj. change (len (as_bytes p) = len (as_bytes q)). by rewrite !len_as_bytes.
Qed.

(** What follows the entries of a directory does not start with one of its paths. *)
Definition stops (prefix : str) (rest : bytes) : Prop :=
  forall tag path r, path_fits path -> rest = tag :: path_bytes path ++ r -> ~ below prefix path.

Lemma entry_bytes_head prefix name t :
  exists tag r, entry_bytes prefix name t = tag :: path_bytes (relative_name prefix name) ++ r.
Proof. destruct t; cbn [entry_bytes]; by eexists _, _. Qed.

(** What follows an entry stops its paths, if what follows the directory stops the directory's. *)
Lemma stops_entry prefix name rest r :
  name_ok name -> kids_ok rest -> fits prefix rest -> stops prefix r ->
  stops (relative_name prefix name) (dir_bytes prefix rest ++ r).
Proof.
  intros [Hne _]%name_ok_no_slash Hok Hfit Hr tag path r' Hpath Heq.
  destruct rest as [|m t rest]; cbn [dir_bytes app] in Heq.
  - apply not_below_entry; [done|]. by eapply Hr.
  - destruct (entry_bytes_head prefix m t) as (tag' & s & Hhead). rewrite Hhead in Heq.
    apply (f_equal tail) in Heq. cbn [app tail] in Heq. rewrite <-!app_assoc in Heq.
    destruct Hok as (Hm & _ & _), Hfit as (Hmfit & _ & _).
    apply path_bytes_inj in Heq as [<- _]; [|done..]. apply name_ok_no_slash in Hm as [_ Hm].
    by apply sibling_not_below.
Qed.

Lemma relative_name_inj prefix n m : relative_name prefix n = relative_name prefix m -> n = m.
Proof. rewrite !relative_within. apply app_inv_head. Qed.

Lemma dir_bytes_inj_from kids :
  forall prefix kids' r r', kids_ok kids -> kids_ok kids' -> fits prefix kids -> fits prefix kids' ->
    stops prefix r -> stops prefix r' ->
    dir_bytes prefix kids ++ r = dir_bytes prefix kids' ++ r' -> kids = kids' /\ r = r'.
Proof.
  apply (forest_tree_ind
    (fun t => forall prefix name t' r r', tree_ok t -> tree_ok t' ->
       path_fits (relative_name prefix name) ->
       tree_fits (relative_name prefix name) t -> tree_fits (relative_name prefix name) t' ->
       stops (relative_name prefix name) r -> stops (relative_name prefix name) r' ->
       entry_bytes prefix name t ++ r = entry_bytes prefix name t' ++ r' -> t = t' /\ r = r')
    (fun kids => forall prefix kids' r r', kids_ok kids -> kids_ok kids' ->
       fits prefix kids -> fits prefix kids' -> stops prefix r -> stops prefix r' ->
       dir_bytes prefix kids ++ r = dir_bytes prefix kids' ++ r' -> kids = kids' /\ r = r')).
  - intros exec content prefix name t' r r' Hok Hok' Hfit _ _ _ _ Heq.
    destruct t' as [exec' content'|]; cbn [entry_bytes] in Heq; [|done].
    rewrite <-!app_assoc in Heq. apply app_inv_head in Heq.
    apply path_bytes_inj in Heq as [_ Heq]; [|done..].
    apply be_bytes_inj in Heq as [Hlen Heq]; [|done..]. injection Heq as Hexec Heq.
    apply app_inj_1 in Heq as [-> ->]; [|by apply Nat2N.inj]. split; [|done].
    by destruct exec, exec'.
  - intros kids1 IH prefix name t' r r' Hok Hok' Hfit Hf Hf' Hs Hs' Heq.
    destruct t' as [|kids2]; cbn [entry_bytes] in Heq; [done|].
    rewrite <-!app_assoc in Heq. apply app_inv_head in Heq.
    apply path_bytes_inj in Heq as [_ Heq]; [|done..].
    by destruct (IH (relative_name prefix name) kids2 r r') as [-> ->].
  - intros prefix [|m t' rest'] r r' _ Hok' _ Hf' Hs Hs' Heq; [done|]. exfalso.
    cbn [dir_bytes app] in Heq. destruct (entry_bytes_head prefix m t') as (tag & s & Hh).
    rewrite Hh, <-!app_assoc in Heq. destruct Hf' as (Hmfit & _ & _).
    eapply (Hs tag (relative_name prefix m)); [done| |apply below_relative].
    rewrite Heq. cbn [app]. by rewrite <-!app_assoc.
  - intros n t1 IHt rest IHr prefix [|m t2 rest'] r r' Hok Hok' Hf Hf' Hs Hs' Heq.
    + exfalso. cbn [dir_bytes app] in Heq. destruct (entry_bytes_head prefix n t1) as (tag & s & Hh).
      rewrite Hh, <-!app_assoc in Heq. destruct Hf as (Hnfit & _ & _).
      eapply (Hs' tag (relative_name prefix n)); [done| |apply below_relative].
      rewrite <-Heq. cbn [app]. by rewrite <-!app_assoc.
    + cbn [dir_bytes] in Heq. rewrite <-!app_assoc in Heq.
      destruct Hok as (Hn & Hok1 & Hrest), Hok' as (Hm & Hok2 & Hrest').
      destruct Hf as (Hnfit & Hf1 & Hf), Hf' as (Hmfit & Hf2 & Hf').
      assert (n = m) as <-.
      { destruct (entry_bytes_head prefix n t1) as (tag & s & Hh1).
        destruct (entry_bytes_head prefix m t2) as (tag' & s' & Hh2).
        pose proof Heq as Hhead. rewrite Hh1, Hh2 in Hhead. apply (f_equal tail) in Hhead.
        cbn [app tail] in Hhead. rewrite <-!app_assoc in Hhead.
        apply path_bytes_inj in Hhead as [Hhead _]; [|done..]. by apply relative_name_inj in Hhead. }
      destruct (IHt prefix n t2 (dir_bytes prefix rest ++ r) (dir_bytes prefix rest' ++ r'))
        as [-> Heq']; try done; [by apply stops_entry..|].
      by destruct (IHr prefix rest' r r') as [-> ->].
Qed.

Lemma stops_nil prefix : stops prefix [].
Proof. by intros tag path r _ Heq. Qed.

(** The digest identifies a tree: the bytes that walking a directory hashes determine
    every name, every content and every executable bit below it. *)
Lemma tree_bytes_injective kids kids' :
  kids_ok kids -> kids_ok kids' -> fits [] kids -> fits [] kids' ->
  dir_bytes [] kids = dir_bytes [] kids' -> kids = kids'.
Proof.
  intros Hok Hok' Hf Hf' Heq. destruct (dir_bytes_inj_from kids [] kids' [] []) as [-> _];
    [done..|apply stops_nil|apply stops_nil|by rewrite Heq|done].
Qed.
