(* ===== verification/TreeSystem.v ===== *)
(** * Directory trees that are copied, moved and removed

    The calls of [CheckpointStore.v] on the file system of [FileSystem.v].  As there, a call
    that fails changes nothing, except that a failed write may leave any content and a
    failed [remove_dir_all] may have removed anything below; nobody else changes the
    tree, paths go through no symbolic links, and no two paths name one file.  At the
    end, a concrete file system for the witnesses. *)
From S2P Require Import Prelude RustStr StrFacts RustPath Domain Program OsCalls FileSystem.
From S2P Require Import CheckpointStore.

Fixpoint place_path (s : fs) (p : place) : option (list str) :=
  match p with
  | PathAt path => Some (absolute path)
  | SelfFd fd => fds s !! fd
  | Beneath fd name => (fun p => p ++ [name]) <$> fds s !! fd
  | Entry dir raw =>
    name ← from_utf8 raw; p ← place_path s dir; Some (p ++ [name])
  end.

(** Nothing can be done with what cannot be named. *)
Definition at_place (s : fs) (p : place) (s' : fs) (P : list str -> Prop) : Prop :=
  match place_path s p with Some q => P q | None => s' = s end.

(** ** Moving subtrees *)

(** What [x] is called once the trees at [p] and [q] have changed places. *)
Definition swap_path (p q x : list str) : list str :=
  if decide (p `prefix_of` x) then q ++ drop (length p) x
  else if decide (q `prefix_of` x) then p ++ drop (length q) x
  else x.

(** Descriptors stay with what they refer to. *)
Definition swap_trees (s : fs) (p q : list str) : fs :=
  mkFs (kmap (swap_path p q) (nodes s)) (swap_path p q <$> fds s) (positions s).

Definition remove_tree (s : fs) (p : list str) : fs :=
  mkFs (filter (fun x => ~ p `prefix_of` x.1) (nodes s)) (fds s) (positions s).

Definition apart (p q : list str) : Prop := ~ p `prefix_of` q /\ ~ q `prefix_of` p.

(** ** The calls *)

(** Nothing is below what is not there. *)
Definition makes_dir (s : fs) (p : list str) (r : IoResult unit) (s' : fs) : Prop :=
  match r with
  | Ok _ => (forall x, p `prefix_of` x -> nodes s !! x = None) /\ s' = put s p NDir
  | Err _ => s' = s
  end.

Definition removes_tree (s : fs) (p : list str) (r : IoResult unit) (s' : fs) : Prop :=
  fds s' = fds s /\ positions s' = positions s /\
  match r with
  | Ok _ => nodes s' = nodes (remove_tree s p)
  | Err _ => nodes s' ⊆ nodes s /\
             forall x, ~ p `prefix_of` x -> nodes s' !! x = nodes s !! x
  end.

Definition changes_mode (s : fs) (p : list str) (mode : N) (r : IoResult unit) (s' : fs) : Prop :=
  match r, nodes s !! p with
  | Ok _, Some (NFile _ content) => s' = put s p (NFile mode content)
  | _, _ => s' = s
  end.

(** A directory can take the place of nothing or of an empty directory. *)
Definition moves (s : fs) (p q : list str) (r : IoResult unit) (s' : fs) : Prop :=
  match r with
  | Ok _ => nodes s !! p = Some NDir /\ apart p q /\
            (nodes s !! q = None \/ nodes s !! q = Some NDir) /\
            (forall x, q `prefix_of` x -> x <> q -> nodes s !! x = None) /\
            s' = swap_trees (remove_tree s q) p q
  | Err _ => s' = s
  end.

Definition exchanges (s : fs) (p q : list str) (r : IoResult unit) (s' : fs) : Prop :=
  match r with
  | Ok _ => is_Some (nodes s !! p) /\ is_Some (nodes s !! q) /\ apart p q /\ s' = swap_trees s p q
  | Err _ => s' = s
  end.

(** A name that is not UTF-8 names nothing here. *)
Definition lists_entries (s : fs) (p : list str) (r : IoResult (list (option bytes))) (s' : fs) :
    Prop :=
  s' = s /\
  match r with
  | Ok entries => NoDup (omap id entries) /\
      (None ∉ entries -> forall name, is_Some (nodes s !! (p ++ [name])) ->
         exists raw, Some raw ∈ entries /\ from_utf8 raw = Some name)
  | Err _ => True
  end.

Definition advance (s : fs) (fd n : N) : fs :=
  mkFs (nodes s) (fds s) (<[fd := default 0 (positions s !! fd) + n]> (positions s)).

(** A read may be short, but only ends a file at its end. *)
Definition reads_next (s : fs) (fd : N) (p : list str) (n : N) (r : IoResult bytes) (s' : fs) : Prop :=
  match r with
  | Ok bs => s' = advance s fd (len bs) /\ len bs <= n /\
      forall mode content, nodes s !! p = Some (NFile mode content) ->
        bs `prefix_of` drop (N.to_nat (default 0 (positions s !! fd))) content /\
        (bs = [] -> n = 0 \/ drop (N.to_nat (default 0 (positions s !! fd))) content = [])
  | Err _ => s' = s
  end.

Definition tree_step (s : fs) (e : event tree_sig) (s' : fs) : Prop :=
  match ev_call e as c return resp c -> Prop with
  | SymlinkMetadata p => fun r => at_place s p s' (fun q => stats s q r s')
  | Metadata _ | SyncAll _ | Now | NewUuid => fun _ => s' = s
  | Canonicalize _ => fun r => s' = s /\ (forall path, r = Ok path -> has_root path = true)
  | CreateDir p => fun r => at_place s p s' (fun q => makes_dir s q r s')
  | RemoveFile p => fun r => at_place s p s' (fun q => removes s q r s')
  | RemoveDirAll p => fun r => at_place s p s' (fun q => removes_tree s q r s')
  | Exists p => fun r => at_place s p s' (fun q => s' = s /\ (r = true -> is_Some (nodes s !! q)))
  | SetPermissions p mode => fun r => at_place s p s' (fun q => changes_mode s q mode r s')
  | Rename p p' => fun r => at_place s p s' (fun q => at_place s p' s' (fun q' => moves s q q' r s'))
  | ReadDir p => fun r => at_place s p s' (fun q => lists_entries s q r s')
  | OpenDir p => fun r => at_place s p s' (fun q => opens s q (fun n => n = Some NDir) r s')
  | OpenFile p => fun r => at_place s p s' (fun q => opens s q is_Some r s')
  | CreateNew p mode => fun r => at_place s p s' (fun q => creates s q mode r s')
  | FileMetadata fd => fun r => at_place s (SelfFd fd) s' (fun q => stats s q r s')
  | Read fd n => fun r => at_place s (SelfFd fd) s' (fun q => reads_next s fd q n r s')
  | ReadToEnd fd limit => fun r => at_place s (SelfFd fd) s' (fun q => reads s q limit r s')
  | WriteAll fd bs => fun r => at_place s (SelfFd fd) s' (fun q => writes s q bs r s')
  | Exchange d a b => fun r =>
    at_place s (SelfFd d) s' (fun q => exchanges s (q ++ [a]) (q ++ [b]) r s')
  end (ev_resp e).

(** ** Lemmas *)

Lemma at_place_some {s p s' P q} : place_path s p = Some q -> at_place s p s' P -> P q.
Proof. unfold at_place. by intros ->. Qed.

Lemma at_fd_some {s fd s' P q} : fds s !! fd = Some q -> at_place s (SelfFd fd) s' P -> P q.
Proof. exact (at_place_some (p := SelfFd fd)). Qed.

Lemma at_path {s path s' P} : at_place s (PathAt path) s' P -> P (absolute path).
Proof. done. Qed.

(** Calls that only look. *)
Definition quiet (c : tree_call) : bool :=
  match c with
  | SymlinkMetadata _ | Metadata _ | Canonicalize _ | Exists _ | ReadDir _ | FileMetadata _
  | ReadToEnd _ _ | SyncAll _ | Now | NewUuid => true
  | _ => false
  end.

Lemma quiet_step s e s' : quiet (ev_call e) = true -> tree_step s e s' -> s' = s.
Proof.
  destruct e as [c r]. destruct c; try done; intros _; unfold tree_step; cbn -[place_path];
    unfold at_place; try destruct (place_path s _); try done; by intros [-> _].
Qed.

Lemma within_quiet {A} (p : tree_prog A) (Q : fs -> A -> Prop) s :
  calls_only quiet p -> (forall a, Q s a) -> within tree_step p Q s.
Proof.
  intros Hp HQ. induction p as [a|c k IH]; cbn in *; [apply HQ|]. destruct Hp as [Hc Hk].
  intros r s' Hs. apply (quiet_step _ (Ev c r)) in Hs as ->; [|done]. by apply IH.
Qed.

Lemma apart_below p q x : apart p q -> ~ p `prefix_of` q ++ x.
Proof. intros [Hpq Hqp] H. destruct (prefix_weak_total p q (q ++ x)); [done|by eexists|done|done]. Qed.

Lemma apart_sym p q : apart p q -> apart q p.
Proof. by intros [? ?]. Qed.

Lemma apart_sub p q p' q' : apart p q -> apart (p ++ p') (q ++ q').
Proof.
  intros Ha. split; intros [k Hk].
  - apply (apart_below p q q' Ha). rewrite Hk, <-app_assoc. by eexists.
  - apply (apart_below q p p' (apart_sym _ _ Ha)). rewrite Hk, <-app_assoc. by eexists.
Qed.

Lemma apart_length p q : length p = length q -> p <> q -> apart p q.
Proof.
  intros Hl Hne. split; intros [k Hk]; apply Hne; assert (k = []) as ->
    by (apply length_zero_iff_nil; apply (f_equal length) in Hk; rewrite length_app in Hk; lia);
    by rewrite app_nil_r in Hk.
Qed.

Lemma swap_path_l p q x : swap_path p q (p ++ x) = q ++ x.
Proof. unfold swap_path. rewrite decide_True by by eexists. by rewrite drop_app_length. Qed.

Lemma swap_path_r p q x : apart p q -> swap_path p q (q ++ x) = p ++ x.
Proof.
  intros Ha. unfold swap_path. rewrite decide_False by by apply apart_below.
  rewrite decide_True by by eexists. by rewrite drop_app_length.
Qed.

Lemma swap_path_other p q x : ~ p `prefix_of` x -> ~ q `prefix_of` x -> swap_path p q x = x.
Proof. intros ? ?. unfold swap_path. by rewrite !decide_False. Qed.

Lemma swap_path_involutive p q x : apart p q -> swap_path p q (swap_path p q x) = x.
Proof.
  intros Ha. destruct (decide (p `prefix_of` x)) as [[k ->]|Hp].
  - by rewrite swap_path_l, swap_path_r.
  - destruct (decide (q `prefix_of` x)) as [[k ->]|Hq].
    + by rewrite swap_path_r, swap_path_l.
    + by rewrite !(swap_path_other p q x).
Qed.

Lemma swap_trees_lookup s p q x :
  apart p q -> nodes (swap_trees s p q) !! x = nodes s !! swap_path p q x.
Proof.
  intros Ha. assert (Inj (=) (=) (swap_path p q)).
  { intros a b Hab. by rewrite <-(swap_path_involutive p q a), Hab, swap_path_involutive. }
  cbn. rewrite <-(swap_path_involutive p q x) at 1 by done. by rewrite lookup_kmap.
Qed.

Lemma remove_tree_lookup s p x :
  nodes (remove_tree s p) !! x = if decide (p `prefix_of` x) then None else nodes s !! x.
Proof.
  cbn. case_decide as Hx.
  - apply map_lookup_filter_None. right. by intros n _ Hn.
  - destruct (nodes s !! x) as [n|] eqn:Hn.
    + by apply map_lookup_filter_Some.
    + apply map_lookup_filter_None. by left.
Qed.

(** ** A concrete file system with trees

    Answers to the calls that are steps of the file system above: everything works that
    can, except, if asked for, syncing one directory.  The witnesses run the
    checkpoint store on it. *)

Section tree_disk.
Context (unsynced : option (list str)).

Definition nothing_below (s : fs) (p : list str) : bool :=
  forallb (fun q => negb (bool_decide (p `prefix_of` q))) (map_to_list (nodes s)).*1.

(** The names in a directory, if all are Unicode. *)
Definition tree_names (s : fs) (p : list str) : option (list bytes) :=
  let names := omap (fun q => if decide (removelast q = p) then last q else None)
                 (map_to_list (nodes s)).*1 in
  if forallb (fun name => bool_decide (from_utf8 (as_bytes name) = Some name)) names
  then Some (remove_dups (as_bytes <$> names)) else None.

Definition with_place {A} (s : fs) (p : place) (f : list str -> IoResult A * fs) : IoResult A * fs :=
  match place_path s p with Some q => f q | None => (Err OtherError, s) end.

Definition apartb (p q : list str) : bool :=
  negb (bool_decide (p `prefix_of` q)) && negb (bool_decide (q `prefix_of` p)).

Definition tree_disk (c : tree_call) (s : fs) : tree_resp c * fs :=
  match c as c return tree_resp c * fs with
  | SymlinkMetadata p | Metadata p => with_place s p (fun q => ex_stat_at q s)
  | Canonicalize path => (if has_root path then Ok path else Err OtherError, s)
  | CreateDir p => with_place s p (fun q =>
    if nothing_below s q then (Ok tt, put s q NDir) else (Err AlreadyExists, s))
  | RemoveFile p => with_place s p (fun q =>
    match nodes s !! q with None => (Err NotFound, s) | Some _ => (Ok tt, remove s q) end)
  | RemoveDirAll p => with_place s p (fun q => (Ok tt, remove_tree s q))
  | Exists p => (match place_path s p with Some q => is_some (nodes s !! q) | None => false end, s)
  | SetPermissions p mode => with_place s p (fun q =>
    (Ok tt, match nodes s !! q with Some (NFile _ bs) => put s q (NFile mode bs) | _ => s end))
  | Rename p p' => with_place s p (fun q => with_place s p' (fun q' =>
    if is_dir_node (nodes s !! q) && apartb q q' && nothing_below s q'
    then (Ok tt, swap_trees (remove_tree s q') q q') else (Err OtherError, s)))
  | ReadDir p => with_place s p (fun q =>
    (match tree_names s q with Some names => Ok (Some <$> names) | None => Err OtherError end, s))
  | OpenDir p => with_place s p (fun q => ex_open q is_dir_node s)
  | OpenFile p => with_place s p (fun q => ex_open q is_some s)
  | CreateNew p mode => with_place s p (fun q =>
    match nodes s !! q with
    | None => (Ok (ex_fd s), bind_fd (put s q (NFile mode [])) (ex_fd s) q)
    | Some _ => (Err AlreadyExists, s)
    end)
  | FileMetadata fd => with_place s (SelfFd fd) (fun q => ex_stat_at q s)
  | Read fd n => with_place s (SelfFd fd) (fun q =>
    match nodes s !! q with
    | Some (NFile _ content) =>
      let bs := take_bytes n (drop (N.to_nat (default 0 (positions s !! fd))) content) in
      (Ok bs, advance s fd (len bs))
    | _ => (Err OtherError, s)
    end)
  | ReadToEnd fd limit => with_place s (SelfFd fd) (fun q =>
    (match nodes s !! q with
     | Some (NFile _ bs) => Ok (take_bytes limit bs)
     | _ => Err OtherError
     end, s))
  | WriteAll fd bs => with_place s (SelfFd fd) (fun q =>
    match nodes s !! q with
    | Some (NFile mode old) => (Ok tt, put s q (NFile mode (old ++ bs)))
    | _ => (Err OtherError, s)
    end)
  | SyncAll fd => (if bool_decide (unsynced <> None /\ fds s !! fd = unsynced) then Err OtherError else Ok tt, s)
  | Exchange d a b => with_place s (SelfFd d) (fun q =>
    if is_some (nodes s !! (q ++ [a])) && is_some (nodes s !! (q ++ [b])) && apartb (q ++ [a]) (q ++ [b])
    then (Ok tt, swap_trees s (q ++ [a]) (q ++ [b])) else (Err OtherError, s))
  | Now => (Some 1000, s)
  | NewUuid => (7, s)
  end.

Ltac known := unfold at_place, with_place; repeat (destruct (place_path _ _) as [?q|]; [|done]).

Lemma nothing_below_spec s q :
  nothing_below s q = true -> forall x, q `prefix_of` x -> nodes s !! x = None.
Proof.
  unfold nothing_below. rewrite forallb_forall. intros Hall x Hx.
  destruct (nodes s !! x) as [n|] eqn:Hn; [|done].
  specialize (Hall x). rewrite bool_decide_true in Hall by done.
  assert (Hin : x ∈ (map_to_list (nodes s)).*1).
  { apply list_elem_of_fmap. exists (x, n). split; [done|]. by apply elem_of_map_to_list. }
  apply list_elem_of_In in Hin. by specialize (Hall Hin).
Qed.

Lemma apartb_spec p q : apartb p q = true -> apart p q.
Proof. unfold apartb. intros Ha. by split_bools. Qed.

Lemma tree_names_spec s p names :
  tree_names s p = Some names ->
  NoDup names /\ forall name, is_Some (nodes s !! (p ++ [name])) ->
    exists raw, raw ∈ names /\ from_utf8 raw = Some name.
Proof.
  unfold tree_names. destruct (forallb _ _) eqn:Hall; [|done]. intros [= <-].
  split; [apply NoDup_remove_dups|]. intros name [n Hn]. exists (as_bytes name).
  assert (Hin : name ∈ omap (fun q => if decide (removelast q = p) then last q else None)
                         (map_to_list (nodes s)).*1).
  { apply list_elem_of_omap. exists (p ++ [name]). split.
    - apply list_elem_of_fmap. exists (p ++ [name], n). split; [done|]. by apply elem_of_map_to_list.
    - rewrite removelast_last, decide_True by done. by rewrite last_snoc. }
  split.
  - apply elem_of_remove_dups, list_elem_of_fmap. by exists name.
  - rewrite forallb_forall in Hall. apply list_elem_of_In in Hin. specialize (Hall _ Hin). by bool_prop.
Qed.

Lemma omap_some {A} (l : list A) : omap id (Some <$> l) = l.
Proof. induction l as [|x l IH]; cbn; [done|]. by rewrite IH. Qed.

Lemma take_bytes_prefix n bs : take_bytes n bs `prefix_of` bs.
Proof.
  revert n. induction bs as [|b bs IH]; intros n; cbn; [done|]. destruct (n =? 0); [apply prefix_nil|].
  by apply prefix_cons.
Qed.

Lemma ex_read_reads s fd q n mode content :
  nodes s !! q = Some (NFile mode content) ->
  let bs := take_bytes n (drop (N.to_nat (default 0 (positions s !! fd))) content) in
  reads_next s fd q n (Ok bs) (advance s fd (len bs)).
Proof.
  intros Hn bs. split_and!; [done| |].
  - unfold bs. rewrite len_take_bytes. lia.
  - intros mode' content' Hn'. rewrite Hn in Hn'. injection Hn' as <- <-. split; [apply take_bytes_prefix|].
    intros Hnil. unfold bs in Hnil. destruct (drop _ content) as [|b rest]; [by right|]. cbn in Hnil.
    destruct (N.eqb_spec n 0); [by left|done].
Qed.

Lemma tree_disk_steps c s : tree_step s (Ev c (tree_disk c s).1) (tree_disk c s).2.
Proof.
  destruct c as [p|p|path|p|p|p|p|p mode|p p'|p|p|p|p mode|fd|fd n|fd limit|fd bs|fd|d a b| |];
    unfold tree_step; cbn -[with_place place_path]; try done.
  - known. apply ex_stat_stats.
  - unfold with_place. by destruct (place_path s p).
  - split; [done|]. intros path'. destruct (has_root path) eqn:Hr; [|done]. by intros [= <-].
  - known. destruct (nothing_below s q) eqn:Hb; [|done]. split; [by apply nothing_below_spec|done].
  - known. destruct (nodes s !! q) eqn:Hn; cbn; [by rewrite Hn|done].
  - known. by split_and!.
  - unfold at_place. destruct (place_path s p) as [q|]; [|done]. split; [done|]. apply is_some_is_Some.
  - known. unfold changes_mode. cbn. by destruct (nodes s !! q) as [[]|].
  - known. destruct (is_dir_node _) eqn:Hd; [|done]. destruct (apartb _ _) eqn:Ha; [|done].
    destruct (nothing_below _ _) eqn:Hb; [|done]. pose proof (nothing_below_spec _ _ Hb) as Hnone.
    cbn. split_and!; [by apply is_dir_node_true|by apply apartb_spec..|left; by apply Hnone|by intros; apply Hnone|done].
  - known. split; [done|]. cbn. destruct (tree_names s q) as [names|] eqn:Hn; [|done].
    apply tree_names_spec in Hn as [Hnd Hall]. rewrite omap_some. split; [done|].
    intros _ name Hname. destruct (Hall name Hname) as (raw & Hin & Hraw). exists raw. split; [|done].
    by apply list_elem_of_fmap_2.
  - known. apply ex_open_opens, is_dir_node_true.
  - known. apply ex_open_opens, is_some_is_Some.
  - known. destruct (nodes s !! q) eqn:Hn; cbn; [done|]. split_and!; [apply ex_fd_fresh|done|by eexists].
  - known. apply ex_stat_stats.
  - known. destruct (nodes s !! q) as [[|mode content|]|] eqn:Hn; cbn; try done.
    by eapply ex_read_reads.
  - known. split; [done|]. cbn. destruct (nodes s !! q) as [[|mode bs|]|] eqn:Hn; cbn; try done.
    intros mode' content'. by intros [= -> ->].
  - known. destruct (nodes s !! q) as [[|mode old|]|] eqn:Hn; cbn; try (by left). by exists mode, old.
  - known. destruct (is_some (nodes s !! (q ++ [a]))) eqn:Hl; [|done].
    destruct (is_some (nodes s !! (q ++ [b]))) eqn:Hr; [|done]. destruct (apartb _ _) eqn:Ha; [|done].
    cbn. split; [by apply is_some_is_Some|]. split; [by apply is_some_is_Some|]. split; [by apply apartb_spec|done].
Qed.
End tree_disk.
