(* ===== verification/TreeWalk.v ===== *)
(** * Walking a tree ([vibecoder-checkpoint-local])

    In the file system of [TreeSystem.v]: a walk that succeeds has hashed the bytes of
    the tree that is there, and touches nothing. *)
From stdpp Require Import sorting.
From S2P Require Import Prelude RustStr StrFacts RustPath Domain Program OsCalls.
From S2P Require Import FileSystem CheckpointStore Checkpoint TreeDigest.
From S2P Require Import TreeSystem.

(** ** The tree at a path *)

Fixpoint kid_names (kids : forest) : list str :=
  match kids with Empty => [] | Kid name _ rest => name :: kid_names rest end.

Fixpoint holds (s : fs) (p : list str) (t : tree) : Prop :=
  match t with
  | File exec content =>
    exists mode, nodes s !! p = Some (NFile mode content) /\ executable mode = exec
  | Dir kids =>
    nodes s !! p = Some NDir /\
    (NoDup (kid_names kids) /\ Sorted str_le (kid_names kids)) /\
    (forall name, is_Some (nodes s !! (p ++ [name])) -> name ∈ kid_names kids) /\
    kids_hold s p kids
  end
with kids_hold (s : fs) (p : list str) (kids : forest) : Prop :=
  match kids with
  | Empty => True
  | Kid name t rest => holds s (p ++ [name]) t /\ kids_hold s p rest
  end.

Lemma holds_present s p t : holds s p t -> is_Some (nodes s !! p).
Proof. destruct t; cbn; [intros (? & -> & _)|intros (-> & _)]; by eexists. Qed.

(** Only what is below [p] matters. *)
Lemma holds_ext s s' t : forall p p',
  (forall x, nodes s' !! (p' ++ x) = nodes s !! (p ++ x)) -> holds s p t -> holds s' p' t.
Proof.
  apply (tree_forest_ind
    (fun t => forall p p', (forall x, nodes s' !! (p' ++ x) = nodes s !! (p ++ x)) ->
       holds s p t -> holds s' p' t)
    (fun kids => forall p p', (forall x, nodes s' !! (p' ++ x) = nodes s !! (p ++ x)) ->
       kids_hold s p kids -> kids_hold s' p' kids)).
  - intros exec content p p' Hx (mode & Hn & Hm). exists mode. split; [|done].
    specialize (Hx []). by rewrite !app_nil_r, Hn in Hx.
  - intros kids IH p p' Hx (Hn & Hs & Hall & Hk). split_and!; [|by destruct Hs..| |by eapply IH].
    + specialize (Hx []). by rewrite !app_nil_r, Hn in Hx.
    + intros name. rewrite Hx. apply Hall.
  - done.
  - intros name t1 IHt rest IHr p p' Hx [Ht Hr]. split; [|by eapply IHr].
    eapply IHt; [|exact Ht]. intros x. by rewrite <-!app_assoc, Hx.
Qed.

Lemma kids_hold_ext s s' p p' kids :
  (forall name x, name ∈ kid_names kids ->
     nodes s' !! (p' ++ name :: x) = nodes s !! (p ++ name :: x)) ->
  kids_hold s p kids -> kids_hold s' p' kids.
Proof.
  induction kids as [|name t rest IH]; [done|]. cbn. intros Hx [Ht Hr]. split.
  - eapply holds_ext; [|exact Ht]. intros x. rewrite <-!app_assoc. apply Hx. by left.
  - apply IH; [|done]. intros m x Hm. apply Hx. by right.
Qed.

Lemma kids_present s p kids name :
  kids_hold s p kids -> name ∈ kid_names kids -> is_Some (nodes s !! (p ++ [name])).
Proof.
  induction kids as [|m t rest IH]; cbn; [by intros _ ?%elem_of_nil|].
  intros [Ht Hr] [->|Hin]%elem_of_cons; [by eapply holds_present|by apply IH].
Qed.

(** There is one tree at a path. *)
Lemma holds_unique s t : forall p t', holds s p t -> holds s p t' -> t = t'.
Proof.
  apply (tree_forest_ind
    (fun t => forall p t', holds s p t -> holds s p t' -> t = t')
    (fun kids => forall p kids', kids_hold s p kids -> kids_hold s p kids' ->
       kid_names kids = kid_names kids' -> kids = kids')).
  - intros exec content p [exec' content'|kids']; cbn; [|by intros (? & Hn & _) [Hn' _]; rewrite Hn in Hn'].
    intros (mode & Hn & <-) (mode' & Hn' & <-). rewrite Hn in Hn'. by injection Hn' as <- <-.
  - intros kids IH p [exec' content'|kids']; cbn; [by intros [Hn _] (? & Hn' & _); rewrite Hn in Hn'|].
    intros (_ & [Hnd Hs] & Hall & Hk) (_ & [Hnd' Hs'] & Hall' & Hk'). f_equal.
    eapply IH; [done..|]. apply sorted_names_unique; [done..|]. intros name. split; intros Hin.
    + apply Hall'. exact (kids_present _ _ _ _ Hk Hin).
    + apply Hall. exact (kids_present _ _ _ _ Hk' Hin).
  - by intros p [|].
  - intros name t1 IHt rest IHr p [|name' t2 rest']; cbn; [done|].
    intros [Ht Hr] [Ht' Hr'] [= <- Hnames]. f_equal; [by eapply IHt|by eapply IHr].
Qed.

(** Paths are texts in memory, so their lengths fit 64 bits. *)
Definition short_paths (s : fs) (p : list str) : Prop :=
  forall x, x <> [] -> is_Some (nodes s !! (p ++ x)) -> path_fits (foldl relative_name [] x).

Lemma short_paths_fits s p t : short_paths s p ->
  forall rel, rel <> [] -> holds s (p ++ rel) t -> tree_fits (foldl relative_name [] rel) t.
Proof.
  intros Hshort. apply (tree_forest_ind
    (fun t => forall rel, rel <> [] -> holds s (p ++ rel) t -> tree_fits (foldl relative_name [] rel) t)
    (fun kids => forall rel, kids_hold s (p ++ rel) kids -> fits (foldl relative_name [] rel) kids));
    [done| |done|].
  - intros kids IH rel _ (_ & _ & _ & Hk). by apply IH.
  - intros name t1 IHt rest IHr rel [Ht Hr]. cbn [fits].
    rewrite <-app_assoc in Ht. assert (Hne : rel ++ [name] <> []) by by destruct rel.
    replace (relative_name (foldl relative_name [] rel) name) with (foldl relative_name [] (rel ++ [name]))
      by by rewrite foldl_app.
    split_and!; [|by apply IHt|by apply IHr]. apply Hshort; [done|]. by eapply holds_present.
Qed.

Lemma short_paths_fit s p kids : short_paths s p -> holds s p (Dir kids) -> fits [] kids.
Proof.
  intros Hshort (_ & _ & _ & Hk). rewrite <-(app_nil_r p) in Hk. revert Hk.
  induction kids as [|name t rest IH]; [done|]. intros [Ht Hr]. split_and!; [| |by apply IH].
  - apply (Hshort [name]); [done|]. rewrite app_nil_r in Ht. by eapply holds_present.
  - rewrite app_nil_r in Ht. by apply (short_paths_fits s p t Hshort [name]).
Qed.

(** ** Single calls *)

(** More descriptors, and nothing changed but below [q]. *)
Definition frame (q : list str) (s s' : fs) : Prop :=
  fds s ⊆ fds s' /\ forall x, ~ q `prefix_of` x -> nodes s' !! x = nodes s !! x.

#[export] Instance frame_preorder q : PreOrder (frame q).
Proof.
  split; [by split|]. intros a b c [Hf Hn] [Hf' Hn']. split; [by etransitivity|].
  intros x Hx. by rewrite Hn', Hn.
Qed.

Lemma grown_frame q s s' : grown s s' -> frame q s s'.
Proof. intros [Hn Hf]. split; [done|]. by rewrite Hn. Qed.

Lemma frame_fd q s s' fd p : frame q s s' -> fds s !! fd = Some p -> fds s' !! fd = Some p.
Proof. intros [Hf _] Hfd. by eapply lookup_weaken. Qed.

Lemma frame_sub q q' s s' : q `prefix_of` q' -> frame q' s s' -> frame q s s'.
Proof. intros Hq [Hf Hn]. split; [done|]. intros x Hx. apply Hn. intros ?. apply Hx. by etransitivity. Qed.

Lemma frame_put q s x n : q `prefix_of` x -> frame q s (put s x n).
Proof.
  intros Hq. split; [done|]. intros y Hy. rewrite put_nodes. by case_decide; [subst|].
Qed.

Lemma frame_source q s s' x : frame q s s' -> ~ q `prefix_of` x -> nodes s' !! x = nodes s !! x.
Proof. intros [_ H]. apply H. Qed.

Lemma frame_apart q s s' p x : frame q s s' -> apart p q -> nodes s' !! (p ++ x) = nodes s !! (p ++ x).
Proof. intros Hf Ha. apply (frame_source _ _ _ _ Hf), apart_below, apart_sym, Ha. Qed.

(** Nothing changed in a tree elsewhere, nor at the directory of [q] itself. *)
Lemma holds_apart q s s' p t : frame q s s' -> apart p q -> holds s' p t <-> holds s p t.
Proof.
  intros Hf Ha. split; apply holds_ext; intros x; [symmetry|]; by eapply frame_apart.
Qed.

Lemma frame_parent q name s s' : frame (q ++ [name]) s s' -> nodes s' !! q = nodes s !! q.
Proof.
  intros Hf. apply (frame_source _ _ _ _ Hf). intros [k Hk]. rewrite <-app_assoc in Hk.
  rewrite <-(app_nil_r q) in Hk at 1. by apply app_inv_head in Hk.
Qed.

Lemma frame_child q name s s' : frame (q ++ [name]) s s' -> frame q s s'.
Proof. apply frame_sub. by eexists. Qed.

Lemma within_or_fail {A} code (p : tree_prog (IoResult A)) (Q : fs -> Result A -> Prop) s :
  within tree_step p (fun s r => Q s (match r with Ok a => Ok a | Err _ => fails code end)) s ->
  within tree_step (or_code code p) Q s.
Proof. intros H. by apply within_bind. Qed.

Lemma within_give {A B} (r : Result A) (f : A -> tree_prog (Result B)) Q s :
  (forall a, r = Ok a -> within tree_step (f a) Q s) -> (forall e, r = Err e -> Q s (Err e)) ->
  within tree_step (try a <- give r; f a) Q s.
Proof. destruct r; cbn; auto. Qed.

(** ** Pinning a directory *)

(** [l] are the names in the directory, as the walk takes them. *)
Definition names_of (s : fs) (p : list str) (l : list str) : Prop :=
  NoDup l /\ Sorted str_le l /\ Forall name_ok l /\
  forall name, is_Some (nodes s !! (p ++ [name])) -> name ∈ l.

Lemma entry_names_spec acc entries l :
  entry_names acc entries = Ok l ->
  (None ∉ entries) /\ exists found, l = acc ++ found /\ Forall name_ok found /\
    Forall2 (fun raw name => from_utf8 raw = Some name) (omap id entries) found.
Proof.
  revert acc. induction entries as [|[raw|] entries IH]; intros acc; cbn; [|..|done].
  - intros [= <-]. split; [by apply not_elem_of_nil|]. exists []. by rewrite app_nil_r.
  - destruct (from_utf8 raw) as [name|] eqn:Hname; [|done].
    destruct (name_forbidden name) eqn:Hf; [done|].
    intros (Hnone & found & -> & Hok & Hall)%IH. split; [by apply not_elem_of_cons|].
    exists (name :: found). rewrite <-app_assoc. split_and!; [done| |by constructor].
    constructor; [|done]. split; [done|]. by eapply from_utf8_scalar.
Qed.

Lemma utf8_names_NoDup raws l :
  NoDup raws -> Forall2 (fun raw name => from_utf8 raw = Some name) raws l -> NoDup l.
Proof.
  intros Hnd Hall. induction Hall as [|raw name raws l Hname Hall IH]; [constructor|].
  apply NoDup_cons in Hnd as [Hin Hnd]. constructor; [|by apply IH]. intros Hin'. apply Hin.
  apply list_elem_of_lookup_1 in Hin' as [i Hi].
  destruct (Forall2_lookup_r _ _ _ _ _ Hall Hi) as (raw' & Hraw & Hname').
  apply from_utf8_some in Hname, Hname'. rewrite <-Hname, Hname'. by eapply list_elem_of_lookup_2.
Qed.

Lemma within_pin_directory path p Q s :
  place_path s path = Some p ->
  (forall s' e, grown s s' -> Q s' (Err e)) ->
  (forall s' pd, grown s s' -> fds s' !! pinned pd = Some p -> nodes s !! p = Some NDir ->
     names_of s p (names pd) -> Q s' (Ok pd)) ->
  within tree_step (pin_directory path) Q s.
Proof.
  intros Hp Herr Hok. apply within_try, within_or_fail, within_call_.
  intros r s1 Hr. apply (at_place_some Hp) in Hr. destruct r as [fd|e]; [|cbn in Hr; subst; by apply Herr].
  destruct Hr as (Hnew & Hdir & ->). set (s1 := bind_fd _ _ _).
  assert (H1 : grown s s1) by by apply grown_bind.
  assert (Hfd : fds s1 !! fd = Some p) by apply lookup_insert_eq.
  assert (Herr1 : forall e, Q s1 (Err e)) by (intros; by apply Herr).
  apply within_try, within_or_fail, within_call_. intros r s2 Hr. apply (at_fd_some Hfd) in Hr.
  destruct Hr as [-> _]. destruct r as [st|e]; [|by apply Herr1].
  destruct (negb (is_dir st)); [by apply Herr1|].
  apply within_try, within_or_fail, within_call_. intros r s2 Hr. apply (at_fd_some Hfd) in Hr.
  destruct Hr as [-> Hr]. destruct r as [entries|e]; [|by apply Herr1]. destruct Hr as [Hnd Hall].
  apply within_give; [|intros; by apply Herr1]. intros l Hl. apply Hok; [done..|].
  apply entry_names_spec in Hl as (Hnone & found & Heq & Hok' & Hraws). cbn in Heq. subst l.
  cbn [names]. split_and!.
  - rewrite sort_by_perm. by eapply utf8_names_NoDup.
  - apply (sort_by_sorted (fun name => name)).
  - by rewrite sort_by_perm.
  - intros name Hname. rewrite sort_by_perm. destruct (Hall Hnone name) as (raw & Hin & Hraw); [done|].
    assert (Hin' : raw ∈ omap id entries) by (apply list_elem_of_omap; by exists (Some raw)).
    apply list_elem_of_lookup_1 in Hin' as [i Hi].
    destruct (Forall2_lookup_l _ _ _ _ _ Hraws Hi) as (name' & Hname' & Heq).
    rewrite Hraw in Heq. injection Heq as <-. by eapply list_elem_of_lookup_2.
Qed.

(** ** Reading a file to its end *)

Definition at_pos (s : fs) (fd : N) (p : list str) (n : N) : Prop :=
  fds s !! fd = Some p /\ positions s !! fd = Some n.

Lemma advance_at_pos s fd p n m : at_pos s fd p n -> at_pos (advance s fd m) fd p (n + m).
Proof. intros [Hp Hn]. split; [done|]. cbn. by rewrite Hn, lookup_insert_eq. Qed.

Lemma update_app st a b : update (update st a) b = update st (a ++ b).
Proof. unfold update. cbn. by rewrite app_assoc. Qed.

Lemma update_nil st : update st [] = st.
Proof. unfold update. rewrite app_nil_r. by destruct st. Qed.

Section reading.
Context (fd : N) (p : list str) (mode : N) (content : bytes).
(** [Inv got s]: how things stand when [got] has been read and handled; [Bad]: when it
    went wrong. *)
Context (Inv : bytes -> fs -> Prop) (Bad : fs -> Prop) (sink : bytes -> tree_prog (Result unit)).
Context (Inv_file : forall got s, Inv got s -> nodes s !! p = Some (NFile mode content)).
Context (Inv_advance : forall got s n, Inv got s -> Inv got (advance s fd n)).
Context (Inv_bad : forall got s, Inv got s -> Bad s).
Context (sink_ok : forall got bs s n, Inv got s -> at_pos s fd p n ->
  within tree_step (sink bs)
    (fun s' r => match r with Ok _ => Inv (got ++ bs) s' /\ at_pos s' fd p n | Err _ => Bad s' end) s).

Lemma within_read got n s (Q : fs -> IoResult bytes -> Prop) :
  Inv got s -> at_pos s fd p (len got) -> got `prefix_of` content ->
  (forall e, Q s (Err e)) ->
  (forall s' bs, Inv got s' -> at_pos s' fd p (len (got ++ bs)) -> (got ++ bs) `prefix_of` content ->
     len bs <= n -> (bs = [] -> n = 0 \/ got = content) -> Q s' (Ok bs)) ->
  within tree_step (call_ (Read fd n)) Q s.
Proof.
  intros Hi [Hfd Hpos] [rest Hrest] Herr Hok. apply within_call_. intros r s' Hr.
  apply (at_fd_some Hfd) in Hr. destruct r as [bs|e]; [|cbn in Hr; by subst].
  destruct Hr as (-> & Hlen & Hbs). destruct (Hbs _ _ (Inv_file _ _ Hi)) as [Hpre Hend].
  rewrite Hpos in Hpre, Hend. cbn [default from_option id] in Hpre, Hend.
  assert (Hdrop : drop (N.to_nat (len got)) content = rest).
  { unfold len. by rewrite Nat2N.id, Hrest, drop_app_length. }
  rewrite Hdrop in Hpre, Hend. apply Hok; [by apply Inv_advance| | |done|].
  - rewrite len_app. by apply advance_at_pos.
  - destruct Hpre as [k ->]. exists k. by rewrite <-app_assoc.
  - intros Hnil. destruct (Hend Hnil) as [?|Hr]; [by left|]. right. by rewrite Hrest, Hr, app_nil_r.
Qed.

Lemma within_read_remaining rf short fuel remaining st got s :
  Inv got s -> at_pos s fd p (len got) -> got `prefix_of` content -> remaining <= N.of_nat fuel ->
  within tree_step (read_remaining rf short sink fuel fd remaining st)
    (fun s' r => match r with
                 | Ok st' => exists more, len more = remaining /\ st' = update st more /\
                     Inv (got ++ more) s' /\ at_pos s' fd p (len (got ++ more)) /\
                     (got ++ more) `prefix_of` content
                 | Err _ => Bad s'
                 end) s.
Proof.
  revert remaining st got s. induction fuel as [|fuel IH]; intros remaining st got s Hi Hpos Hpre Hfuel.
  - assert (remaining = 0) as -> by lia. cbn. exists []. by rewrite app_nil_r, update_nil.
  - cbn [read_remaining]. destruct (N.eqb_spec remaining 0) as [->|Hne].
    { exists []. by rewrite app_nil_r, update_nil. }
    apply within_try, within_or_fail. eapply within_read; [done..| |].
    { intros e. by eapply Inv_bad. }
    intros s1 bs Hi1 Hpos1 Hpre1 Hlen _. destruct (N.eqb_spec (len bs) 0) as [|Hbs]; [by eapply Inv_bad|].
    cbn zeta. apply within_try. eapply within_mono; [by apply sink_ok|].
    intros s2 [[]|e] Hs2; [|done]. destruct Hs2 as [Hi2 Hpos2].
    eapply within_mono; [apply (IH (remaining - len bs) (update st bs) (got ++ bs)); [done..|lia]|].
    intros s3 [st'|e] Hs3; [|done]. destruct Hs3 as (more & Hm & -> & Hi3 & Hpos3 & Hpre3).
    exists (bs ++ more). rewrite update_app, len_app. rewrite <-app_assoc in Hi3, Hpos3, Hpre3.
    split_and!; [lia|done..].
Qed.

Lemma within_at_end rf grew got s :
  Inv got s -> at_pos s fd p (len got) -> got `prefix_of` content ->
  within tree_step (at_end rf grew fd)
    (fun s' r => match r with
                 | Ok _ => Inv got s' /\ content = got
                 | Err _ => Bad s'
                 end) s.
Proof.
  intros Hi Hpos Hpre. apply within_try, within_or_fail. eapply within_read; [done..| |].
  { intros e. by eapply Inv_bad. }
  intros s1 bs Hi1 Hpos1 Hpre1 Hlen Hend. cbn [within].
  destruct (N.eqb_spec (len bs) 0) as [Hbs|]; cbn; [|by eapply Inv_bad].
  split; [done|]. assert (bs = []) as Hnil by (destruct bs; [done|by rewrite len_cons in Hbs; lia]).
  by destruct (Hend Hnil).
Qed.
End reading.

(** ** One file *)

(** The digest after [bs] more bytes, [files] more files and [size] more of their bytes. *)
Definition record (st : DigestState) (bs : bytes) (files size : N) : DigestState :=
  {| hashed := hashed st ++ bs; ds_file_count := ds_file_count st + files;
     ds_total_bytes := ds_total_bytes st + size |}.

Lemma record_app st bs f m bs' f' m' :
  record (record st bs f m) bs' f' m' = record st (bs ++ bs') (f + f') (m + m').
Proof. unfold record. cbn. by rewrite <-app_assoc, !N.add_assoc. Qed.

Lemma record_nil st : record st [] 0 0 = st.
Proof. unfold record. rewrite app_nil_r, !N.add_0_r. by destruct st. Qed.

Lemma update_record st bs f m bs' : update (record st bs f m) bs' = record st (bs ++ bs') f m.
Proof. unfold update, record. cbn. by rewrite <-app_assoc. Qed.

Lemma begin_file_ok st relative size exec st' :
  begin_file st relative size exec = Ok st' ->
  st' = record st (as_bytes (u "F") ++ path_bytes relative ++ be_bytes 8 size ++ [bool_byte exec]) 1 size
  /\ size < 2 ^ 64.
Proof.
  unfold begin_file. destruct (checked_add _ (ds_file_count st) 1) as [count|] eqn:Hc; [|done].
  cbn [ok_or]. apply checked_add_Some in Hc as [-> _]. destruct (_ <? _); [done|].
  destruct (checked_add _ (ds_total_bytes st) size) as [total|] eqn:Ht; [|done].
  cbn [ok_or]. apply checked_add_Some in Ht as [-> Hmax]. destruct (_ <? _); [done|].
  intros [= <-]. split; [|unfold u64_max in Hmax; lia].
  unfold record_path, update, record, path_bytes. cbn -[as_bytes u be_bytes N.add]. by rewrite <-!app_assoc.
Qed.

Lemma record_dir_spec st relative :
  record_dir st relative = record st (as_bytes (u "D") ++ path_bytes relative) 0 0.
Proof.
  unfold record_dir, record_path, update, record, path_bytes. cbn -[as_bytes u be_bytes N.add].
  by rewrite <-!app_assoc, !N.add_0_r.
Qed.

(** What the metadata of an entry says. *)
Lemma stat_file n st :
  stat_matches n st -> is_symlink st = false -> is_dir st = false -> is_file st = true ->
  exists mode content, n = NFile mode content /\ stat_len st = len content /\
    executable (st_mode st) = executable mode.
Proof.
  intros Hn _ Hd Hf. unfold is_file, is_dir in *. bool_prop.
  destruct n as [|mode content|]; cbn in Hn; [by rewrite Hn in Hf| |by destruct Hn].
  destruct Hn as (_ & Hm & Hs). exists mode, content. split_and!; [done| |].
  - unfold stat_len. by rewrite Hs, N2Z.id.
  - unfold executable. rewrite <-Hm, <-N.land_assoc. done.
Qed.

Lemma stat_is_file n st :
  stat_matches n st -> is_file st = true -> exists mode content, n = NFile mode content.
Proof.
  intros Hn Hf. unfold is_file in Hf. bool_prop.
  destruct n as [|mode content|]; cbn in Hn; [by rewrite Hn in Hf|by eauto|by destruct Hn].
Qed.

Lemma stat_dir n st : stat_matches n st -> is_dir st = true -> n = NDir.
Proof.
  intros Hn Hd. unfold is_dir in Hd. bool_prop. destruct n as [|mode content|]; cbn in Hn; [done| |].
  - destruct Hn as [Hn _]. by rewrite Hd in Hn.
  - by destruct Hn.
Qed.

Lemma within_symlink_metadata code path p Q s :
  place_path s path = Some p ->
  (forall st n, nodes s !! p = Some n -> stat_matches n st -> Q s (Ok st)) -> (forall e, Q s (Err e)) ->
  within tree_step (or_code code (call_ (SymlinkMetadata path))) Q s.
Proof.
  intros Hp Hok Herr. apply within_or_fail, within_call_. intros r s' Hr.
  destruct (at_place_some Hp Hr) as [-> Hst]. destruct r as [st|]; [|apply Herr]. destruct Hst as (n & ? & ?). eauto.
Qed.

Lemma within_file_metadata code fd p Q s :
  fds s !! fd = Some p -> (forall r, Q s r) ->
  within tree_step (or_code code (call_ (FileMetadata fd))) Q s.
Proof.
  intros Hp HQ. apply within_or_fail, within_call_. intros r s' Hr. destruct (at_fd_some Hp Hr) as [-> _]. apply HQ.
Qed.

Lemma within_open_file code path p Q s :
  place_path s path = Some p ->
  (forall fd, fds s !! fd = None -> Q (bind_fd s fd p) (Ok fd)) -> (forall e, Q s (Err e)) ->
  within tree_step (or_code code (call_ (OpenFile path))) Q s.
Proof.
  intros Hp Hok Herr. apply within_or_fail, within_call_. intros r s' Hr. apply (at_place_some Hp) in Hr.
  destruct r as [fd|e]; [|cbn in Hr; subst; apply Herr]. destruct Hr as (? & _ & ->). by apply Hok.
Qed.

Lemma place_path_grown s s' path p : fds s ⊆ fds s' -> place_path s path = Some p -> place_path s' path = Some p.
Proof.
  intros Hf. revert p. induction path as [path|fd|fd name|dir IH raw]; intros p; cbn; [done|..].
  - intros ?. by eapply lookup_weaken.
  - intros (q & Hq & ->)%fmap_Some. apply fmap_Some. exists q. split; [|done]. by eapply lookup_weaken.
  - intros (name & Hname & (q & Hq & Hp)%bind_Some)%bind_Some. apply bind_Some. exists name.
    split; [done|]. apply bind_Some. exists q. split; [by apply IH|done].
Qed.

(** A file that was hashed is hashed as it is. *)
Lemma within_hash_file path p prefix name before st mode content s :
  place_path s path = Some p -> nodes s !! p = Some (NFile mode content) ->
  stat_len before = len content -> executable (st_mode before) = executable mode ->
  within tree_step (hash_file path (relative_name prefix name) before st)
    (fun s' r => grown s s' /\
       match r with
       | Ok st' =>
         st' = record st (entry_bytes prefix name (File (executable mode) content)) 1 (len content)
         /\ len content < 2 ^ 64
       | Err _ => True
       end) s.
Proof.
  intros Hp Hn Hlen Hexec. unfold hash_file. destruct (negb _); [done|].
  apply within_give; [|done]. intros st1 [-> Hsize]%begin_file_ok. rewrite Hlen, Hexec in *.
  apply within_try. eapply within_open_file; [exact Hp| |done]. intros fd Hfd.
  set (s1 := bind_fd s fd p). assert (H1 : grown s s1) by by apply grown_bind.
  assert (Hp1 : fds s1 !! fd = Some p) by apply lookup_insert_eq.
  apply within_try. eapply within_file_metadata; [exact Hp1|]. intros [opened|e]; [|done].
  destruct (_ || _); [done|]. set (Inv := fun (_ : bytes) (s' : fs) => grown s s').
  assert (Inv_file : forall got s', Inv got s' -> nodes s' !! p = Some (NFile mode content)).
  { intros got s' [Hns _]. by rewrite Hns. }
  assert (Inv_advance : forall got s' n, Inv got s' -> Inv got (advance s' fd n)).
  { intros got s' n [Hns Hfs]. by split. }
  apply within_try. eapply within_mono.
  { apply (within_read_remaining fd p mode content Inv (grown s) no_sink) with (got := []); try done.
    - split; [done|]. apply lookup_insert_eq.
    - apply prefix_nil.
    - rewrite N2Nat.id. lia. }
  intros s2 [st2|e] Hs2; [|done]. destruct Hs2 as (more & Hm & -> & Hg2 & Hpos2 & Hpre2).
  cbn [app] in *. apply within_try. eapply within_mono.
  { by apply (within_at_end fd p mode content Inv (grown s)) with (got := more). }
  intros s3 [[]|e] Hs3; [|done]. destruct Hs3 as [Hg3 ->].
  apply within_try. eapply within_symlink_metadata; [eapply place_path_grown; [apply Hg3|exact Hp]| |done].
  intros after n _ _. destruct (changed_since _ _); [done|]. split; [done|]. split; [|done].
  rewrite update_record. cbn [entry_bytes]. by rewrite <-!app_assoc.
Qed.

(** ** Hashing a directory *)

(** The walk has hashed the entries [kids] of [p]. *)
Definition hashed_kids (s : fs) (p : list str) (prefix : str) (l : list str) (st st' : DigestState) :
    Prop :=
  exists kids, kid_names kids = l /\ kids_hold s p kids /\ kids_ok kids /\
    st' = record st (dir_bytes prefix kids) (kids_files kids) (kids_size kids).

Lemma hashed_kids_cons s p prefix name t l st st' :
  name_ok name -> tree_ok t -> holds s (p ++ [name]) t ->
  hashed_kids s p prefix l
    (record st (entry_bytes prefix name t) (tree_files t) (tree_size t)) st' ->
  hashed_kids s p prefix (name :: l) st st'.
Proof.
  intros Hn Ht Hh (kids & <- & Hk & Hok & ->). exists (Kid name t kids).
  split_and!; [done..|]. by rewrite record_app.
Qed.

Definition hashed_dir (s : fs) (p : list str) (prefix : str) (st st' : DigestState) : Prop :=
  exists kids, holds s p (Dir kids) /\ kids_ok kids /\
    st' = record st (dir_bytes prefix kids) (kids_files kids) (kids_size kids).

Lemma hashed_dir_of_kids s p prefix l st st' :
  nodes s !! p = Some NDir -> names_of s p l -> hashed_kids s p prefix l st st' ->
  hashed_dir s p prefix st st'.
Proof.
  intros Hn (Hnd & Hs & _ & Hall) (kids & <- & Hk & Hok & ->). by exists kids.
Qed.

Lemma holds_grown s s' p t : grown s s' -> holds s' p t -> holds s p t.
Proof. intros [Hn _]. apply holds_ext. intros x. by rewrite Hn. Qed.

Lemma hashed_kids_grown s s' p prefix l st st' :
  grown s s' -> hashed_kids s' p prefix l st st' -> hashed_kids s p prefix l st st'.
Proof.
  intros [Hn _] (kids & <- & Hk & Hok & ->). exists kids. split_and!; [done| |done..].
  eapply kids_hold_ext; [|exact Hk]. intros name x _. by rewrite Hn.
Qed.

(** What [hash_entry] and [hash_dir_recursive] do; [p] is what they are called on. *)
Definition hashes_entry (s : fs) (p : list str) (prefix name : str) (st : DigestState) (s' : fs)
    (r : Result DigestState) : Prop :=
  grown s s' /\
  match r with
  | Ok st' => exists t, tree_ok t /\ holds s (p ++ [name]) t /\
                st' = record st (entry_bytes prefix name t) (tree_files t) (tree_size t)
  | Err _ => True
  end.

Definition hashes_dir (s : fs) (p : list str) (prefix : str) (st : DigestState) (s' : fs)
    (r : Result DigestState) : Prop :=
  grown s s' /\ match r with Ok st' => hashed_dir s p prefix st st' | Err _ => True end.

Lemma within_hash_entry below pd p prefix name st s :
  (forall root q prefix st s, place_path s root = Some q ->
     within tree_step (below root prefix st) (hashes_dir s q prefix st) s) ->
  fds s !! pinned pd = Some p ->
  within tree_step (hash_entry below pd prefix st name) (hashes_entry s p prefix name st) s.
Proof.
  intros IH Hpd.
  assert (Hpath : place_path s (Beneath (pinned pd) name) = Some (p ++ [name])) by (cbn; by rewrite Hpd).
  apply within_try. eapply within_symlink_metadata; [exact Hpath| |done].
  intros before n Hn Hst. destruct (is_symlink before) eqn:Hsym; [done|].
  destruct (is_dir before) eqn:Hd.
  - pose proof (stat_dir _ _ Hst Hd) as ->. eapply within_mono; [by apply IH|].
    intros s1 [st1|e] [Hg Hr]; [|done]. destruct Hr as (kids & Hh & Hkok & ->). split; [done|].
    exists (Dir kids). split_and!; [done..|]. rewrite record_dir_spec, record_app.
    cbn [entry_bytes]. by rewrite <-app_assoc.
  - destruct (is_file before) eqn:Hf; [|done].
    destruct (stat_file _ _ Hst Hsym Hd Hf) as (mode & content & -> & Hlen & Hexec).
    eapply within_mono; [by eapply within_hash_file|].
    intros s1 [st1|e] [Hg Hr]; [|done]. destruct Hr as [-> Hsize]. split; [done|].
    exists (File (executable mode) content). split_and!; [done|by exists mode|done].
Qed.

Lemma within_hash_entries below pd p prefix l :
  (forall root q prefix st s, place_path s root = Some q ->
     within tree_step (below root prefix st) (hashes_dir s q prefix st) s) ->
  Forall name_ok l ->
  forall s st, fds s !! pinned pd = Some p ->
    within tree_step (try_fold (hash_entry below pd prefix) l st)
      (fun s' r => grown s s' /\
         match r with Ok st' => hashed_kids s p prefix l st st' | Err _ => True end) s.
Proof.
  intros IH. induction 1 as [|name l Hname Hok IHl]; intros s st Hpd; cbn [try_fold].
  { split; [done|]. exists Empty. by rewrite record_nil. }
  apply within_try. eapply within_mono; [by apply within_hash_entry|].
  intros s1 [st1|e] [Hg Hr]; [|done]. destruct Hr as (t & Ht & Hh & ->).
  eapply within_mono; [apply IHl; by eapply grown_fd|].
  intros s2 r [Hg2 Hr]. split; [by rewrite Hg|]. destruct r as [st'|]; [|done].
  eapply hashed_kids_cons; [done..|]. by eapply hashed_kids_grown.
Qed.

Lemma within_hash_dir fuel : forall root p prefix st s,
  place_path s root = Some p ->
  within tree_step (hash_dir_recursive fuel root prefix st) (hashes_dir s p prefix st) s.
Proof.
  induction fuel as [|fuel IH]; intros root p prefix st s Hp; [done|]. cbn [hash_dir_recursive].
  apply within_try. eapply within_pin_directory; [exact Hp|done|].
  intros s1 pd H1 Hpd Hdir Hnames. eapply within_mono.
  { apply within_hash_entries; [exact IH|apply Hnames|exact Hpd]. }
  intros s2 r [H2 Hr]. split; [by rewrite H1|]. destruct r as [st'|]; [|done].
  eapply hashed_dir_of_kids; [done..|]. by eapply hashed_kids_grown.
Qed.
