(* ===== verification/TreeCopy.v ===== *)
(** * Copying a tree ([vibecoder-checkpoint-local])

    A copy that succeeds has made at its destination the tree that is at its source,
    and has hashed the same bytes as a walk over it; also when it fails, nothing is
    touched but what is below the destination. *)
From stdpp Require Import sorting.
From S2P Require Import Prelude RustStr StrFacts RustPath Domain Program OsCalls.
From S2P Require Import FileSystem CheckpointStore Checkpoint TreeDigest.
From S2P Require Import TreeSystem.
From S2P Require Import TreeWalk.

(** ** Copying a file *)

Lemma executable_owner mode mode' :
  N.land mode 0x1C0 = N.land mode' 0x1C0 -> executable mode = executable mode'.
Proof.
  intros H. unfold executable. replace 0x40 with (N.land 0x1C0 0x40) by done.
  by rewrite !N.land_assoc, H.
Qed.

Lemma executable_private (exec : bool) :
  executable (N.lor PRIVATE_FILE_MODE (if exec then 0x40 else 0)) = exec.
Proof. by destruct exec. Qed.

(** The copy at [d] holds [got] so far. *)
Definition copied (s0 : fs) (d : list str) (output : N) (exec : bool) (got : bytes) (s : fs) : Prop :=
  frame d s0 s /\ fds s !! output = Some d /\
  exists mode, nodes s !! d = Some (NFile mode got) /\ executable mode = exec.

Lemma within_create_new s0 code dest d exec s (Q : fs -> Result N -> Prop) :
  frame d s0 s -> place_path s dest = Some d ->
  (forall e, Q s (Err e)) ->
  (forall fd s', fds s !! fd = None -> copied s0 d fd exec [] s' ->
     (forall fd' p n, at_pos s fd' p n -> at_pos s' fd' p n) -> Q s' (Ok fd)) ->
  within tree_step
    (or_code code (call_ (CreateNew dest (N.lor PRIVATE_FILE_MODE (if exec then 0x40 else 0))))) Q s.
Proof.
  intros Hf Hd Herr Hok. apply within_or_fail, within_call_. intros r s' Hr. apply (at_place_some Hd) in Hr.
  destruct r as [fd|e]; [|cbn in Hr; subst; apply Herr].
  destruct Hr as (Hnew & _ & mode' & Hmode & ->). apply Hok; [done| |].
  - split_and!.
    + rewrite Hf. split; [by apply insert_subseteq|]. intros x Hx. cbn.
      apply lookup_insert_ne. intros <-. by apply Hx.
    + apply lookup_insert_eq.
    + exists mode'. split; [apply lookup_insert_eq|]. rewrite (executable_owner _ _ Hmode).
      apply executable_private.
  - intros fd' p n [Hp Hn]. assert (fd <> fd') by congruence. split; cbn; by rewrite lookup_insert_ne.
Qed.

(** What is written is appended. *)
Lemma within_write s0 code d output exec got bs fd p n s :
  copied s0 d output exec got s -> at_pos s fd p n ->
  within tree_step (or_code code (call_ (WriteAll output bs)))
    (fun s' r => match r with
                 | Ok _ => copied s0 d output exec (got ++ bs) s' /\ at_pos s' fd p n
                 | Err _ => frame d s0 s'
                 end) s.
Proof.
  intros (Hf & Hfd & mode & Hn & He) Hpos. apply within_or_fail, within_call_. intros r s' Hr.
  apply (at_fd_some Hfd) in Hr. destruct r as [[]|e].
  - destruct Hr as (mode' & content & Hn' & ->). rewrite Hn in Hn'. injection Hn' as <- <-.
    split; [|done]. split_and!; [rewrite Hf; by apply frame_put|done|].
    exists mode. split; [apply lookup_insert_eq|done].
  - destruct Hr as [-> | (mode' & content & content' & _ & ->)]; [done|].
    cbn; etransitivity; [exact Hf|by apply frame_put].
Qed.

Lemma within_copy_file path dest p d prefix name before st mode content s :
  place_path s path = Some p -> place_path s dest = Some d -> ~ d `prefix_of` p ->
  nodes s !! p = Some (NFile mode content) ->
  stat_len before = len content -> executable (st_mode before) = executable mode ->
  within tree_step (copy_file path dest (relative_name prefix name) before st)
    (fun s' r => frame d s s' /\
       match r with
       | Ok st' =>
         st' = record st (entry_bytes prefix name (File (executable mode) content)) 1 (len content)
         /\ len content < 2 ^ 64 /\ holds s' d (File (executable mode) content)
       | Err _ => True
       end) s.
Proof.
  intros Hp Hd Hdp Hn Hlen Hexec. unfold copy_file. destruct (negb _); [done|]. cbn zeta.
  apply within_give; [|done]. intros st1 [-> Hsize]%begin_file_ok. rewrite Hlen, Hexec in *.
  apply within_try. eapply within_open_file; [exact Hp| |done]. intros fd Hfd.
  set (s1 := bind_fd s fd p). assert (H1 : grown s s1) by by apply grown_bind.
  assert (Hp1 : at_pos s1 fd p 0) by (split; apply lookup_insert_eq).
  pose proof (grown_frame d _ _ H1) as Hf1.
  apply within_try. eapply within_file_metadata; [apply Hp1|]. intros [opened|e]; [|done].
  destruct (_ || _); [done|]. apply within_try.
  eapply (within_create_new s); [done|eapply place_path_grown; [apply H1|exact Hd]|done|].
  intros output s2 Hout Hc2 Hkeep. specialize (Hkeep _ _ _ Hp1).
  set (Inv := copied s d output (executable mode)).
  assert (Inv_file : forall got s', Inv got s' -> nodes s' !! p = Some (NFile mode content)).
  { intros got s' [Hf _]. by rewrite (frame_source _ _ _ _ Hf Hdp). }
  assert (Inv_advance : forall got s' n, Inv got s' -> Inv got (advance s' fd n)) by done.
  assert (Inv_bad : forall got s', Inv got s' -> frame d s s') by by intros got s' [? _].
  assert (sink_ok : forall got bs s' n, Inv got s' -> at_pos s' fd p n ->
    within tree_step (or_code "checkpoint_copy_file_write_failed" (call_ (WriteAll output bs)))
      (fun s' r => match r with Ok _ => Inv (got ++ bs) s' /\ at_pos s' fd p n | Err _ => frame d s s' end) s').
  { intros got bs s' n. apply within_write. }
  apply within_try. eapply within_mono.
  { apply (within_read_remaining fd p mode content Inv (frame d s) _ Inv_file Inv_advance Inv_bad sink_ok)
      with (got := []); try done; [apply prefix_nil|]. rewrite N2Nat.id. lia. }
  intros s3 [st3|e] Hs3; [|done]. destruct Hs3 as (more & Hm & -> & Hi3 & Hpos3 & Hpre3).
  cbn [app] in *. apply within_try. eapply within_mono.
  { by apply (within_at_end fd p mode content Inv (frame d s)) with (got := more). }
  intros s4 [[]|e] Hs4; [|done]. destruct Hs4 as [Hi4 ->].
  apply within_try, within_or_fail, within_call_. intros r s5 Hs5. cbn in Hs5. subst s5.
  destruct Hi4 as (Hf4 & _ & Hcopy). destruct r as [[]|e]; [|done].
  apply within_try. eapply within_symlink_metadata; [eapply place_path_grown; [apply Hf4|exact Hp]| |done].
  intros after n _ _. destruct (changed_since _ _); [done|]. split; [done|]. split_and!; [|done..].
  rewrite update_record. cbn [entry_bytes]. by rewrite <-!app_assoc.
Qed.

(** ** Copying a directory *)

(** More descriptors, and nothing changed but below the names [l] of [q]. *)
Definition frame_names (q l : list str) (s s' : fs) : Prop :=
  fds s ⊆ fds s' /\
  forall x, (forall name, name ∈ l -> ~ (q ++ [name]) `prefix_of` x) -> nodes s' !! x = nodes s !! x.

Lemma frame_names_frame q l s s' : frame_names q l s s' -> frame q s s'.
Proof.
  intros [Hf Hn]. split; [done|]. intros x Hx. apply Hn. intros name _ Hp. apply Hx.
  etransitivity; [by eexists|exact Hp].
Qed.

Lemma frame_names_refl q s : frame_names q [] s s.
Proof. by split. Qed.

Lemma frame_names_err q name l s s1 : frame (q ++ [name]) s s1 -> frame_names q (name :: l) s s1.
Proof. intros [Hf Hn]. split; [done|]. intros x Hx. apply Hn, Hx. by left. Qed.

Lemma frame_names_cons q name l s s1 s2 :
  frame (q ++ [name]) s s1 -> frame_names q l s1 s2 -> frame_names q (name :: l) s s2.
Proof.
  intros [Hf Hn] [Hf' Hn']. split; [by etransitivity|]. intros x Hx.
  rewrite Hn' by (intros m Hm; apply Hx; by right). apply Hn, Hx. by left.
Qed.

Lemma frame_names_other q l s s' name x :
  frame_names q l s s' -> name ∉ l -> nodes s' !! (q ++ name :: x) = nodes s !! (q ++ name :: x).
Proof.
  intros [_ Hn] Hl. apply Hn. intros m Hm [k Hk]. rewrite <-app_assoc in Hk.
  apply app_inv_head in Hk. by injection Hk as -> _.
Qed.

Lemma frame_names_self q l s s' : frame_names q l s s' -> nodes s' !! q = nodes s !! q.
Proof.
  intros [_ Hn]. apply Hn. intros m _ [k Hk]. rewrite <-app_assoc in Hk.
  rewrite <-(app_nil_r q) in Hk at 1. by apply app_inv_head in Hk.
Qed.

(** The walk has copied the entries [l] of [p] to [q]. *)
Definition copied_kids (s s' : fs) (p q : list str) (prefix : str) (l : list str)
    (st st' : DigestState) : Prop :=
  exists kids, kid_names kids = l /\ kids_hold s p kids /\ kids_hold s' q kids /\ kids_ok kids /\
    st' = record st (dir_bytes prefix kids) (kids_files kids) (kids_size kids).

Lemma copied_kids_cons s s1 s2 p q prefix name t l st st2 :
  apart p q -> name_ok name -> tree_ok t -> name ∉ l ->
  frame (q ++ [name]) s s1 -> frame_names q l s1 s2 ->
  holds s (p ++ [name]) t -> holds s1 (q ++ [name]) t ->
  copied_kids s1 s2 p q prefix l
    (record st (entry_bytes prefix name t) (tree_files t) (tree_size t)) st2 ->
  copied_kids s s2 p q prefix (name :: l) st st2.
Proof.
  intros Hap Hname Hok Hl Hf1 Hf2 Ht Ht1 (kids & <- & Hk & Hk2 & Hkok & ->).
  exists (Kid name t kids). split; [done|]. split; [|split; [|split; [done|by rewrite record_app]]].
  - split; [done|]. eapply kids_hold_ext; [|exact Hk]. intros m x _. symmetry.
    eapply frame_apart; [by eapply frame_sub; [by eexists|exact Hf1]|done].
  - split; [|done]. eapply holds_ext; [|exact Ht1]. intros x. rewrite <-app_assoc.
    by eapply frame_names_other.
Qed.

Definition copied_dir (s s' : fs) (p q : list str) (prefix : str) (st st' : DigestState) : Prop :=
  exists kids, holds s p (Dir kids) /\ holds s' q (Dir kids) /\ kids_ok kids /\
    st' = record st (dir_bytes prefix kids) (kids_files kids) (kids_size kids).

Definition empty_dir (s : fs) (q : list str) : Prop :=
  nodes s !! q = Some NDir /\ forall name x, nodes s !! (q ++ name :: x) = None.

Lemma copied_dir_of_kids s s' p q prefix l st st' :
  nodes s !! p = Some NDir -> empty_dir s q -> names_of s p l -> frame_names q l s s' ->
  copied_kids s s' p q prefix l st st' -> copied_dir s s' p q prefix st st'.
Proof.
  intros Hp [Hq Hempty] (Hnd & Hs & _ & Hall) Hf (kids & <- & Hk & Hk' & Hok & ->).
  exists kids. split_and!; [done| |done..]. split_and!; [by rewrite (frame_names_self _ _ _ _ Hf)|done..| |done].
  intros name Hin. destruct (decide (name ∈ kid_names kids)) as [|Hn]; [done|].
  rewrite (frame_names_other _ _ _ _ _ _ Hf Hn), Hempty in Hin. by destruct Hin.
Qed.

Lemma within_set_private_dir_mode path p s (Q : fs -> Result unit -> Prop) :
  place_path s path = Some p -> nodes s !! p = Some NDir -> (forall r, Q s r) ->
  within tree_step (set_private_dir_mode path) Q s.
Proof.
  intros Hp Hn HQ. apply within_try, within_or_fail, within_call_. intros r s1 Hs1.
  cbn in Hs1. subst s1. destruct r; [|apply HQ]. apply within_or_fail, within_call_.
  intros r s1 Hs1. apply (at_place_some Hp) in Hs1. unfold changes_mode in Hs1. rewrite Hn in Hs1.
  assert (s1 = s) as -> by by destruct r. by destruct r; apply HQ.
Qed.

Lemma within_create_dir code path p s (Q : fs -> Result unit -> Prop) :
  place_path s path = Some p -> (forall e, Q s (Err e)) ->
  ((forall x, p `prefix_of` x -> nodes s !! x = None) -> Q (put s p NDir) (Ok tt)) ->
  within tree_step (or_code code (call_ (CreateDir path))) Q s.
Proof.
  intros Hp Herr Hok. apply within_or_fail, within_call_. intros r s' Hr. apply (at_place_some Hp) in Hr.
  destruct r as [[]|e]; [|cbn in Hr; subst; apply Herr]. destruct Hr as [Hnone ->].
  by apply Hok.
Qed.

(** Syncing a directory opens it. *)
Definition unsynced (e : VibeCoderError) : Prop :=
  e = checkpoint_error (u "checkpoint_directory_open_failed") \/
  e = checkpoint_error (u "checkpoint_directory_sync_failed").

Lemma within_sync_dir path p s (Q : fs -> Result unit -> Prop) :
  place_path s path = Some p -> (forall s', grown s s' -> Q s' (Ok tt)) ->
  (forall s' e, grown s s' -> unsynced e -> Q s' (Err e)) ->
  within tree_step (sync_dir path) Q s.
Proof.
  intros Hp Hok Herr. apply within_try, within_or_fail, within_call_. intros r s1 Hr.
  apply (at_place_some Hp) in Hr. destruct r as [fd|e]; [|cbn in Hr; subst; apply Herr; [done|by left]].
  destruct Hr as (Hnew & _ & ->). apply within_or_fail, within_call_. intros r s2 Hs2. cbn in Hs2. subst s2.
  destruct r as [[]|e]; [by apply Hok, grown_bind|]. apply Herr; [by apply grown_bind|by right].
Qed.

Lemma empty_put s q :
  (forall x, q `prefix_of` x -> nodes s !! x = None) -> empty_dir (put s q NDir) q.
Proof.
  intros Hnone. split; [apply lookup_insert_eq|]. intros m x. rewrite put_nodes. case_decide as Heq.
  - rewrite <-(app_nil_r q) in Heq at 2. by apply app_inv_head in Heq.
  - apply Hnone. by eexists.
Qed.

Definition copies_entry (s : fs) (p q : list str) (prefix name : str) (st : DigestState) (s' : fs)
    (r : Result DigestState) : Prop :=
  frame (q ++ [name]) s s' /\
  match r with
  | Ok st' => exists t, tree_ok t /\ holds s (p ++ [name]) t /\ holds s' (q ++ [name]) t /\
                st' = record st (entry_bytes prefix name t) (tree_files t) (tree_size t)
  | Err _ => True
  end.

Definition copies_dir (s : fs) (p q : list str) (prefix : str) (st : DigestState) (s' : fs)
    (r : Result DigestState) : Prop :=
  frame q s s' /\ match r with Ok st' => copied_dir s s' p q prefix st st' | Err _ => True end.

(** What the recursive call of [copy_entry] does. *)
Definition copies_below
    (below : place -> place -> str -> DigestState -> tree_prog (Result DigestState)) : Prop :=
  forall source destination p q prefix st s,
    place_path s source = Some p -> place_path s destination = Some q -> apart p q -> empty_dir s q ->
    within tree_step (below source destination prefix st) (copies_dir s p q prefix st) s.

Lemma within_copy_entry below ps pq p q prefix name st s :
  copies_below below -> apart p q -> fds s !! pinned ps = Some p -> fds s !! pinned pq = Some q ->
  within tree_step (copy_entry below ps pq prefix st name) (copies_entry s p q prefix name st) s.
Proof.
  intros IH Hap Hps Hpq.
  assert (Hpath : place_path s (Beneath (pinned ps) name) = Some (p ++ [name])) by (cbn; by rewrite Hps).
  assert (Hdest : place_path s (Beneath (pinned pq) name) = Some (q ++ [name])) by (cbn; by rewrite Hpq).
  apply within_try. eapply within_symlink_metadata; [exact Hpath| |done].
  intros before n Hn Hst. destruct (is_symlink before) eqn:Hsym; [done|].
  destruct (is_dir before) eqn:Hd.
  - pose proof (stat_dir _ _ Hst Hd) as ->.
    apply within_try. eapply within_create_dir; [exact Hdest|done|]. intros Hnone.
    set (s1 := put s (q ++ [name]) NDir).
    assert (H1 : frame (q ++ [name]) s s1) by by apply frame_put.
    assert (Hdest1 : place_path s1 (Beneath (pinned pq) name) = Some (q ++ [name])) by done.
    apply within_try. eapply within_set_private_dir_mode; [done|by apply lookup_insert_eq|].
    intros [[]|e]; [|done]. apply within_try. eapply within_mono.
    { apply (IH _ _ (p ++ [name]) (q ++ [name])); [done..|by apply apart_sub|by apply empty_put]. }
    intros s2 [st2|e] [H2 Hr]; [|by split; [rewrite H1|]].
    destruct Hr as (kids & Hh & Hh2 & Hkok & ->). apply within_try.
    assert (Hf3 : forall s3, grown s2 s3 -> frame (q ++ [name]) s s3).
    { intros s3 H3. rewrite H1, H2. by apply grown_frame. }
    eapply within_sync_dir; [by eapply place_path_grown; [apply H2|]| |by intros; split; [apply Hf3|]].
    intros s3 H3. specialize (Hf3 s3 H3). split; [done|]. exists (Dir kids). split_and!; [done|..].
    + eapply holds_ext; [|exact Hh]. intros x. symmetry. apply (frame_apart _ _ _ _ x H1).
      by apply apart_sub.
    + eapply holds_ext; [|exact Hh2]. intros x. destruct H3 as [H3 _]. by rewrite H3.
    + rewrite record_dir_spec, record_app. cbn [entry_bytes]. by rewrite <-app_assoc.
  - destruct (is_file before) eqn:Hf; [|done].
    destruct (stat_file _ _ Hst Hsym Hd Hf) as (mode & content & -> & Hlen & Hexec).
    eapply within_mono; [eapply within_copy_file; [exact Hpath|exact Hdest|by apply apart_sub|done..]|].
    intros s1 [st1|e] [Hf1 Hr]; [|done]. destruct Hr as (-> & Hsize & Hh). split; [done|].
    exists (File (executable mode) content). split_and!; [done|by exists mode|done..].
Qed.

Lemma within_copy_entries below ps pq p q prefix l :
  copies_below below -> apart p q -> NoDup l -> Forall name_ok l ->
  forall s st, fds s !! pinned ps = Some p -> fds s !! pinned pq = Some q ->
    within tree_step (try_fold (copy_entry below ps pq prefix) l st)
      (fun s' r => frame_names q l s s' /\
         match r with Ok st' => copied_kids s s' p q prefix l st st' | Err _ => True end) s.
Proof.
  intros IH Hap Hnd Hok. induction Hok as [|name l Hname Hok IHl]; intros s st Hps Hpq; cbn [try_fold].
  { split; [apply frame_names_refl|]. exists Empty. by rewrite record_nil. }
  apply NoDup_cons in Hnd as [Hl Hnd]. apply within_try. eapply within_mono; [by apply within_copy_entry|].
  intros s1 [st1|e] [Hf Hr]; [|by split; [apply frame_names_err|]].
  destruct Hr as (t & Ht & Hh & Hh1 & ->).
  eapply within_mono; [apply IHl; [done|by eapply frame_fd..]|].
  intros s2 r [Hf2 Hr]. split; [by eapply frame_names_cons|]. destruct r as [st'|]; [|done].
  by eapply copied_kids_cons.
Qed.

Lemma within_copy_dir fuel : copies_below (copy_dir_recursive fuel).
Proof.
  induction fuel as [|fuel IH]; intros source destination p q prefix st s Hp Hq Hap Hempty; [done|].
  cbn [copy_dir_recursive].
  apply within_try. eapply within_pin_directory; [exact Hp|by intros; split; [apply grown_frame|]|].
  intros s1 ps H1 Hps Hdir Hnames.
  apply within_try. eapply within_pin_directory; [eapply place_path_grown; [apply H1|exact Hq]| |].
  { intros s2 e H2. split; [|done]. apply grown_frame. by rewrite H1. }
  intros s2 pq H2 Hpq _ _. assert (Hg : grown s s2) by by rewrite H1.
  eapply within_mono.
  { apply (within_copy_entries _ ps pq p q); [done|done|apply Hnames|apply Hnames|
      exact (grown_fd _ _ _ _ H2 Hps)|done]. }
  intros s3 r [H3 Hr]. split; [etransitivity; [by apply grown_frame|by eapply frame_names_frame]|].
  destruct r as [st'|]; [|done]. pose proof Hg as [Hgn _].
  assert (Hcopied : copied_dir s2 s3 p q prefix st st').
  { eapply copied_dir_of_kids; [by rewrite Hgn| | |done..].
    - destruct Hempty as [Hqd Hfree]. split; [by rewrite Hgn|]. intros. by rewrite Hgn.
    - destruct Hnames as (? & ? & ? & Hall). split_and!; [done..|]. by rewrite Hgn. }
  destruct Hcopied as (kids & Hk & Hrest). exists kids.
  split; [exact (holds_grown _ _ _ _ Hg Hk)|done].
Qed.

(** ** Whole trees *)

Definition tree_digest `{Sha256} (kids : forest) : TreeDigest :=
  {| td_file_count := kids_files kids; td_total_bytes := kids_size kids;
     td_sha256 := digest_hex (dir_bytes [] kids) |}.

Section digests.
Context `{Sha256}.

Lemma finish_record bs files size :
  finish (record digest_new bs files size) =
  {| td_file_count := files; td_total_bytes := size; td_sha256 := digest_hex bs |}.
Proof. done. Qed.

Lemma within_digest_tree root p Q s :
  place_path s root = Some p ->
  (forall s' e, grown s s' -> Q s' (Err e)) ->
  (forall s' kids, grown s s' -> holds s p (Dir kids) -> kids_ok kids -> Q s' (Ok (tree_digest kids))) ->
  within tree_step (digest_tree root) Q s.
Proof.
  intros Hp Herr Hok. apply within_try. eapply within_mono; [by apply within_hash_dir|].
  intros s' [st|e] [Hg Hr]; [|by apply Herr]. destruct Hr as (kids & Hh & Hkok & ->). by apply Hok.
Qed.

Lemma within_copy_tree source destination p q Q s :
  place_path s source = Some p -> place_path s destination = Some q -> apart p q -> empty_dir s q ->
  (forall s' e, frame q s s' -> Q s' (Err e)) ->
  (forall s' kids, frame q s s' -> holds s p (Dir kids) -> holds s' q (Dir kids) ->
     Q s' (Ok (tree_digest kids))) ->
  within tree_step (copy_tree_and_digest source destination) Q s.
Proof.
  intros Hp Hq Hap Hempty Herr Hok. apply within_try. eapply within_mono; [by apply within_copy_dir|].
  intros s' [st|e] [Hf Hr]; [|by apply Herr]. destruct Hr as (kids & Hh & Hh' & _ & ->). by apply Hok.
Qed.
End digests.
