(* ===== verification/CheckpointLayout.v ===== *)
(** * Where the checkpoints of a project are ([vibecoder-checkpoint-local])

    The paths of the store as places in the tree, what a stored checkpoint is, and the
    operations that only look at the store. *)
From S2P Require Import Prelude RustStr StrFacts RustPath Domain Program OsCalls.
From S2P Require Import FileSystem StateNames CheckpointStore Checkpoint TreeDigest.
From S2P Require Import TreeSystem.
From S2P Require Import TreeWalk TreeCopy.

Lemma absolute_push base part :
  has_root base = true -> plain_name part -> absolute (push_str base part) = absolute base ++ [part].
Proof.
  intros Hr Hp. unfold absolute, path_names, components. cbn [path_text].
  by rewrite push_str_components, omap_app.
Qed.

Lemma same_path_absolute p q : same_path p q = true -> absolute p = absolute q.
Proof.
  unfold same_path, absolute, path_names, components. cbn [path_text]. intros H. bool_prop.
  by rewrite H.
Qed.

(** Paths with the same components have the same start. *)
Lemma piece_component_root b piece : RootDir ∉ piece_component b piece.
Proof. unfold piece_component. repeat case_bool_decide; try destruct b; set_solver. Qed.

Lemma root_component s : RootDir ∈ text_components s -> has_root s = true.
Proof.
  unfold text_components. destruct (split slash s) as [|p ps]; [by intros ?%elem_of_nil|].
  destruct (has_root s); [done|]. cbn [app]. rewrite elem_of_app.
  intros [Hin|Hin]; [by apply piece_component_root in Hin|].
  apply list_elem_of_bind in Hin as (x & Hin & _). by apply piece_component_root in Hin.
Qed.

Lemma same_components_root p q :
  text_components p = text_components q -> has_root q = true -> has_root p = true.
Proof.
  intros Heq Hq. apply root_component. rewrite Heq. unfold text_components.
  destruct (split_from_concat slash [] q) as (x & xs & Hs & _). unfold split. rewrite Hs, Hq. by left.
Qed.

(** ** Names *)

Lemma plain_tree : plain_name SNAPSHOT_TREE_NAME.
Proof. split_and!; [done| |done..]. vm_compute. set_solver. Qed.

Lemma plain_metadata : plain_name METADATA_NAME.
Proof. split_and!; [done| |done..]. vm_compute. set_solver. Qed.

Section names.
Context `{UuidShape}.

Lemma uuid_no_slash id : slash ∉ uuid_hyphenated id.
Proof.
  pose proof (uuid_name_chars id) as Hc. rewrite Forall_forall in Hc. intros Hin. by specialize (Hc _ Hin).
Qed.

Lemma uuid_no_dot id : 46 ∉ uuid_hyphenated id.
Proof.
  pose proof (uuid_name_chars id) as Hc. rewrite Forall_forall in Hc. intros Hin. by specialize (Hc _ Hin).
Qed.

Lemma plain_uuid id : plain_name (uuid_hyphenated id).
Proof.
  destruct (uuid_hyphenated_shape id) as (a & b & c & d & e & Heq & Hg).
  apply Forall_cons in Hg as [[Ha _] _]. split_and!.
  - rewrite Heq. by destruct a.
  - apply uuid_no_slash.
  - intros Hdot. apply (uuid_no_dot id). rewrite Hdot. by left.
  - intros Hdot. apply (uuid_no_dot id). rewrite Hdot. by left.
Qed.

Lemma plain_prefixed prefix id :
  slash ∉ prefix -> (2 < length prefix)%nat -> plain_name (prefix ++ uuid_hyphenated id).
Proof.
  intros Hs Hl. split_and!.
  - by destruct prefix; [cbn in Hl; lia|].
  - rewrite elem_of_app. intros [?|?]; [done|by eapply uuid_no_slash].
  - intros Hd%(f_equal length). rewrite length_app in Hd. cbn in Hd. lia.
  - intros Hd%(f_equal length). rewrite length_app in Hd. cbn in Hd. lia.
Qed.

Lemma plain_temp id : plain_name (temp_name id).
Proof. apply plain_prefixed; [vm_compute; set_solver|cbn; lia]. Qed.

Lemma plain_staging fresh : plain_name (staging_name fresh).
Proof. apply plain_prefixed; [vm_compute; set_solver|cbn; lia]. Qed.

(** A temporary name starts with a dot, a UUID does not. *)
Lemma uuid_not_dotted id rest : uuid_hyphenated id <> 46 :: rest.
Proof. intros Heq. apply (uuid_no_dot id). rewrite Heq. by left. Qed.
End names.

(** ** Paths *)

Record rooted (self : LocalCheckpointStore) : Prop := {
  rooted_projects : has_root (projects_root self) = true;
  rooted_checkpoints : has_root (checkpoints_root self) = true;
  rooted_apart : apart (absolute (projects_root self)) (absolute (checkpoints_root self))
}.

Section layout.
Context `{UuidShape} (self : LocalCheckpointStore).

Definition project_path (pid : ProjectId) : list str :=
  absolute (projects_root self) ++ [project_name pid].
Definition history_path (pid : ProjectId) : list str :=
  absolute (checkpoints_root self) ++ [project_name pid].
Definition checkpoint_path (pid : ProjectId) (id : CheckpointId) : list str :=
  history_path pid ++ [uuid_hyphenated (checkpoint_uuid id)].

Context (Hrooted : rooted self).

Lemma expected_project_path pid : absolute (expected_project_root self pid) = project_path pid.
Proof. apply absolute_push; [apply Hrooted|apply plain_uuid]. Qed.

Lemma history_dir_path pid : absolute (project_checkpoint_dir self pid) = history_path pid.
Proof. apply absolute_push; [apply Hrooted|apply plain_uuid]. Qed.

Lemma history_dir_rooted pid : has_root (project_checkpoint_dir self pid) = true.
Proof. apply has_root_push, Hrooted. Qed.

Lemma checkpoint_dir_path pid id : absolute (checkpoint_dir self pid id) = checkpoint_path pid id.
Proof.
  unfold checkpoint_dir, checkpoint_path. rewrite <-history_dir_path.
  apply absolute_push; [apply history_dir_rooted|apply plain_uuid].
Qed.

Lemma checkpoint_dir_rooted pid id : has_root (checkpoint_dir self pid id) = true.
Proof. apply has_root_push, history_dir_rooted. Qed.

Lemma snapshot_tree_path pid id :
  absolute (push_str (checkpoint_dir self pid id) SNAPSHOT_TREE_NAME)
  = checkpoint_path pid id ++ [SNAPSHOT_TREE_NAME].
Proof.
  rewrite <-checkpoint_dir_path. apply absolute_push; [apply checkpoint_dir_rooted|apply plain_tree].
Qed.

Lemma project_apart_history pid pid' : apart (project_path pid) (history_path pid').
Proof. apply apart_sub, Hrooted. Qed.
End layout.

(** ** Stored checkpoints *)

(** The metadata says what is in the tree. *)
Definition describes `{Sha256} (m : CheckpointMetadata) (kids : forest) : Prop :=
  tree_digest kids =
  {| td_file_count := file_count m; td_total_bytes := total_bytes m; td_sha256 := tree_sha256 m |}.

Section stored.
Context `{UuidLib, Sha256, MetadataJson}.

(** A checkpoint directory at [p]: the file with the metadata and the tree it describes. *)
Definition checkpoint_at (s : fs) (p : list str) (m : CheckpointMetadata) (kids : forest) : Prop :=
  nodes s !! p = Some NDir /\
  (exists mode bs, nodes s !! (p ++ [METADATA_NAME]) = Some (NFile mode bs) /\
     metadata_to_vec m = Some bs) /\
  holds s (p ++ [SNAPSHOT_TREE_NAME]) (Dir kids) /\
  describes m kids /\ CheckpointMetadata_validate m = Ok tt.

(** The store has the checkpoint [m] of the tree [kids]. *)
Definition stored (self : LocalCheckpointStore) (s : fs) (m : CheckpointMetadata) (kids : forest) :
    Prop :=
  checkpoint_at s (checkpoint_path self (cm_project_id m) (cm_checkpoint_id m)) m kids.

Lemma checkpoint_at_ext s s' p p' m kids :
  (forall x, nodes s' !! (p' ++ x) = nodes s !! (p ++ x)) -> checkpoint_at s p m kids ->
  checkpoint_at s' p' m kids.
Proof.
  intros Hx (Hp & (mode & bs & Hm & Hbs) & Ht & Hd & Hv). split_and!; [| | |done..].
  - specialize (Hx []). by rewrite !app_nil_r, Hp in Hx.
  - exists mode, bs. by rewrite Hx.
  - eapply holds_ext; [|exact Ht]. intros x. by rewrite <-!app_assoc, Hx.
Qed.

(** A checkpoint directory is not empty. *)
Lemma checkpoint_at_inside s p m kids :
  checkpoint_at s p m kids -> is_Some (nodes s !! (p ++ [SNAPSHOT_TREE_NAME])).
Proof. intros (_ & _ & Ht & _). by eapply holds_present. Qed.
End stored.

(** ** Operations that only look *)

Ltac looks :=
  repeat match goal with
  | |- calls_only _ (Ret _) => exact I
  | |- calls_only _ (give _) => exact I
  | |- calls_only _ (bind _ _) => apply calls_only_bind; [|intros ?]
  | |- calls_only _ (or_code _ _) => apply calls_only_bind; [|intros ?]
  | |- calls_only _ (call_ _) => by apply calls_only_call_
  | |- calls_only _ (match ?x with _ => _ end) => destruct x
  end.

Lemma reject_symlink_looks path code : calls_only quiet (reject_symlink path code).
Proof. unfold reject_symlink. looks. Qed.

Section looking.
Context `{UuidShape} (self : LocalCheckpointStore).

Lemma verify_project_looks project : calls_only quiet (verify_project self project).
Proof. unfold verify_project. looks. Qed.

Lemma checkpoint_entries_looks parent ids entries :
  calls_only quiet (checkpoint_entries parent ids entries).
Proof.
  revert ids. induction entries as [|[raw|] entries IH]; intros ids; [done| |done].
  cbn [checkpoint_entries]. looks; apply IH.
Qed.

Lemma list_checkpoint_ids_looks parent : calls_only quiet (list_checkpoint_ids parent).
Proof. unfold list_checkpoint_ids. looks. apply checkpoint_entries_looks. Qed.

Lemma fresh_checkpoint_id_looks tries parent : calls_only quiet (fresh_checkpoint_id tries parent).
Proof. induction tries as [|tries IH]; [done|]. cbn [fresh_checkpoint_id]. looks; apply IH. Qed.

(** A project that was verified is where the store keeps it. *)
Lemma within_verify_project project Q s :
  rooted self -> (forall e, Q s (Err e)) ->
  (absolute (pr_root project) = project_path self (pr_id project) -> Q s (Ok tt)) ->
  within tree_step (verify_project self project) Q s.
Proof.
  intros Hroot Herr Hok. pose proof (verify_project_looks project) as Hl. revert Hl.
  unfold verify_project. destruct (same_path (pr_root project) _) eqn:Hsame; intros Hl; [|apply Herr].
  apply same_path_absolute in Hsame. rewrite expected_project_path in Hsame by done.
  apply (within_mono _ _ (fun s' _ => s' = s)); [by apply within_quiet|].
  intros s' [[]|e] ->; [by apply Hok|apply Herr].
Qed.
End looking.
