(* ===== verification/CheckpointCreate.v ===== *)
(** * What creating a checkpoint does ([vibecoder-checkpoint-local])

    [create_checkpoint_sync] in the file system of [TreeSystem.v]: what it returns is
    what it has stored, the project is what it was, and older checkpoints stay. *)
From S2P Require Import Prelude RustStr StrFacts RustPath Domain Program OsCalls.
From S2P Require Import FileSystem StateNames CheckpointStore Checkpoint TreeDigest.
From S2P Require Import TreeSystem.
From S2P Require Import TreeWalk TreeCopy CheckpointLayout.

(** ** A private directory *)

(** Nothing changed but what is at [p] itself. *)
Definition frame_at (p : list str) (s s' : fs) : Prop :=
  fds s ⊆ fds s' /\ forall x, x <> p -> nodes s' !! x = nodes s !! x.

#[export] Instance frame_at_preorder p : PreOrder (frame_at p).
Proof.
  split; [by split|]. intros a b c [Hf Hn] [Hf' Hn']. split; [by etransitivity|].
  intros x Hx. by rewrite Hn', Hn.
Qed.

Lemma frame_at_put p s n : frame_at p s (put s p n).
Proof. split; [done|]. intros x Hx. by apply lookup_insert_ne. Qed.

Lemma grown_frame_at p s s' : grown s s' -> frame_at p s s'.
Proof. intros [Hn Hf]. split; [done|]. by rewrite Hn. Qed.

Lemma frame_at_frame p s s' : frame_at p s s' -> frame p s s'.
Proof. intros [Hf Hn]. split; [done|]. intros x Hx. apply Hn. by intros ->. Qed.

Lemma within_changes_mode path p mode code s (Q : fs -> Result unit -> Prop) :
  place_path s path = Some p -> (forall s' r, frame_at p s s' -> Q s' r) ->
  within tree_step (or_code code (call_ (SetPermissions path mode))) Q s.
Proof.
  intros Hp HQ. apply within_or_fail, within_call_. intros r s' Hr. apply (at_place_some Hp) in Hr.
  assert (Hf : frame_at p s s').
  { unfold changes_mode in Hr. destruct r, (nodes s !! p) as [[|m content|]|]; cbn in Hr;
      subst s'; try done. apply frame_at_put. }
  by destruct r; apply HQ.
Qed.

Lemma within_private_child parent name Q s :
  has_root parent = true -> plain_name name ->
  (forall s' e, frame_at (absolute parent ++ [name]) s s' -> Q s' (Err e)) ->
  (forall s' child, frame_at (absolute parent ++ [name]) s s' ->
     text_components child = text_components (push_str parent name) -> Q s' (Ok child)) ->
  within tree_step (create_or_verify_private_child parent name) Q s.
Proof.
  intros Hr Hn Herr Hok. rewrite <-(absolute_push _ _ Hr Hn) in *. unfold create_or_verify_private_child.
  destruct (_ || _); [by apply Herr|]. cbn zeta. set (child := push_str parent name) in *.
  apply within_try, within_quiet; [apply reject_symlink_looks|]. intros [[]|e]; [|by apply Herr].
  apply within_bind, within_call_. intros created s1 H1.
  assert (Hf1 : frame_at (absolute child) s s1).
  { destruct created as [[]|e]; [|cbn in H1; by subst]. destruct H1 as [_ ->]. apply frame_at_put. }
  apply within_give; [intros [] _|intros; by apply Herr].
  apply within_try, within_quiet; [apply reject_symlink_looks|]. intros [[]|e]; [|by apply Herr].
  apply within_try, within_or_fail, within_call_. intros r s2 [-> _].
  destruct r as [canonical|e]; [|by apply Herr]. destruct (same_path canonical child) eqn:Hsame; [|by apply Herr].
  destruct (negb true || _); [by apply Herr|]. unfold same_path in Hsame. bool_prop.
  apply within_try. apply within_try, within_or_fail, within_call_. intros r s2 H2. cbn in H2. subst s2.
  destruct r as [st|e]; [|by apply Herr].
  eapply within_changes_mode; [done|]. intros s2 r Hf2.
  assert (Hf : frame_at (absolute child) s s2).
  { rewrite Hf1. unfold absolute, path_names, components in *. cbn [path_text] in *. by rewrite <-Hsame. }
  destruct r as [[]|e]; [by apply Hok|by apply Herr].
Qed.

(** ** The metadata file *)

Section creating.
Context `{UuidShape, Sha256, MetadataJson}.

Definition metadata_file (s : fs) (p : list str) (m : CheckpointMetadata) : Prop :=
  exists mode bs, nodes s !! p = Some (NFile mode bs) /\ metadata_to_vec m = Some bs.

Lemma within_write_metadata path m Q s :
  (forall s' e, frame_at (absolute path) s s' -> Q s' (Err e)) ->
  (forall s', frame_at (absolute path) s s' -> metadata_file s' (absolute path) m -> Q s' (Ok tt)) ->
  within tree_step (write_metadata path m) Q s.
Proof.
  intros Herr Hok. unfold write_metadata. set (p := absolute path) in *.
  destruct (metadata_to_vec m) as [bs|] eqn:Hbs; [|by apply Herr].
  destruct (_ <? _); [by apply Herr|].
  apply within_try, within_or_fail, within_call_. intros r s1 Hc1.
  apply (at_place_some (p := PathAt path) (q := p) eq_refl) in Hc1.
  destruct r as [fd|e]; [|cbn in Hc1; subst; by apply Herr].
  destruct Hc1 as (Hnew & _ & mode & _ & ->). set (s1 := bind_fd _ _ _).
  assert (Hf1 : frame_at p s s1).
  { split; [by apply insert_subseteq|]. intros x Hx. by apply lookup_insert_ne. }
  apply within_try, within_or_fail, within_call_. intros r s2 Hc2.
  apply (at_fd_some (q := p) (lookup_insert_eq _ _ _)) in Hc2.
  assert (Hf2 : frame_at p s s2).
  { etransitivity; [exact Hf1|]. destruct r as [[]|e].
    - destruct Hc2 as (? & ? & _ & ->). apply frame_at_put.
    - destruct Hc2 as [-> | (? & ? & ? & _ & ->)]; [done|apply frame_at_put]. }
  destruct r as [[]|e]; [|by apply Herr].
  destruct Hc2 as (mode' & old & Hold & ->). cbn in Hold. rewrite lookup_insert_eq in Hold.
  injection Hold as <- <-. apply within_or_fail, within_call_. intros r s3 Hc3. cbn in Hc3. subst s3.
  destruct r as [[]|e]; [|by apply Herr]. apply Hok; [done|]. exists mode, bs. split; [|done].
  apply lookup_insert_eq.
Qed.

(** ** Publishing *)

(** The checkpoint [m] of [kids] is now at [to], which was empty; nothing changed but
    there and in the temporary directory. *)
Definition published (temp to : list str) (m : CheckpointMetadata) (kids : forest) (s s' : fs) : Prop :=
  checkpoint_at s' to m kids /\ (forall x, x <> [] -> nodes s !! (to ++ x) = None) /\
  (forall x, ~ temp `prefix_of` x -> ~ to `prefix_of` x -> nodes s' !! x = nodes s !! x).

Lemma published_grown temp to m kids s s1 s2 :
  published temp to m kids s s1 -> grown s1 s2 -> published temp to m kids s s2.
Proof.
  intros (Hat & Hnone & Hother) [Hn _]. split_and!; [|done|by rewrite Hn].
  eapply checkpoint_at_ext; [|exact Hat]. intros x. by rewrite Hn.
Qed.

Lemma published_frame temp to m kids s s1 s2 :
  apart temp to -> frame temp s s1 -> published temp to m kids s1 s2 -> published temp to m kids s s2.
Proof.
  intros Hap Hf (Hat & Hnone & Hother). split_and!; [done| |].
  - intros x Hx. rewrite <-(frame_source _ _ _ _ Hf); [by apply Hnone|].
    by apply apart_below.
  - intros x Hx Hx'. rewrite Hother by done. apply Hf, Hx.
Qed.

Lemma within_publish_rename temp_path to_path temp to m kids code s (Q : fs -> Result unit -> Prop) :
  place_path s temp_path = Some temp -> place_path s to_path = Some to ->
  checkpoint_at s temp m kids -> (forall e, Q s (Err e)) ->
  (forall s', published temp to m kids s s' -> Q s' (Ok tt)) ->
  within tree_step (or_code code (call_ (Rename temp_path to_path))) Q s.
Proof.
  intros Ht Hto Hat Herr Hok. apply within_or_fail, within_call_. intros r s' Hr.
  apply (at_place_some Ht), (at_place_some Hto) in Hr. destruct r as [[]|e]; [|cbn in Hr; subst; apply Herr].
  destruct Hr as (Hdir & Hap & Hfree & Hnone & ->). apply Hok. split_and!.
  - eapply checkpoint_at_ext; [|exact Hat]. intros x.
    rewrite swap_trees_lookup, swap_path_r, remove_tree_lookup by done. rewrite decide_False; [done|].
    by apply apart_below, apart_sym.
  - intros x Hx. apply Hnone; [by eexists|]. intros Heq. apply Hx.
    rewrite <-(app_nil_r to) in Heq at 2. by apply app_inv_head in Heq.
  - intros x Hx Hx'. rewrite swap_trees_lookup, swap_path_other, remove_tree_lookup by done.
    by rewrite decide_False.
Qed.

(** What [publish] and [fill_and_publish] do: on an error nothing is published, except
    when only the last sync failed. *)
Definition publishes (pid : ProjectId) (id : CheckpointId) (temp to : list str) (kids : forest)
    (s s' : fs) (r : Result CheckpointMetadata) : Prop :=
  let done m :=
    cm_project_id m = pid /\ cm_checkpoint_id m = id /\ published temp to m kids s s' in
  match r with
  | Ok m => done m
  | Err e => frame temp s s' \/ (unsynced e /\ exists m, done m)
  end.

Lemma checkpoint_at_metadata temp s s' m kids :
  nodes s !! temp = Some NDir -> holds s (temp ++ [SNAPSHOT_TREE_NAME]) (Dir kids) ->
  frame_at (temp ++ [METADATA_NAME]) s s' -> metadata_file s' (temp ++ [METADATA_NAME]) m ->
  describes m kids -> CheckpointMetadata_validate m = Ok tt -> checkpoint_at s' temp m kids.
Proof.
  intros Ht Hh [_ Hf] Hm Hd Hv. split_and!; [|done| |done..].
  - rewrite Hf; [done|]. intros Heq. rewrite <-(app_nil_r temp) in Heq at 1. by apply app_inv_head in Heq.
  - eapply holds_ext; [|exact Hh]. intros x. apply Hf. rewrite <-app_assoc. intros Heq.
    by apply app_inv_head in Heq.
Qed.

Lemma checkpoint_at_grown s s' p m kids : grown s s' -> checkpoint_at s p m kids -> checkpoint_at s' p m kids.
Proof. intros [Hn _]. apply checkpoint_at_ext. intros x. by rewrite Hn. Qed.

Lemma within_publish project reason id dir temp_dir final_dir kids s :
  has_root temp_dir = true -> apart (absolute temp_dir) (absolute final_dir) ->
  nodes s !! absolute temp_dir = Some NDir ->
  holds s (absolute temp_dir ++ [SNAPSHOT_TREE_NAME]) (Dir kids) ->
  within tree_step (publish project reason id dir temp_dir final_dir (tree_digest kids))
    (publishes (pr_id project) id (absolute temp_dir) (absolute final_dir) kids s) s.
Proof.
  intros Hr Hap Hdir Hh. set (temp := absolute temp_dir) in *. set (to := absolute final_dir) in *.
  assert (Herr : forall s' e, frame temp s s' -> publishes (pr_id project) id temp to kids s s' (Err e))
    by by left.
  apply within_bind, within_call_. intros now s1 Hs1. cbn in Hs1. subst s1.
  apply within_give; [|by intros; apply Herr]. intros now' _. destruct (_ <? _); [by apply Herr|]. cbn zeta.
  apply within_give; [|by intros; apply Herr]. intros [] Hvalid. set (m := Build_CheckpointMetadata _ _ _ _ _ _ _ _) in *.
  assert (Hmeta : absolute (push_str temp_dir METADATA_NAME) = temp ++ [METADATA_NAME])
    by (apply absolute_push; [done|apply plain_metadata]).
  assert (Hin : forall s', frame_at (temp ++ [METADATA_NAME]) s s' -> frame temp s s').
  { intros s' Hf. by eapply frame_child, frame_at_frame. }
  apply within_try. eapply within_write_metadata; rewrite Hmeta; [by intros; apply Herr, Hin|].
  intros s1 Hf1 Hm1. assert (Hat1 : checkpoint_at s1 temp m kids) by by eapply checkpoint_at_metadata.
  apply Hin in Hf1.
  apply within_try. eapply within_sync_dir; [done| |intros s2 e Hg2 _; apply Herr; rewrite Hf1; by apply grown_frame].
  intros s2 Hg2. apply (grown_frame temp) in Hg2 as Hf2.
  apply within_try. eapply within_sync_dir;
    [done| |intros s3 e Hg3 _; apply Herr; rewrite Hf1, Hf2; by apply grown_frame].
  intros s3 Hg3. apply (grown_frame temp) in Hg3 as Hf3.
  assert (Hf : frame temp s s3) by by rewrite Hf1, Hf2.
  apply within_try. eapply (within_publish_rename _ _ temp to m kids); [done|done| |by intros; apply Herr|].
  { eapply (checkpoint_at_grown s1); [by rewrite Hg2|done]. }
  intros s4 Hp. apply (published_frame _ _ _ _ _ _ _ Hap Hf) in Hp.
  apply within_try. eapply within_sync_dir; [done| |].
  - intros s5 Hg5. split_and!; [done..|]. by eapply published_grown.
  - intros s5 e Hg5 He. right. split; [done|]. exists m. split_and!; [done..|]. by eapply published_grown.
Qed.

(** A tree that was walked. *)
Definition walked (s : fs) (p : list str) (kids : forest) : Prop := holds s p (Dir kids) /\ kids_ok kids.

(** What [fill_and_publish] does to the project at [p]. *)
Definition fills (pid : ProjectId) (id : CheckpointId) (p temp to : list str) (s s' : fs)
    (r : Result CheckpointMetadata) : Prop :=
  (is_err r = true /\ frame temp s s') \/
  exists kids, walked s p kids /\ publishes pid id temp to kids s s' r.

Lemma publishes_frame pid id temp to kids s s1 s2 r :
  apart temp to -> frame temp s s1 -> publishes pid id temp to kids s1 s2 r ->
  publishes pid id temp to kids s s2 r.
Proof.
  intros Hap Hf. destruct r as [m|e]; cbn.
  - intros (? & ? & ?). split_and!; [done..|by eapply published_frame].
  - intros [?|(? & m & ? & ? & ?)]; [left; by rewrite Hf|]. right. split; [done|]. exists m.
    split_and!; [done..|by eapply published_frame].
Qed.

Lemma within_fill project reason id dir temp_dir final_dir p s :
  has_root temp_dir = true -> absolute (pr_root project) = p ->
  apart p (absolute temp_dir) -> apart (absolute temp_dir) (absolute final_dir) ->
  empty_dir s (absolute temp_dir) ->
  within tree_step (fill_and_publish project reason id dir temp_dir final_dir)
    (fills (pr_id project) id p (absolute temp_dir) (absolute final_dir) s) s.
Proof.
  intros Hr Hp Hpt Hap [Hdir Hempty]. set (temp := absolute temp_dir) in *. set (to := absolute final_dir) in *.
  assert (Herr : forall s' e, frame temp s s' -> fills (pr_id project) id p temp to s s' (Err e)) by by left.
  assert (Htree : absolute (push_str temp_dir SNAPSHOT_TREE_NAME) = temp ++ [SNAPSHOT_TREE_NAME])
    by (apply absolute_push; [done|apply plain_tree]).
  set (t := temp ++ [SNAPSHOT_TREE_NAME]) in *.
  assert (Hsub : forall s', frame t s s' -> frame temp s s') by by intros ?; apply frame_child.
  assert (Hpt' : apart p t) by (rewrite <-(app_nil_r p); by apply apart_sub).
  apply within_try. eapply within_create_dir; [by rewrite <-Htree|by intros; apply Herr|].
  rewrite Htree. fold t. intros Hnone. set (s1 := put s t NDir).
  assert (Hf1 : frame t s s1) by by apply frame_put.
  apply within_try. eapply within_set_private_dir_mode; [by rewrite <-Htree|by rewrite Htree; apply lookup_insert_eq|].
  intros [[]|e]; [|by apply Herr, Hsub].
  apply within_try. eapply (within_digest_tree _ p); [by rewrite <-Hp| |].
  { intros s2 e Hg. apply Herr, Hsub. rewrite Hf1. by apply grown_frame. }
  intros s2 kids_before Hg2 Hbefore Hok. 
  assert (Hf2 : frame t s s2) by (rewrite Hf1; by apply grown_frame).
  assert (Hempty2 : empty_dir s2 t).
  { destruct (empty_put s t Hnone) as [? ?]. destruct Hg2 as [Hg2 _]. split; [|intros]; by rewrite Hg2. }
  apply within_try. eapply (within_copy_tree _ _ p t); [by rewrite <-Hp|by rewrite <-Htree|done|done| |].
  { intros s3 e Hf3. apply Herr, Hsub. by rewrite Hf2. }
  intros s3 kids Hf23 Hsrc Hcopy. assert (Hf3 : frame t s s3) by by rewrite Hf2.
  apply within_try. eapply within_digest_tree; [by rewrite <-Htree| |].
  { intros s4 e Hg. apply Herr, Hsub. rewrite Hf3. by apply grown_frame. }
  intros s4 kids' Hg4 Hcopy' _. assert (Hf4 : frame t s s4) by (rewrite Hf3; by apply grown_frame).
  destruct (negb _); [by apply Herr, Hsub|].
  apply within_try. eapply (within_digest_tree _ p); [by rewrite <-Hp| |].
  { intros s5 e Hg. apply Herr, Hsub. rewrite Hf4. by apply grown_frame. }
  intros s5 kids_after Hg5 Hafter Hok_after.
  assert (Hf5 : frame t s s5) by (rewrite Hf4; by apply grown_frame).
  destruct (_ || _); [by apply Herr, Hsub|].
  assert (Hwalked : walked s p kids).
  { rewrite (holds_apart t s) in Hafter by done. rewrite (holds_apart t s) in Hsrc by done. split; [done|].
    pose proof (holds_unique _ _ _ _ Hsrc Hafter) as Heq. by injection Heq as ->. }
  eapply within_mono.
  { apply (within_publish project reason id dir temp_dir final_dir kids); [done..| |].
    - change (nodes s5 !! temp = Some NDir). by rewrite (frame_parent _ _ _ _ Hf5).
    - eapply holds_ext; [|exact Hcopy]. intros x. destruct Hg4 as [Hn4 _], Hg5 as [Hn5 _]. by rewrite Hn5, Hn4. }
  intros s6 r Hpub. right. exists kids. split; [done|].
  by eapply publishes_frame; [|apply Hsub, Hf5|].
Qed.

(** ** The whole operation *)

Lemma within_discard path p result s (Q : fs -> Result CheckpointMetadata -> Prop) :
  place_path s path = Some p -> (forall s', frame p s s' -> Q s' result) ->
  within tree_step
    (do there <- call_ (Exists path);
     if (there : bool) then do _ <- call_ (RemoveDirAll path); Ret result else Ret result) Q s.
Proof.
  intros Hp HQ. apply within_bind, within_call_. intros there s1 Hs1.
  apply (at_place_some Hp) in Hs1 as [-> _]. destruct there; [|by apply HQ].
  apply within_bind, within_call_. intros r s2 Hs2. apply (at_place_some Hp) in Hs2.
  apply HQ. destruct Hs2 as (Hf & _ & Hr). split; [by rewrite Hf|]. intros x Hx. destruct r.
  - rewrite Hr, remove_tree_lookup. by rewrite decide_False.
  - by apply Hr.
Qed.

Lemma published_discard temp to m kids s s1 s2 :
  apart temp to -> published temp to m kids s s1 -> frame temp s1 s2 -> published temp to m kids s s2.
Proof.
  intros Hap (Hat & Hnone & Hother) Hf. split_and!; [|done|].
  - eapply checkpoint_at_ext; [|exact Hat]. intros x. by eapply frame_apart, apart_sym.
  - intros x Hx Hx'. rewrite (frame_source _ _ _ _ Hf Hx). by apply Hother.
Qed.

Lemma fills_discard pid id p temp to s s1 s2 r :
  apart temp to -> fills pid id p temp to s s1 r -> frame temp s1 s2 -> is_err r = true ->
  fills pid id p temp to s s2 r.
Proof.
  intros Hap [[He Hf1] | (kids & Hw & Hpub)] Hf2 He'.
  - left. split; [done|]. by rewrite Hf1.
  - right. exists kids. split; [done|]. destruct r as [m|e]; [done|]. cbn in *.
    destruct Hpub as [Hf1 | (He & m & Hp & Hi & Hpub)]; [left; by rewrite Hf1|]. right. split; [done|].
    exists m. split_and!; [done..|by eapply published_discard].
Qed.

Lemma fills_frame pid id p temp to s s1 s2 r :
  apart p temp -> apart temp to -> frame temp s s1 -> fills pid id p temp to s1 s2 r ->
  fills pid id p temp to s s2 r.
Proof.
  intros Hpt Hap Hf [[He Hf2] | (kids & [Hw Hok] & Hpub)].
  - left. split; [done|]. by rewrite Hf.
  - right. exists kids. split; [|by eapply publishes_frame]. split; [|done]. by rewrite <-(holds_apart temp s s1).
Qed.

Lemma temp_apart_final id id' dir : apart (dir ++ [temp_name id]) (dir ++ [uuid_hyphenated id']).
Proof.
  apply apart_length; [by rewrite !length_app|]. intros Heq. apply app_inv_head in Heq.
  injection Heq as Heq. by apply (uuid_not_dotted id' (tail (temp_name id))).
Qed.

(** What is done once the id is chosen. *)
Lemma within_create_in project reason id dir p s :
  has_root dir = true -> absolute (pr_root project) = p -> apart p (absolute dir) ->
  let temp_dir := push_str dir (temp_name id) in
  let final_dir := push_str dir (uuid_hyphenated (checkpoint_uuid id)) in
  within tree_step
    (try _ <- or_code "checkpoint_temp_create_failed" (call_ (CreateDir (PathAt temp_dir)));
     try _ <- set_private_dir_mode (PathAt temp_dir);
     do result <- fill_and_publish project reason id dir temp_dir final_dir;
     if is_err result then
       do there <- call_ (Exists (PathAt temp_dir));
       if (there : bool) then do _ <- call_ (RemoveDirAll (PathAt temp_dir)); Ret result
       else Ret result
     else Ret result)
    (fills (pr_id project) id p (absolute temp_dir) (absolute final_dir) s) s.
Proof.
  intros Hr Hp Hap temp_dir final_dir. set (temp := absolute temp_dir). set (to := absolute final_dir).
  assert (Htemp : temp = absolute dir ++ [temp_name id]) by (apply absolute_push; [done|apply plain_temp]).
  assert (Hto : to = absolute dir ++ [uuid_hyphenated (checkpoint_uuid id)])
    by (apply absolute_push; [done|apply plain_uuid]).
  assert (Hpt : apart p temp) by (rewrite Htemp, <-(app_nil_r p); by apply apart_sub).
  assert (Htt : apart temp to) by (rewrite Htemp, Hto; apply temp_apart_final).
  apply within_try. eapply (within_create_dir _ _ temp); [done|by left|]. intros Hnone.
  assert (Hf1 : frame temp s (put s temp NDir)) by by apply frame_put.
  apply within_try. eapply (within_set_private_dir_mode _ temp); [done|apply lookup_insert_eq|].
  intros [[]|e]; [|by left]. apply within_bind. eapply within_mono.
  { eapply (within_fill project reason id dir temp_dir final_dir p); [by apply has_root_push|done..|].
    by apply empty_put. }
  intros s2 result Hfill. destruct (is_err result) eqn:He.
  - eapply (within_discard _ temp); [done|]. intros s3 Hf3. eapply fills_frame; [done..|].
    by eapply fills_discard.
  - by eapply fills_frame.
Qed.

(** The checkpoint [m] is new, and it is of the project as it was. *)
Definition added (self : LocalCheckpointStore) (pid : ProjectId) (s s' : fs) (m : CheckpointMetadata) :
    Prop :=
  cm_project_id m = pid /\
  exists kids, walked s (project_path self pid) kids /\ stored self s' m kids /\
    forall m' kids', stored self s m' kids' ->
      checkpoint_path self (cm_project_id m') (cm_checkpoint_id m')
      <> checkpoint_path self pid (cm_checkpoint_id m).

(** What [create_checkpoint_sync] does to the store: only the project's own checkpoints
    can change, what was stored stays, and at most the returned checkpoint is added. *)
Definition creates_checkpoint (self : LocalCheckpointStore) (pid : ProjectId) (s s' : fs)
    (r : Result CheckpointMetadata) : Prop :=
  (forall x, ~ history_path self pid `prefix_of` x -> nodes s' !! x = nodes s !! x) /\
  (forall m kids, stored self s m kids -> stored self s' m kids) /\
  match r with
  | Ok m => added self pid s s' m
  | Err e => (forall m kids, stored self s' m kids -> stored self s m kids) \/
             (unsynced e /\ exists m, added self pid s s' m)
  end.

Section store.
Context (self : LocalCheckpointStore).

Lemma checkpoint_path_length pid id :
  length (checkpoint_path self pid id) = S (S (length (absolute (checkpoints_root self)))).
Proof. unfold checkpoint_path, history_path. rewrite !length_app. cbn. lia. Qed.

Lemma checkpoint_path_not_history pid id pid' x : checkpoint_path self pid id ++ x <> history_path self pid'.
Proof.
  intros Heq%(f_equal length). rewrite length_app, checkpoint_path_length in Heq.
  unfold history_path in Heq. rewrite length_app in Heq. cbn in Heq. lia.
Qed.

Lemma temp_apart_checkpoint pid id pid' id' :
  apart (history_path self pid ++ [temp_name id]) (checkpoint_path self pid' id').
Proof.
  apply apart_length.
  - rewrite checkpoint_path_length. unfold history_path. rewrite !length_app. cbn. lia.
  - unfold checkpoint_path, history_path. rewrite <-!app_assoc. intros Heq. apply app_inv_head in Heq.
    injection Heq as _ Heq. by apply (uuid_not_dotted (checkpoint_uuid id') (tail (temp_name id))).
Qed.

(** Checkpoints are not touched by what happens in a temporary directory. *)
Lemma stored_temp pid id s s1 s2 m kids :
  frame_at (history_path self pid) s s1 -> frame (history_path self pid ++ [temp_name id]) s1 s2 ->
  stored self s2 m kids <-> stored self s m kids.
Proof.
  intros [_ Hf1] Hf2.
  assert (Hx : forall x, nodes s2 !! (checkpoint_path self (cm_project_id m) (cm_checkpoint_id m) ++ x)
                    = nodes s !! (checkpoint_path self (cm_project_id m) (cm_checkpoint_id m) ++ x)).
  { intros x. rewrite (frame_source _ _ _ _ Hf2) by by apply apart_below, temp_apart_checkpoint.
    apply Hf1, checkpoint_path_not_history. }
  split; apply checkpoint_at_ext; intros x; by rewrite Hx.
Qed.

Lemma stored_published pid id s s1 s2 m kids m' kids' :
  let to := checkpoint_path self pid id in
  frame_at (history_path self pid) s s1 ->
  published (history_path self pid ++ [temp_name id]) to m kids s1 s2 -> stored self s m' kids' ->
  stored self s2 m' kids' /\ checkpoint_path self (cm_project_id m') (cm_checkpoint_id m') <> to.
Proof.
  intros to [_ Hf1] (_ & Hnone & Hother) Hst.
  assert (Hne : checkpoint_path self (cm_project_id m') (cm_checkpoint_id m') <> to).
  { intros Heq. destruct (checkpoint_at_inside _ _ _ _ Hst) as [n Hn].
    rewrite Heq, <-Hf1, Hnone in Hn; [done|done|apply checkpoint_path_not_history]. }
  split; [|done]. eapply checkpoint_at_ext; [|exact Hst]. intros x.
  rewrite Hother; [apply Hf1, checkpoint_path_not_history| |].
  - apply apart_below, temp_apart_checkpoint.
  - apply apart_below, apart_length; [by unfold to; rewrite !checkpoint_path_length|congruence].
Qed.

Lemma history_frame pid name s s' :
  frame (history_path self pid ++ [name]) s s' ->
  forall x, ~ history_path self pid `prefix_of` x -> nodes s' !! x = nodes s !! x.
Proof. intros Hf%frame_child. apply Hf. Qed.

(** From what was filled to what the store has. *)
Lemma fills_creates pid id s s1 s2 r :
  rooted self -> frame_at (history_path self pid) s s1 ->
  fills pid id (project_path self pid) (history_path self pid ++ [temp_name id])
    (checkpoint_path self pid id) s1 s2 r ->
  creates_checkpoint self pid s s2 r.
Proof.
  intros Hroot Hf1 Hfill. set (temp := history_path self pid ++ [temp_name id]) in *.
  assert (Hout1 : forall x, ~ history_path self pid `prefix_of` x -> nodes s1 !! x = nodes s !! x)
    by (apply frame_at_frame in Hf1; apply Hf1).
  assert (Hframe : forall s2, frame temp s1 s2 ->
    (forall x, ~ history_path self pid `prefix_of` x -> nodes s2 !! x = nodes s !! x) /\
    (forall m kids, stored self s m kids <-> stored self s2 m kids)).
  { intros s3 Hf. split; [|by intros; symmetry; eapply stored_temp].
    intros x Hx. rewrite (history_frame _ _ _ _ Hf) by done. by apply Hout1. }
  destruct Hfill as [[He Hf2] | (kids & [Hw Hok] & Hpub)].
  { destruct r as [|e]; [done|]. destruct (Hframe s2 Hf2) as [Hout Hst].
    split_and!; [done|by intros; apply Hst|]. left. by intros; apply Hst. }
  assert (Hdone : forall m, cm_project_id m = pid -> cm_checkpoint_id m = id ->
    published temp (checkpoint_path self pid id) m kids s1 s2 ->
    (forall x, ~ history_path self pid `prefix_of` x -> nodes s2 !! x = nodes s !! x) /\
    (forall m kids, stored self s m kids -> stored self s2 m kids) /\ added self pid s s2 m).
  { intros m Hpid Hid Hp. split_and!; [|by intros m' kids' Hst; eapply stored_published|split; [done|]].
    - intros x Hx. destruct Hp as (_ & _ & Hother). rewrite Hother; [by apply Hout1|..];
        intros [k ->]; apply Hx; unfold temp, checkpoint_path; rewrite <-app_assoc; by eexists.
    - exists kids. rewrite Hid. split_and!; [split; [|done]| |by intros m' kids' Hst; eapply stored_published].
      + rewrite <-(holds_apart (history_path self pid) s s1); [done|by apply frame_at_frame|].
        by apply project_apart_history.
      + unfold stored. rewrite Hpid, Hid. apply Hp. }
  destruct r as [m|e]; [by apply Hdone; apply Hpub|].
  destruct Hpub as [Hf2 | (He & m & Hpid & Hid & Hp)].
  - destruct (Hframe s2 Hf2) as [Hout Hst].
    split_and!; [done|by intros; apply Hst|]. left. by intros; apply Hst.
  - destruct (Hdone m Hpid Hid Hp) as (? & ? & ?). split_and!; [done..|]. right. split; [done|]. by exists m.
Qed.

Lemma within_create project reason s :
  rooted self ->
  within tree_step (create_checkpoint_sync self project reason)
    (creates_checkpoint self (pr_id project) s) s.
Proof.
  intros Hroot. set (pid := pr_id project).
  assert (Herr : forall s1 e, frame_at (history_path self pid) s s1 ->
                   creates_checkpoint self pid s s1 (Err e)).
  { intros s1 e Hf. apply (fills_creates pid (MkCheckpointId 0) _ s1); [done..|]. by left. }
  apply within_try. eapply within_verify_project; [done|by intros; apply Herr|]. intros Hp.
  unfold lock_gate. destruct (gate_poisoned self); [by apply Herr|].
  apply within_try. eapply within_private_child; [apply Hroot|apply plain_uuid|by intros; apply Herr|].
  intros s1 dir Hf1 Hdir.
  apply within_try, within_quiet; [apply list_checkpoint_ids_looks|]. intros [existing|e]; [|by apply Herr].
  destruct (_ <=? _); [by apply Herr|].
  apply within_try, within_quiet; [apply fresh_checkpoint_id_looks|]. intros [id|e]; [|by apply Herr].
  assert (Hpath : absolute dir = history_path self pid).
  { unfold absolute, path_names, components. cbn [path_text]. rewrite Hdir. by apply history_dir_path. }
  assert (Hr : has_root dir = true).
  { apply (same_components_root _ _ Hdir). by apply history_dir_rooted. }
  eapply within_mono; [apply (within_create_in project reason id dir (project_path self pid)); [done..|]|].
  { rewrite Hpath. by apply project_apart_history. }
  intros s2 r Hfill. eapply fills_creates; [done..|].
  rewrite !absolute_push, Hpath in Hfill; [done|done|apply plain_uuid|done|apply plain_temp].
Qed.
End store.
End creating.
