(* ===== verification/CheckpointRollback.v ===== *)
(** * What a rollback does ([vibecoder-checkpoint-local])

    [rollback_sync] in the file system of [TreeSystem.v]: the project becomes the tree of
    the checkpoint or stays what it was, and no checkpoint and no other project changes. *)
From S2P Require Import Prelude RustStr StrFacts RustPath Domain Program OsCalls.
From S2P Require Import FileSystem StateNames CheckpointStore Checkpoint TreeDigest.
From S2P Require Import TreeSystem.
From S2P Require Import TreeWalk TreeCopy CheckpointLayout CheckpointCreate.

(** ** Loading the metadata *)

Section rollback.
Context `{UuidShape, Sha256, MetadataJson} (self : LocalCheckpointStore).

(** The metadata that the file of the checkpoint [id] reads as. *)
Definition recorded (s : fs) (pid : ProjectId) (id : CheckpointId) (m : CheckpointMetadata) : Prop :=
  cm_project_id m = pid /\ cm_checkpoint_id m = id /\ CheckpointMetadata_validate m = Ok tt /\
  exists mode bs, nodes s !! (checkpoint_path self pid id ++ [METADATA_NAME]) = Some (NFile mode bs) /\
    metadata_from_slice bs = Some m.

Lemma recorded_unique s pid id m m' : recorded s pid id m -> recorded s pid id m' -> m = m'.
Proof.
  intros (_ & _ & _ & mode & bs & Hn & Hm) (_ & _ & _ & mode' & bs' & Hn' & Hm').
  rewrite Hn in Hn'. injection Hn' as <- <-. congruence.
Qed.

Lemma decode_metadata_ok pid id bs m :
  decode_metadata pid id bs = Ok m ->
  metadata_from_slice bs = Some m /\ CheckpointMetadata_validate m = Ok tt /\
  cm_project_id m = pid /\ cm_checkpoint_id m = id.
Proof.
  unfold decode_metadata. destruct (metadata_from_slice bs) as [parsed|]; [|done]. cbn [ok_or].
  destruct (CheckpointMetadata_validate parsed) as [[]|] eqn:Hv; [|done].
  destruct (_ && _) eqn:E; [|done]. intros [= <-]. bool_prop. done.
Qed.

Lemma within_load_metadata pid id Q s :
  rooted self ->
  (forall s' e, grown s s' -> Q s' (Err e)) ->
  (forall s', grown s s' -> nodes s !! checkpoint_path self pid id = None -> Q s' (Ok None)) ->
  (forall s' m, grown s s' -> recorded s pid id m -> Q s' (Ok (Some m))) ->
  within tree_step (load_metadata_sync self pid id) Q s.
Proof.
  intros Hroot Herr Hnone Hsome. set (dir := checkpoint_dir self pid id).
  assert (Hdir : absolute dir = checkpoint_path self pid id) by by apply checkpoint_dir_path.
  assert (Hfile : absolute (push_str dir METADATA_NAME) = checkpoint_path self pid id ++ [METADATA_NAME]).
  { rewrite <-Hdir. apply absolute_push; [by apply checkpoint_dir_rooted|apply plain_metadata]. }
  apply within_bind, within_call_. intros r s1 Hs1. apply at_path in Hs1. fold dir in Hs1.
  destruct Hs1 as [-> Hst]. destruct r as [st|[]]; try by apply Herr.
  2:{ apply Hnone; [done|]. by rewrite <-Hdir. }
  destruct (_ || _); [by apply Herr|].
  apply within_try. 
  apply (within_open_file _ _ (absolute (push_str dir METADATA_NAME))); [done| |by intros; apply Herr].
  rewrite Hfile. intros fd Hfd. set (s1 := bind_fd _ _ _). assert (Hg : grown s s1) by by apply grown_bind.
  apply within_try, within_or_fail, within_call_. intros r s2 Hs2.
  apply (at_fd_some (lookup_insert_eq _ _ _)) in Hs2. destruct Hs2 as [-> Hs2].
  destruct r as [meta|e]; [|by apply Herr].
  destruct (is_file meta) eqn:Hisf; [|by apply Herr]. destruct (_ || _); [by apply Herr|].
  destruct Hs2 as (n & Hn & Hmeta). destruct (stat_is_file _ _ Hmeta Hisf) as (mode & content & ->).
  apply within_try, within_or_fail, within_call_. intros r s2 Hs2.
  apply (at_fd_some (lookup_insert_eq _ _ _)) in Hs2 as [-> Hbs].
  destruct r as [bs|e]; [|by apply Herr]. specialize (Hbs mode content Hn).
  destruct (_ <? len bs) eqn:Hlen; [by apply Herr|]. apply N.ltb_ge in Hlen. rewrite Hbs in Hlen.
  apply read_whole in Hlen. rewrite Hlen in Hbs. subst bs.
  destruct (decode_metadata pid id content) as [m|e] eqn:Hd; [|by apply Herr].
  apply decode_metadata_ok in Hd as (Hm & Hv & Hpid & Hid). apply Hsome; [done|]. split_and!; [done..|].
  by exists mode, content.
Qed.

(** ** Exchanging two directories *)

(** The trees at [p] and [q] have changed places. *)
Definition swapped (p q : list str) (s s' : fs) : Prop :=
  apart p q /\ forall x, nodes s' !! x = nodes s !! swap_path p q x.

Lemma swapped_back p q s s1 s2 : swapped p q s s1 -> swapped p q s1 s2 -> nodes s2 = nodes s.
Proof.
  intros [Ha Hs1] [_ Hs2]. apply map_eq. intros x. by rewrite Hs2, Hs1, swap_path_involutive.
Qed.

Lemma swapped_to p q s s' t : swapped p q s s' -> holds s q t -> holds s' p t.
Proof.
  intros [_ Hs]. apply holds_ext. intros x. by rewrite Hs, swap_path_l.
Qed.

Lemma swapped_others p q s s' x :
  swapped p q s s' -> ~ p `prefix_of` x -> ~ q `prefix_of` x -> nodes s' !! x = nodes s !! x.
Proof. intros [_ Hs] Hp Hq. by rewrite Hs, swap_path_other. Qed.

Lemma swapped_nodes p q s s1 s2 : swapped p q s s1 -> nodes s2 = nodes s1 -> swapped p q s s2.
Proof. intros [Ha Hs] Hn. split; [done|]. intros x. by rewrite Hn. Qed.

Lemma within_exchange parent a b (Q : fs -> Result unit -> Prop) s :
  (forall s' e, nodes s' = nodes s -> Q s' (Err e)) ->
  (forall s', swapped (absolute parent ++ [a]) (absolute parent ++ [b]) s s' -> Q s' (Ok tt)) ->
  within tree_step (exchange_children parent a b) Q s.
Proof.
  intros Herr Hok. apply within_try, within_or_fail, within_call_. intros r s1 Hs1.
  apply at_path in Hs1. destruct r as [fd|e]; [|cbn in Hs1; subst; by apply Herr].
  destruct Hs1 as (Hfd & _ & ->). destruct (_ || _); [by apply Herr|].
  apply within_or_fail, within_call_. intros r s2 Hs2. apply (at_fd_some (lookup_insert_eq _ _ _)) in Hs2.
  destruct r as [[]|e]; [|cbn in Hs2; subst; by apply Herr].
  destruct Hs2 as (_ & _ & Ha & ->). apply Hok. split; [done|]. intros x.
  by rewrite swap_trees_lookup.
Qed.

(** ** Restoring the project *)

(** [r] is what a rollback that would answer [res] may answer once the staged tree [kids]
    is at [q]: the project is [kids], or it is what it was. *)
Definition exchanged (p q : list str) (kids : forest) (res : RollbackResult) (s s' : fs)
    (r : Result RollbackResult) : Prop :=
  (forall x, ~ p `prefix_of` x -> ~ q `prefix_of` x -> nodes s' !! x = nodes s !! x) /\
  match r with
  | Ok res' => res' = res /\ holds s' p (Dir kids)
  | Err e => (forall x, nodes s' !! (p ++ x) = nodes s !! (p ++ x)) \/
             (e = checkpoint_error (u "checkpoint_rollback_recovery_failed") /\ holds s' p (Dir kids))
  end.

Lemma within_remove_tree path p (Q : fs -> IoResult unit -> Prop) s :
  place_path s path = Some p ->
  (forall s' r, (forall x, ~ p `prefix_of` x -> nodes s' !! x = nodes s !! x) -> Q s' r) ->
  within tree_step (call_ (RemoveDirAll path)) Q s.
Proof.
  intros Hp HQ. apply within_call_. intros r s' Hs'. apply (at_place_some Hp) in Hs'.
  apply HQ. destruct Hs' as (_ & _ & Hr). intros x Hx. destruct r.
  - rewrite Hr, remove_tree_lookup. by rewrite decide_False.
  - by apply Hr.
Qed.

Lemma within_sync_dir_nodes path p (Q : fs -> Result unit -> Prop) s :
  place_path s path = Some p -> (forall s' r, nodes s' = nodes s -> Q s' r) ->
  within tree_step (sync_dir path) Q s.
Proof.
  intros Hp HQ. eapply within_sync_dir; [exact Hp|..].
  - intros s' [Hn _]. by apply HQ.
  - intros s' e [Hn _] _. by apply HQ.
Qed.

Context (Hroot : rooted self).

Lemma staging_path fresh :
  absolute (push_str (projects_root self) (staging_name fresh))
  = absolute (projects_root self) ++ [staging_name fresh].
Proof. apply absolute_push; [apply Hroot|apply plain_staging]. Qed.

Lemma within_recover pid fresh code kids res s s1 :
  let q := absolute (projects_root self) ++ [staging_name fresh] in
  swapped (project_path self pid) q s s1 -> holds s q (Dir kids) ->
  within tree_step (recover self pid (staging_name fresh) code)
    (exchanged (project_path self pid) q kids res s) s1.
Proof.
  intros q Hsw Hh. set (p := project_path self pid) in *.
  assert (Herr : forall s2, nodes s2 = nodes s1 \/ nodes s2 = nodes s ->
    exchanged p q kids res s s2 (fails "checkpoint_rollback_recovery_failed")).
  { intros s2 [Hn|Hn]; (split; [intros x Hp Hq; rewrite Hn; try done|]).
    - by eapply swapped_others.
    - right. split; [done|]. apply (swapped_to p q s); [by eapply swapped_nodes|done].
    - left. intros x. by rewrite Hn. }
  apply within_bind, within_try. apply within_exchange; [intros s2 e Hn; by apply Herr; left|].
  intros s2 Hsw2. apply (swapped_back _ _ _ _ _ Hsw) in Hsw2 as Hn.
  eapply within_sync_dir_nodes; [done|]. intros s3 r Hn3. rewrite Hn in Hn3.
  destruct r as [[]|e]; cbn [is_err]; [|by apply Herr; right].
  apply within_bind, (within_remove_tree _ q); [exact (f_equal Some (staging_path fresh))|]. intros s4 r Hx.
  split.
  - intros x Hp Hq. by rewrite Hx, Hn3.
  - left. intros x. rewrite Hx, Hn3; [done|]. apply apart_below, apart_sym. apply Hsw.
Qed.

Definition rollback_result (pid : ProjectId) (id : CheckpointId) (m : CheckpointMetadata) :
    RollbackResult :=
  {| rb_project_id := pid; rb_checkpoint_id := id; restored_file_count := file_count m;
     restored_total_bytes := total_bytes m; rb_tree_sha256 := tree_sha256 m |}.

Lemma within_exchange_and_verify project id fresh m kids s :
  let q := absolute (projects_root self) ++ [staging_name fresh] in
  let p := project_path self (pr_id project) in
  absolute (pr_root project) = p -> holds s q (Dir kids) ->
  within tree_step (exchange_and_verify self project id (staging_name fresh) m (tree_digest kids))
    (exchanged p q kids (rollback_result (pr_id project) id m) s) s.
Proof.
  intros q p Hp Hh. apply within_try, within_exchange.
  { intros s1 e Hn. split; [intros; by rewrite Hn|]. left. intros x. by rewrite Hn. }
  intros s1 Hsw. change (swapped p q s s1) in Hsw.
  apply within_bind. eapply within_sync_dir_nodes; [done|]. intros s2 synced Hn2.
  apply (swapped_nodes _ _ _ _ _ Hsw) in Hn2 as Hsw2.
  destruct synced as [[]|e]; cbn [is_err]; [|by apply within_recover].
  apply within_bind. eapply (within_digest_tree _ p); [by cbn; rewrite Hp|..].
  { intros s3 e [Hn3 _]. apply within_recover; [|done]. by eapply swapped_nodes. }
  intros s3 kids' [Hn3 _] Hh' _. apply (swapped_nodes _ _ _ _ _ Hsw2) in Hn3.
  pose proof (holds_unique _ _ _ _ (swapped_to _ _ _ _ _ Hsw2 Hh) Hh') as Heq. injection Heq as <-.
  rewrite bool_decide_true by done. cbn [negb].
  assert (Hdone : forall s4, (forall x, ~ q `prefix_of` x -> nodes s4 !! x = nodes s3 !! x) ->
    exchanged p q kids (rollback_result (pr_id project) id m) s s4
      (Ok (rollback_result (pr_id project) id m))).
  { intros s4 Hx. split.
    - intros x Hxp Hxq. rewrite Hx by done. by eapply swapped_others.
    - split; [done|]. eapply holds_ext; [|by eapply (swapped_to p q s s3)]. intros x.
      apply Hx, apart_below, apart_sym, Hsw. }
  apply within_bind, (within_remove_tree _ q); [exact (f_equal Some (staging_path fresh))|].
  intros s4 removed Hx. apply within_bind. destruct (is_ok removed); cbn [within]; [|by apply Hdone].
  eapply within_sync_dir_nodes; [done|]. intros s5 r Hn5. apply Hdone. intros x Hq. rewrite Hn5. by apply Hx.
Qed.

(** ** The whole operation *)

(** The checkpoint [id] can be restored: its metadata describes its tree. *)
Definition restorable (s : fs) (pid : ProjectId) (id : CheckpointId) (m : CheckpointMetadata)
    (kids : forest) : Prop :=
  recorded s pid id m /\ walked s (checkpoint_path self pid id ++ [SNAPSHOT_TREE_NAME]) kids /\
  describes m kids.

(** What [rollback_sync] does: besides the project only new staging directories change;
    the project becomes the tree of the checkpoint or is what it was. *)
Definition rolls_back (pid : ProjectId) (id : CheckpointId) (s s' : fs) (r : Result RollbackResult) :
    Prop :=
  let p := project_path self pid in
  (forall x, ~ p `prefix_of` x ->
     nodes s' !! x = nodes s !! x \/
     (nodes s !! x = None /\
      exists fresh, absolute (projects_root self) ++ [staging_name fresh] `prefix_of` x)) /\
  match r with
  | Ok res => exists m kids, restorable s pid id m kids /\ res = rollback_result pid id m /\
                holds s' p (Dir kids)
  | Err e => (forall x, nodes s' !! (p ++ x) = nodes s !! (p ++ x)) \/
             (e = checkpoint_error (u "checkpoint_rollback_recovery_failed") /\
              exists m kids, restorable s pid id m kids /\ holds s' p (Dir kids))
  end.

Lemma grown_rolls_back pid id s s' e : grown s s' -> rolls_back pid id s s' (Err e).
Proof. intros [Hn _]. split; [intros; left; by rewrite Hn|]. left. intros x. by rewrite Hn. Qed.

Lemma project_apart_staging pid fresh :
  apart (project_path self pid) (absolute (projects_root self) ++ [staging_name fresh]).
Proof.
  apply apart_length; [unfold project_path; by rewrite !length_app|]. intros Heq.
  apply app_inv_head in Heq. injection Heq as Heq.
  exact (uuid_not_dotted _ (tail (staging_name fresh)) Heq).
Qed.

Section staged.
Context (pid : ProjectId) (id : CheckpointId) (fresh : N) (s : fs).
Let p := project_path self pid.
Let q := absolute (projects_root self) ++ [staging_name fresh].
(** The staging directory was not there. *)
Context (Hnone : forall x, q `prefix_of` x -> nodes s !! x = None).

Lemma staged_other s' x :
  (~ q `prefix_of` x -> nodes s' !! x = nodes s !! x) ->
  nodes s' !! x = nodes s !! x \/
  (nodes s !! x = None /\
   exists fresh, absolute (projects_root self) ++ [staging_name fresh] `prefix_of` x).
Proof.
  intros Hx. destruct (decide (q `prefix_of` x)) as [Hq|Hq]; [|left; by apply Hx].
  right. split; [by apply Hnone|by exists fresh].
Qed.

Lemma staged_rolls_back s' e :
  (forall x, ~ q `prefix_of` x -> nodes s' !! x = nodes s !! x) -> rolls_back pid id s s' (Err e).
Proof.
  intros Hx. split; [intros x _; apply staged_other, Hx|].
  left. intros x. apply Hx, apart_below, apart_sym, project_apart_staging.
Qed.

Lemma exchanged_rolls_back m kids s1 s2 r :
  restorable s pid id m kids -> frame q s s1 ->
  exchanged p q kids (rollback_result pid id m) s1 s2 r -> rolls_back pid id s s2 r.
Proof.
  intros Hm [_ Hf] [Hother Hr]. split.
  - intros x Hp. apply staged_other. intros Hq. rewrite Hother by done. by apply Hf.
  - destruct r as [res|e].
    + destruct Hr as [-> Hr]. by exists m, kids.
    + destruct Hr as [Hr | [-> Hr]]; [left|right; split; [done|]; by exists m, kids].
      intros x. fold p. rewrite Hr. apply Hf, apart_below, apart_sym, project_apart_staging.
Qed.
End staged.

Lemma describes_digest m kids :
  negb (bool_decide (td_sha256 (tree_digest kids) = tree_sha256 m))
  || negb (td_file_count (tree_digest kids) =? file_count m)
  || negb (td_total_bytes (tree_digest kids) =? total_bytes m) = false -> describes m kids.
Proof.
  unfold describes. destruct (tree_digest kids) as [files size sha]. cbn. intros Heq.
  repeat (apply orb_false_iff in Heq as [Heq ?]). bool_prop. congruence.
Qed.

Lemma within_stage_and_exchange project id m kids s s0 :
  let pid := pr_id project in
  let snapshot := PathAt (push_str (checkpoint_dir self pid id) SNAPSHOT_TREE_NAME) in
  absolute (pr_root project) = project_path self pid -> restorable s0 pid id m kids -> grown s0 s ->
  within tree_step (stage_and_exchange self project id m snapshot (tree_digest kids))
    (rolls_back pid id s0) s.
Proof.
  intros pid snapshot Hp Hm Hg0. pose proof Hg0 as [Hn0 _]. apply within_bind, within_call_. intros fresh s1 Hs1. cbn in Hs1. subst s1.
  set (q := absolute (projects_root self) ++ [staging_name fresh]).
  set (staging := PathAt (push_str (projects_root self) (staging_name fresh))).
  assert (Hq : forall s, place_path s staging = Some q) by by intros ?; exact (f_equal Some (staging_path fresh)).
  assert (Hsnap : forall s, place_path s snapshot = Some (checkpoint_path self pid id ++ [SNAPSHOT_TREE_NAME]))
    by by intros ?; exact (f_equal Some (snapshot_tree_path self Hroot pid id)).
  assert (Hap : apart (checkpoint_path self pid id ++ [SNAPSHOT_TREE_NAME]) q).
  { unfold checkpoint_path, history_path, q. rewrite <-!app_assoc. apply apart_sub, apart_sym, Hroot. }
  apply within_try. eapply (within_create_dir _ _ q); [apply Hq|by intros; apply grown_rolls_back|]. intros Hnone.
  assert (Hnone0 : forall x, q `prefix_of` x -> nodes s0 !! x = None) by (intros x Hx; rewrite <-Hn0; by apply Hnone).
  assert (Hf1 : frame q s (put s q NDir)) by by apply frame_put.
  assert (Hstaged : forall s' e, (forall x, ~ q `prefix_of` x -> nodes s' !! x = nodes s !! x) ->
    rolls_back pid id s0 s' (Err e)).
  { intros s' e Hf. eapply staged_rolls_back; [exact Hnone0|]. intros x Hx. by rewrite Hf, Hn0. }
  apply within_try. eapply (within_set_private_dir_mode _ q); [apply Hq|apply lookup_insert_eq|].
  intros [[]|e]; [|by apply Hstaged, Hf1].
  apply within_bind. eapply (within_copy_tree _ _ _ q); [apply Hsnap|apply Hq|exact Hap|by apply empty_put| |].
  { intros s2 e [_ Hf2]. apply within_bind, (within_remove_tree _ q); [apply Hq|]. intros s3 r Hx.
    apply Hstaged. intros x Hxq. rewrite Hx, Hf2 by done. by apply Hf1. }
  intros s2 kids' Hf2 Hsrc Hcopy. assert (Hf02 : frame q s s2) by by rewrite Hf1.
  assert (kids' = kids) as ->.
  { rewrite (holds_apart q s) in Hsrc by done. apply (holds_grown _ _ _ _ Hg0) in Hsrc.
    destruct Hm as (_ & [Hkids _] & _). pose proof (holds_unique _ _ _ _ Hsrc Hkids) as Heq. by injection Heq. }
  rewrite (bool_decide_true (tree_digest kids = _)) by done. cbn [negb].
  apply within_bind, within_bind. eapply (within_digest_tree _ q); [apply Hq| |].
  { intros s3 e [Hn3 _]. apply Hstaged. intros x Hx. rewrite Hn3. by apply Hf02. }
  intros s3 kids' Hg3 Hcopy' _. pose proof (holds_unique _ _ _ _ Hcopy Hcopy') as Heq. injection Heq as <-.
  rewrite bool_decide_true by done. cbn [negb within]. fold q.
  eapply within_mono.
  { apply within_exchange_and_verify; [done|]. eapply holds_ext; [|exact Hcopy'].
    intros x. destruct Hg3 as [Hn3 _]. by rewrite Hn3. }
  intros s4 r Hex. eapply exchanged_rolls_back; [exact Hnone0|exact Hm| |exact Hex].
  etransitivity; [exact (grown_frame _ _ _ Hg0)|]. etransitivity; [exact Hf02|by apply grown_frame].
Qed.

Lemma within_rollback project id s :
  within tree_step (rollback_sync self project id) (rolls_back (pr_id project) id s) s.
Proof.
  apply within_try. eapply within_verify_project; [done|by intros; apply grown_rolls_back|]. intros Hp.
  unfold lock_gate. destruct (gate_poisoned self); [by apply grown_rolls_back|].
  apply within_try. eapply within_load_metadata; [done|by intros; apply grown_rolls_back|..].
  { intros s1 Hg _. apply within_give; [done|]. intros. by apply grown_rolls_back. }
  intros s1 m Hg1 Hm. cbn [ok_or]. apply within_give; [|done]. intros m' [= <-]. cbn zeta.
  apply within_try. eapply within_digest_tree; [exact (f_equal Some (snapshot_tree_path self Hroot _ _))| |].
  { intros s2 e Hg2. apply grown_rolls_back. by rewrite Hg1. }
  intros s2 kids Hg2 Hkids Hok. destruct (_ || _) eqn:E; [by apply grown_rolls_back; rewrite Hg1|].
  apply describes_digest in E. apply within_stage_and_exchange; [done| |by rewrite Hg1].
  split_and!; [done|split; [by eapply holds_grown|done]|done].
Qed.
End rollback.
