(* ===== verification/CheckpointListing.v ===== *)
(** * Listing and removing checkpoints ([vibecoder-checkpoint-local])

    [list_checkpoints] and [remove_checkpoint] in the file system of [TreeSystem.v]. *)
From stdpp Require Import sorting.
From S2P Require Import Prelude RustStr StrFacts RustPath Domain Program OsCalls.
From S2P Require Import FileSystem StateNames CheckpointStore Checkpoint.
From S2P Require Import TreeDigest TreeSystem.
From S2P Require Import TreeWalk TreeCopy CheckpointLayout CheckpointCreate CheckpointRollback.

(** ** The order *)

Definition newer (a b : CheckpointMetadata) : Prop := newer_first a b = true.

Lemma newer_spec a b :
  newer a b <->
  created_unix_ms b < created_unix_ms a \/
  (created_unix_ms b = created_unix_ms a /\
   checkpoint_uuid (cm_checkpoint_id b) <= checkpoint_uuid (cm_checkpoint_id a)).
Proof. unfold newer, newer_first. rewrite orb_true_iff, andb_true_iff, N.ltb_lt, N.eqb_eq, N.leb_le. done. Qed.

#[export] Instance newer_trans : Transitive newer.
Proof. intros a b c. rewrite !newer_spec. lia. Qed.

Lemma newer_total a b : newer_first a b = false -> newer b a.
Proof.
  intros Hf. assert (Hn : ~ newer a b) by (unfold newer; by rewrite Hf).
  rewrite newer_spec in Hn. apply newer_spec. lia.
Qed.

Lemma insert_newest_perm x l : insert_newest x l ≡ₚ x :: l.
Proof.
  induction l as [|y l IH]; cbn; [done|]. destruct (newer_first x y); [done|]. rewrite IH. constructor.
Qed.

Lemma insert_newest_sorted x l : Sorted newer l -> Sorted newer (insert_newest x l).
Proof.
  induction 1 as [|y l Hs IH Hd]; cbn; [by repeat constructor|].
  destruct (newer_first x y) eqn:Hxy; [by repeat constructor|]. constructor; [done|].
  apply newer_total in Hxy. destruct l as [|z l]; cbn; [by constructor|].
  destruct (newer_first x z); [by constructor|]. inversion Hd; subst. by constructor.
Qed.

Lemma newest_perm l : foldr insert_newest [] l ≡ₚ l.
Proof. induction l as [|x l IH]; cbn; [done|]. by rewrite insert_newest_perm, IH. Qed.

Lemma newest_sorted l : Sorted newer (foldr insert_newest [] l).
Proof. induction l as [|x l IH]; cbn; [constructor|by apply insert_newest_sorted]. Qed.

(** What a listing of at most [n] of [l] is. *)
Lemma newest_take n l m :
  m ∈ l -> let shown := take n (foldr insert_newest [] l) in
  m ∈ shown \/ (length shown = n /\ Forall (fun m' => newer m' m) shown).
Proof.
  intros Hm shown. rewrite <-newest_perm, <-(take_drop n (foldr insert_newest [] l)) in Hm.
  apply elem_of_app in Hm as [Hm|Hm]; [by left|right]. fold shown in Hm. split.
  - unfold shown. rewrite length_take. apply Nat.min_l. apply list_elem_of_lookup_1 in Hm as [i Hi].
    apply lookup_lt_Some in Hi. rewrite length_drop in Hi. lia.
  - pose proof (newest_sorted l) as Hs. apply (Sorted_StronglySorted _) in Hs.
    rewrite <-(take_drop n (foldr insert_newest [] l)) in Hs. fold shown in Hs.
    apply Forall_forall. intros m' Hm'. by eapply StronglySorted_app_1_elem_of.
Qed.

Lemma sorted_take {A} (R : relation A) `{!Transitive R} n l : Sorted R l -> Sorted R (take n l).
Proof.
  intros Hs%(Sorted_StronglySorted _). rewrite <-(take_drop n l) in Hs.
  by apply StronglySorted_app_1_l, StronglySorted_Sorted in Hs.
Qed.

(** ** The ids *)

Section listing.
Context `{UuidShape, Sha256, MetadataJson} (self : LocalCheckpointStore).

Lemma uuid_not_temp id : starts_with CHECKPOINT_TEMP_PREFIX (uuid_hyphenated id) = false.
Proof.
  destruct (starts_with _ _) eqn:Hs; [|done]. apply starts_with_spec in Hs as [k Hk].
  by apply uuid_not_dotted in Hk.
Qed.

Lemma within_checkpoint_entries parent entries : forall ids s,
  within tree_step (checkpoint_entries parent ids entries)
    (fun s' r => s' = s /\
       match r with
       | Ok found => (None ∉ entries) /\ ids ⊆ found /\
           forall raw id, Some raw ∈ entries -> from_utf8 raw = Some (uuid_hyphenated id) ->
             MkCheckpointId id ∈ found
       | Err _ => True
       end) s.
Proof.
  induction entries as [|[raw|] entries IH]; intros ids s; cbn [checkpoint_entries]; [|..|done].
  { split_and!; [done|apply not_elem_of_nil|done|]. by intros raw id ?%elem_of_nil. }
  assert (Hnext : forall ids', ids ⊆ ids' ->
    (forall id, from_utf8 raw = Some (uuid_hyphenated id) -> MkCheckpointId id ∈ ids') ->
    within tree_step (checkpoint_entries parent ids' entries)
      (fun s' r => s' = s /\
         match r with
         | Ok found => (None ∉ Some raw :: entries) /\ ids ⊆ found /\
             forall raw' id, Some raw' ∈ Some raw :: entries -> from_utf8 raw' = Some (uuid_hyphenated id) ->
               MkCheckpointId id ∈ found
         | Err _ => True
         end) s).
  { intros ids' Hsub Hhere. eapply within_mono; [apply IH|]. intros s' [found|e] [-> Hr]; [|done].
    destruct Hr as (Hnone & Hids & Hall). split_and!; [done|by apply not_elem_of_cons|by etransitivity|].
    intros raw' id [[= ->]|Hin]%elem_of_cons Hraw; [by apply Hids, Hhere|by eapply Hall]. }
  destruct (from_utf8 raw) as [name|] eqn:Hraw; [|done]. destruct (starts_with _ name) eqn:Htemp.
  { apply Hnext; [done|]. intros id [= ->]. by rewrite uuid_not_temp in Htemp. }
  destruct (uuid_parse name) as [uuid|] eqn:Huuid; [|done]. destruct (negb _); [done|].
  apply within_try, within_or_fail, within_call_. intros r s1 Hs1.
  apply (quiet_step _ (Ev _ _)) in Hs1 as ->; [|done]. destruct r as [meta|e]; [|done].
  destruct (_ || _); [done|]. cbn zeta. destruct (_ <? _); [done|].
  apply Hnext; [by apply list_subseteq_app_l|]. intros id [= ->]. rewrite uuid_parse_hyphenated in Huuid.
  injection Huuid as ->. apply elem_of_app. right. by left.
Qed.

Lemma within_list_checkpoint_ids parent s :
  within tree_step (list_checkpoint_ids parent)
    (fun s' r => s' = s /\
       match r with
       | Ok ids => forall id, is_Some (nodes s !! (absolute parent ++ [uuid_hyphenated (checkpoint_uuid id)])) -> id ∈ ids
       | Err _ => True
       end) s.
Proof.
  apply within_try, within_or_fail, within_call_. intros r s1 Hs1.
  apply (quiet_step _ (Ev _ _)) in Hs1 as ->; [|done]. destruct r as [meta|e]; [|done].
  destruct (_ || _); [done|]. apply within_try, within_or_fail, within_call_. intros r s1 Hs1.
  apply at_path in Hs1 as [-> Hlist]. destruct r as [entries|e]; [|done]. destruct Hlist as [_ Hlist].
  apply within_try. eapply within_mono; [apply within_checkpoint_entries|]. intros s1 [ids|e] [-> Hr]; [|done].
  destruct Hr as (Hnone & _ & Hall). split; [done|]. intros [id] Hid. apply sort_by_elem.
  destruct (Hlist Hnone _ Hid) as (raw & Hin & Hraw). by eapply Hall.
Qed.

(** ** The metadata *)

Context (Hroot : rooted self).

(** The loop of [list_checkpoints]: [out] are the recorded ones of [ids]. *)
Lemma within_load_all pid ids : forall out s0 s,
  grown s0 s ->
  within tree_step
    (try_fold (fun out id =>
       try found <- load_metadata_sync self pid id;
       Ret (Ok (out ++ match found with Some m => [m] | None => [] end))) ids out)
    (fun s' r => grown s0 s' /\
       match r with
       | Ok out' => exists loaded, out' = out ++ loaded /\
           (forall m, m ∈ loaded -> recorded self s0 pid (cm_checkpoint_id m) m) /\
           forall id m, id ∈ ids -> is_Some (nodes s0 !! checkpoint_path self pid id) ->
             recorded self s0 pid id m -> m ∈ loaded
       | Err _ => True
       end) s.
Proof.
  induction ids as [|id ids IH]; intros out s0 s Hg; cbn [try_fold].
  { split; [done|]. exists []. rewrite app_nil_r. split_and!; [done|by intros m ?%elem_of_nil|].
    by intros id m ?%elem_of_nil. }
  apply within_try, within_try. eapply within_load_metadata; [done|by intros; split; [rewrite Hg|]|..].
  - intros s1 Hg1 Hnone. cbn [within]. eapply within_mono; [apply (IH _ s0); by rewrite Hg|].
    intros s2 [out'|e] [Hg2 Hr]; [|done]. destruct Hr as (loaded & -> & Hrec & Hall). split; [done|].
    exists loaded. rewrite app_nil_r. split_and!; [done..|]. destruct Hg as [Hn _].
    intros id' m [->|Hin]%elem_of_cons [n Hthere]; [|by apply Hall].
    rewrite Hn in Hnone. by rewrite Hnone in Hthere.
  - intros s1 m Hg1 Hm. cbn [within]. eapply within_mono; [apply (IH _ s0); by rewrite Hg|].
    intros s2 [out'|e] [Hg2 Hr]; [|done]. destruct Hr as (loaded & -> & Hrec & Hall). split; [done|].
    assert (Hm0 : recorded self s0 pid id m).
    { destruct Hg as [Hn _]. unfold recorded in *. by rewrite <-Hn. }
    exists (m :: loaded). split_and!; [by rewrite <-app_assoc| |].
    + intros m' [->|Hin]%elem_of_cons; [|by apply Hrec]. pose proof Hm0 as (_ & Hid & _). by rewrite Hid.
    + intros id' m' [->|Hin]%elem_of_cons Hthere Hm'; [|right; by eapply Hall].
      rewrite (recorded_unique _ _ _ _ _ _ Hm' Hm0). by left.
Qed.

(** What [list_checkpoints] answers: the newest checkpoints, newest first, and as many as
    were asked for if any is missing.  [Path::exists] is false also when looking fails. *)
Definition lists_checkpoints (pid : ProjectId) (max : N) (s : fs) (r : Result (list CheckpointMetadata)) :
    Prop :=
  match r with
  | Ok shown =>
    len shown <= max /\ Sorted newer shown /\
    (forall m, m ∈ shown -> recorded self s pid (cm_checkpoint_id m) m) /\
    (shown = [] \/
     forall id m, is_Some (nodes s !! checkpoint_path self pid id) -> recorded self s pid id m ->
       m ∈ shown \/ (len shown = max /\ Forall (fun m' => newer m' m) shown))
  | Err _ => True
  end.

Lemma within_list_checkpoints pid max s :
  within tree_step (list_checkpoints self pid max)
    (fun s' r => grown s s' /\ lists_checkpoints pid max s r) s.
Proof.
  unfold list_checkpoints. destruct (_ || _); [done|]. unfold lock_gate. destruct (gate_poisoned self); [done|].
  apply within_bind, within_call_. intros there s1 Hs1. apply at_path in Hs1 as [-> _].
  destruct there; cbn [negb].
  2:{ split; [done|]. split_and!; [rewrite len_nil; lia|constructor|by intros m ?%elem_of_nil|by left]. }
  apply within_try. eapply within_mono; [apply within_list_checkpoint_ids|]. intros s1 [ids|e] [-> Hids]; [|done].
  apply within_try. eapply within_mono; [by apply (within_load_all pid ids [] s)|].
  intros s1 [out|e] [Hg Hr]; [|done]. destruct Hr as (loaded & -> & Hrec & Hall). cbn [app within].
  split; [done|]. set (shown := take (N.to_nat max) (foldr insert_newest [] loaded)).
  assert (Hlen : len shown <= max).
  { unfold len, shown. rewrite length_take. lia. }
  split_and!; [done|apply sorted_take; [apply _|apply newest_sorted]| |right].
  - intros m Hm. apply Hrec. rewrite <-newest_perm. apply elem_of_take in Hm as (i & Hi & _).
    by eapply list_elem_of_lookup_2.
  - intros id m Hthere Hm. destruct (newest_take (N.to_nat max) loaded m) as [?|[Hfull ?]]; [|by left|right].
    + apply (Hall id); [|done|done]. apply Hids. by rewrite history_dir_path.
    + split; [|done]. unfold len. fold shown in Hfull. lia.
Qed.

(** ** Removing *)

(** What [remove_checkpoint] does: only this checkpoint is removed, and all of it. *)
Definition removes_checkpoint (pid : ProjectId) (id : CheckpointId) (s s' : fs) (r : Result unit) : Prop :=
  (forall x, ~ checkpoint_path self pid id `prefix_of` x -> nodes s' !! x = nodes s !! x) /\
  match r with
  | Ok _ => forall x, nodes s' !! (checkpoint_path self pid id ++ x) = None
  | Err _ => True
  end.

Lemma within_remove_checkpoint pid id s :
  within tree_step (remove_checkpoint self pid id) (removes_checkpoint pid id s) s.
Proof.
  assert (Herr : forall s' e, grown s s' -> removes_checkpoint pid id s s' (Err e)).
  { intros s' e [Hn _]. split; [by rewrite Hn|done]. }
  unfold remove_checkpoint, lock_gate. destruct (gate_poisoned self); [by apply Herr|].
  apply within_try, within_or_fail, within_call_. intros r s1 Hs1.
  apply (quiet_step _ (Ev _ _)) in Hs1 as ->; [|done]. destruct r as [meta|e]; [|by apply Herr].
  destruct (_ || _); [by apply Herr|]. apply within_try, within_or_fail, within_call_. intros r s1 Hs1.
  apply at_path in Hs1. rewrite checkpoint_dir_path in Hs1 by done. destruct Hs1 as (_ & _ & Hr).
  destruct r as [[]|e]; [|by split; [apply Hr|]].
  eapply within_sync_dir_nodes; [done|]. intros s2 r Hn. split.
  - intros x Hx. rewrite Hn, Hr, remove_tree_lookup. by rewrite decide_False.
  - destruct r; [|done]. intros x. rewrite Hn, Hr, remove_tree_lookup. apply decide_True. by eexists.
Qed.
End listing.
