(* ===== verification/CheckpointCleanup.v ===== *)
(** * Opening and cleaning the checkpoint store ([vibecoder-checkpoint-local])

    [initialize] in the file system of [TreeSystem.v]: it makes the two roots, removes
    what an interrupted operation has left, and touches no project and no checkpoint. *)
From S2P Require Import Prelude RustStr StrFacts RustPath Domain Program OsCalls.
From S2P Require Import FileSystem StateNames CheckpointStore Checkpoint TreeDigest.
From S2P Require Import TreeSystem.
From S2P Require Import TreeWalk TreeCopy CheckpointLayout CheckpointCreate CheckpointRollback.

(** ** Leftovers *)

(** Nodes only went away, and only below the names [P] of [d]. *)
Definition pruned (d : list str) (P : str -> Prop) (s s' : fs) : Prop :=
  nodes s' ⊆ nodes s /\
  forall x, (forall name, P name -> ~ (d ++ [name]) `prefix_of` x) -> nodes s' !! x = nodes s !! x.

#[export] Instance pruned_preorder d P : PreOrder (pruned d P).
Proof.
  split; [by split|]. intros a b c [Hf Hn] [Hf' Hn']. split; [by etransitivity|].
  intros x Hx. by rewrite Hn', Hn.
Qed.

Section cleanup.
Context `{UuidShape}.

Definition left_name (prefix name : str) : Prop := exists id, name = prefix ++ uuid_hyphenated id.

Lemma leftover_name prefix raw :
  leftover prefix raw = true -> exists name, from_utf8 raw = Some name /\ left_name prefix name.
Proof.
  unfold leftover. destruct (from_utf8 raw) as [name|]; [|done]. intros Hl. exists name. split; [done|].
  apply andb_true_iff in Hl as [Hp Hl]. destruct (uuid_parse _) as [id|]; [|done]. exists id.
  unfold str_eqb in Hl. bool_prop. apply starts_with_spec in Hp as [k ->].
  by rewrite drop_app_length in Hl; rewrite Hl.
Qed.

Lemma name_leftover prefix raw name :
  from_utf8 raw = Some name -> left_name prefix name -> leftover prefix raw = true.
Proof.
  intros Hraw [id ->]. unfold leftover. rewrite Hraw, drop_app_length, uuid_parse_hyphenated.
  rewrite str_eqb_refl, andb_true_r. apply starts_with_spec. by eexists.
Qed.

(** Nothing of this name is left. *)
Definition gone (s : fs) (d : list str) (prefix : str) (raw : option bytes) : Prop :=
  forall raw' name, raw = Some raw' -> from_utf8 raw' = Some name -> left_name prefix name ->
    nodes s !! (d ++ [name]) = None.

Lemma gone_pruned s s' d d' P prefix raw : pruned d' P s s' -> gone s d prefix raw -> gone s' d prefix raw.
Proof.
  intros [Hsub _] Hg raw' name Hraw Hname Hl. eapply lookup_weaken_None; [by eapply Hg|done].
Qed.

Lemma within_remove_leftover prefix name dir d raw metadata failed invalid s (Q : fs -> Result unit -> Prop) :
  place_path s dir = Some d -> from_utf8 raw = Some name -> left_name prefix name ->
  (forall s' e, pruned d (left_name prefix) s s' -> Q s' (Err e)) ->
  (forall s', pruned d (left_name prefix) s s' -> nodes s' !! (d ++ [name]) = None -> Q s' (Ok tt)) ->
  within tree_step
    (if is_symlink metadata then or_code failed (call_ (RemoveFile (Entry dir raw)))
     else if is_dir metadata then or_code failed (call_ (RemoveDirAll (Entry dir raw)))
     else Ret (fails invalid)) Q s.
Proof.
  intros Hd Hraw Hleft Herr Hok.
  assert (Hp : place_path s (Entry dir raw) = Some (d ++ [name])) by (cbn; rewrite Hraw; cbn; by rewrite Hd).
  assert (Hkeep : forall s', nodes s' ⊆ nodes s ->
    (forall x, ~ (d ++ [name]) `prefix_of` x -> nodes s' !! x = nodes s !! x) ->
    pruned d (left_name prefix) s s').
  { intros s' Hsub Hx. split; [done|]. intros x Hnx. by apply Hx, Hnx. }
  destruct (is_symlink metadata); [|destruct (is_dir metadata); [|by apply Herr]];
    apply within_or_fail, within_call_; intros r s' Hr; apply (at_place_some Hp) in Hr.
  - destruct r as [[]|e].
    + destruct Hr as [_ ->]. apply Hok; [|apply lookup_delete_eq]. apply Hkeep; [apply delete_subseteq|].
      intros x Hx. apply lookup_delete_ne. intros <-. by apply Hx.
    + apply Herr. assert (s' = s) as -> by (destruct e; cbn in Hr; by try destruct Hr). done.
  - destruct Hr as (_ & _ & Hr). destruct r as [[]|e].
    + assert (Hx : forall x, nodes s' !! x = nodes (remove_tree s (d ++ [name])) !! x) by by rewrite Hr.
      apply Hok; [apply Hkeep|].
      * rewrite Hr. apply map_filter_subseteq.
      * intros x Hnx. by rewrite Hx, remove_tree_lookup, decide_False.
      * by rewrite Hx, remove_tree_lookup, decide_True.
    + apply Herr, Hkeep; apply Hr.
Qed.

Lemma within_cleanup_entries prefix lf sf failed invalid dir d entries s :
  (forall s, place_path s dir = Some d) ->
  within tree_step (cleanup_entries prefix lf sf failed invalid dir entries)
    (fun s' r => pruned d (left_name prefix) s s' /\
       (r = Ok tt -> (None ∉ entries) /\ Forall (gone s' d prefix) entries)) s.
Proof.
  intros Hd. revert s. induction entries as [|[raw|] entries IH]; intros s; cbn [cleanup_entries];
    [by split; [|split; [apply not_elem_of_nil|]]| |done].
  destruct (leftover prefix raw) eqn:Hl.
  2:{ eapply within_mono; [apply IH|]. intros s' r [Hp Hg]. split; [done|]. intros Hr.
      destruct (Hg Hr) as [Hnone Hall]. split; [by apply not_elem_of_cons|]. constructor; [|done]. intros raw' name [= <-] Hraw Hleft.
      by rewrite (name_leftover _ _ _ Hraw Hleft) in Hl. }
  apply leftover_name in Hl as (name & Hraw & Hleft). apply within_try, within_or_fail, within_call_.
  intros r s1 Hs1. apply (quiet_step _ (Ev _ _)) in Hs1 as ->; [|done]. destruct r as [metadata|e]; [|done].
  apply within_try. eapply within_remove_leftover; [apply Hd|done|done|done|]. intros s1 Hp1 Hgone.
  eapply within_mono; [apply IH|]. intros s2 r [Hp2 Hg]. split; [by rewrite Hp1|]. intros Hr.
  destruct (Hg Hr) as [Hnone Hall]. split; [by apply not_elem_of_cons|]. constructor; [|done]. eapply gone_pruned; [exact Hp2|].
  intros raw' name' [= <-] Hraw' _. rewrite Hraw in Hraw'. by injection Hraw' as <-.
Qed.

(** In a directory that cannot be named nothing is removed. *)
Lemma within_cleanup_nothing prefix lf sf failed invalid dir entries (Q : fs -> Result unit -> Prop) s :
  (forall s, place_path s dir = None) -> (forall r, Q s r) ->
  within tree_step (cleanup_entries prefix lf sf failed invalid dir entries) Q s.
Proof.
  intros Hd HQ. induction entries as [|[raw|] entries IH]; cbn [cleanup_entries]; [apply HQ| |apply HQ].
  destruct (leftover prefix raw); [|done].
  assert (Hnone : place_path s (Entry dir raw) = None) by (cbn; rewrite Hd; by destruct (from_utf8 raw)).
  assert (Hstays : forall (c : tree_call) r s', c = RemoveFile (Entry dir raw) \/ c = RemoveDirAll (Entry dir raw) ->
    tree_step s (Ev c r) s' -> s' = s).
  { intros c r s' [-> | ->]; unfold tree_step, at_place; cbn -[place_path]; by rewrite Hnone. }
  apply within_try, within_or_fail, within_call_. intros r s1 Hs1.
  apply (quiet_step _ (Ev _ _)) in Hs1 as ->; [|done]. destruct r as [metadata|e]; [|apply HQ].
  apply within_try. destruct (is_symlink metadata); [|destruct (is_dir metadata); [|apply HQ]];
    apply within_or_fail, within_call_; intros r s1 Hs1; apply Hstays in Hs1 as ->;
      [|by auto| |by auto]; (destruct r; [exact IH|apply HQ]).
Qed.

(** What a complete listing and a complete cleaning of it leave. *)
Lemma listed_gone s s' d prefix entries name :
  nodes s' ⊆ nodes s ->
  (None ∉ entries -> forall name, is_Some (nodes s !! (d ++ [name])) ->
     exists raw, Some raw ∈ entries /\ from_utf8 raw = Some name) ->
  (None ∉ entries) -> Forall (gone s' d prefix) entries -> left_name prefix name ->
  nodes s' !! (d ++ [name]) = None.
Proof.
  intros Hsub Hall Hnone Hgone Hl. destruct (nodes s' !! (d ++ [name])) as [n|] eqn:Hn; [|done].
  destruct (Hall Hnone name) as (raw & Hin & Hraw).
  { exists n. by eapply lookup_weaken. }
  rewrite Forall_forall in Hgone. by rewrite (Hgone _ Hin raw name) in Hn.
Qed.

Lemma within_cleanup_dir prefix lf sf failed invalid path s :
  within tree_step
    (try entries <- or_code lf (call_ (ReadDir (PathAt path)));
     cleanup_entries prefix lf sf failed invalid (PathAt path) entries)
    (fun s' r => pruned (absolute path) (left_name prefix) s s' /\
       (r = Ok tt -> forall name, left_name prefix name -> nodes s' !! (absolute path ++ [name]) = None)) s.
Proof.
  apply within_try, within_or_fail, within_call_. intros r s1 Hs1. apply at_path in Hs1 as [-> Hlist].
  destruct r as [entries|e]; [|done]. destruct Hlist as [_ Hlist].
  eapply within_mono; [by apply within_cleanup_entries|]. intros s2 r [Hp Hg]. split; [done|].
  intros Hr name Hl. destruct (Hg Hr) as [Hnone Hgone]. eapply listed_gone; [apply Hp|done..].
Qed.

(** ** The checkpoints of all projects *)

(** Nodes only went away, and only below names [P] of what is in [d]. *)
Definition pruned_in (d : list str) (P : str -> Prop) (s s' : fs) : Prop :=
  nodes s' ⊆ nodes s /\
  forall x, (forall n name, P name -> ~ (d ++ [n; name]) `prefix_of` x) -> nodes s' !! x = nodes s !! x.

#[export] Instance pruned_in_preorder d P : PreOrder (pruned_in d P).
Proof.
  split; [by split|]. intros a b c [Hf Hn] [Hf' Hn']. split; [by etransitivity|].
  intros x Hx. by rewrite Hn', Hn.
Qed.

Lemma pruned_inside d n P s s' : pruned (d ++ [n]) P s s' -> pruned_in d P s s'.
Proof.
  intros [Hsub Hx]. split; [done|]. intros x Hnx. apply Hx. intros name HP Hp.
  apply (Hnx n name HP). by rewrite <-app_assoc in Hp.
Qed.

(** The temporary directories of the project this entry names are gone. *)
Definition project_gone (s : fs) (d : list str) (raw : option bytes) : Prop :=
  forall raw' n name, raw = Some raw' -> from_utf8 raw' = Some n -> left_name CHECKPOINT_TEMP_PREFIX name ->
    nodes s !! (d ++ [n; name]) = None.

Context (self : LocalCheckpointStore).
Let root := absolute (checkpoints_root self).

Lemma within_cleanup_projects entries s :
  within tree_step (cleanup_projects self entries)
    (fun s' r => pruned_in root (left_name CHECKPOINT_TEMP_PREFIX) s s' /\
       (r = Ok tt -> (None ∉ entries) /\ Forall (project_gone s' root) entries)) s.
Proof.
  revert s. induction entries as [|[raw|] entries IH]; intros s; cbn [cleanup_projects];
    [by split; [|split; [apply not_elem_of_nil|]]| |done].
  set (project := Entry (PathAt (checkpoints_root self)) raw).
  apply within_try, within_or_fail, within_call_. intros r s1 Hs1.
  apply (quiet_step _ (Ev _ _)) in Hs1 as ->; [|done]. destruct r as [meta|e]; [|done].
  destruct (_ || _); [done|]. apply within_try, within_or_fail, within_call_. intros r s1 Hs1.
  pose proof Hs1 as Hlist. apply (quiet_step _ (Ev _ _)) in Hs1 as ->; [|done].
  destruct r as [found|e]; [|done].
  assert (Hrest : forall s1, pruned_in root (left_name CHECKPOINT_TEMP_PREFIX) s s1 ->
    project_gone s1 root (Some raw) ->
    within tree_step (cleanup_projects self entries)
      (fun s' r => pruned_in root (left_name CHECKPOINT_TEMP_PREFIX) s s' /\
         (r = Ok tt -> (None ∉ Some raw :: entries) /\ Forall (project_gone s' root) (Some raw :: entries))) s1).
  { intros s1 Hp1 Hg1. eapply within_mono; [apply IH|]. intros s2 r [Hp2 Hg]. split; [by rewrite Hp1|].
    intros Hr. destruct (Hg Hr) as [Hnone Hall]. split; [by apply not_elem_of_cons|]. constructor; [|done].
    intros raw' n name Hraw Hn Hl. eapply lookup_weaken_None; [by eapply Hg1|apply Hp2]. }
  apply within_try. destruct (from_utf8 raw) as [n|] eqn:Hraw.
  - assert (Hproj : forall s, place_path s project = Some (root ++ [n])) by (intros ?; cbn; by rewrite Hraw).
    apply (at_place_some (Hproj s)) in Hlist as [_ [_ Hlist]].
    eapply within_mono; [by apply within_cleanup_entries|]. intros s1 r [Hp Hg].
    apply pruned_inside in Hp as Hpi. destruct r as [[]|e]; [|done]. destruct (Hg eq_refl) as [Hnone Hall].
    apply Hrest; [done|]. intros raw' n' name [= <-] Hn Hl. rewrite Hraw in Hn. injection Hn as <-.
    replace (root ++ [n; name]) with ((root ++ [n]) ++ [name]) by by rewrite <-app_assoc.
    by eapply listed_gone; [apply Hp|..].
  - apply within_cleanup_nothing; [intros ?; cbn; by rewrite Hraw|]. intros [[]|e]; [|done].
    apply Hrest; [done|]. intros raw' n name [= <-] Hn. by rewrite Hraw in Hn.
Qed.

Lemma within_cleanup_checkpoint_temps s :
  within tree_step (cleanup_checkpoint_temps self)
    (fun s' r => pruned_in root (left_name CHECKPOINT_TEMP_PREFIX) s s' /\
       (r = Ok tt -> forall n name, is_Some (nodes s' !! (root ++ [n])) ->
          left_name CHECKPOINT_TEMP_PREFIX name -> nodes s' !! (root ++ [n; name]) = None)) s.
Proof.
  apply within_try, within_or_fail, within_call_. intros r s1 Hs1. apply at_path in Hs1 as [-> Hlist].
  destruct r as [entries|e]; [|done]. destruct Hlist as [_ Hlist].
  eapply within_mono; [apply within_cleanup_projects|]. intros s2 r [Hp Hg]. split; [done|].
  intros Hr n name [node Hn] Hl. destruct (Hg Hr) as [Hnone Hgone].
  destruct (Hlist Hnone n) as (raw & Hin & Hraw).
  { exists node. eapply lookup_weaken; [exact Hn|apply Hp]. }
  rewrite Forall_forall in Hgone. by eapply (Hgone _ Hin).
Qed.
End cleanup.

(** ** Opening the store *)

Lemma plain_products :
  plain_name PRODUCT_ROOT_NAME /\ plain_name PROJECTS_ROOT_NAME /\ plain_name CHECKPOINTS_ROOT_NAME.
Proof. split_and!; try done; vm_compute; set_solver. Qed.

(** The roots lie in the product directory [base]. *)
Definition opened (base : list str) (store : LocalCheckpointStore) : Prop :=
  has_root (projects_root store) = true /\ has_root (checkpoints_root store) = true /\
  absolute (projects_root store) = base ++ [PROJECTS_ROOT_NAME] /\
  absolute (checkpoints_root store) = base ++ [CHECKPOINTS_ROOT_NAME].

Lemma opened_rooted base store : opened base store -> rooted store.
Proof.
  intros (Hp & Hc & Hpa & Hca). split; [done..|]. rewrite Hpa, Hca.
  apply apart_length; [by rewrite !length_app|]. intros Heq. by apply app_inv_head in Heq.
Qed.

(** Nothing changed two levels below [base], or elsewhere. *)
Definition frame_top (base : list str) (s s' : fs) : Prop :=
  forall a b x, nodes s' !! (base ++ a :: b :: x) = nodes s !! (base ++ a :: b :: x).

Lemma frame_at_top base p s s' : (length p <= S (length base))%nat -> frame_at p s s' -> frame_top base s s'.
Proof.
  intros Hl [_ Hf] a b x. apply Hf. intros Heq%(f_equal length). rewrite length_app in Heq. cbn in Heq. lia.
Qed.

Section opening.
Context `{UuidShape}.

Lemma same_components_push parent name child :
  has_root parent = true -> plain_name name -> text_components child = text_components (push_str parent name) ->
  has_root child = true /\ absolute child = absolute parent ++ [name].
Proof.
  intros Hr Hn Heq. split; [eapply same_components_root; [exact Heq|by apply has_root_push]|].
  rewrite <-absolute_push by done. unfold absolute, path_names, components. cbn [path_text]. by rewrite Heq.
Qed.

Lemma within_initialize app s (Q : fs -> Result LocalCheckpointStore -> Prop) :
  (forall s' e, Q s' (Err e)) ->
  (forall base s1 s2 s3 store, opened base store -> frame_top base s s1 ->
     pruned (absolute (projects_root store)) (left_name ROLLBACK_TEMP_PREFIX) s1 s2 ->
     (forall name, left_name ROLLBACK_TEMP_PREFIX name ->
        nodes s2 !! (absolute (projects_root store) ++ [name]) = None) ->
     pruned_in (absolute (checkpoints_root store)) (left_name CHECKPOINT_TEMP_PREFIX) s2 s3 ->
     (forall n name, is_Some (nodes s3 !! (absolute (checkpoints_root store) ++ [n])) ->
        left_name CHECKPOINT_TEMP_PREFIX name ->
        nodes s3 !! (absolute (checkpoints_root store) ++ [n; name]) = None) ->
     Q s3 (Ok store)) ->
  within tree_step (initialize app) Q s.
Proof.
  intros Herr Hok. destruct plain_products as (Hpn & Hprn & Hcn). unfold initialize.
  destruct (negb _); [apply Herr|].
  apply within_try, within_quiet; [apply reject_symlink_looks|]. intros [[]|e]; [|apply Herr].
  apply within_try. unfold canonical_private_dir. apply within_try, within_or_fail, within_call_.
  intros r s1 [-> Hcanon]. destruct r as [root|e]; [|apply Herr]. specialize (Hcanon root eq_refl).
  apply within_try, within_or_fail, within_call_. intros r s1 Hs1. cbn in Hs1. subst s1.
  destruct r as [meta|e]; [|apply Herr]. cbn [within]. destruct (negb _); [apply Herr|].
  apply within_try. eapply within_private_child; [done..|by intros; apply Herr|].
  intros s1 product Hf1 Hprod. apply (same_components_push root) in Hprod as [Hpr Hpa]; [|done..].
  apply within_try. eapply within_private_child; [done..|by intros; apply Herr|].
  intros s2 projects Hf2 Hprojects. apply (same_components_push product) in Hprojects as [Hprr Hpra]; [|done..].
  apply within_try. eapply within_private_child; [done..|by intros; apply Herr|].
  intros s3 checkpoints Hf3 Hcps. apply (same_components_push product) in Hcps as [Hcr Hca]; [|done..].
  destruct (_ || _); [apply Herr|]. cbn zeta. set (store := Build_LocalCheckpointStore _ _ _).
  assert (Hopened : opened (absolute product) store) by done.
  assert (Htop : frame_top (absolute product) s s3).
  { apply (frame_at_top (absolute product)) in Hf1; [|rewrite Hpa, !length_app; cbn; lia].
    apply (frame_at_top (absolute product)) in Hf2; [|rewrite length_app; cbn; lia].
    apply (frame_at_top (absolute product)) in Hf3; [|rewrite length_app; cbn; lia].
    intros a b x. by rewrite Hf3, Hf2, Hf1. }
  apply within_try. eapply within_mono; [apply within_cleanup_dir|]. intros s4 [[]|e] [Hp4 Hg4]; [|apply Herr].
  apply within_try. eapply within_mono; [apply within_cleanup_checkpoint_temps|].
  intros s5 [[]|e] [Hp5 Hg5]; [|apply Herr]. cbn [within].
  eapply (Hok (absolute product) s3 s4 s5 store); try done; [by apply Hg4|by apply Hg5].
Qed.
End opening.
