(* ===== verification/CheckpointSafety.v ===== *)
(** * What the checkpoint store guarantees ([vibecoder-checkpoint-local])

    The theorems on whole operations, for every way the file system can answer, and
    runs of the store on the file system of [TreeSystem.v]. *)
From S2P Require Import Prelude RustStr StrFacts RustPath Domain Program OsCalls.
From S2P Require Import FileSystem StateNames CheckpointStore Checkpoint.
From S2P Require Import TreeDigest.
From S2P Require Import TreeSystem TreeWalk TreeCopy CheckpointLayout CheckpointCreate.
From S2P Require Import CheckpointRollback.
From S2P Require Import CheckpointListing CheckpointCleanup.

(** What [serde] promises of the metadata: it reads back. *)
Class MetadataJsonLaws `{MetadataJson} : Prop :=
  metadata_roundtrip : forall m bs, metadata_to_vec m = Some bs -> metadata_from_slice bs = Some m.

Section safety.
Context `{UuidShape, Sha256, MetadataJson}.

(** ** Lemmas *)

Lemma stored_recorded `{!MetadataJsonLaws} self s m kids :
  stored self s m kids -> recorded self s (cm_project_id m) (cm_checkpoint_id m) m.
Proof.
  intros (_ & (mode & bs & Hn & Hbs) & _ & _ & Hv). split_and!; [done..|].
  exists mode, bs. split; [done|]. by apply metadata_roundtrip.
Qed.

Lemma describes_hash m kids : describes m kids -> tree_sha256 m = digest_hex (dir_bytes [] kids).
Proof. unfold describes. by intros [= _ _ ->]. Qed.

(** Different trees with one digest. *)
Definition collision (kids kids' : forest) : Prop :=
  dir_bytes [] kids <> dir_bytes [] kids' /\
  digest_hex (dir_bytes [] kids) = digest_hex (dir_bytes [] kids').

(** ** The guarantees *)

(** C14. A checkpoint is the project as it was.  Whatever calls fail, only the project's own
    checkpoints can change and those that were stored stay.  If [create_checkpoint_sync]
    returns metadata, a new checkpoint with it is stored whose tree is the project's tree,
    which its digest describes; if it fails, no checkpoint was added, except when only the
    last sync failed. *)
Theorem checkpoint_is_the_project self project reason s r s' :
  rooted self -> executes tree_step (create_checkpoint_sync self project reason) s r s' ->
  creates_checkpoint self (pr_id project) s s' r.
Proof. intros Hroot. by apply within_executes, within_create. Qed.

(** C13. A rollback is all or nothing.  Whatever calls fail, no checkpoint and no other
    project changes; if it succeeds the project is the tree of the checkpoint, which the
    digest in the metadata describes; if it fails the project's tree is untouched, except
    that a failed recovery may leave the restored one. *)
Theorem rollback_all_or_nothing self project id s r s' :
  rooted self -> executes tree_step (rollback_sync self project id) s r s' ->
  rolls_back self (pr_id project) id s s' r.
Proof. intros Hroot. by apply within_executes, within_rollback. Qed.

(** C15. A rollback undoes every change.  Whatever has happened to the project since a
    checkpoint of it was created, and to everything else but the project's checkpoints, a
    rollback that succeeds makes the project the tree it was then. *)
Theorem checkpoint_round_trip `{!MetadataJsonLaws} self project reason s m s1 s2 res s3 :
  rooted self ->
  executes tree_step (create_checkpoint_sync self project reason) s (Ok m) s1 ->
  (forall x, history_path self (pr_id project) `prefix_of` x -> nodes s2 !! x = nodes s1 !! x) ->
  executes tree_step (rollback_sync self project (cm_checkpoint_id m)) s2 (Ok res) s3 ->
  exists kids, holds s (project_path self (pr_id project)) (Dir kids) /\
    holds s3 (project_path self (pr_id project)) (Dir kids).
Proof.
  intros Hroot Hc Hsame Hr. apply (within_executes _ _ _ _ _ _ (within_create self project reason s Hroot)) in Hc.
  destruct Hc as (_ & _ & Hpid & kids & [Hkids _] & Hst & _).
  apply (within_executes _ _ _ _ _ _ (within_rollback self Hroot project (cm_checkpoint_id m) s2)) in Hr.
  destruct Hr as (_ & m' & kids' & (_ & [Hkids' _] & _) & _ & Hp). exists kids. split; [done|].
  destruct Hst as (_ & _ & Htree & _). rewrite Hpid in Htree.
  assert (Htree2 : holds s2 (checkpoint_path self (pr_id project) (cm_checkpoint_id m) ++ [SNAPSHOT_TREE_NAME]) (Dir kids)).
  { eapply holds_ext; [|exact Htree]. intros x. apply Hsame. unfold checkpoint_path.
    rewrite <-!app_assoc. by eexists. }
  by rewrite (holds_unique _ _ _ _ Htree2 Hkids').
Qed.

(** C23. The digest certifies the restored tree.  Whatever has happened to the store since
    a checkpoint was created: if a rollback answers with the digest that creating it
    answered with, the project is the tree it was then, or the two trees are a
    collision. *)
Theorem restored_tree_is_certified self project project' reason id s m s1 s2 res s3 :
  rooted self ->
  executes tree_step (create_checkpoint_sync self project reason) s (Ok m) s1 ->
  executes tree_step (rollback_sync self project' id) s2 (Ok res) s3 ->
  rb_tree_sha256 res = tree_sha256 m ->
  short_paths s (project_path self (pr_id project)) -> short_paths s3 (project_path self (pr_id project')) ->
  exists kids kids', holds s (project_path self (pr_id project)) (Dir kids) /\
    holds s3 (project_path self (pr_id project')) (Dir kids') /\
    (kids' = kids \/ collision kids kids').
Proof.
  intros Hroot Hc Hr Hsha Hfits Hfits'.
  apply (within_executes _ _ _ _ _ _ (within_create self project reason s Hroot)) in Hc.
  destruct Hc as (_ & _ & _ & kids & [Hkids Hok] & (_ & _ & _ & Hd & _) & _).
  apply (within_executes _ _ _ _ _ _ (within_rollback self Hroot project' id s2)) in Hr.
  destruct Hr as (_ & m' & kids' & (_ & [Hkids' Hok'] & Hd') & -> & Hp). exists kids, kids'.
  split_and!; [done..|]. cbn in Hsha. rewrite (describes_hash _ _ Hd), (describes_hash _ _ Hd') in Hsha.
  destruct (decide (dir_bytes [] kids = dir_bytes [] kids')) as [Heq|Hne]; [left|by right].
  symmetry. apply tree_bytes_injective; [done..| | |done];
    [exact (short_paths_fit _ _ _ Hfits Hkids)|exact (short_paths_fit _ _ _ Hfits' Hp)].
Qed.

(** ** Opening the store *)

Lemma cleaned_project base store s s1 s2 s3 pid x :
  opened base store -> frame_top base s s1 ->
  pruned (absolute (projects_root store)) (left_name ROLLBACK_TEMP_PREFIX) s1 s2 ->
  pruned_in (absolute (checkpoints_root store)) (left_name CHECKPOINT_TEMP_PREFIX) s2 s3 ->
  nodes s3 !! (project_path store pid ++ x) = nodes s !! (project_path store pid ++ x).
Proof.
  intros Ho Hf [_ Hp] [_ Hc]. pose proof (opened_rooted _ _ Ho) as Hroot. rewrite Hc, Hp.
  - destruct Ho as (_ & _ & Hpa & _). unfold project_path. rewrite Hpa, <-!app_assoc. apply Hf.
  - intros name [id ->]. apply apart_below, apart_sym, project_apart_staging.
  - intros n name _. apply apart_below. unfold project_path. apply apart_sub, apart_sym, Hroot.
Qed.

Lemma cleaned_checkpoint base store s s1 s2 s3 pid id x :
  opened base store -> frame_top base s s1 ->
  pruned (absolute (projects_root store)) (left_name ROLLBACK_TEMP_PREFIX) s1 s2 ->
  pruned_in (absolute (checkpoints_root store)) (left_name CHECKPOINT_TEMP_PREFIX) s2 s3 ->
  nodes s3 !! (checkpoint_path store pid id ++ x) = nodes s !! (checkpoint_path store pid id ++ x).
Proof.
  intros Ho Hf [_ Hp] [_ Hc]. pose proof (opened_rooted _ _ Ho) as Hroot. rewrite Hc, Hp.
  - destruct Ho as (_ & _ & _ & Hca). unfold checkpoint_path, history_path. rewrite Hca, <-!app_assoc. apply Hf.
  - intros name _. apply apart_below. unfold checkpoint_path, history_path. rewrite <-app_assoc.
    apply apart_sub, Hroot.
  - intros n name [fresh ->]. apply apart_below, apart_length.
    + unfold checkpoint_path, history_path. rewrite !length_app. cbn. lia.
    + unfold checkpoint_path, history_path. rewrite <-app_assoc. intros Heq. apply app_inv_head in Heq.
      injection Heq as _ Heq. symmetry in Heq.
      exact (uuid_not_dotted _ (tail (CHECKPOINT_TEMP_PREFIX ++ uuid_hyphenated fresh)) Heq).
Qed.

(** What [initialize] does when it returns [store]. *)
Definition recovers (s s' : fs) (store : LocalCheckpointStore) : Prop :=
  rooted store /\
  (forall pid x, nodes s' !! (project_path store pid ++ x) = nodes s !! (project_path store pid ++ x)) /\
  (forall m kids, stored store s' m kids <-> stored store s m kids) /\
  (forall fresh, nodes s' !! (absolute (projects_root store) ++ [staging_name fresh]) = None) /\
  (forall pid id, is_Some (nodes s' !! history_path store pid) ->
     nodes s' !! (history_path store pid ++ [temp_name id]) = None).

(** C24. Opening the store recovers it.  It keeps every project and every checkpoint as
    they are, and when it succeeds no staging directory of an interrupted rollback and no
    temporary directory of an interrupted checkpoint is left. *)
Theorem opening_recovers app s store s' :
  executes tree_step (initialize app) s (Ok store) s' -> recovers s s' store.
Proof.
  intros Hex. refine (within_executes tree_step (initialize app)
    (fun s' r => forall store, r = Ok store -> recovers s s' store) s _ s' _ Hex store eq_refl).
  clear Hex store s'.
  apply within_initialize; [done|]. intros base s1 s2 s3 store Ho Hf Hp Hgone Hc Htemps store' [= <-].
  split_and!; [by eapply opened_rooted| | | |].
  - intros pid x. by eapply cleaned_project.
  - intros m kids. split; apply checkpoint_at_ext; intros x; [symmetry|]; by eapply cleaned_checkpoint.
  - intros fresh. eapply lookup_weaken_None; [|apply Hc]. apply Hgone. by exists fresh.
  - intros pid id Hn. unfold history_path in *. rewrite <-app_assoc. apply Htemps; [done|]. by eexists.
Qed.

(** A listing shows the newest checkpoints.  [list_checkpoints] changes nothing and
    answers with at most as many checkpoints as were asked for, newest first, each as its
    metadata file says; one that is missing is not newer than any that is shown, and then
    the listing is full. *)
Theorem listing_shows_the_newest self pid max s r s' :
  rooted self -> executes tree_step (list_checkpoints self pid max) s r s' ->
  nodes s' = nodes s /\ lists_checkpoints self pid max s r.
Proof.
  intros Hroot Hex. apply (within_executes _ _ _ _ _ _ (within_list_checkpoints self Hroot pid max s)) in Hex.
  by destruct Hex as [[Hn _] Hr].
Qed.

(** Removing a checkpoint removes this checkpoint, all of it when it succeeds, and
    nothing else whatever fails. *)
Theorem removing_removes_one self pid id s r s' :
  rooted self -> executes tree_step (remove_checkpoint self pid id) s r s' ->
  removes_checkpoint self pid id s s' r.
Proof. intros Hroot. by apply within_executes, within_remove_checkpoint. Qed.

(** Everything on the way to [x] is a directory. *)
Definition reachable (s : fs) (p x : list str) : Prop :=
  forall y name z, x = y ++ name :: z -> nodes s !! (p ++ y) = Some NDir.

Lemma kid_at s p kids name :
  kids_hold s p kids -> kids_ok kids -> name ∈ kid_names kids ->
  name_ok name /\ exists t, holds s (p ++ [name]) t /\ tree_ok t.
Proof.
  induction kids as [|m t rest IH]; cbn; [by intros _ _ ?%elem_of_nil|].
  intros [Ht Hr] (Hm & Htok & Hrok) [->|Hin]%elem_of_cons; [|by apply IH]. split; [done|]. by exists t.
Qed.

Lemma walked_everywhere s x : forall p t, holds s p t -> tree_ok t -> reachable s p x ->
  is_Some (nodes s !! (p ++ x)) ->
  Forall (fun name => name_forbidden name = false) x /\
  (nodes s !! (p ++ x) = Some NDir \/ exists mode content, nodes s !! (p ++ x) = Some (NFile mode content)).
Proof.
  induction x as [|name x IH]; intros p t Ht Hok Hreach Hin.
  { split; [constructor|]. rewrite app_nil_r. destruct t as [exec content|kids]; [right|by left; apply Ht].
    destruct Ht as (mode & Hn & _). by exists mode, content. }
  pose proof (Hreach [] name x eq_refl) as Hdir. rewrite app_nil_r in Hdir.
  destruct t as [exec content|kids]; [by destruct Ht as (mode & Hn & _); rewrite Hn in Hdir|].
  destruct Ht as (_ & _ & Hall & Hk). replace (p ++ name :: x) with ((p ++ [name]) ++ x) in * by by rewrite <-app_assoc.
  assert (Hname : is_Some (nodes s !! (p ++ [name]))).
  { destruct x as [|m x]; [by rewrite app_nil_r in Hin|]. exists NDir. by apply (Hreach [name] m x). }
  destruct (kid_at s p kids name Hk Hok (Hall _ Hname)) as ([Hn _] & t & Ht & Htok).
  destruct (IH (p ++ [name]) t) as [Hx Hnode]; [done..| |done|by split; [constructor|]].
  intros y m z ->. rewrite <-app_assoc. by apply (Hreach (name :: y) m z).
Qed.

(** C25. Checkpoints fail closed.  A checkpoint is only created of a project that holds
    nothing but directories and regular files, none with a reserved name, at most 100000
    files and at most 4 GiB: a symbolic link anywhere in the tree, or a temporary file that
    an interrupted write has left, makes every attempt fail. *)
Theorem checkpoints_fail_closed self project reason s m s' :
  rooted self -> executes tree_step (create_checkpoint_sync self project reason) s (Ok m) s' ->
  file_count m <= MAX_CHECKPOINT_FILES /\ total_bytes m <= MAX_CHECKPOINT_TOTAL_BYTES /\
  forall x, reachable s (project_path self (pr_id project)) x ->
    is_Some (nodes s !! (project_path self (pr_id project) ++ x)) ->
    Forall (fun name => name_forbidden name = false) x /\
    (nodes s !! (project_path self (pr_id project) ++ x) = Some NDir \/
     exists mode content, nodes s !! (project_path self (pr_id project) ++ x) = Some (NFile mode content)).
Proof.
  intros Hroot Hc. apply (within_executes _ _ _ _ _ _ (within_create self project reason s Hroot)) in Hc.
  destruct Hc as (_ & _ & _ & kids & [Hkids Hok] & (_ & _ & _ & _ & Hv) & _).
  unfold CheckpointMetadata_validate in Hv. destruct (negb _); [done|].
  destruct (N.ltb_spec MAX_CHECKPOINT_FILES (file_count m)); [done|].
  destruct (N.ltb_spec MAX_CHECKPOINT_TOTAL_BYTES (total_bytes m)); [done|].
  split_and!; [done..|]. intros x. by apply (walked_everywhere s x _ (Dir kids)).
Qed.
End safety.

(** ** A small store *)

#[local] Existing Instance ex_uuid.
#[local] Existing Instance ex_uuid_shape.

(** A checksum of the length of a digest. *)
#[local] Instance ex_sum : Sha256 := fun bs => replicate 32 (foldl (fun a b => (31 * a + b) mod 256) 7 bs).

Definition reason_code (r : CheckpointReason) : N :=
  match r with
  | Manual => 0 | BeforeAgentChange => 1 | AgentChangeVerification => 2 | BeforeBuildRepair => 3
  | BeforeRollback => 4
  end.
Definition code_reason (n : N) : CheckpointReason :=
  match n with
  | 0 => Manual | 1 => BeforeAgentChange | 2 => AgentChangeVerification | 3 => BeforeBuildRepair
  | _ => BeforeRollback
  end.

#[local] Instance ex_metadata_json : MetadataJson :=
  {| metadata_to_vec m :=
       Some ([cm_schema m; checkpoint_uuid (cm_checkpoint_id m); project_uuid (cm_project_id m);
              created_unix_ms m; reason_code (cm_reason m); file_count m; total_bytes m] ++ tree_sha256 m);
     metadata_from_slice bs :=
       match bs with
       | schema :: id :: project :: now :: reason :: files :: size :: sha =>
         Some {| cm_schema := schema; cm_checkpoint_id := MkCheckpointId id;
                 cm_project_id := MkProjectId project; created_unix_ms := now;
                 cm_reason := code_reason reason; file_count := files; total_bytes := size;
                 tree_sha256 := sha |}
       | _ => None
       end |}.

#[local] Instance ex_metadata_json_laws : MetadataJsonLaws.
Proof. intros [schema [id] [project] now [] files size sha] bs [= <-]; done. Qed.

Definition ex_checkpoints : LocalCheckpointStore :=
  {| projects_root := u "/app/vibecoder/projects"; checkpoints_root := u "/app/vibecoder/checkpoints";
     gate_poisoned := false |}.

Lemma ex_rooted : rooted ex_checkpoints.
Proof. apply (opened_rooted [u "app"; PRODUCT_ROOT_NAME]). by split_and!; vm_compute. Qed.

Definition ex_project : ProjectRef :=
  {| pr_id := MkProjectId 1; pr_root := push_str (u "/app/vibecoder/projects") (ex_print 1) |}.
Definition ex_root : list str := project_path ex_checkpoints (MkProjectId 1).

(** A project with a program and a directory with a text. *)
Definition ex_tree : fs :=
  {| nodes := list_to_map
       [([], NDir); ([u "app"], NDir); ([u "app"; PRODUCT_ROOT_NAME], NDir);
        ([u "app"; PRODUCT_ROOT_NAME; PROJECTS_ROOT_NAME], NDir);
        ([u "app"; PRODUCT_ROOT_NAME; CHECKPOINTS_ROOT_NAME], NDir);
        (ex_root, NDir); (ex_root ++ [u "run"], NFile 0x1C0 [1; 2; 3]);
        (ex_root ++ [u "src"], NDir); (ex_root ++ [u "src"; u "text"], NFile 0x180 [4; 5])];
     fds := ∅; positions := ∅ |}.

(** The answer of a run, and the file system after it. *)
Definition ran {A} (unsynced : option (list str)) (p : tree_prog A) (s : fs) : A * fs :=
  ((simulate (tree_disk unsynced) p s).1.1, (simulate (tree_disk unsynced) p s).2).

Lemma ran_executes {A} unsynced (p : tree_prog A) s a :
  (ran unsynced p s).1 = a -> executes tree_step p s a (ran unsynced p s).2.
Proof. intros <-. apply (simulate_executes _ _ id), tree_disk_steps. Qed.

Definition ex_create : tree_prog (Result CheckpointMetadata) :=
  create_checkpoint_sync ex_checkpoints ex_project Manual.
Definition ex_rollback : tree_prog (Result RollbackResult) :=
  rollback_sync ex_checkpoints ex_project (MkCheckpointId 7).

Definition ex_metadata : CheckpointMetadata :=
  {| cm_schema := 1; cm_checkpoint_id := MkCheckpointId 7; cm_project_id := MkProjectId 1;
     created_unix_ms := 1000; cm_reason := Manual; file_count := 2; total_bytes := 5;
     tree_sha256 := concat (replicate 32 (u "03")) |}.
Definition ex_result : RollbackResult := rollback_result (MkProjectId 1) (MkCheckpointId 7) ex_metadata.

Lemma checkpoint_is_the_project_witness :
  exists s', creates_checkpoint ex_checkpoints (MkProjectId 1) ex_tree s' (Ok ex_metadata).
Proof.
  exists (ran None ex_create ex_tree).2.
  apply (checkpoint_is_the_project ex_checkpoints ex_project Manual ex_tree); [apply ex_rooted|].
  apply ran_executes. by vm_compute.
Defined.

(** The project after the checkpoint, with a text changed and the program gone. *)
Definition ex_saved : fs := (ran None ex_create ex_tree).2.
Definition ex_edited : fs :=
  remove (put ex_saved (ex_root ++ [u "src"; u "text"]) (NFile 0x180 [6])) (ex_root ++ [u "run"]).

Lemma rollback_all_or_nothing_witness :
  exists s', rolls_back ex_checkpoints (MkProjectId 1) (MkCheckpointId 7) ex_edited s' (Ok ex_result).
Proof.
  exists (ran None ex_rollback ex_edited).2.
  apply (rollback_all_or_nothing ex_checkpoints ex_project); [apply ex_rooted|].
  apply ran_executes. by vm_compute.
Defined.

Lemma ex_edit_elsewhere x :
  history_path ex_checkpoints (MkProjectId 1) `prefix_of` x -> nodes ex_edited !! x = nodes ex_saved !! x.
Proof.
  intros Hx. unfold ex_edited. rewrite remove_nodes, put_nodes.
  assert (Hne : forall y, x <> ex_root ++ y).
  { intros y ->. revert Hx. apply apart_below, apart_sym. apply project_apart_history, ex_rooted. }
  rewrite !decide_False; [done|apply (Hne [u "src"; u "text"])|apply (Hne [u "run"])].
Qed.

Lemma checkpoint_round_trip_witness :
  exists s' kids, holds ex_tree ex_root (Dir kids) /\ holds s' ex_root (Dir kids).
Proof.
  exists (ran None ex_rollback ex_edited).2.
  apply (checkpoint_round_trip ex_checkpoints ex_project Manual ex_tree ex_metadata ex_saved ex_edited ex_result).
  - apply ex_rooted.
  - apply ran_executes. by vm_compute.
  - apply ex_edit_elsewhere.
  - apply (ran_executes None ex_rollback). by vm_compute.
Defined.

Lemma short_paths_check s p :
  forallb (fun q => bool_decide (~ p `prefix_of` q) ||
    (bool_decide (blen (foldl relative_name [] (drop (length p) q)) < 2 ^ 64)
     && forallb (fun c => c <? 0x110000) (foldl relative_name [] (drop (length p) q))))
    (map_to_list (nodes s)).*1 = true ->
  short_paths s p.
Proof.
  rewrite forallb_forall. intros Hall x _ [n Hn]. specialize (Hall (p ++ x)).
  assert (Hin : (p ++ x) ∈ (map_to_list (nodes s)).*1).
  { apply list_elem_of_fmap. exists (p ++ x, n). split; [done|]. by apply elem_of_map_to_list. }
  apply list_elem_of_In in Hin. specialize (Hall Hin).
  rewrite bool_decide_false, drop_app_length in Hall by (intros Hnp; apply Hnp; by eexists).
  cbn [orb] in Hall. apply andb_true_iff in Hall as [Hl Hs]. bool_prop. split; [done|].
  rewrite forallb_forall in Hs. apply Forall_forall. intros c Hc. apply N.ltb_lt, Hs. by apply list_elem_of_In.
Qed.

Lemma restored_tree_is_certified_witness :
  exists s' kids kids', holds ex_tree ex_root (Dir kids) /\ holds s' ex_root (Dir kids') /\
    (kids' = kids \/ collision kids kids').
Proof.
  exists (ran None ex_rollback ex_edited).2.
  apply (restored_tree_is_certified ex_checkpoints ex_project ex_project Manual (MkCheckpointId 7)
    ex_tree ex_metadata ex_saved ex_edited ex_result).
  - apply ex_rooted.
  - apply ran_executes. by vm_compute.
  - apply (ran_executes None ex_rollback). by vm_compute.
  - done.
  - apply short_paths_check. by vm_compute.
  - apply short_paths_check. by vm_compute.
Defined.

(** A store that was interrupted in a rollback. *)
Definition ex_interrupted : fs :=
  put (put ex_saved (absolute (projects_root ex_checkpoints) ++ [staging_name 3]) NDir)
    (absolute (projects_root ex_checkpoints) ++ [staging_name 3; u "run"]) (NFile 0x1C0 [1]).

Lemma opening_recovers_witness :
  exists s', recovers ex_interrupted s' ex_checkpoints.
Proof.
  exists (ran None (initialize (u "/app")) ex_interrupted).2.
  apply (opening_recovers (u "/app")). apply ran_executes. by vm_compute.
Defined.

Lemma checkpoints_fail_closed_witness :
  name_forbidden (u "run") = false /\ file_count ex_metadata = 2.
Proof.
  destruct (checkpoints_fail_closed ex_checkpoints ex_project Manual ex_tree ex_metadata ex_saved)
    as (_ & _ & Hall).
  - apply ex_rooted.
  - apply ran_executes. by vm_compute.
  - destruct (Hall [u "run"]) as [Hnames _].
    + intros [|a y] name z Heq; [by vm_compute|]. by destruct y.
    + eexists. by vm_compute.
    + split; [by apply Forall_cons in Hnames as [? _]|done].
Defined.

Lemma listing_shows_the_newest_witness :
  exists s', nodes s' = nodes ex_saved /\
    lists_checkpoints ex_checkpoints (MkProjectId 1) 10 ex_saved (Ok [ex_metadata]).
Proof.
  exists (ran None (list_checkpoints ex_checkpoints (MkProjectId 1) 10) ex_saved).2.
  apply (listing_shows_the_newest ex_checkpoints); [apply ex_rooted|]. apply ran_executes. by vm_compute.
Defined.

Lemma removing_removes_one_witness :
  exists s', removes_checkpoint ex_checkpoints (MkProjectId 1) (MkCheckpointId 7) ex_saved s' (Ok tt).
Proof.
  exists (ran None (remove_checkpoint ex_checkpoints (MkProjectId 1) (MkCheckpointId 7)) ex_saved).2.
  apply (removing_removes_one ex_checkpoints); [apply ex_rooted|]. apply ran_executes. by vm_compute.
Defined.

(** A checkpoint can fail and be published.  When the directory of the project's
    checkpoints cannot be synced after the rename, creating the checkpoint is reported as
    failed, but it is listed and a rollback to it succeeds. *)
Theorem failed_checkpoint_can_be_published :
  exists s s',
    executes tree_step ex_create ex_tree
      (Err (checkpoint_error (u "checkpoint_directory_sync_failed"))) s /\
    executes tree_step (list_checkpoints ex_checkpoints (MkProjectId 1) 10) s (Ok [ex_metadata]) s' /\
    exists s'', executes tree_step ex_rollback s' (Ok ex_result) s''.
Proof.
  set (unsynced := Some (history_path ex_checkpoints (MkProjectId 1))).
  exists (ran unsynced ex_create ex_tree).2.
  exists (ran unsynced (list_checkpoints ex_checkpoints (MkProjectId 1) 10) (ran unsynced ex_create ex_tree).2).2.
  split_and!; [apply ran_executes; by vm_compute|apply ran_executes; by vm_compute|].
  eexists. apply (ran_executes unsynced). by vm_compute.
Qed.
