(* ===== verification/CoreCalls.v ===== *)
(** * The calls of the controller

    [VibeCoderCore] owns no algorithmic state: it calls the agent runtime, the model
    gateway, the workspace, the stores, the process runtime and its own two shared
    objects, the approval engine and the lifecycle gate, which other tasks use at the
    same time.  Its operations are programs over these calls ([Program.v]); what the
    answers are is left open.  The gate and the approval engine have their models in
    [Lifecycle.v] and [CommandPolicy.v].

    A permit of the gate is given back when it goes out of scope: [Release] at the
    end of that scope. *)
From S2P Require Import Prelude RustStr RustPath Domain WorkspaceContract Routing CommandPolicy.
From S2P Require Import ProcessContract Persistence Conversation Checkpoint Program.

Inductive GatewayCredential := Anonymous | CredSecret (secret : str).

Inductive GatewayHealthStatus :=
| HsReady
| AuthenticationRequired
| AuthenticationRejected
| AccessDenied
| NoUsableModels
| HsRateLimited
| EndpointNotFound
| InvalidResponse
| Unavailable.

Record GatewayHealth := {
  ready : bool;
  status : GatewayHealthStatus;
  usable_models : N;
  detail : option str
}.

Inductive SecretSource := AppSecureStore | Environment.
Record SecretReference := { secret_source : SecretSource; secret_name : str }.

Inductive core_call :=
(* ProjectLifecycleGate *)
| TryAcquire (p : ProjectId)
| Release (p : ProjectId)
(* CommandPolicyEngine *)
| RequestCommand (s : SessionId) (p : ProjectId) (c : CommandSpec)
| DecideCommand (s : SessionId) (p : ProjectId) (a : CommandApprovalRequest)
    (d : CommandApprovalDecision)
| RevokePending (s : SessionId)
| InvalidateAuthorizations (p : ProjectId)
| ValidateEnvelope (e : CommandExecutionEnvelope)
(* WorkspaceRuntime *)
| WsCapabilities
| WsCreateProject (id : ProjectId)
| WsOpenProject (id : ProjectId)
| WsRemoveProject (project : ProjectRef)
| WsVerifyProject (project : ProjectRef)
| WsResolvePath (project : ProjectRef) (relative : os_path)
| WsCreateDirAll (project : ProjectRef) (relative : os_path)
| WsFileExists (project : ProjectRef) (relative : os_path)
| WsReadFile (project : ProjectRef) (relative : os_path) (max_bytes : N)
| WsAtomicWrite (project : ProjectRef) (relative : os_path) (contents : bytes)
| WsEditText (project : ProjectRef) (relative : os_path) (expected replacement : str)
| WsApplyPatch (project : ProjectRef) (relative : os_path) (hunks : list TextPatchHunk)
| WsListFiles (project : ProjectRef) (max_entries : N)
| WsSearchText (project : ProjectRef) (needle : str) (max_matches : N)
(* AgentRuntime *)
| AgBridge
| AgEnsureReady
| AgCreateSession (project : ProjectRef)
| AgResumeSession (project : ProjectRef) (s : SessionId)
| AgVerifyBinding (project : ProjectRef) (s : SessionId)
| AgQuiescent (project : ProjectRef)
| AgRefresh (project : ProjectRef) (s : SessionId)
| AgRunTurn (s : SessionId) (prompt : str) (model : option ModelRef)
| AgCancel (s : SessionId)
| AgListModels (s : SessionId)
| AgCorroborate (s : SessionId) (model : ModelRef)
| AgSetModel (s : SessionId) (model : ModelRef)
(* ModelGateway *)
| GwProfile (c : GatewayCredential)
| GwHealth (c : GatewayCredential)
| GwListModels (c : GatewayCredential)
| GwChat (c : GatewayCredential) (request : GatewayChatRequest)
(* SecretResolver: resolve and expose_str *)
| ResolveSecret (reference : SecretReference)
(* ProcessRuntime *)
| ProcStart (project : ProjectRef) (e : CommandExecutionEnvelope) (o : ProcessExecutionOptions)
| ProcActive (p : ProjectId)
| ProcCancel (id : ProcessId)
(* ProjectStateStore *)
| PsCreate (s : PersistedProjectState)
| PsUpdate (expected : N) (s : PersistedProjectState)
| PsLoad (p : ProjectId)
| PsList (max_projects : N)
| PsRemove (p : ProjectId)
(* ConversationStore *)
| CvCreate (c : PersistedConversation)
| CvUpdate (expected : N) (c : PersistedConversation)
| CvLoad (p : ProjectId) (id : ConversationId)
| CvList (p : ProjectId) (max_conversations : N)
| CvRemove (p : ProjectId) (id : ConversationId)
| CvRemoveProject (p : ProjectId)
(* CheckpointStore *)
| CkCreate (project : ProjectRef) (reason : CheckpointReason)
| CkList (p : ProjectId) (max_results : N)
| CkRollback (project : ProjectRef) (id : CheckpointId)
| CkRemove (p : ProjectId) (id : CheckpointId)
(* the shared flags of cancellation handles and guards *)
| CancelRequested
| RequestCancel
| BeginOnce
| NewUuid
(* an awaited call raced against a cancellation handle; no answer when the
   cancellation was seen first *)
| Racing (c : core_call).

(** [AgRunTurn] answers with the events it has delivered to the handler. *)
Fixpoint core_resp (c : core_call) : Type :=
  match c with
  | Release _ | RequestCancel => unit
  | RequestCommand _ _ _ => Result CommandRequestOutcome
  | DecideCommand _ _ _ _ => Result CommandDecisionOutcome
  | RevokePending _ | InvalidateAuthorizations _ | ProcActive _ => Result N
  | WsCapabilities => WorkspaceCapabilities
  | WsCreateProject _ | WsOpenProject _ => Result ProjectRef
  | WsResolvePath _ _ => Result os_path
  | WsFileExists _ _ => Result bool
  | WsReadFile _ _ _ => Result bytes
  | WsEditText _ _ _ _ => Result TextEditResult
  | WsApplyPatch _ _ _ => Result TextPatchResult
  | WsListFiles _ _ => Result ProjectFileList
  | WsSearchText _ _ _ => Result ProjectTextSearchResult
  | AgBridge => option ModelGatewayBridgeIdentity
  | AgEnsureReady => Result RuntimeCapabilities
  | AgCreateSession _ => Result SessionId
  | AgRunTurn _ _ _ => list AgentEvent * Result TurnResult
  | AgListModels _ | GwListModels _ => Result (list ModelRef)
  | AgCorroborate _ _ => Result ModelRef
  | GwProfile _ => Result GatewayExecutionProfile
  | GwHealth _ => Result GatewayHealth
  | GwChat _ _ => Result GatewayChatResponse
  | ResolveSecret _ => Result str
  | ProcStart _ _ _ => Result RunningProcess
  | PsUpdate _ _ => Result PersistedProjectState
  | PsLoad _ => Result (option PersistedProjectState)
  | PsList _ => Result (list ProjectId)
  | CvUpdate _ _ => Result PersistedConversation
  | CvLoad _ _ => Result (option PersistedConversation)
  | CvList _ _ => Result (list ConversationId)
  | CkCreate _ _ => Result CheckpointMetadata
  | CkList _ _ => Result (list CheckpointMetadata)
  | CkRollback _ _ => Result RollbackResult
  | CancelRequested | BeginOnce => bool
  | NewUuid => N
  | Racing c => option (core_resp c)
  | _ => Result unit
  end.

Canonical Structure core_sig : signature := Sig core_call core_resp.
Abbreviation core := (Program.program core_sig).

(** The parts a [VibeCoderCore] has been given, and the agent's [runtime_id]. *)
Record VibeCoderCore := {
  runtime_id : str;
  has_process_runtime : bool;
  has_project_state_store : bool;
  has_conversation_store : bool;
  has_checkpoint_store : bool
}.

(** ** Combinators *)

Definition give {A} (r : Result A) : core (Result A) := Ret r.

(** [m.map_err(|_| e)]. *)
Definition or_error {A} (e : VibeCoderError) (m : core (Result A)) : core (Result A) :=
  do r <- m; Ret (match r with Ok a => Ok a | Err _ => Err e end).

(** [.ok_or(e)?] on an optional answer. *)
Definition some_or {A} (e : VibeCoderError) (m : core (Result (option A))) : core (Result A) :=
  try o <- m; Ret (ok_or o e).

(** The scope of [let _lifecycle = try_acquire(p)?]; [fail] is the early return. *)
Definition lifecycle_scope {A} (p : ProjectId) (fail : VibeCoderError -> A) (body : core A) :
    core A :=
  do r <- call_ (TryAcquire p);
  match r with
  | Err e => Ret (fail e)
  | Ok _ => do a <- body; do _ <- call_ (Release p); Ret a
  end.

Abbreviation with_lifecycle p := (lifecycle_scope p Err).
