(* ===== verification/BackendTask.v ===== *)
(** * Running one backend task ([vibecoder-core])

    [run_backend_task] composes the task machine of [TaskOrchestration.v] with the
    calls of the controller: what the machine decides is decided on the answers of
    the agent and the gateway, and the events a turn delivers go to the observer of
    the attempt.  The result is paired with the events delivered to [on_event]. *)
From S2P Require Import Prelude RustStr Domain Routing TaskOrchestration CommandPolicy.
From S2P Require Import ProcessContract Persistence Conversation Checkpoint Program CoreCalls.

(** ** The parts of the controller *)

Definition missing (component capability : string) : VibeCoderError :=
  MissingCapability (u component) (u capability).

(** [self.checkpoint_store()?], [self.project_state_store()?] and
    [self.conversation_store()?]. *)
Definition checkpoint_store (self : VibeCoderCore) : Result unit :=
  if has_checkpoint_store self then Ok tt
  else Err (missing "checkpoint store" "project_checkpoint_rollback").
Definition project_state_store (self : VibeCoderCore) : Result unit :=
  if has_project_state_store self then Ok tt
  else Err (missing "project state store" "project_session_persistence").
Definition conversation_store (self : VibeCoderCore) : Result unit :=
  if has_conversation_store self then Ok tt
  else Err (missing "conversation store" "multi_chat_persistence").

Definition process_runtime (self : VibeCoderCore) : Result unit :=
  if has_process_runtime self then Ok tt
  else Err (missing "process runtime" "local execution").

Definition ensure_no_active_project_process (self : VibeCoderCore) (project_id : ProjectId) :
    core (Result unit) :=
  if has_process_runtime self then
    try active <- call_ (ProcActive project_id);
    Ret (if negb (active =? 0) then Err (Process (u "project_process_active")) else Ok tt)
  else Ret (Ok tt).

(** [resolve_optional_secret] and [gateway_credential_from_secret]. *)
Definition resolve_credential (reference : option SecretReference) :
    core (Result GatewayCredential) :=
  match reference with
  | Some reference =>
    try secret <- call_ (ResolveSecret reference); Ret (Ok (CredSecret secret))
  | None => Ret (Ok Anonymous)
  end.

Definition resolve_model_route_policy (c : GatewayCredential) (policy : ModelRoutePolicyConfig) :
    core (Result ResolvedModelRoutePolicy) :=
  try catalog <- call_ (GwListModels c); Ret (resolve policy catalog).

Definition resolve_model_route_policy_resolved (reference : option SecretReference)
    (policy : ModelRoutePolicyConfig) : core (Result ResolvedModelRoutePolicy) :=
  try c <- resolve_credential reference; resolve_model_route_policy c policy.

(** ** Preflight *)

Definition require (b : bool) (e : VibeCoderError) : Result unit := if b then Ok tt else Err e.

Definition check_workspace_capabilities (w : WorkspaceContract.WorkspaceCapabilities) :
    Result unit :=
  let need b capability := require b (missing "workspace runtime" capability) in
  let? _ := need (WorkspaceContract.managed_project_roots w) "managed_project_roots" in
  let? _ := need (WorkspaceContract.canonical_path_containment w) "canonical_path_containment" in
  let? _ := need (WorkspaceContract.read_write_files w) "read_write_files" in
  let? _ := need (WorkspaceContract.text_edit w) "text_edit" in
  need (WorkspaceContract.project_search w) "project_search".

Definition preflight (c : GatewayCredential) : core (Result unit) :=
  try health <- call_ (GwHealth c);
  if negb (ready health) then
    Ret (Err (Gateway (default (u "model_gateway_not_ready") (detail health))))
  else
    try agent <- call_ AgEnsureReady;
    if negb (sessions agent) then Ret (Err (missing "agent runtime" "sessions"))
    else if negb (file_tools agent) then Ret (Err (missing "agent runtime" "file_tools"))
    else
      do workspace <- call_ WsCapabilities;
      Ret (check_workspace_capabilities workspace).

Definition preflight_resolved (reference : option SecretReference) : core (Result unit) :=
  try c <- resolve_credential reference; preflight c.

(** ** The loop of [run_backend_task] *)

Abbreviation TaskResult := (Result BackendTaskOutcome * list AgentEvent)%type.

(** [fuel] counts the route attempts left; [stuck] is what the model answers if it
    runs out, which it does not ([loop_fuel]). *)
Fixpoint backend_loop (stuck : Result BackendTaskOutcome) (fuel : nat) (project : ProjectRef)
    (session_id : SessionId) (prompt : str) (bridge : option ModelGatewayBridgeIdentity)
    (h : list AttemptProgress) (task : BackendTaskStateMachine) (delivered : list AgentEvent) :
    core TaskResult :=
  let return_err e := Ret (Err e, delivered) in
  match fuel with
  | O => Ret (stuck, delivered)
  | S fuel =>
    let selected := selected_model task in
    do answer <- call_ (AgListModels session_id);
    match answer with
    | Err e => return_err e
    | Ok agent_catalog =>
      let (corroborated, task) :=
        match bridge with
        | Some bridge =>
          corroborate_bridged_agent_catalog task agent_catalog (transport_provider bridge)
        | None => corroborate_agent_catalog task agent_catalog
        end in
      match corroborated with
      | Err e => return_err e
      | Ok false =>
        let (decision, task) := decide_failure h task ModelUnavailable in
        match decision with
        | Err e => return_err e
        | Ok RetryConfiguredFallback =>
          backend_loop stuck fuel project session_id prompt bridge h task delivered
        | Ok (StopTask _) =>
          return_err (Domain.Routing (u "agent_model_unavailable_without_safe_fallback"))
        end
      | Ok true =>
        do answer <- call_ (AgCorroborate session_id selected);
        match answer with
        | Err error =>
          match (decide_failure h task (classify_agent_failure error)).1 with
          | Err e => return_err e
          | Ok _ => return_err error
          end
        | Ok active_model =>
          let (r, task) := corroborate_active_model task active_model in
          match r with
          | Err e => return_err e
          | Ok _ =>
            let '(r, (h, task)) := begin_inference h task in
            match r with
            | Err e => return_err e
            | Ok observer =>
              do answer <- call_ (InvalidateAuthorizations (pr_id project));
              match answer with
              | Err e => return_err e
              | Ok _ =>
                do (events, turn_result) <- call_ (AgRunTurn session_id prompt (Some selected));
                let h := foldl (fun h event => observe h observer event) h events in
                let delivered := delivered ++ events in
                do answer <- call_ (InvalidateAuthorizations (pr_id project));
                match answer with
                | Err e => Ret (Err e, delivered)
                | Ok _ =>
                  match turn_result with
                  | Ok turn => Ret (complete task turn, delivered)
                  | Err error =>
                    let (decision, task) :=
                      decide_failure h task (classify_agent_failure error) in
                    match decision with
                    | Err e => Ret (Err e, delivered)
                    | Ok RetryConfiguredFallback =>
                      backend_loop stuck fuel project session_id prompt bridge h task delivered
                    | Ok (StopTask _) => Ret (Err error, delivered)
                    end
                  end
                end
              end
            end
          end
        end
      end
    end
  end.

(** Everything before the loop. *)
Definition prepare_backend_task (self : VibeCoderCore) (project : ProjectRef)
    (session_id : SessionId) (c : GatewayCredential) (policy : ModelRoutePolicyConfig)
    (prompt : str) (stuck : VibeCoderError) :
    core (Result (BackendTaskStateMachine * option ModelGatewayBridgeIdentity)) :=
  try _ <- call_ (WsVerifyProject project);
  try _ <- ensure_no_active_project_process self (pr_id project);
  try _ <- call_ (AgQuiescent project);
  try _ <- call_ (AgVerifyBinding project session_id);
  try capabilities <- call_ AgEnsureReady;
  if negb (sessions capabilities) || negb (streaming_events capabilities)
     || negb (file_tools capabilities)
  then Ret (Err (missing "agent runtime" "backend_task_execution"))
  else
    try profile <- call_ (GwProfile c);
    try _ <- give (require_deterministic_gateway_profile profile);
    do bridge <- call_ AgBridge;
    try _ <- give (match bridge with
                   | Some bridge => require_agent_gateway_bridge_matches_profile bridge profile
                   | None => Ok tt
                   end);
    try gateway_catalog <- call_ (GwListModels c);
    try resolved_policy <- give (resolve policy gateway_catalog);
    do fresh <- call_ NewUuid;
    match prepare fresh (pr_id project) session_id prompt resolved_policy with
    | None => Ret (Err stuck)
    | Some task => try task <- give task; Ret (Ok (task, bridge))
    end.

(** [prepare] panics on a policy without routes, which [resolve] never returns. *)
Definition run_backend_task_with (stuck : VibeCoderError) (self : VibeCoderCore)
    (project : ProjectRef) (session_id : SessionId) (c : GatewayCredential)
    (policy : ModelRoutePolicyConfig) (prompt : str) : core TaskResult :=
  lifecycle_scope (pr_id project) (fun e => (Err e, []))
    (do prepared <- prepare_backend_task self project session_id c policy prompt stuck;
     match prepared with
     | Err e => Ret (Err e, [])
     | Ok (task, bridge) =>
       backend_loop (Err stuck) (length (routes (route_policy task))) project session_id prompt
         bridge [] task []
     end).

Definition run_backend_task : VibeCoderCore -> ProjectRef -> SessionId -> GatewayCredential ->
    ModelRoutePolicyConfig -> str -> core TaskResult :=
  run_backend_task_with (Domain.Routing (u "unreachable")).
