(* ===== verification/CheckpointOps.v ===== *)
(** * Checkpoints and rollback ([vibecoder-core])

    [rollback_project_checkpoint_internal] replaces the whole project tree.  It
    refuses while a session is being created or a turn is pending, except for the
    one pending turn whose own failure path nominates itself, and refreshes every
    session of the project against the new tree afterwards. *)
From S2P Require Import Prelude RustStr Domain CommandPolicy ProcessContract Persistence.
From S2P Require Import Checkpoint Program CoreCalls BackendTask.

Definition create_project_checkpoint (self : VibeCoderCore) (project : ProjectRef)
    (reason : CheckpointReason) : core (Result CheckpointMetadata) :=
  with_lifecycle (pr_id project)
    (try _ <- call_ (WsVerifyProject project);
     try _ <- ensure_no_active_project_process self (pr_id project);
     try _ <- call_ (AgQuiescent project);
     try _ <- give (checkpoint_store self);
     call_ (CkCreate project reason)).

Definition list_project_checkpoints (self : VibeCoderCore) (project_id : ProjectId)
    (max_results : N) : core (Result (list CheckpointMetadata)) :=
  try _ <- call_ (WsOpenProject project_id);
  try _ <- give (checkpoint_store self);
  call_ (CkList project_id max_results).

Definition remove_project_checkpoint (self : VibeCoderCore) (project_id : ProjectId)
    (checkpoint_id : CheckpointId) : core (Result unit) :=
  try _ <- call_ (WsOpenProject project_id);
  try _ <- ensure_no_active_project_process self project_id;
  try _ <- give (checkpoint_store self);
  call_ (CkRemove project_id checkpoint_id).

(** The session of the project itself, if it has one. *)
Definition persisted_project_session (self : VibeCoderCore)
    (state : option PersistedProjectState) : Result (option SessionId) :=
  match state with
  | Some state =>
    if ps_session_creation_pending state then
      Err (checkpoint_error (u "checkpoint_rollback_session_creation_pending"))
    else
      match ps_agent_session state with
      | Some session =>
        if negb (str_eqb (as_runtime_id session) (runtime_id self)) then
          Err (checkpoint_error (u "checkpoint_rollback_session_runtime_mismatch"))
        else Ok (Some (as_session_id session))
      | None => Ok None
      end
  | None => Ok None
  end.

(** What the scan of the conversations has collected. *)
Record session_scan := {
  scanned : list SessionId;
  unique : gset str;
  permitted_pending_seen : bool
}.

Definition is_permitted (permitted : option (ConversationId * SessionId))
    (conversation_id : ConversationId) (session_id : SessionId) : bool :=
  match permitted with
  | Some (allowed_conversation_id, allowed_session_id) =>
    bool_decide (conversation_id = allowed_conversation_id)
    && bool_decide (session_id = allowed_session_id)
  | None => false
  end.

(** One iteration over a loaded conversation. *)
Definition scan_conversation (self : VibeCoderCore)
    (permitted : option (ConversationId * SessionId)) (s : session_scan)
    (conversation : PersistedConversation) : Result session_scan :=
  if session_creation_pending conversation then
    Err (checkpoint_error (u "checkpoint_rollback_conversation_session_creation_pending"))
  else
    let? session := ok_or (agent_session conversation)
      (checkpoint_error (u "checkpoint_rollback_conversation_session_missing")) in
    if negb (str_eqb (as_runtime_id session) (runtime_id self)) then
      Err (checkpoint_error (u "checkpoint_rollback_conversation_runtime_mismatch"))
    else
      let allowed :=
        is_permitted permitted (conversation_id conversation) (as_session_id session) in
      if turn_pending conversation && (negb allowed || permitted_pending_seen s) then
        Err (checkpoint_error (u "checkpoint_rollback_conversation_turn_pending"))
      else if bool_decide (session_id_0 (as_session_id session) ∈ unique s) then
        Err (checkpoint_error (u "checkpoint_rollback_conversation_session_duplicate"))
      else
        Ok {| scanned := scanned s ++ [as_session_id session];
              unique := {[session_id_0 (as_session_id session)]} ∪ unique s;
              permitted_pending_seen :=
                permitted_pending_seen s || turn_pending conversation |}.

Fixpoint scan_conversations (self : VibeCoderCore) (project_id : ProjectId)
    (permitted : option (ConversationId * SessionId)) (s : session_scan)
    (ids : list ConversationId) : core (Result session_scan) :=
  match ids with
  | [] => Ret (Ok s)
  | id :: ids =>
    try conversation <-
      some_or (checkpoint_error (u "checkpoint_rollback_conversation_disappeared"))
        (call_ (CvLoad project_id id));
    try s <- give (scan_conversation self permitted s conversation);
    scan_conversations self project_id permitted s ids
  end.

Definition conversation_sessions (self : VibeCoderCore) (project_id : ProjectId)
    (permitted : option (ConversationId * SessionId)) : core (Result (list SessionId)) :=
  if has_conversation_store self then
    try ids <- call_ (CvList project_id MAX_PERSISTED_CONVERSATIONS_PER_PROJECT);
    try s <- scan_conversations self project_id permitted
               {| scanned := []; unique := ∅; permitted_pending_seen := false |} ids;
    Ret (if is_some permitted && negb (permitted_pending_seen s)
         then Err (checkpoint_error
                     (u "checkpoint_rollback_permitted_pending_conversation_missing"))
         else Ok (scanned s))
  else
    Ret (if is_some permitted
         then Err (checkpoint_error (u "checkpoint_rollback_pending_conversation_store_missing"))
         else Ok []).

Fixpoint refresh_sessions (project : ProjectRef) (ids : list SessionId) : core (Result unit) :=
  match ids with
  | [] => Ret (Ok tt)
  | id :: ids =>
    try _ <-
      or_error
        (checkpoint_error (u "checkpoint_rollback_committed_conversation_refresh_failed"))
        (call_ (AgRefresh project id));
    refresh_sessions project ids
  end.

Definition rollback_project_checkpoint_internal (self : VibeCoderCore) (project : ProjectRef)
    (checkpoint_id : CheckpointId) (permitted : option (ConversationId * SessionId)) :
    core (Result (ProjectRef * RollbackResult)) :=
  with_lifecycle (pr_id project)
    (try _ <- call_ (WsVerifyProject project);
     try _ <- ensure_no_active_project_process self (pr_id project);
     try _ <- call_ (AgQuiescent project);
     try _ <- call_ (InvalidateAuthorizations (pr_id project));
     try persisted_session <-
       (if has_project_state_store self then
          try state <- call_ (PsLoad (pr_id project));
          give (persisted_project_session self state)
        else Ret (Ok None));
     try persisted_conversation_sessions <-
       conversation_sessions self (pr_id project) permitted;
     try _ <- give (checkpoint_store self);
     try result <- call_ (CkRollback project checkpoint_id);
     try _ <- call_ (InvalidateAuthorizations (pr_id project));
     try reopened <- call_ (WsOpenProject (pr_id project));
     try _ <- call_ (WsVerifyProject reopened);
     try _ <-
       match persisted_session with
       | Some session_id =>
         or_error (checkpoint_error (u "checkpoint_rollback_committed_agent_refresh_failed"))
           (call_ (AgRefresh reopened session_id))
       | None => Ret (Ok tt)
       end;
     try _ <- refresh_sessions reopened persisted_conversation_sessions;
     Ret (Ok (reopened, result))).

Definition rollback_project_checkpoint (self : VibeCoderCore) (project : ProjectRef)
    (checkpoint_id : CheckpointId) : core (Result (ProjectRef * RollbackResult)) :=
  rollback_project_checkpoint_internal self project checkpoint_id None.

Definition rollback_project_checkpoint_for_pending_conversation (self : VibeCoderCore)
    (project : ProjectRef) (checkpoint_id : CheckpointId) (conversation_id : ConversationId)
    (session_id : SessionId) : core (Result (ProjectRef * RollbackResult)) :=
  rollback_project_checkpoint_internal self project checkpoint_id
    (Some (conversation_id, session_id)).

(** The scan only loads conversations. *)
Lemma scan_calls (test : core_call -> bool) self pid permitted s ids :
  (forall p id, test (CvLoad p id) = true) ->
  calls_only test (scan_conversations self pid permitted s ids).
Proof.
  intros Ht. revert s. induction ids as [|id ids IH]; intros s; cbn [scan_conversations].
  - exact I.
  - unfold some_or, give. repeat (apply calls_only_bind; [|intros ?]; try case_match); try exact I;
      [by apply calls_only_call_|apply IH].
Qed.
#[export] Hint Resolve scan_calls : calls.
