(* ===== verification/ConversationTurns.v ===== *)
(** * Turns of a persisted conversation ([vibecoder-core])

    A turn first commits the user's message together with [turn_pending], then runs,
    and clears the marker at the end: with the reply, or after the workspace has been
    rolled back.  The explicit loop keeps one marker over several turns. *)
From S2P Require Import Prelude RustStr Domain Routing TaskOrchestration CommandPolicy.
From S2P Require Import ProcessContract Persistence Conversation Checkpoint Program CoreCalls.
From S2P Require Import BackendTask CheckpointOps.

Abbreviation db code := (Domain.Persistence (u code)).

(** ** Starting a turn *)

(** The checks every turn and every resumption makes of a loaded conversation. *)
Definition ready_session (self : VibeCoderCore) (conversation : PersistedConversation) :
    Result SessionId :=
  if session_creation_pending conversation then
    Err (db "conversation_session_creation_incomplete")
  else if turn_pending conversation then Err (db "conversation_turn_recovery_required")
  else
    let? session := ok_or (agent_session conversation)
                      (db "conversation_session_not_persisted") in
    if negb (str_eqb (as_runtime_id session) (runtime_id self)) then
      Err (db "conversation_session_runtime_mismatch")
    else Ok (as_session_id session).

Definition load_conversation (project_id : ProjectId) (id : ConversationId) :
    core (Result PersistedConversation) :=
  some_or (db "conversation_not_found") (call_ (CvLoad project_id id)).

(** [append_message(User, prompt)?; turn_pending = true]. *)
Definition arm (conversation : PersistedConversation) (prompt : str) :
    Result PersistedConversation :=
  let? conversation := append_message conversation User prompt in
  Ok (set_turn_pending conversation true).

(** [append_message(Assistant, text)] on a copy with [turn_pending = false]. *)
Definition answered (conversation : PersistedConversation) (text : str) :
    Result PersistedConversation :=
  append_message (set_turn_pending conversation false) Assistant text.

(** [store.update_conversation(expected, &conversation)] with the revision loaded. *)
Definition update_conversation (conversation updated : PersistedConversation) :
    core (Result PersistedConversation) :=
  call_ (CvUpdate (revision conversation) updated).

(** Clears the marker; [code] when that fails. *)
Definition clear_pending (code : VibeCoderError) (conversation : PersistedConversation) :
    core (Result unit) :=
  try _ <- or_error code
             (update_conversation conversation (set_turn_pending conversation false));
  Ret (Ok tt).

Definition resume_persisted_conversation (self : VibeCoderCore) (project_id : ProjectId)
    (id : ConversationId) : core (Result (ProjectRef * SessionId)) :=
  with_lifecycle project_id
    (try project <- call_ (WsOpenProject project_id);
     try _ <- give (conversation_store self);
     try conversation <- load_conversation project_id id;
     try session_id <- give (ready_session self conversation);
     try _ <- call_ (AgResumeSession project session_id);
     Ret (Ok (project, session_id))).

(** ** One agent turn *)

(** The block under the lifecycle permit. *)
Definition start_conversation_turn (self : VibeCoderCore) (project_id : ProjectId)
    (id : ConversationId) (prompt : str) :
    core (Result (ProjectRef * SessionId * PersistedConversation)) :=
  with_lifecycle project_id
    (try project <- call_ (WsOpenProject project_id);
     try conversation <- load_conversation project_id id;
     try session_id <- give (ready_session self conversation);
     try _ <- call_ (AgResumeSession project session_id);
     try armed <- give (arm conversation prompt);
     try conversation <- update_conversation conversation armed;
     Ret (Ok (project, session_id, conversation))).

Definition run_persisted_conversation_turn (self : VibeCoderCore) (project_id : ProjectId)
    (id : ConversationId) (c : GatewayCredential) (policy : ModelRoutePolicyConfig)
    (prompt : str) : core (Result BackendTaskOutcome) :=
  if bool_decide (trim prompt = []) then
    Ret (Err (invalid_request (u "conversation_prompt_empty")))
  else
    try _ <- give (conversation_store self);
    try (project, session_id, conversation) <-
      start_conversation_turn self project_id id prompt;
    do (action, _) <- run_backend_task self project session_id c policy prompt;
    match action with
    | Ok outcome =>
      let response := tr_text (out_turn outcome) in
      try updated <- give (if bool_decide (response = [])
                           then Ok (set_turn_pending conversation false)
                           else answered conversation response);
      try _ <- update_conversation conversation updated;
      Ret (Ok outcome)
    | Err error =>
      try _ <- clear_pending (db "conversation_turn_failure_cleanup_failed") conversation;
      Ret (Err error)
    end.

Definition cancel_persisted_conversation_turn (self : VibeCoderCore) (project_id : ProjectId)
    (id : ConversationId) : core (Result unit) :=
  try _ <- give (conversation_store self);
  try conversation <- load_conversation project_id id;
  try session <- give (ok_or (agent_session conversation)
                         (db "conversation_session_not_persisted"));
  if negb (str_eqb (as_runtime_id session) (runtime_id self)) then
    Ret (Err (db "conversation_session_runtime_mismatch"))
  else call_ (AgCancel (as_session_id session)).

(** ** One agent action turn *)

(** What is required of the agent; [prefix] is that of the error codes. *)
Definition require_action_agent (prefix : str) : core (Result unit) :=
  try capabilities <- call_ AgEnsureReady;
  if negb (file_tools capabilities) then Ret (Err (missing "agent runtime" "file_tools"))
  else if command_tools capabilities then
    Ret (Err (invalid_request (prefix ++ u "_command_tools_must_remain_disabled")))
  else
    do bridge <- call_ AgBridge;
    Ret (match bridge with
         | None => Err (missing "agent runtime" "model_gateway_bridge")
         | Some bridge =>
           if negb (exact_model_id_passthrough bridge) then
             Err (gateway_error (prefix ++ u "_exact_model_bridge_required"))
           else Ok tt
         end).

(** What the start of an action turn leaves: the opened project, its session, the
    conversation as stored with the marker, and the checkpoint to return to. *)
Record started_turn := {
  st_project : ProjectRef;
  st_session : SessionId;
  st_conversation : PersistedConversation;
  st_checkpoint : CheckpointMetadata
}.

(** The block under the lifecycle permit, the same in the action turn and the loop. *)
Definition start_action_turn (self : VibeCoderCore) (project_id : ProjectId)
    (id : ConversationId) (prompt : str) : core (Result started_turn) :=
  with_lifecycle project_id
    (try project <- call_ (WsOpenProject project_id);
     try _ <- call_ (WsVerifyProject project);
     try conversation <- load_conversation project_id id;
     try session_id <- give (ready_session self conversation);
     try _ <- give (ensure_conversation_agent_action_capacity conversation prompt);
     try _ <- call_ (AgResumeSession project session_id);
     try _ <- ensure_no_active_project_process self (pr_id project);
     try _ <- call_ (AgQuiescent project);
     try _ <- give (checkpoint_store self);
     try checkpoint <- call_ (CkCreate project BeforeAgentChange);
     try armed <- give (arm conversation prompt);
     do updated <- update_conversation conversation armed;
     match updated with
     | Ok conversation =>
       Ret (Ok {| st_project := project; st_session := session_id;
                  st_conversation := conversation; st_checkpoint := checkpoint |})
     | Err error =>
       do _ <- call_ (CkRemove (pr_id project) (cm_checkpoint_id checkpoint));
       Ret (Err error)
     end).

(** Roll back, clear the marker, drop the checkpoints: the common part of the two
    recovery procedures. *)
Definition recover_pending (self : VibeCoderCore) (rollback_code cleanup_code : VibeCoderError)
    (t : started_turn) (session_id : SessionId) (verification : option CheckpointId) :
    core (Result unit) :=
  let project := st_project t in
  let baseline := cm_checkpoint_id (st_checkpoint t) in
  try _ <- or_error rollback_code
    (rollback_project_checkpoint_for_pending_conversation self project baseline
       (conversation_id (st_conversation t)) session_id);
  try _ <- clear_pending cleanup_code (st_conversation t);
  do _ <- match verification with
          | Some id => do _ <- remove_project_checkpoint self (pr_id project) id; Ret tt
          | None => Ret tt
          end;
  do _ <- remove_project_checkpoint self (pr_id project) baseline;
  Ret (Ok tt).

Definition recover_failed_persisted_agent_action (self : VibeCoderCore) (t : started_turn)
    (post_action : option CheckpointId) : core (Result unit) :=
  try session <- give (ok_or (agent_session (st_conversation t))
                         (db "conversation_agent_action_recovery_session_missing"));
  recover_pending self
    (checkpoint_error (u "conversation_agent_action_rollback_failed_pending_preserved"))
    (db "conversation_agent_action_failure_cleanup_failed_pending_preserved")
    t (as_session_id session) post_action.

Definition observe_all (events : list AgentEvent) : AgentActionObservation :=
  foldl (fun s event => observe_tool event s) AgentActionObservation_default events.

Record PersistedAgentActionTurnOutcome := {
  backend : BackendTaskOutcome;
  observed_tool_calls : N;
  successful_file_tool_calls : N;
  successful_mutation_tool_calls : N;
  pre_action_tree_sha256 : str;
  post_action_tree_sha256 : str;
  action_cleanup_complete : bool
}.

(** [recover(..).await?; return Err(error)]. *)
Definition fail_action {A} (self : VibeCoderCore) (t : started_turn)
    (post_action : option CheckpointId) (error : VibeCoderError) : core (Result A) :=
  try _ <- recover_failed_persisted_agent_action self t post_action;
  Ret (Err error).

(** Both removals are tried; whether both succeeded. *)
Definition remove_both (self : VibeCoderCore) (project_id : ProjectId)
    (first second : CheckpointId) : core bool :=
  do r1 <- remove_project_checkpoint self project_id first;
  do r2 <- remove_project_checkpoint self project_id second;
  Ret (is_ok r1 && is_ok r2).

(** After a turn whose outcome the agent returned. *)
Definition finish_action_turn (self : VibeCoderCore) (t : started_turn)
    (outcome : BackendTaskOutcome) (events : list AgentEvent) :
    core (Result PersistedAgentActionTurnOutcome) :=
  let turn := out_turn outcome in
  let before := st_checkpoint t in
  match validate_agent_action_turn turn (observe_all events) with
  | Err error => fail_action self t None error
  | Ok (observed, file_calls, mutations) =>
    do post <- create_project_checkpoint self (st_project t) AgentChangeVerification;
    match post with
    | Err error => fail_action self t None error
    | Ok post =>
      if str_eqb (tree_sha256 post) (tree_sha256 before) then
        fail_action self t (Some (cm_checkpoint_id post))
          (agent_error (u "agent_action_workspace_unchanged"))
      else
        match answered (st_conversation t) (tr_text turn) with
        | Err error => fail_action self t (Some (cm_checkpoint_id post)) error
        | Ok completed =>
          do updated <- update_conversation (st_conversation t) completed;
          match updated with
          | Err error => fail_action self t (Some (cm_checkpoint_id post)) error
          | Ok _ =>
            do cleanup <- remove_both self (pr_id (st_project t)) (cm_checkpoint_id post)
                            (cm_checkpoint_id before);
            Ret (Ok {| backend := outcome;
                       observed_tool_calls := observed;
                       successful_file_tool_calls := file_calls;
                       successful_mutation_tool_calls := mutations;
                       pre_action_tree_sha256 := tree_sha256 before;
                       post_action_tree_sha256 := tree_sha256 post;
                       action_cleanup_complete := cleanup |})
          end
        end
    end
  end.

Definition run_persisted_agent_action_turn (self : VibeCoderCore) (project_id : ProjectId)
    (id : ConversationId) (c : GatewayCredential) (policy : ModelRoutePolicyConfig)
    (prompt : str) : core (Result PersistedAgentActionTurnOutcome) :=
  try _ <- give (validate_conversation_model_prompt prompt);
  try _ <- require_action_agent (u "agent_action");
  try _ <- give (conversation_store self);
  try t <- start_action_turn self project_id id prompt;
  do (action, events) <- run_backend_task self (st_project t) (st_session t) c policy prompt;
  match action with
  | Ok outcome => finish_action_turn self t outcome events
  | Err error => fail_action self t None error
  end.

Definition run_persisted_agent_action_turn_resolved (self : VibeCoderCore)
    (reference : option SecretReference) (project_id : ProjectId) (id : ConversationId)
    (policy : ModelRoutePolicyConfig) (prompt : str) :
    core (Result PersistedAgentActionTurnOutcome) :=
  try c <- resolve_credential reference;
  run_persisted_agent_action_turn self project_id id c policy prompt.
