(* ===== verification/TurnFacts.v ===== *)
(** * Room for a turn ([vibecoder-core], [vibecoder-persistence-contract])

    What a turn reserves before it commits the user's message, and that every later
    update of the conversation then succeeds and leaves it valid. *)
From S2P Require Import Prelude RustStr StrFacts Domain Persistence Conversation Program.
From S2P Require Import CoreCalls BackendTask CheckpointOps ConversationTurns.

Lemma ensure_capacity_ok prefix c prompt :
  ensure_capacity prefix c prompt = Ok tt <->
  len (messages c) + 2 <= MAX_CONVERSATION_MESSAGES /\
  text_bytes (messages c) + blen prompt + MAX_CONVERSATION_MESSAGE_BYTES
    <= MAX_CONVERSATION_TEXT_BYTES.
Proof.
  assert (Hmax : MAX_CONVERSATION_TEXT_BYTES < usize_max) by done.
  assert (Hm : MAX_CONVERSATION_MESSAGES = 4096) by done.
  unfold ensure_capacity, saturating_sub. rewrite if_err_ok, N.ltb_ge.
  destruct (fold_text_bytes 0 (messages c)) as [n|] eqn:E; cbn [ok_or].
  - apply fold_text_bytes_Some in E as [-> _]. rewrite N.add_0_l.
    destruct (checked_add _ _ _ ≫= _) as [r|] eqn:E; cbn [ok_or].
    + apply bind_Some in E as (x & [-> ?]%checked_add_Some & [-> ?]%checked_add_Some).
      rewrite if_err_ok, N.ltb_ge. split; [intros (? & ? & _)|intros [? ?]]; split_and!; try done; lia.
    + split; [naive_solver|]. intros [_ Hle]. exfalso.
      assert (checked_add usize_max (text_bytes (messages c)) (blen prompt)
              = Some (text_bytes (messages c) + blen prompt)) as H1
        by (apply checked_add_Some; split; [done|lia]).
      assert (checked_add usize_max (text_bytes (messages c) + blen prompt)
                MAX_CONVERSATION_MESSAGE_BYTES
              = Some (text_bytes (messages c) + blen prompt + MAX_CONVERSATION_MESSAGE_BYTES))
        as H2 by (apply checked_add_Some; split; [done|lia]).
      rewrite H1 in E. cbn in E. by rewrite H2 in E.
  - split; [naive_solver|]. intros [_ Hle]. exfalso.
    assert (fold_text_bytes 0 (messages c) = Some (text_bytes (messages c))) as Hf
      by (apply fold_text_bytes_Some; split; [lia|right; lia]).
    by rewrite Hf in E.
Qed.

Lemma valid_prompt_is_message prompt :
  validate_conversation_model_prompt prompt = Ok tt -> message_text_invalid prompt = false.
Proof.
  unfold validate_conversation_model_prompt, message_text_invalid.
  rewrite if_err_ok, !orb_false_iff, bool_decide_eq_false, N.ltb_ge.
  intros [[[Hp Hl] Hz] _]. split_and!; try done.
  - apply bool_decide_eq_false. intros ->. by apply Hp.
  - apply N.ltb_ge. assert (MAX_CONVERSATION_MODEL_MESSAGE_BYTES <= MAX_CONVERSATION_MESSAGE_BYTES) by done.
    lia.
Qed.

(** The armed conversation and the answered one. *)
Lemma arm_ok c prompt c' :
  arm c prompt = Ok c' <->
  exists d, append_message c User prompt = Ok d /\ c' = set_turn_pending d true.
Proof. unfold arm. destruct (append_message c User prompt); naive_solver. Qed.

(** A turn that has reserved its room: the user's message is appended, and whatever
    valid text comes back can be appended after it, at any revision. *)
Definition roomy (c : PersistedConversation) : Prop :=
  len (messages c) < MAX_CONVERSATION_MESSAGES /\
  text_bytes (messages c) + MAX_CONVERSATION_MESSAGE_BYTES <= MAX_CONVERSATION_TEXT_BYTES.

Lemma arm_reserved prefix c prompt :
  ensure_capacity prefix c prompt = Ok tt -> message_text_invalid prompt = false ->
  arm c prompt = Ok (set_turn_pending (with_message c User prompt) true) /\
  roomy (set_turn_pending (with_message c User prompt) true).
Proof.
  intros [? ?]%ensure_capacity_ok Hp. split.
  - apply arm_ok. eexists. split; [|done]. apply append_message_ok.
    split_and!; try done; lia.
  - unfold roomy. cbn. rewrite len_app, text_bytes_app, len_cons, len_nil.
    cbn [text_bytes text]. split; lia.
Qed.

Lemma answered_roomy c t :
  roomy c -> message_text_invalid t = false ->
  answered c t = Ok (with_message (set_turn_pending c false) Assistant t).
Proof.
  intros [? ?] Ht. apply append_message_ok. pose proof (message_valid_bytes t Ht). cbn.
  split_and!; try done. lia.
Qed.

Lemma set_turn_pending_valid c b :
  PersistedConversation_validate c = Ok tt -> session_creation_pending c = false ->
  (b = true -> last_role c = Some User) ->
  PersistedConversation_validate (set_turn_pending c b) = Ok tt.
Proof.
  rewrite !PersistedConversation_validate_ok. cbn.
  intros (? & ? & ? & ? & ? & ? & ? & ? & ?) Hc Hr. split_and!; try done. by rewrite Hc.
Qed.

Lemma set_revision_valid c n :
  PersistedConversation_validate c = Ok tt ->
  PersistedConversation_validate (set_revision c n) = Ok tt.
Proof. by rewrite !PersistedConversation_validate_ok. Qed.

(** The store's contract: an update returns what was written, at the next revision. *)
Definition stores (e : event core_sig) : Prop :=
  match ev_call e as c return resp c -> Prop with
  | CvUpdate n c => fun r => match r with Ok c' => c' = set_revision c (n + 1) | Err _ => True end
  | _ => fun _ => True
  end (ev_resp e).

(** C32. Once a turn has passed its checks on a valid conversation, none of its own
    updates can be refused: the user's message can be appended, and at whatever
    revision the store returns, so can every valid reply; each conversation written
    is valid again, and the finished one has exactly the two new messages and no
    pending marker. *)
Theorem reserved_turn_cannot_fail (prefix : str) (c : PersistedConversation) (prompt : str) :
  PersistedConversation_validate c = Ok tt ->
  session_creation_pending c = false -> turn_pending c = false ->
  ensure_capacity prefix c prompt = Ok tt ->
  validate_conversation_model_prompt prompt = Ok tt ->
  exists armed, arm c prompt = Ok armed /\ turn_pending armed = true /\
    PersistedConversation_validate armed = Ok tt /\
    forall rev, let stored := set_revision armed rev in
      PersistedConversation_validate (set_turn_pending stored false) = Ok tt /\
      forall reply, message_text_invalid reply = false ->
        exists finished, answered stored reply = Ok finished /\
          PersistedConversation_validate finished = Ok tt /\ turn_pending finished = false /\
          messages finished = messages c ++
            [mkMessage (len (messages c)) User prompt;
             mkMessage (len (messages c) + 1) Assistant reply].
Proof.
  intros Hv Hs Ht Hcap Hp%valid_prompt_is_message.
  destruct (arm_reserved _ _ _ Hcap Hp) as [Harm Hroom].
  set (w := with_message c User prompt) in *. set (armed := set_turn_pending w true) in *.
  assert (Hw : PersistedConversation_validate w = Ok tt).
  { apply arm_ok in Harm as (d & Hd & _).
    pose proof (proj1 (append_message_ok _ _ _ _) Hd) as (_ & _ & _ & ->).
    by eapply append_message_valid. }
  exists armed. split_and!; [done|done|..].
  { apply set_turn_pending_valid; [done|done|]. intros _. apply last_role_with_message. }
  intros rev stored.
  assert (Hc : PersistedConversation_validate (set_turn_pending stored false) = Ok tt).
  { apply (set_revision_valid _ rev) in Hw.
    eapply (set_turn_pending_valid _ false) in Hw; [|done..]. exact Hw. }
  split; [exact Hc|]. intros reply Hr.
  assert (Hd : answered stored reply = Ok _) by (by apply answered_roomy).
  eexists. split_and!; [exact Hd| |done|].
  - eapply (append_message_valid (set_turn_pending stored false) Assistant reply);
      [exact Hc|exact Hs|done|exact Hd].
  - cbn. rewrite <-app_assoc, len_app. cbn. by rewrite len_cons, len_nil, N.add_0_r.
Qed.

Definition ex_conversation : PersistedConversation :=
  {| schema := 1; revision := 3; conversation_id := MkConversationId 7;
     conversation_project := MkProjectId 1; session_creation_pending := false;
     agent_session := Some {| as_runtime_id := u "jcode"; as_session_id := MkSessionId (u "s1");
                              as_preferred_model := None |};
     turn_pending := false; title := Some (u "chat");
     messages := [mkMessage 0 User (u "hi"); mkMessage 1 Assistant (u "hello")] |}.

Lemma reserved_turn_cannot_fail_witness :
  exists armed, arm ex_conversation (u "fix the tests") = Ok armed /\ turn_pending armed = true.
Proof.
  destruct (reserved_turn_cannot_fail (u "conversation_agent_action") ex_conversation
              (u "fix the tests")) as (armed & Ha & Ht & _).
  1,2,3,4,5: by vm_compute.
  by exists armed.
Defined.
