(* ===== verification/ConversationFacts.v ===== *)
(** * The context sent to a model, and the loop's reply protocol ([vibecoder-core]) *)
From S2P Require Import Prelude RustStr StrFacts Domain Persistence Conversation Program.
From S2P Require Import CoreCalls BackendTask CheckpointOps ConversationTurns TurnFacts.

Fixpoint content_bytes (ms : list GatewayChatMessage) : N :=
  match ms with [] => 0 | m :: ms => blen (content m) + content_bytes ms end.

Lemma content_bytes_app ms ms' : content_bytes (ms ++ ms') = content_bytes ms + content_bytes ms'.
Proof. induction ms as [|m ms IH]; cbn; [done|]. rewrite IH. lia. Qed.

Lemma content_bytes_rev ms : content_bytes (rev ms) = content_bytes ms.
Proof.
  induction ms as [|m ms IH]; [done|]. cbn [rev]. rewrite content_bytes_app, IH. cbn. lia.
Qed.

(** What a context may be made of. *)
Definition context_bounded (ms : list GatewayChatMessage) : Prop :=
  len ms <= MAX_CONVERSATION_MODEL_MESSAGES /\
  Forall (fun m => blen (content m) <= MAX_CONVERSATION_MODEL_MESSAGE_BYTES) ms /\
  content_bytes ms <= MAX_CONVERSATION_MODEL_CONTEXT_BYTES.

(** The loop takes the longest run of messages, newest first, within the bounds. *)
Lemma collect_context_spec acc total ms :
  content_bytes acc = total -> context_bounded acc ->
  exists n, (n <= length ms)%nat /\
    let taken := acc ++ (chat_message <$> take n ms) in
    collect_context acc total ms = Ok (taken, content_bytes taken) /\
    context_bounded taken /\
    (forall m, ms !! n = Some m -> ~ context_bounded (taken ++ [chat_message m])).
Proof.
  assert (Hmax : MAX_CONVERSATION_MODEL_CONTEXT_BYTES + MAX_CONVERSATION_MODEL_MESSAGE_BYTES
                 < usize_max) by done.
  revert acc total. induction ms as [|m ms IH]; intros acc total <- Hb; cbn [collect_context].
  - exists 0%nat. cbn. rewrite app_nil_r. split_and!; [lia|done|done|]. intros x Hx. done.
  - assert (Hstop : forall x : Result (list GatewayChatMessage * N), x = Ok (acc, content_bytes acc) ->
              ~ context_bounded (acc ++ [chat_message m]) ->
              exists n, (n <= length (m :: ms))%nat /\
                let taken := acc ++ (chat_message <$> take n (m :: ms)) in
                x = Ok (taken, content_bytes taken) /\ context_bounded taken /\
                (forall m', (m :: ms) !! n = Some m' -> ~ context_bounded (taken ++ [chat_message m']))).
    { intros x -> Hn. exists 0%nat. cbn. rewrite app_nil_r. split_and!; [lia|done|done|].
      by intros m' [= <-]. }
    destruct Hb as (Hl & Hf & Ht).
    destruct ((len acc =? _) || _) eqn:E1.
    { apply Hstop; [done|]. intros (Hl' & Hf' & _). rewrite len_app, len_cons, len_nil in Hl'.
      apply Forall_app in Hf' as [_ [Hf' _]%Forall_cons].
      change (content (chat_message m)) with (text m) in Hf'.
      apply orb_true_iff in E1 as [?%N.eqb_eq|?%N.ltb_lt]; lia. }
    apply orb_false_iff in E1 as [El%N.eqb_neq Em%N.ltb_ge].
    assert (checked_add usize_max (content_bytes acc) (blen (text m))
            = Some (content_bytes acc + blen (text m))) as ->
      by (apply checked_add_Some; split; [done|lia]).
    cbn [ok_or].
    assert (Hsum : content_bytes (acc ++ [chat_message m]) = content_bytes acc + blen (text m))
      by (rewrite content_bytes_app; cbn; lia).
    destruct (N.ltb_spec MAX_CONVERSATION_MODEL_CONTEXT_BYTES (content_bytes acc + blen (text m)))
      as [Hover|Hfit].
    { apply Hstop; [done|]. intros (_ & _ & Ht'). rewrite Hsum in Ht'. lia. }
    edestruct (IH (acc ++ [chat_message m])) as (n & Hn & Hr & Hb' & Hmaxi); [exact Hsum| |].
    { split_and!; [rewrite len_app, len_cons, len_nil; unfold MAX_CONVERSATION_MODEL_MESSAGES in *; lia| |lia].
      apply Forall_app; split; [done|]. by repeat constructor. }
    exists (S n). split; [cbn; lia|]. cbn. rewrite <-(app_assoc acc) in Hr, Hb'. cbn in Hr, Hb'.
    split_and!; [exact Hr|exact Hb'|]. intros m' Hm'. specialize (Hmaxi m' Hm').
    by rewrite <-(app_assoc acc) in Hmaxi.
Qed.

Definition chat (ms : list PersistedConversationMessage) : list GatewayChatMessage :=
  chat_message <$> ms.

Lemma is_role_chat m r :
  is_role r (chat_message m) =
    match r, role m with GwUser, User | GwAssistant, Assistant => true | _, _ => false end.
Proof. by destruct r, m as [? [] ?]. Qed.

(** The newest message a turn has just stored: a user's, small enough to be sent. *)
Definition ends_with_prompt (c : PersistedConversation) : Prop :=
  exists m, last (messages c) = Some m /\ role m = User /\
    blen (text m) <= MAX_CONVERSATION_MODEL_MESSAGE_BYTES.

(** The longest context within the bounds starts at message [k]. *)
Definition longest_context (c : PersistedConversation) (k : nat) : Prop :=
  context_bounded (chat (drop k (messages c))) /\
  forall j, (j < k)%nat -> ~ context_bounded (chat (drop j (messages c))).

(** The context sent is the longest one, less a leading assistant message. *)
Definition context_of (c : PersistedConversation) (ms : list GatewayChatMessage) : Prop :=
  exists k m, longest_context c k /\ messages c !! k = Some m /\
    ms = chat (match role m with
               | User => drop k (messages c)
               | Assistant => drop (S k) (messages c)
               end).

Lemma chat_take_rev l n : chat (take n (rev l)) = rev (chat (drop (length l - n) l)).
Proof. unfold chat. rewrite firstn_rev. apply map_rev. Qed.

Lemma context_bounded_rev ms : context_bounded (rev ms) <-> context_bounded ms.
Proof.
  unfold context_bounded. rewrite content_bytes_rev. unfold len. rewrite length_rev.
  rewrite !Forall_forall. setoid_rewrite elem_of_rev. done.
Qed.

(** A context that fits still fits when it starts later. *)
Lemma context_bounded_suffix ms ms' : context_bounded (ms ++ ms') -> context_bounded ms'.
Proof.
  unfold context_bounded. rewrite len_app, content_bytes_app, Forall_app.
  intros (? & [_ ?] & ?). split_and!; [lia|done|lia].
Qed.

Lemma context_bounded_drop c i j :
  (i <= j)%nat -> context_bounded (chat (drop i c)) -> context_bounded (chat (drop j c)).
Proof.
  intros Hij. replace (drop j c) with (drop (j - i) (drop i c)) by (rewrite drop_drop; f_equal; lia).
  rewrite <-(take_drop (j - i) (drop i c)) at 1. unfold chat. rewrite fmap_app.
  apply context_bounded_suffix.
Qed.

Lemma collected c :
  exists k, (k <= length (messages c))%nat /\
    collect_context [] 0 (rev (messages c)) =
      Ok (rev (chat (drop k (messages c))), content_bytes (chat (drop k (messages c)))) /\
    longest_context c k.
Proof.
  destruct (collect_context_spec [] 0 (rev (messages c))) as (n & Hn & Hr & Hb & Hm);
    [done|by repeat split|].
  rewrite length_rev in Hn. cbn [app] in *. fold (chat (take n (rev (messages c)))) in *.
  rewrite chat_take_rev, content_bytes_rev in Hr. rewrite chat_take_rev, context_bounded_rev in Hb.
  set (k := (length (messages c) - n)%nat) in *.
  exists k. split_and!; [lia|exact Hr|]. split; [exact Hb|]. intros j Hj Hj'.
  destruct (lookup_lt_is_Some_2 (rev (messages c)) n) as [m Hmn]; [rewrite length_rev; lia|].
  apply (Hm m Hmn). apply (context_bounded_drop _ j (k - 1)) in Hj'; [|lia].
  assert (chat (take n (rev (messages c))) ++ [chat_message m]
          = chat (take (S n) (rev (messages c)))) as ->
    by (unfold chat; by rewrite (take_S_r _ _ _ Hmn), fmap_app).
  rewrite chat_take_rev, context_bounded_rev.
  by replace (length (messages c) - S n)%nat with (k - 1)%nat by lia.
Qed.

Lemma last_chat ms : last (chat ms) = chat_message <$> last ms.
Proof. apply fmap_last. Qed.

Lemma last_drop_Some {A} (l : list A) k x : drop k l !! 0%nat = Some x -> last (drop k l) = last l.
Proof.
  intros H. rewrite lookup_drop, Nat.add_0_r in H. apply lookup_lt_Some in H.
  rewrite !last_lookup, lookup_drop, length_drop. f_equal. lia.
Qed.

(** The newest message is in every nonempty context, so it is small enough. *)
Lemma context_ends c k m rest :
  longest_context c k -> drop k (messages c) = m :: rest ->
  messages c !! k = Some m /\
  (ends_with_prompt c <-> exists x, last (m :: rest) = Some x /\ role x = User).
Proof.
  intros [Hb _] Hd.
  assert (Hm : drop k (messages c) !! 0%nat = Some m) by by rewrite Hd.
  pose proof (last_drop_Some _ _ _ Hm) as Hl. rewrite Hd in Hl.
  rewrite lookup_drop, Nat.add_0_r in Hm. split; [done|]. rewrite Hl. split.
  - intros (x & ? & ? & _). by exists x.
  - intros (x & Hx & Hr). exists x. split_and!; [done..|].
    destruct Hb as (_ & Hf & _). rewrite Hd in Hf. rewrite Forall_forall in Hf.
    apply (Hf (chat_message x)). unfold chat. apply list_elem_of_fmap. exists x. split; [done|].
    rewrite <-Hl in Hx. by apply last_Some_elem_of in Hx.
Qed.

(** A context that is empty has an oversized newest message, or none. *)
Lemma context_empty c k :
  longest_context c k -> drop k (messages c) = [] -> ~ ends_with_prompt c.
Proof.
  intros [_ Hmax] Hd (m & Hl & _ & Hm).
  assert (length (messages c) <= k)%nat by (apply (f_equal length) in Hd; rewrite length_drop in Hd; cbn in Hd; lia).
  apply last_Some in Hl as [l Hl].
  assert (length (messages c) = S (length l)) by (rewrite Hl, length_app; cbn; lia).
  apply (Hmax (length l)); [lia|]. rewrite Hl, drop_app_length. cbn.
  assert (MAX_CONVERSATION_MODEL_MESSAGE_BYTES <= MAX_CONVERSATION_MODEL_CONTEXT_BYTES) by done.
  split_and!; [done|by repeat constructor|]. cbn. lia.
Qed.

(** The final check of the context. *)
Lemma checked_context (ordered : list GatewayChatMessage) (total : N) :
  let checked :=
    if match last ordered with Some m => negb (is_role GwUser m) | None => true end
    then Err (Domain.Persistence (u "conversation_model_context_latest_user_missing"))
    else Ok (ordered, total) in
  (forall ms n, checked = Ok (ms, n) ->
     ms = ordered /\ n = total /\ exists m, last ordered = Some m /\ chat_role m = GwUser) /\
  (is_ok checked = true <-> exists m, last ordered = Some m /\ chat_role m = GwUser).
Proof.
  intros checked. unfold checked. destruct (last ordered) as [[[] x]|]; cbn; naive_solver.
Qed.

Lemma last_chat_user ms :
  (exists y, last (chat ms) = Some y /\ chat_role y = GwUser) <->
  exists x, last ms = Some x /\ role x = User.
Proof.
  rewrite last_chat. destruct (last ms) as [[? [] ?]|]; cbn; naive_solver.
Qed.

(** The context of a model request is exactly the longest run of the newest
    messages with at most 64 messages, 128 KiB each and 256 KiB in all, less one
    leading assistant message; its size is reported as it is, it ends with the
    user's message, and building it succeeds exactly when the newest message is a
    user's of at most 128 KiB — as it is in every turn that has just been stored. *)
Theorem context_exact (c : PersistedConversation) :
  (forall ms total, build_gateway_conversation_context c = Ok (ms, total) ->
     context_of c ms /\ context_bounded ms /\ total = content_bytes ms /\
     (exists m, last ms = Some m /\ chat_role m = GwUser)) /\
  (is_ok (build_gateway_conversation_context c) = true <-> ends_with_prompt c).
Proof.
  destruct (collected c) as (k & Hk & Hcol & Hlong).
  unfold build_gateway_conversation_context. rewrite Hcol, rev_involutive.
  destruct (drop k (messages c)) as [|m rest] eqn:Hd.
  { cbn. split; [done|]. split; [done|]. intros H. by edestruct context_empty. }
  destruct (context_ends _ _ _ _ Hlong Hd) as [Hm Hends].
  rewrite bool_decide_eq_false_2 by (rewrite length_rev; by cbn).
  assert (Hrest : drop (S k) (messages c) = rest).
  { rewrite <-Nat.add_1_r, <-drop_drop, Hd. done. }
  assert (Hbound := proj1 Hlong). rewrite Hd in Hbound.
  rewrite Hends. change (chat (m :: rest)) with (chat_message m :: chat rest). cbv iota beta.
  rewrite !is_role_chat. destruct (role m) eqn:Hr; cbv iota beta.
  - change (chat_message m :: chat rest) with (chat (m :: rest)) in *.
    destruct (checked_context (chat (m :: rest)) (content_bytes (chat (m :: rest)))) as [Hok Hiff].
    split; [|etransitivity; [exact Hiff|apply last_chat_user]].
    intros ms total (-> & -> & Hu)%Hok. split_and!; [|done..].
    exists k, m. by rewrite Hr, Hd.
  - assert (Htotal : saturating_sub (content_bytes (chat (m :: rest))) (blen (content (chat_message m)))
              = content_bytes (chat rest)).
    { unfold saturating_sub, chat. cbn [fmap list_fmap content_bytes]. lia. }
    change (chat_message m :: chat rest) with (chat (m :: rest)). rewrite Htotal.
    destruct (checked_context (chat rest) (content_bytes (chat rest))) as [Hok Hiff].
    split.
    + intros ms total (-> & -> & Hu)%Hok. split_and!; [| |done|done].
      * exists k, m. by rewrite Hr, Hrest.
      * apply (context_bounded_suffix [chat_message m]), Hbound.
    + etransitivity; [exact Hiff|]. rewrite last_chat_user. destruct rest as [|x rest]; [|done].
      cbn. split; [by intros (? & ? & _)|]. intros (y & [= <-] & Hy). congruence.
Qed.
