(* ===== verification/StateStoreMap.v ===== *)
(** * The local store is a map with compare-and-swap ([vibecoder-persistence-local])

    The abstract store: a map from keys to values for each kind, every method one
    atomic step of it.  A method that fails leaves the map alone, with two
    exceptions: when only the directory could not be synced, the step has happened
    although an error is returned; and removing all conversations of a project removes
    them one after another, so when it fails some of them may be gone
    ([remove_all_step]).  [store_refines_map] says that the programs of
    [StateStore.v], run in the file system of [FileSystem.v], do nothing else. *)
From stdpp Require Import sorting.
From S2P Require Import Prelude RustStr StrFacts RustPath Domain Program OsCalls.
From S2P Require Import CoreCalls TurnFacts FileSystem Persistence StateStore.
From S2P Require Import StateNames StateStoreFacts.

(** ** The abstract store *)

Inductive slot (V : Type) := Absent | Holds (v : V) | Unreadable.
Arguments Absent {V}.
Arguments Holds {V} v.
Arguments Unreadable {V}.

Section slots.
Context (k : Kind).
Implicit Type m : k_key k -> slot (k_value k).

Definition unchanged m m' : Prop := forall key, m' key = m key.
Definition sets (key : k_key k) (x : slot (k_value k)) m m' : Prop :=
  m' key = x /\ forall key', key' <> key -> m' key' = m key'.

(** The step has happened; its report may be that the directory was not synced. *)
Definition takes_effect {A} (r : Result A) (P : A -> Prop) (effect : Prop) m m' :
    Prop :=
  match r with
  | Ok a => P a /\ effect
  | Err e => unchanged m m' \/ (e = kind_error k "_parent_sync_failed" /\ effect)
  end.

Definition create_step (room : Prop) (v : k_value k) (r : Result unit) m m' :
    Prop :=
  takes_effect r (fun _ => True)
    ((m (k_key_of k v) = Absent /\ k_revision k v = 0 /\ room) /\
     sets (k_key_of k v) (Holds v) m m')
    m m'.

Definition update_step (n : N) (v : k_value k) (r : Result (k_value k)) m m' :
    Prop :=
  let next := k_set_revision k v (n + 1) in
  takes_effect r (fun c => c = next)
    (((exists current, m (k_key_of k v) = Holds current /\ k_revision k current = n) /\
      k_revision k v = n /\ n < u64_max) /\ sets (k_key_of k v) (Holds next) m m')
    m m'.

Definition load_step (key : k_key k) (r : Result (option (k_value k))) m m' : Prop :=
  unchanged m m' /\
  match r with
  | Ok None => m key = Absent
  | Ok (Some v) => m key = Holds v
  | Err _ => True
  end.

Definition remove_step (key : k_key k) (r : Result unit) m m' : Prop :=
  takes_effect r (fun _ => True) (sets key Absent m m') m m'.

(** [ids]: those the map has a file for, once each and in the order of their text. *)
Definition ids_of `{UuidLib} {I} (select : k_key k -> option I) (uuid : I -> N) m (ids : list I) :
    Prop :=
  NoDup ids /\
  Sorted (fun a b => str_leb (uuid_hyphenated (uuid a)) (uuid_hyphenated (uuid b)) = true) ids /\
  forall id, id ∈ ids <-> exists key, select key = Some id /\ m key <> Absent.

(** No more keys have a file than a listing goes through. *)
Definition few m : Prop :=
  forall keys, NoDup keys -> Forall (fun key => m key <> Absent) keys ->
    len keys <= MAX_STATE_DIRECTORY_ENTRIES.

Definition list_step `{UuidLib} {I} (select : k_key k -> option I) (uuid : I -> N) (max : N)
    (r : Result (list I)) m m' : Prop :=
  unchanged m m' /\
  match r with Ok ids => ids_of select uuid m ids /\ len ids <= max /\ few m | Err _ => True end.

(** Keys removed one by one.  The first failure ends it, so after an error any part of
    them may have been removed; no other key is touched. *)
Definition remove_all_step (which : k_key k -> Prop) (r : Result unit) m m' : Prop :=
  match r with
  | Ok _ => few m /\
    forall key, (which key /\ m' key = Absent) \/ (~ which key /\ m' key = m key)
  | Err _ => forall key, (which key /\ m' key = Absent) \/ m' key = m key
  end.

Lemma few_unchanged m m' : unchanged m m' -> few m' -> few m.
Proof. intros Hu Hf keys Hnd Hall. apply Hf; [done|]. eapply Forall_impl; [exact Hall|]. intros key. by rewrite Hu. Qed.

Lemma unchanged_refl m : unchanged m m.
Proof. by intros key. Qed.
End slots.
#[export] Hint Resolve unchanged_refl : vibe.

(** ** One kind of values in the file system *)

Section view.
Context `{UuidLib} (self : LocalProjectStateStore) (euid : N).
Section kind.
Context (k : Kind) {Hk : KindOk k}.

Definition view (s : fs) (key : k_key k) : slot (k_value k) :=
  match nodes s !! entry self k key with
  | None => Absent
  | Some (NFile _ bs) => match decode k key bs with Ok v => Holds v | Err _ => Unreadable end
  | Some _ => Unreadable
  end.

(** Only files in the directory of [k] differ. *)
Definition confined (s s' : fs) : Prop :=
  forall p, (forall name, p <> root_path self k ++ [name]) -> nodes s' !! p = nodes s !! p.

#[export] Instance confined_preorder : PreOrder confined.
Proof. split; [by intros s p|]. intros a b c Hab Hbc p Hp. by rewrite Hbc, Hab. Qed.

Lemma same_entries s s' :
  (forall key, nodes s' !! entry self k key = nodes s !! entry self k key) ->
  unchanged k (view s) (view s').
Proof. intros He key. unfold view. by rewrite He. Qed.

(** What a step of the store does: it keeps to its directory. *)
Definition step_ok (P : (k_key k -> slot (k_value k)) -> (k_key k -> slot (k_value k)) -> Prop)
    (s s' : fs) : Prop := P (view s) (view s') /\ confined s s'.

Lemma scratch_step s s' : scratch self k s s' -> step_ok (unchanged k) s s'.
Proof.
  intros Hsc. split; [apply same_entries; intros key; by apply Hsc, entry_not_temp|].
  intros p Hp. apply Hsc. intros [fresh ->]. by eapply Hp.
Qed.

Lemma grown_step s s' : grown s s' -> step_ok (unchanged k) s s'.
Proof. intros Hg. by apply scratch_step, scratch_grown. Qed.

Lemma entry_inj key key' : entry self k key = entry self k key' -> key = key'.
Proof. intros He. apply app_inv_head in He. injection He as He. by apply kind_name_inj. Qed.

Lemma stored_step key bs v s s' :
  stored self k key bs s s' -> decode k key bs = Ok v ->
  step_ok (sets k key (Holds v)) s s'.
Proof.
  intros [[mode Hn] Hp] Hd. split.
  - split; [unfold view; by rewrite Hn, Hd|]. intros key' Hne. unfold view.
    rewrite Hp; [done|apply entry_not_temp; done|]. by intros ?%entry_inj.
  - intros p Hpre. apply Hp; [intros [fresh ->]|intros ->]; by eapply Hpre.
Qed.

Lemma dropped_step key s s' :
  dropped self k key s s' -> step_ok (sets k key Absent) s s'.
Proof.
  intros Hd. split.
  - split; [unfold view; by rewrite Hd, lookup_delete_eq|]. intros key' Hne. unfold view.
    rewrite Hd, lookup_delete_ne; [done|]. intros ?%entry_inj. congruence.
  - intros p Hp. rewrite Hd, lookup_delete_ne; [done|]. intros <-. by eapply Hp.
Qed.

Lemma decode_encoded v bs :
  k_to_vec k v = Some bs -> k_validate k v = Ok tt -> decode k (k_key_of k v) bs = Ok v.
Proof.
  intros Hv Hval. unfold decode. rewrite (kind_roundtrip _ _ Hv). cbn. rewrite Hval.
  by rewrite (proj2 (kind_key_eqb _ _) eq_refl).
Qed.

(** ** The operations *)

Lemma within_load_step key s :
  within fs_step (load euid self k key)
    (fun s' r => grown s s' /\ load_step k key r (view s) (view s')) s.
Proof.
  unfold load_step. eapply within_load; [done|..].
  - intros s' e Hg. split; [done|]. split; [|done]. by apply grown_step.
  - intros s' Hg Hn. split; [done|]. split; [by apply grown_step|]. unfold view. by rewrite Hn.
  - intros s' mode content v Hg Hn _ Hd. split; [done|]. split; [by apply grown_step|].
    unfold view. by rewrite Hn, Hd.
Qed.

Lemma within_save_step v s :
  k_validate k v = Ok tt ->
  within fs_step (save euid self k v)
    (fun s' r => (is_ok r = false /\ step_ok (unchanged k) s s') \/
       ((r = Ok tt \/ r = Err (kind_error k "_parent_sync_failed")) /\
        step_ok (sets k (k_key_of k v) (Holds v)) s s')) s.
Proof.
  intros Hv. eapply within_save; [done|..].
  - intros s' e Hsc. left. split; [done|]. by apply scratch_step.
  - intros s' bs r Hbs _ Hst Hr. right. split; [done|]. eapply stored_step; [done|].
    by apply decode_encoded.
Qed.

Lemma step_ok_mono (P Q : (k_key k -> slot (k_value k)) -> (k_key k -> slot (k_value k)) -> Prop) s s' :
  step_ok P s s' -> (forall m m', P m m' -> Q m m') -> step_ok Q s s'.
Proof. intros [? ?] HQ. split; auto. Qed.

Lemma step_ok_after_grown P s s1 s' :
  (forall m m1 m', unchanged k m m1 -> P m1 m' -> P m m') ->
  grown s s1 -> step_ok P s1 s' -> step_ok P s s'.
Proof.
  intros HP Hg [Hp Hc]. destruct (grown_step _ _ Hg) as [Hu Hc1].
  split; [by eapply HP|by etransitivity].
Qed.

(** A step that comes after the map was only read. *)
Lemma saved_step {A} (r : Result unit) (r' : Result A) (P : A -> Prop) pre key v s s1 s' :
  k_key_of k v = key -> grown s s1 -> pre ->
  (forall e, r = Err e -> r' = Err e) -> (r = Ok tt -> exists a, r' = Ok a /\ P a) ->
  ((is_ok r = false /\ step_ok (unchanged k) s1 s') \/
   ((r = Ok tt \/ r = Err (kind_error k "_parent_sync_failed")) /\
    step_ok (sets k (k_key_of k v) (Holds v)) s1 s')) ->
  step_ok (fun m m' => takes_effect k r' P (pre /\ sets k key (Holds v) m m') m m') s s'.
Proof.
  intros <- Hg Hpre Herr Hok Hr.
  assert (Hafter : forall m m1 m', unchanged k m m1 -> sets k (k_key_of k v) (Holds v) m1 m' ->
            sets k (k_key_of k v) (Holds v) m m').
  { intros m m1 m' Hu [? Hne]. split; [done|]. intros key' ?. by rewrite Hne, Hu. }
  destruct Hr as [[Hr Hst]|[Hr Hst]].
  - destruct r as [|e]; [done|]. rewrite (Herr e eq_refl). eapply step_ok_mono.
    + eapply step_ok_after_grown; [|done..]. intros m m1 m' H1 H2 key. by rewrite H2, H1.
    + intros m m' Hu. by left.
  - eapply step_ok_mono; [by eapply step_ok_after_grown|]. intros m m' Hset.
    destruct Hr as [-> | ->].
    + destruct (Hok eq_refl) as (a & -> & Ha). by split.
    + rewrite (Herr _ eq_refl). by right.
Qed.

Lemma step_ok_error {A} (e : VibeCoderError) (P : A -> Prop) effect s s' :
  grown s s' ->
  step_ok (fun m m' => takes_effect k (Err e) P (effect m m') m m') s s'.
Proof. intros Hg. eapply step_ok_mono; [by apply grown_step|]. intros m m' Hu. by left. Qed.

Lemma within_compare_and_swap n v s :
  k_validate k v = Ok tt -> k_revision k v = n ->
  within fs_step (compare_and_swap euid self k n v)
    (fun s' r => step_ok (update_step k n v r) s s') s.
Proof.
  intros Hv Hn. apply within_try. eapply within_mono; [by apply within_load_step|].
  intros s1 [found|e] [Hg [Hu Hl]]; [|by apply step_ok_error].
  apply within_lift; [|intros; by apply step_ok_error]. intros current ->%ok_or_Ok.
  destruct (negb _) eqn:Hrev; [by apply step_ok_error|]. bool_prop.
  apply within_lift; [|intros; by apply step_ok_error]. intros next Hnext%ok_or_Ok.
  apply checked_add_Some in Hnext as [-> Hmax]. apply within_try. eapply within_mono.
  { by apply within_save_step, kind_valid_set_revision. }
  intros s2 r Hr. assert (Hpre : (exists c, view s (k_key_of k v) = Holds c /\ k_revision k c = n) /\
    k_revision k v = n /\ n < u64_max).
  { split_and!; [|done|lia]. exists current. split; [|done]. exact Hl. }
  pose proof (fun r' P => saved_step (A := k_value k) r r' P _ _ _ s s1 s2
    (kind_key_set_revision v (n + 1)) Hg Hpre) as Hst.
  destruct r as [[]|e]; cbn [within];
    (eapply Hst; [naive_solver|naive_solver|exact Hr]).
Qed.

Lemma within_remove_step key s :
  within fs_step (remove_value euid self k key)
    (fun s' r => step_ok (remove_step k key r) s s') s.
Proof.
  eapply within_remove; [done|..].
  - intros s' e Hg. by apply step_ok_error.
  - intros s' r Hd Hr. eapply step_ok_mono; [by apply dropped_step|]. intros m m' Hset.
    destruct Hr as [-> | ->]; [by split|by right].
Qed.

Lemma view_absent s key : view s key <> Absent <-> is_Some (nodes s !! entry self k key).
Proof.
  unfold view. rewrite <-not_eq_None_Some. destruct (nodes s !! _) as [[|? bs|]|]; try done.
  by destruct (decode _ _ _).
Qed.

Lemma within_list_step {I} parse (select : k_key k -> option I) uuid max s :
  (forall key, parse (k_file_name k key) = Some key) ->
  (forall text key, parse text = Some key -> text = k_file_name k key) ->
  (forall a b id, select a = Some id -> select b = Some id -> a = b) ->
  within fs_step (list_ids euid self k parse select uuid max)
    (fun s' r => grown s s' /\ list_step k select uuid max r (view s) (view s')) s.
Proof.
  intros Hprint Hinv Hinj. eapply within_list_ids; [done..| |].
  - intros s' e Hg. split; [done|]. split; [by apply grown_step|done].
  - intros s' ids Hg (Hnd & Hsort & Hlen & Hfew & Hids). split; [done|]. split; [by apply grown_step|].
    split_and!; [split_and!; [done..|]|done|].
    + intros id. rewrite Hids. by setoid_rewrite view_absent.
    + intros keys Hnodup Hall. apply Hfew; [done|]. eapply Forall_impl; [exact Hall|].
      intros key. apply view_absent.
Qed.
End kind.

(** ** Both kinds *)

Lemma other_kind k k' s s' :
  k_root_name k <> k_root_name k' -> confined k s s' ->
  unchanged k' (view k' s) (view k' s').
Proof.
  intros Hne Hc. apply same_entries. intros key. apply Hc. intros name.
  unfold entry, root_path. rewrite <-!app_assoc. intros He%app_inv_head. by injection He.
Qed.
End view.

Record store_map := {
  project_slots : ProjectId -> slot PersistedProjectState;
  conversation_slots : ProjectId * ConversationId -> slot PersistedConversation
}.

Section store.
Context `{UuidShape, SJ : StateJson, !StateJsonLaws} (self : LocalProjectStateStore) (euid : N).

Definition store_view (s : fs) : store_map :=
  {| project_slots := view self project_kind s;
     conversation_slots := view self conversation_kind s |}.

(** Less than [n] conversations of the project have a file. *)
Definition conversations_below (n : N) (project : ProjectId) (m : store_map) : Prop :=
  exists ids, ids_of conversation_kind (of_project project) conversation_uuid (conversation_slots m) ids
    /\ len ids < n /\ few conversation_kind (conversation_slots m).

(** A step of the project map, of the conversation map. *)
Definition on_projects (P : (ProjectId -> slot PersistedProjectState) ->
    (ProjectId -> slot PersistedProjectState) -> Prop) (m m' : store_map) : Prop :=
  P (project_slots m) (project_slots m') /\
  unchanged conversation_kind (conversation_slots m) (conversation_slots m').
Definition on_conversations (P : (ProjectId * ConversationId -> slot PersistedConversation) ->
    (ProjectId * ConversationId -> slot PersistedConversation) -> Prop) (m m' : store_map) : Prop :=
  P (conversation_slots m) (conversation_slots m') /\
  unchanged project_kind (project_slots m) (project_slots m').

(** The steps of the abstract store, labelled with a call and its answer. *)
Definition map_step (m : store_map) (e : event core_sig) (m' : store_map) : Prop :=
  match ev_call e as c return resp c -> Prop with
  | PsCreate state => fun r => on_projects (create_step project_kind True state r) m m'
  | PsUpdate n state => fun r => on_projects (update_step project_kind n state r) m m'
  | PsLoad project => fun r => on_projects (load_step project_kind project r) m m'
  | PsList max => fun r => on_projects (list_step project_kind Some project_uuid max r) m m'
  | PsRemove project => fun r => on_projects (remove_step project_kind project r) m m'
  | CvCreate c => fun r =>
    on_conversations (create_step conversation_kind
      (conversations_below MAX_PERSISTED_CONVERSATIONS_PER_PROJECT (conversation_project c) m) c r) m m'
  | CvUpdate n c => fun r => on_conversations (update_step conversation_kind n c r) m m'
  | CvLoad project id => fun r => on_conversations (load_step conversation_kind (project, id) r) m m'
  | CvList project max => fun r =>
    on_conversations (list_step conversation_kind (of_project project) conversation_uuid max r) m m'
  | CvRemove project id => fun r =>
    on_conversations (remove_step conversation_kind (project, id) r) m m'
  | CvRemoveProject project => fun r =>
    on_conversations (remove_all_step conversation_kind (fun key => key.1 = project) r) m m'
  | _ => fun _ => False
  end (ev_resp e).

(** The store as the controller calls it. *)
Definition store_program (c : core_call) : option (prog (core_resp c)) :=
  match c with
  | PsCreate state => Some (create_project_state euid self state)
  | PsUpdate n state => Some (update_project_state euid self n state)
  | PsLoad project => Some (load_project_state euid self project)
  | PsList max => Some (list_project_ids euid self max)
  | PsRemove project => Some (remove_project_state euid self project)
  | CvCreate c => Some (create_conversation euid self c)
  | CvUpdate n c => Some (update_conversation euid self n c)
  | CvLoad project id => Some (load_conversation euid self project id)
  | CvList project max => Some (list_conversation_ids euid self project max)
  | CvRemove project id => Some (remove_conversation euid self project id)
  | CvRemoveProject project => Some (remove_project_conversations euid self project)
  | _ => None
  end.

(** A call is served by running its program to the end; the gate lets one run at a time. *)
Definition served (s : fs) (e : event core_sig) (s' : fs) : Prop :=
  exists p, store_program (ev_call e) = Some p /\ executes fs_step p s (ev_resp e) s'.

(** ** Every method is its step *)

Definition steps_to (P : store_map -> store_map -> Prop) (s s' : fs) : Prop :=
  P (store_view s) (store_view s').

Lemma project_step P s s' : step_ok self project_kind P s s' -> steps_to (on_projects P) s s'.
Proof. intros [HP Hcf]. split; [done|]. by apply (other_kind self project_kind conversation_kind). Qed.

Lemma conversation_step P s s' :
  step_ok self conversation_kind P s s' -> steps_to (on_conversations P) s s'.
Proof. intros [HP Hcf]. split; [done|]. by apply (other_kind self conversation_kind project_kind). Qed.

Definition method_ok (c : core_call) (p : prog (core_resp c)) : Prop :=
  forall s, within fs_step p (fun s' r => steps_to (fun m m' => map_step m (Ev c r) m') s s') s.

Lemma within_lock_gate {A} (body : prog (Result A)) Q s :
  within fs_step body Q s -> (forall e, Q s (Err e)) -> within fs_step (lock_gate self body) Q s.
Proof. unfold lock_gate. destruct (gate_poisoned self); [|done]. intros _ He. apply He. Qed.

(** A refusal before any call. *)
Lemma refused_projects {A} e (P : A -> Prop) effect s :
  
  steps_to (on_projects (fun m m' => takes_effect project_kind (Err e) P (effect m m') m m')) s s.
Proof. apply project_step. apply step_ok_error; [apply _|done]. Qed.

Lemma refused_conversations {A} e (P : A -> Prop) effect s :
  
  steps_to (on_conversations (fun m m' => takes_effect conversation_kind (Err e) P (effect m m') m m')) s s.
Proof. apply conversation_step. apply step_ok_error; [apply _|done]. Qed.

Lemma update_project_ok n state : method_ok (PsUpdate n state) (update_project_state euid self n state).
Proof.
  intros s. assert (He : forall e, steps_to (fun m m' => map_step m (Ev (PsUpdate n state) (Err e)) m') s s)
    by (intros; by apply refused_projects).
  apply within_lift; [|done]. intros [] Hv. destruct (negb _) eqn:Hrev; [by apply He|]. bool_prop.
  apply within_lock_gate; [|done]. eapply within_mono; [by apply (within_compare_and_swap self euid project_kind)|].
  intros s' r Hr. by apply project_step.
Qed.

Lemma update_conversation_ok n c : method_ok (CvUpdate n c) (update_conversation euid self n c).
Proof.
  intros s. assert (He : forall e, steps_to (fun m m' => map_step m (Ev (CvUpdate n c) (Err e)) m') s s)
    by (intros; by apply refused_conversations).
  apply within_lift; [|done]. intros [] Hv. destruct (negb _) eqn:Hrev; [by apply He|]. bool_prop.
  apply within_lock_gate; [|done]. eapply within_mono; [by apply (within_compare_and_swap self euid conversation_kind)|].
  intros s' r Hr. by apply conversation_step.
Qed.

(** A method that only reads. *)
Lemma read_step k {A} body s
    (P : Result A -> (k_key k -> slot (k_value k)) -> (k_key k -> slot (k_value k)) -> Prop)
    (lifted : Result A -> store_map -> store_map -> Prop) :
  KindOk k -> 
  (forall s' r, step_ok self k (P r) s s' -> steps_to (lifted r) s s') ->
  within fs_step body (fun s' r => grown s s' /\ P r (view self k s) (view self k s')) s ->
  (forall e, P (Err e) (view self k s) (view self k s)) ->
  within fs_step (lock_gate self body) (fun s' r => steps_to (lifted r) s s') s.
Proof.
  intros HK Hlift Hb He. apply within_lock_gate.
  - eapply within_mono; [exact Hb|]. intros s' r [Hg Hl]. apply Hlift.
    apply (grown_step self k) in Hg as [_ ?]. by split.
  - intros e. apply Hlift. by split.
Qed.

Lemma load_project_ok project : method_ok (PsLoad project) (load_project_state euid self project).
Proof.
  intros s. eapply (read_step project_kind); [apply _|..].
  - intros s' r. by apply project_step.
  - apply (within_load_step self euid project_kind).
  - by split.
Qed.

Lemma load_conversation_ok project id :
  method_ok (CvLoad project id) (load_conversation euid self project id).
Proof.
  intros s. eapply (read_step conversation_kind); [apply _|..].
  - intros s' r. by apply conversation_step.
  - apply (within_load_step self euid conversation_kind).
  - by split.
Qed.

Lemma list_projects_ok max : method_ok (PsList max) (list_project_ids euid self max).
Proof.
  intros s. unfold list_project_ids. destruct (_ || _).
  { apply project_step. by split. }
  eapply (read_step project_kind); [apply _|..].
  - intros s' r. by apply project_step.
  - apply (within_list_step self euid project_kind).
    + apply parse_state_file_name.
    + apply parse_project_file_name_inv.
    + congruence.
  - by split.
Qed.

Lemma of_project_inj project a b id :
  of_project project a = Some id -> of_project project b = Some id -> a = b.
Proof. destruct a, b. unfold of_project. do 2 case_bool_decide; naive_solver. Qed.

Lemma within_list_conversations project max s :
  within fs_step (list_conversation_ids_sync euid self project max)
    (fun s' r => grown s s' /\
       list_step conversation_kind (of_project project) conversation_uuid max r
         (view self conversation_kind s) (view self conversation_kind s')) s.
Proof.
  apply (within_list_step self euid conversation_kind).
  - apply parse_file_name_of_conversation.
  - apply parse_conversation_file_name_inv.
  - apply of_project_inj.
Qed.

Lemma list_conversations_ok project max :
  method_ok (CvList project max) (list_conversation_ids euid self project max).
Proof.
  intros s. unfold list_conversation_ids. destruct (_ || _).
  { apply conversation_step. by split. }
  eapply (read_step conversation_kind); [apply _|..].
  - intros s' r. by apply conversation_step.
  - by apply within_list_conversations.
  - by split.
Qed.

Lemma remove_project_ok project : method_ok (PsRemove project) (remove_project_state euid self project).
Proof.
  intros s. apply within_lock_gate; [|intros; by apply refused_projects].
  eapply within_mono; [apply (within_remove_step self euid project_kind)|].
  intros s' r Hr. by apply project_step.
Qed.

Lemma remove_conversation_ok project id :
  method_ok (CvRemove project id) (remove_conversation euid self project id).
Proof.
  intros s. apply within_lock_gate; [|intros; by apply refused_conversations].
  eapply within_mono; [apply (within_remove_step self euid conversation_kind)|].
  intros s' r Hr. by apply conversation_step.
Qed.

Lemma create_project_ok state : method_ok (PsCreate state) (create_project_state euid self state).
Proof.
  intros s. assert (He : forall e, steps_to (fun m m' => map_step m (Ev (PsCreate state) (Err e)) m') s s)
    by (intros; by apply refused_projects).
  apply within_lift; [|done]. intros [] Hv. destruct (negb _) eqn:Hrev; [by apply He|]. bool_prop.
  apply within_lock_gate; [|done]. apply within_try.
  eapply within_mono; [by apply (within_load_step self euid project_kind)|].
  assert (He' : forall s1 e, grown s s1 ->
    steps_to (fun m m' => map_step m (Ev (PsCreate state) (Err e)) m') s s1).
  { intros s1 e Hg. apply project_step. by apply (step_ok_error self project_kind). }
  intros s1 [[found|]|e] [Hg [Hu Hl]]; [by apply He'| |by apply He']. cbn [is_some is_none negb].
  eapply within_mono.
  { by apply (within_save_step self euid project_kind). }
  intros s2 r Hr. apply project_step.
  eapply (saved_step self project_kind) with (r := r)
    (pre := view self project_kind s (ps_project_id state) = Absent /\ ps_revision state = 0 /\ True);
    [done..| | |exact Hr]; [done|by intros ->; exists tt].
Qed.

Lemma create_conversation_ok c : method_ok (CvCreate c) (create_conversation euid self c).
Proof.
  intros s. assert (He : forall e, steps_to (fun m m' => map_step m (Ev (CvCreate c) (Err e)) m') s s)
    by (intros; by apply refused_conversations).
  apply within_lift; [|done]. intros [] Hv. destruct (negb _) eqn:Hrev; [by apply He|]. bool_prop.
  apply within_lock_gate; [|done]. apply within_try.
  eapply within_mono; [apply (within_load_step self euid conversation_kind)|].
  assert (He' : forall s1 e, grown s s1 ->
    steps_to (fun m m' => map_step m (Ev (CvCreate c) (Err e)) m') s s1).
  { intros s1 e Hg. apply conversation_step.
    by apply (step_ok_error self conversation_kind). }
  intros s1 [[found|]|e] [Hg [Hu Hl]]; [by apply He'| |by apply He']. cbn [is_some is_none negb].
  apply within_try. eapply within_mono; [apply within_list_conversations|].
  intros s2 [ids|e] [Hg2 [Hu2 Hids]]; [|apply He'; by etransitivity].
  assert (grown s s2) by by etransitivity. destruct (_ <=? _) eqn:Hroom; [by apply He'|]. bool_prop.
  eapply within_mono.
  { by apply (within_save_step self euid conversation_kind). }
  intros s3 r Hr. apply conversation_step.
  eapply (saved_step self conversation_kind) with (r := r)
    (pre := view self conversation_kind s (conversation_project c, conversation_id c) = Absent /\
            revision c = 0 /\ conversations_below MAX_PERSISTED_CONVERSATIONS_PER_PROJECT
                                (conversation_project c) (store_view s));
    [done|done| | | |exact Hr]; [|done|by intros ->; exists tt].
  split_and!; [done..|]. exists ids. destruct Hids as ((? & ? & Hids) & _ & Hfew).
  split_and!; [split_and!; [done..|]|done|by apply (few_unchanged _ _ (view self conversation_kind s1))].
  intros id. rewrite Hids. by setoid_rewrite (Hu _).
Qed.
(** The loop over the listed ids. *)
Definition removing (project : ProjectId) (ids : list ConversationId) (r : Result unit)
    (m m' : ProjectId * ConversationId -> slot PersistedConversation) : Prop :=
  match r with
  | Ok _ => forall key, (key.1 = project /\ m' key = Absent) \/
                        (~ (key.1 = project /\ key.2 ∈ ids) /\ m' key = m key)
  | Err _ => forall key, (key.1 = project /\ m' key = Absent) \/ m' key = m key
  end.

Lemma removing_cons project id ids r m m1 m' :
  sets conversation_kind (project, id) Absent m m1 -> removing project ids r m1 m' ->
  removing project (id :: ids) r m m'.
Proof.
  intros [Hset Hne] Hr. destruct r as [?|e]; intros key; cbn in Hr; specialize (Hr key);
    (destruct (decide (key = (project, id))) as [->|Hk]; [left; cbn; destruct Hr as [[_ ?]|Hr]|]).
  - done.
  - split; [done|]. destruct Hr as [_ ->]. done.
  - destruct Hr as [?|[Hin Hr]]; [by left|]. right. rewrite Hr, Hne by done. split; [|done].
    intros [<- [Heq|?]%elem_of_cons]; [|by apply Hin]. apply Hk. destruct key. cbn in *. by subst.
  - done.
  - split; [done|]. by rewrite Hr.
  - destruct Hr as [?|Hr]; [by left|]. right. by rewrite Hr, Hne.
Qed.

Lemma within_remove_conversations project ids s :
  
  within fs_step (remove_conversations euid self project ids)
    (fun s' r => step_ok self conversation_kind (removing project ids r) s s') s.
Proof.
  revert s. induction ids as [|id ids IH]; intros s; cbn [remove_conversations].
  { split; [|done]. intros key. right. split; [|done]. by intros [_ ?%elem_of_nil]. }
  apply within_try.
  eapply within_mono; [by apply (within_remove_step self euid conversation_kind)|].
  intros s1 [[]|e] [Hst Hc1].
  - eapply within_mono; [by apply IH|]. intros s2 r [Hr Hc2].
    split; [|by etransitivity]. eapply removing_cons; [|exact Hr]. by destruct Hst.
  - split; [|done]. intros key. destruct Hst as [Hu|[_ [Hset Hne]]]; [right; apply Hu|].
    destruct (decide (key = (project, id))) as [->|]; [by left|right; by apply Hne].
Qed.

Lemma remove_project_conversations_ok project :
  method_ok (CvRemoveProject project) (remove_project_conversations euid self project).
Proof.
  intros s. apply within_lock_gate.
  2:{ intros e. apply conversation_step. split; [by right|done]. }
  apply within_try. eapply within_mono; [by apply within_list_conversations|].
  intros s1 r1 [Hg [Hu Hids]].
  pose proof (grown_step self conversation_kind s s1 Hg) as [_ Hc1].
  destruct r1 as [ids|e].
  2:{ apply conversation_step. split; [|done]. intros key. right. apply Hu. }
  eapply within_mono; [by apply within_remove_conversations|].
  intros s2 r [Hr Hc2]. apply conversation_step.
  split; [|by etransitivity]. destruct Hids as ((_ & _ & Hids) & _ & Hfew).
  destruct r as [?|e]; [split; [done|]|]; intros key; destruct (Hr key) as [?|H']; [by left| |by left|right; by rewrite H'].
  destruct H' as [Hin Hm]. rewrite Hm, (Hu key). destruct (decide (key.1 = project)) as [Hp|]; [|by right].
  left. split; [done|]. destruct (view self conversation_kind s key) eqn:Hv; [done|exfalso..].
  all: apply Hin; split; [done|]; apply Hids; exists key; split; [|by rewrite Hv].
  all: unfold of_project; rewrite bool_decide_true by done; done.
Qed.

Lemma store_program_ok c p : store_program c = Some p -> method_ok c p.
Proof.
  destruct c; intros [= <-]; first [apply create_project_ok|apply update_project_ok|apply load_project_ok
    |apply list_projects_ok|apply remove_project_ok|apply create_conversation_ok
    |apply update_conversation_ok|apply load_conversation_ok|apply list_conversations_ok
    |apply remove_conversation_ok|apply remove_project_conversations_ok].
Qed.

Lemma served_step s e s' :
  served s e s' -> map_step (store_view s) e (store_view s').
Proof.
  intros (p & Hp & Hrun). destruct e as [c r].
  by eapply within_executes in Hrun; [|by apply store_program_ok].
Qed.

Lemma served_steps s h s' :
  steps served s h s' -> steps map_step (store_view s) h (store_view s').
Proof.
  induction 1 as [|s e s1 h s' Hstep Hsteps IH]; [constructor|].
  econstructor; [by apply served_step|done].
Qed.

Lemma map_step_stores m e m' : map_step m e m' -> stores e.
Proof.
  destruct e as [[] r]; cbn; try done. intros [Hr _]. destruct r as [c'|]; [|done]. by destruct Hr.
Qed.

(** C20. The local store is a map with compare-and-swap.  Whatever calls fail, a
    history of calls of the store, each run to its end on the file system, is a
    history of the abstract map, answer by answer: a value is created only where there
    is none, an update succeeds only at the revision it expects and stores the value
    at the next one, loads and listings return what the map holds.  A call on a single
    value that returns an error leaves the map as it was, or returns the error that the
    directory could not be synced and has taken effect; removing all conversations of a
    project is not atomic, an error may leave some of them removed, and then touches
    nothing else.  What the controller's theorems assume of the store's answers holds
    of all of them. *)
Theorem store_refines_map s h s' :
  steps served s h s' ->
  steps map_step (store_view s) h (store_view s') /\ Forall stores h.
Proof.
  intros Hsteps. pose proof (served_steps _ _ _ Hsteps) as Hm. split; [done|].
  clear Hsteps. induction Hm; constructor; [by eapply map_step_stores|done].
Qed.

(** ** Revisions *)

Definition removes_conversation (key : ProjectId * ConversationId) (e : event core_sig) : bool :=
  match ev_call e with
  | CvRemove project id => bool_decide ((project, id) = key)
  | CvRemoveProject project => bool_decide (project = key.1)
  | _ => false
  end.

(** The conversation is there, past revision [n]. *)
Definition past (key : ProjectId * ConversationId) (n : N) (m : store_map) : Prop :=
  exists c, conversation_slots m key = Holds c /\ n < revision c.

Lemma past_step key n m e m' :
  map_step m e m' -> removes_conversation key e = false -> past key n m -> past key n m'.
Proof.
  intros Hstep Hno (c & Hc & Hn).
  assert (Hsame : conversation_slots m' key = conversation_slots m key -> past key n m')
    by (intros He; exists c; by rewrite He).
  assert (Hcreate : forall v : PersistedConversation,
    conversation_slots m (conversation_project v, conversation_id v) = Absent ->
    sets conversation_kind (conversation_project v, conversation_id v) (Holds v)
      (conversation_slots m) (conversation_slots m') -> past key n m').
  { intros v Ha [_ Hne]. apply Hsame, Hne. intros ->. by rewrite Hc in Ha. }
  assert (Hupdate : forall k (v current : PersistedConversation),
    conversation_slots m (conversation_project v, conversation_id v) = Holds current ->
    revision current = k ->
    sets conversation_kind (conversation_project v, conversation_id v) (Holds (set_revision v (k + 1)))
      (conversation_slots m) (conversation_slots m') -> past key n m').
  { intros k v current Hcur <- [Hset Hne].
    destruct (decide (key = (conversation_project v, conversation_id v))) as [->|]; [|by apply Hsame, Hne].
    eexists. split; [exact Hset|]. rewrite Hc in Hcur. injection Hcur as <-. cbn. lia. }
  destruct e as [call r]; destruct call; cbn in Hstep, r; try done.
  1-5: apply Hsame; by destruct Hstep as [_ Hu].
  - destruct Hstep as [Ht _], r as [?|e]; cbn in Ht.
    + destruct Ht as (_ & (? & _) & ?). eauto.
    + destruct Ht as [Hu|(_ & (? & _) & ?)]; [by apply Hsame, Hu|eauto].
  - destruct Hstep as [Ht _], r as [?|e]; cbn in Ht.
    + destruct Ht as (_ & ((? & ? & ?) & _) & ?). eauto.
    + destruct Ht as [Hu|(_ & ((? & ? & ?) & _) & ?)]; [by apply Hsame, Hu|eauto].
  - apply Hsame. destruct Hstep as [[Hu _] _]. apply Hu.
  - apply Hsame. destruct Hstep as [[Hu _] _]. apply Hu.
  - assert (key <> (p, id)) by (intros ->; by apply bool_decide_eq_false in Hno).
    apply Hsame. destruct Hstep as [Ht _], r as [?|e]; cbn in Ht.
    + destruct Ht as (_ & _ & Hne). by apply Hne.
    + destruct Ht as [Hu|(_ & _ & Hne)]; [apply Hu|by apply Hne].
  - assert (key.1 <> p) by (intros <-; by apply bool_decide_eq_false in Hno).
    apply Hsame. destruct Hstep as [Ht _], r as [?|e]; [destruct Ht as [_ Ht]|];
      specialize (Ht key); naive_solver.
Qed.

Lemma past_steps key n m h m' :
  steps map_step m h m' -> Forall (fun e => removes_conversation key e = false) h -> past key n m ->
  past key n m'.
Proof.
  induction 1; [done|]. intros [? ?]%Forall_cons Hp. eauto using past_step.
Qed.

(** A revision is given out once.  Two updates of a conversation that expect the
    same revision cannot both succeed, whatever happens in between, unless the
    conversation is removed in between. *)
Theorem revision_given_once s n c c1 h c' c2 s' :
  
  (conversation_project c', conversation_id c') = (conversation_project c, conversation_id c) ->
  steps served s ([Ev (CvUpdate n c) (Ok c1)] ++ h ++ [Ev (CvUpdate n c') (Ok c2)]) s' ->
  Exists (fun e => removes_conversation (conversation_project c, conversation_id c) e = true) h.
Proof.
  intros Hkey Hsteps%served_steps.
  apply steps_app_inv in Hsteps as (m1 & Hfirst & (m2 & Hmid & Hlast)%steps_app_inv).
  apply steps_cons_inv in Hfirst as (? & Hfirst & ->%steps_nil_inv).
  apply steps_cons_inv in Hlast as (? & Hlast & _).
  destruct Hfirst as [(_ & _ & Hset & _) _], Hlast as [(_ & ((cur & Hcur & Hrev) & _) & _) _].
  cbn in Hset, Hcur, Hrev. apply dec_stable. intros Hno.
  apply not_Exists_Forall in Hno; [|apply _].
  destruct (past_steps (conversation_project c, conversation_id c) n _ _ _ Hmid) as (v & Hv & Hlt).
  - eapply Forall_impl; [exact Hno|]. intros e He. by apply not_true_iff_false.
  - exists (set_revision c (n + 1)). split; [done|cbn; lia].
  - rewrite Hkey, Hv in Hcur. injection Hcur as <-. lia.
Qed.

(** The directory of conversations is one for all projects, and a listing gives up
    after 8192 entries.  Once it holds more files, whosever they are, no project's
    conversations can be listed, created or removed together. *)
Theorem full_directory_blocks_projects s keys :
  NoDup keys ->
  Forall (fun key => conversation_slots (store_view s) key <> Absent) keys ->
  MAX_STATE_DIRECTORY_ENTRIES < len keys ->
  (forall project max ids s', ~ served s (Ev (CvList project max) (Ok ids)) s') /\
  (forall c s', ~ served s (Ev (CvCreate c) (Ok tt)) s') /\
  (forall project s', ~ served s (Ev (CvRemoveProject project) (Ok tt)) s').
Proof.
  intros Hnd Hall Hlen.
  assert (Hfull : ~ few conversation_kind (conversation_slots (store_view s)))
    by (intros Hf; by apply (proj1 (N.lt_nge _ _) Hlen), Hf).
  split_and!.
  - intros project max ids s' Hst. apply served_step in Hst.
    destruct Hst as [(_ & _ & _ & Hf) _]. by apply Hfull.
  - intros c s' Hst. apply served_step in Hst.
    destruct Hst as [(_ & (_ & _ & (? & _ & _ & Hf)) & _) _]. by apply Hfull.
  - intros project s' Hst. apply served_step in Hst.
    destruct Hst as [[Hf _] _]. by apply Hfull.
Qed.

(** ** Histories on the concrete file system *)

Fixpoint play (synced : bool) (calls : list core_call) (s : fs) : list (event core_sig) * fs :=
  match calls with
  | [] => ([], s)
  | c :: calls =>
    match store_program c with
    | Some p =>
      let r := simulate (disk synced) p s in
      let h := play synced calls r.2 in (Ev c r.1.1 :: h.1, h.2)
    | None => ([], s)
    end
  end.

Lemma play_served synced calls s : steps served s (play synced calls s).1 (play synced calls s).2.
Proof.
  revert s. induction calls as [|c calls IH]; intros s; cbn; [constructor|].
  destruct (store_program c) as [p|] eqn:Hp; [|constructor]. cbn. econstructor; [|apply IH].
  exists p. split; [done|]. apply (simulate_executes (disk synced) fs_step (fun s => s)).
  apply disk_steps.
Qed.
End store.

(** ** A small store *)

#[local] Existing Instance ex_uuid.
#[local] Existing Instance ex_uuid_shape.

(** Values that are still empty are encoded by what tells them apart. *)
#[local] Instance ex_store_json : StateJson :=
  {| state_to_vec s :=
       match s with
       | {| ps_schema := 1; ps_session_creation_pending := false; ps_agent_session := None;
            ps_route_policy := None |} => Some [ps_revision s; project_uuid (ps_project_id s)]
       | _ => None
       end;
     state_from_slice bs :=
       match bs with
       | [n; id] => Some (ps_set_revision (PersistedProjectState_new (MkProjectId id)) n)
       | _ => None
       end;
     conversation_to_vec c :=
       match c with
       | {| schema := 1; session_creation_pending := true; agent_session := None;
            turn_pending := false; title := None; messages := [] |} =>
         Some [revision c; conversation_uuid (conversation_id c); project_uuid (conversation_project c)]
       | _ => None
       end;
     conversation_from_slice bs :=
       match bs with
       | [n; id; project] =>
         Some (set_revision (pending_creation (MkConversationId id) (MkProjectId project)) n)
       | _ => None
       end |}.

#[local] Instance ex_store_json_laws : StateJsonLaws.
Proof.
  constructor; cbn.
  - intros [sc n [id] [] [] []] bs Hs; cbn in Hs; repeat case_match; by simplify_eq/=.
  - intros [sc n [id] [project] [] [] [] [] []] bs Hs; cbn in Hs; repeat case_match; by simplify_eq/=.
Qed.

Definition ex_store : LocalProjectStateStore :=
  {| app_private_root := u "/data"; project_state_root := u "/data/vibecoder/state/projects";
     conversation_state_root := u "/data/vibecoder/state/conversations"; gate_poisoned := false |}.

Definition ex_dirs : list (list str) :=
  [[u "data"]; [u "data"; PRODUCT_ROOT_NAME]; [u "data"; PRODUCT_ROOT_NAME; STATE_ROOT_NAME];
   [u "data"; PRODUCT_ROOT_NAME; STATE_ROOT_NAME; PROJECT_STATE_ROOT_NAME];
   [u "data"; PRODUCT_ROOT_NAME; STATE_ROOT_NAME; CONVERSATION_STATE_ROOT_NAME]].
Definition ex_fs : fs := {| nodes := list_to_map ((fun p => (p, NDir)) <$> ex_dirs : list (list str * node)); fds := ∅; positions := ∅ |}.

Definition ex_chat : PersistedConversation := pending_creation (MkConversationId 2) (MkProjectId 1).
Definition ex_state : PersistedProjectState := PersistedProjectState_new (MkProjectId 1).

(** A history and its answers. *)
Definition ex_history : list (event core_sig) :=
  [Ev (CvCreate ex_chat) (Ok tt);
   Ev (CvUpdate 0 ex_chat) (Ok (set_revision ex_chat 1));
   Ev (CvUpdate 0 ex_chat) (Err (persistence_error (u "conversation_revision_conflict")));
   Ev (CvLoad (MkProjectId 1) (MkConversationId 2)) (Ok (Some (set_revision ex_chat 1)));
   Ev (CvList (MkProjectId 1) 10) (Ok [MkConversationId 2]);
   Ev (PsCreate ex_state) (Ok tt);
   Ev (PsList 10) (Ok [MkProjectId 1]);
   Ev (CvRemoveProject (MkProjectId 1)) (Ok tt);
   Ev (CvLoad (MkProjectId 1) (MkConversationId 2)) (Ok None)].

Lemma played (synced : bool) h s :
  (play ex_store 0 synced (ev_call <$> h) s).1 = h ->
  steps (served ex_store 0) s h (play ex_store 0 synced (ev_call <$> h) s).2.
Proof. intros Hh. rewrite <-Hh at 1. apply play_served. Qed.

Lemma store_refines_map_witness :
  exists s', steps (map_step) (store_view ex_store ex_fs) ex_history (store_view ex_store s') /\
             Forall stores ex_history.
Proof.
  eexists. eapply store_refines_map. apply (played true). by vm_compute.
Defined.

(** A revision is given out again after a removal. *)
Definition ex_again : list (event core_sig) :=
  [Ev (CvRemove (MkProjectId 1) (MkConversationId 2)) (Ok tt); Ev (CvCreate ex_chat) (Ok tt)].

Lemma revision_given_once_witness :
  Exists (fun e => removes_conversation (MkProjectId 1, MkConversationId 2) e = true) ex_again.
Proof.
  set (s := (play ex_store 0 true [CvCreate ex_chat] ex_fs).2).
  apply (revision_given_once ex_store 0 s 0 ex_chat (set_revision ex_chat 1) ex_again ex_chat
    (set_revision ex_chat 1) (play ex_store 0 true
      [CvUpdate 0 ex_chat; CvRemove (MkProjectId 1) (MkConversationId 2); CvCreate ex_chat;
       CvUpdate 0 ex_chat] s).2).
  - done.
  - apply (played true). by vm_compute.
Defined.

(** An update can fail and be committed.  When the directory cannot be synced after
    the rename, the update is reported as failed, but the next revision is what is
    loaded, and repeating the update is refused as a revision conflict. *)
Theorem failed_update_can_be_committed :
  exists s', steps (served ex_store 0) ex_fs
    [Ev (CvCreate ex_chat) (Err (persistence_error (u "conversation_parent_sync_failed")));
     Ev (CvUpdate 0 ex_chat) (Err (persistence_error (u "conversation_parent_sync_failed")));
     Ev (CvLoad (MkProjectId 1) (MkConversationId 2)) (Ok (Some (set_revision ex_chat 1)));
     Ev (CvUpdate 0 ex_chat) (Err (persistence_error (u "conversation_revision_conflict")))] s'.
Proof. eexists. apply (played false). by vm_compute. Qed.

(** A conversation more than a listing goes through. *)
Definition ex_some (n : nat) : list (ProjectId * ConversationId) :=
  (fun i => (MkProjectId 1, MkConversationId (N.of_nat i))) <$> seq 0 n.
Definition ex_many : list (ProjectId * ConversationId) := ex_some (N.to_nat 8193).
Definition ex_holding (keys : list (ProjectId * ConversationId)) : fs :=
  {| nodes := list_to_map ((fun key => (entry ex_store conversation_kind key,
                                        NFile PRIVATE_FILE_MODE [])) <$> keys);
     fds := ∅; positions := ∅ |}.

Lemma ex_some_NoDup n : NoDup (ex_some n).
Proof. apply NoDup_fmap_2; [|apply NoDup_seq]. intros i j [= Hij]. by apply Nat2N.inj. Qed.

Lemma ex_holding_present keys :
  NoDup keys ->
  Forall (fun key => conversation_slots (store_view ex_store (ex_holding keys)) key <> Absent) keys.
Proof.
  intros Hnd. apply Forall_forall. intros key Hin. apply (view_absent ex_store conversation_kind).
  exists (NFile PRIVATE_FILE_MODE []). cbn [nodes ex_holding]. apply elem_of_list_to_map_1.
  - rewrite <-list_fmap_compose. apply NoDup_fmap_2; [|done].
    intros a b Hab. by apply (entry_inj ex_store conversation_kind).
  - apply list_elem_of_fmap. by exists key.
Qed.

Lemma full_directory_blocks_projects_witness :
  forall s', ~ served ex_store 0 (ex_holding ex_many) (Ev (CvRemoveProject (MkProjectId 7)) (Ok tt)) s'.
Proof.
  apply (full_directory_blocks_projects ex_store 0 (ex_holding ex_many) ex_many).
  - apply ex_some_NoDup.
  - apply ex_holding_present, ex_some_NoDup.
  - unfold len, ex_many, ex_some. by rewrite length_fmap, length_seq, N2Nat.id.
Defined.
