(* ===== verification/ModelTurn.v ===== *)
(** * A turn answered directly by the gateway ([vibecoder-core])

    [run_persisted_model_conversation_turn_inner]: no agent, one inference.  A
    cancellation handle drops the inference while one of its calls is awaited, and
    wins over a reply that arrives before the reply is stored. *)
From S2P Require Import Prelude RustStr Domain Persistence Conversation Checkpoint Program.
From S2P Require Import CoreCalls BackendTask CheckpointOps ConversationTurns.

(** What a successful inference returns. *)
Record inference_reply := {
  ir_model : ModelRef;
  ir_response : GatewayChatResponse;
  ir_context_messages : N;
  ir_context_bytes : N
}.

(** [inference_future]. *)
Definition inference (c : GatewayCredential) (requested_model_id : str) (max_output_tokens : N)
    (conversation : PersistedConversation) : core (Result inference_reply) :=
  try profile <- call_ (GwProfile c);
  try _ <- give (require_deterministic_gateway_profile profile);
  try catalog <- call_ (GwListModels c);
  try model <- give (select_exact_gateway_model catalog requested_model_id);
  try (messages, context_bytes) <- give (build_gateway_conversation_context conversation);
  try response <- call_ (GwChat c {| req_model := model; req_messages := messages;
                                     max_output_tokens := max_output_tokens |});
  try _ <- give (validate_conversation_model_response model response);
  Ret (Ok {| ir_model := model; ir_response := response;
             ir_context_messages := len messages; ir_context_bytes := context_bytes |}).

(** The future, dropped at whichever awaited call the cancellation is noticed. *)
Fixpoint race {A} (p : core (Result A)) : core (Result A) :=
  match p with
  | Ret r => Ret r
  | Call c k =>
    do answer <- call_ (Racing c);
    match answer with
    | Some r => race (k r)
    | None => Ret (Err Cancelled)
    end
  end.

Definition await_conversation_model_inference_or_cancel {A} (p : core (Result A)) :
    core (Result A) :=
  do requested <- call_ CancelRequested;
  if (requested : bool) then Ret (Err Cancelled) else race p.

Record ConversationModelTurnOutcome := {
  mt_model : ModelRef;
  mt_observed_model_id : option str;
  mt_finish_reason : option str;
  mt_usage : option TokenUsage;
  assistant_text : str;
  context_messages_sent : N;
  context_bytes_sent : N
}.

Definition finish_model_turn (conversation : PersistedConversation)
    (result : Result inference_reply) : core (Result ConversationModelTurnOutcome) :=
  match result with
  | Ok r =>
    let response := ir_response r in
    try updated <- give (answered conversation (response_text response));
    try _ <- update_conversation conversation updated;
    Ret (Ok {| mt_model := ir_model r;
               mt_observed_model_id := observed_model_id response;
               mt_finish_reason := finish_reason response;
               mt_usage := usage response;
               assistant_text := response_text response;
               context_messages_sent := ir_context_messages r;
               context_bytes_sent := ir_context_bytes r |})
  | Err error =>
    try _ <- clear_pending (db "conversation_model_turn_failure_cleanup_failed") conversation;
    Ret (Err error)
  end.

Definition run_persisted_model_conversation_turn_inner (self : VibeCoderCore)
    (project_id : ProjectId) (id : ConversationId) (c : GatewayCredential)
    (requested_model_id : str) (max_output_tokens : N) (prompt : str) (cancellable : bool) :
    core (Result ConversationModelTurnOutcome) :=
  try _ <- give (validate_conversation_model_id requested_model_id);
  try _ <- give (validate_conversation_model_prompt prompt);
  if (max_output_tokens =? 0) || (MAX_CONVERSATION_MODEL_OUTPUT_TOKENS <? max_output_tokens) then
    Ret (Err (invalid_request (u "conversation_model_output_tokens_invalid")))
  else
    with_lifecycle project_id
      (try _ <- give (conversation_store self);
       try project <- call_ (WsOpenProject project_id);
       try _ <- call_ (WsVerifyProject project);
       try conversation <- load_conversation project_id id;
       try _ <- give (ready_session self conversation);
       try _ <- give (ensure_conversation_model_turn_capacity conversation prompt);
       try armed <- give (arm conversation prompt);
       try conversation <- update_conversation conversation armed;
       let future := inference c requested_model_id max_output_tokens conversation in
       do result <- (if cancellable then await_conversation_model_inference_or_cancel future
                     else future);
       do cancelled <- (if cancellable then call_ CancelRequested else Ret false);
       finish_model_turn conversation (if cancelled then Err Cancelled else result)).

Definition run_persisted_model_conversation_turn (self : VibeCoderCore) (project_id : ProjectId)
    (id : ConversationId) (c : GatewayCredential) (requested_model_id : str)
    (max_output_tokens : N) (prompt : str) : core (Result ConversationModelTurnOutcome) :=
  run_persisted_model_conversation_turn_inner self project_id id c requested_model_id
    max_output_tokens prompt false.

Definition run_persisted_model_conversation_turn_cancellable (self : VibeCoderCore)
    (project_id : ProjectId) (id : ConversationId) (c : GatewayCredential)
    (requested_model_id : str) (max_output_tokens : N) (prompt : str) :
    core (Result ConversationModelTurnOutcome) :=
  run_persisted_model_conversation_turn_inner self project_id id c requested_model_id
    max_output_tokens prompt true.

Definition run_persisted_model_conversation_turn_resolved (self : VibeCoderCore)
    (reference : option SecretReference) (project_id : ProjectId) (id : ConversationId)
    (requested_model_id : str) (max_output_tokens : N) (prompt : str) :
    core (Result ConversationModelTurnOutcome) :=
  try c <- resolve_credential reference;
  run_persisted_model_conversation_turn self project_id id c requested_model_id
    max_output_tokens prompt.

(** The inference calls nothing but the gateway. *)
Definition gateway_call (c : core_call) : bool :=
  match c with GwProfile _ | GwListModels _ | GwChat _ _ => true | _ => false end.

Lemma inference_gateway_only c model tokens conversation :
  calls_only gateway_call (inference c model tokens conversation).
Proof.
  unfold inference, give.
  repeat first [apply calls_only_bind; [|intros ?]|by apply calls_only_call_|exact I|case_match].
Qed.
