(* ===== verification/ExplicitLoop.v ===== *)
(** * The explicit agent loop ([vibecoder-core])

    A bounded number of agent turns for one user message, under one pending marker.
    Every way out except a verified completion restores the checkpoint taken before
    the loop. *)
From S2P Require Import Prelude RustStr Domain Routing TaskOrchestration Persistence.
From S2P Require Import Conversation Checkpoint Program CoreCalls BackendTask CheckpointOps.
From S2P Require Import ConversationTurns.

(** The guard; its two flags are shared and read by calls. *)
Record ExplicitAgentLoopGuard := {
  guard_project_id : ProjectId;
  guard_conversation_id : ConversationId;
  guard_policy : ExplicitAgentLoopPolicy
}.

Definition ExplicitAgentLoopGuard_new (project_id : ProjectId) (id : ConversationId)
    (policy : ExplicitAgentLoopPolicy) : Result ExplicitAgentLoopGuard :=
  let? policy := ExplicitAgentLoopPolicy_validate policy in
  Ok {| guard_project_id := project_id; guard_conversation_id := id; guard_policy := policy |}.

Definition begin_once : core (Result unit) :=
  do first <- call_ BeginOnce;
  Ret (if (first : bool) then Ok tt
       else Err (invalid_request (u "explicit_agent_loop_guard_already_used"))).

Record PersistedExplicitAgentLoopOutcome := {
  stop_reason : ExplicitAgentLoopStopReason;
  turns_completed : N;
  total_tool_calls : N;
  total_successful_mutations : N;
  baseline_tree_sha256 : str;
  final_tree_sha256 : str;
  workspace_committed : bool;
  rollback_performed : bool;
  loop_cleanup_complete : bool;
  loop_assistant_text : str
}.

(** The counters of the loop. *)
Record loop_state := {
  previous_tree : str;
  occurrences : gmap str N;
  turns : N;
  tool_calls : N;
  mutations : N
}.

Definition start_loop_state (baseline_tree : str) : loop_state :=
  {| previous_tree := baseline_tree; occurrences := {[baseline_tree := 1]};
     turns := 0; tool_calls := 0; mutations := 0 |}.

Definition count_turn (s : loop_state) : loop_state :=
  {| previous_tree := previous_tree s; occurrences := occurrences s;
     turns := saturating_add u8_max (turns s) 1; tool_calls := tool_calls s;
     mutations := mutations s |}.

Definition count_tools (observed successful : N) (s : loop_state) : loop_state :=
  {| previous_tree := previous_tree s; occurrences := occurrences s; turns := turns s;
     tool_calls := saturating_add usize_max (tool_calls s) observed;
     mutations := saturating_add usize_max (mutations s) successful |}.

(** The occurrence of [tree] counted, and its new count. *)
Definition count_tree (tree : str) (s : loop_state) : N * loop_state :=
  let n := saturating_add u8_max (default 0 (occurrences s !! tree)) 1 in
  (n, {| previous_tree := previous_tree s; occurrences := <[tree := n]> (occurrences s);
         turns := turns s; tool_calls := tool_calls s; mutations := mutations s |}).

Definition move_to (tree : str) (s : loop_state) : loop_state :=
  {| previous_tree := tree; occurrences := occurrences s; turns := turns s;
     tool_calls := tool_calls s; mutations := mutations s |}.

Definition recover_failed_persisted_explicit_agent_loop (self : VibeCoderCore)
    (t : started_turn) (verification : option CheckpointId) : core (Result unit) :=
  recover_pending self
    (checkpoint_error (u "explicit_agent_loop_rollback_failed_pending_preserved"))
    (db "explicit_agent_loop_failure_cleanup_failed_pending_preserved")
    t (st_session t) verification.

Definition fail_loop {A} (self : VibeCoderCore) (t : started_turn)
    (verification : option CheckpointId) (error : VibeCoderError) : core (Result A) :=
  try _ <- recover_failed_persisted_explicit_agent_loop self t verification;
  Ret (Err error).

Definition finish_persisted_explicit_agent_loop_non_success (self : VibeCoderCore)
    (t : started_turn) (verification : option CheckpointId)
    (reason : ExplicitAgentLoopStopReason) (s : loop_state) :
    core (Result PersistedExplicitAgentLoopOutcome) :=
  if bool_decide (reason = Completed) then
    Ret (Err (invalid_request
                (u "explicit_agent_loop_completed_cannot_use_rollback_finish")))
  else
    let project := st_project t in
    let baseline := cm_checkpoint_id (st_checkpoint t) in
    try _ <-
      or_error
        (checkpoint_error (u "explicit_agent_loop_terminal_rollback_failed_pending_preserved"))
        (rollback_project_checkpoint_for_pending_conversation self project baseline
           (conversation_id (st_conversation t)) (st_session t));
    let text := explicit_agent_loop_stop_message reason in
    try completed <- give (answered (st_conversation t) text);
    try _ <-
      or_error (db "explicit_agent_loop_terminal_persistence_failed_pending_preserved")
        (update_conversation (st_conversation t) completed);
    do verification_removed <-
      match verification with
      | Some id => do r <- remove_project_checkpoint self (pr_id project) id; Ret (is_ok r)
      | None => Ret true
      end;
    do baseline_removed <- remove_project_checkpoint self (pr_id project) baseline;
    Ret (Ok {| stop_reason := reason; turns_completed := turns s;
               total_tool_calls := tool_calls s;
               total_successful_mutations := mutations s;
               baseline_tree_sha256 := tree_sha256 (st_checkpoint t);
               final_tree_sha256 := tree_sha256 (st_checkpoint t);
               workspace_committed := false; rollback_performed := true;
               loop_cleanup_complete := verification_removed && is_ok baseline_removed;
               loop_assistant_text := text |}).

(** The [Complete] arm. *)
Definition complete_loop (self : VibeCoderCore) (t : started_turn) (s : loop_state)
    (verification : CheckpointMetadata) (body : str) :
    core (Result PersistedExplicitAgentLoopOutcome) :=
  let verified := Some (cm_checkpoint_id verification) in
  match answered (st_conversation t) body with
  | Err error => fail_loop self t verified error
  | Ok completed =>
    do updated <- update_conversation (st_conversation t) completed;
    match updated with
    | Err error => fail_loop self t verified error
    | Ok _ =>
      do cleanup <- remove_both self (pr_id (st_project t)) (cm_checkpoint_id verification)
                      (cm_checkpoint_id (st_checkpoint t));
      Ret (Ok {| stop_reason := Completed; turns_completed := turns s;
                 total_tool_calls := tool_calls s;
                 total_successful_mutations := mutations s;
                 baseline_tree_sha256 := tree_sha256 (st_checkpoint t);
                 final_tree_sha256 := tree_sha256 verification;
                 workspace_committed := true; rollback_performed := false;
                 loop_cleanup_complete := cleanup;
                 loop_assistant_text := body |})
    end
  end.

(** What an iteration decides: to return, or to go on with new counters. *)
Inductive iteration_result :=
| Return (r : Result PersistedExplicitAgentLoopOutcome)
| NextIteration (s : loop_state).

Definition returning (p : core (Result PersistedExplicitAgentLoopOutcome)) :
    core iteration_result :=
  do r <- p; Ret (Return r).

(** The [Continue] arm. *)
Definition continue_loop (self : VibeCoderCore) (policy : ExplicitAgentLoopPolicy)
    (t : started_turn) (s : loop_state) (verification : CheckpointMetadata)
    (successful_mutations iteration : N) : core iteration_result :=
  let verified := Some (cm_checkpoint_id verification) in
  let tree := tree_sha256 verification in
  if (successful_mutations =? 0) || str_eqb tree (previous_tree s) then
    returning (fail_loop self t verified
      (agent_error (u "explicit_agent_loop_continue_without_workspace_progress")))
  else
    let (occurrence, s) := count_tree tree s in
    if max_same_workspace_occurrences policy <=? occurrence then
      returning (finish_persisted_explicit_agent_loop_non_success self t verified
                   RepeatedWorkspaceState s)
    else
      let s := move_to tree s in
      do _ <- remove_project_checkpoint self (pr_id (st_project t))
                (cm_checkpoint_id verification);
      if iteration =? max_turns policy then
        returning (finish_persisted_explicit_agent_loop_non_success self t None
                     TurnBudgetExhausted s)
      else Ret (NextIteration s).

(** The part of an iteration after its turn has returned an outcome. *)
Definition finish_iteration (self : VibeCoderCore) (policy : ExplicitAgentLoopPolicy)
    (t : started_turn) (s : loop_state) (iteration : N) (outcome : BackendTaskOutcome)
    (events : list AgentEvent) : core iteration_result :=
  let turn := out_turn outcome in
  let s := count_turn s in
  do cancelled <- call_ CancelRequested;
  if (cancelled : bool) then
    returning (finish_persisted_explicit_agent_loop_non_success self t None
                 LoopStopCancelled s)
  else
    match parse_explicit_agent_loop_response (tr_text turn) with
    | Err error => returning (fail_loop self t None error)
    | Ok (decision, body) =>
      match validate_agent_loop_iteration_turn turn (observe_all events) with
      | Err error => returning (fail_loop self t None error)
      | Ok (observed, _, successful) =>
        let s := count_tools observed successful s in
        do verification <-
          create_project_checkpoint self (st_project t) AgentChangeVerification;
        match verification with
        | Err error => returning (fail_loop self t None error)
        | Ok verification =>
          let verified := Some (cm_checkpoint_id verification) in
          if max_total_tool_calls policy <? tool_calls s then
            returning (finish_persisted_explicit_agent_loop_non_success self t verified
                         ToolBudgetExhausted s)
          else
            do cancelled <- call_ CancelRequested;
            if (cancelled : bool) then
              returning (finish_persisted_explicit_agent_loop_non_success self t verified
                           LoopStopCancelled s)
            else
              match decision with
              | Continue =>
                continue_loop self policy t s verification successful iteration
              | Complete => returning (complete_loop self t s verification body)
              end
        end
      end
    end.

(** One pass of [for iteration in 1..=max_turns]. *)
Definition loop_iteration (self : VibeCoderCore) (c : GatewayCredential)
    (route_policy : ModelRoutePolicyConfig) (policy : ExplicitAgentLoopPolicy) (prompt : str)
    (t : started_turn) (s : loop_state) (iteration : N) : core iteration_result :=
  do cancelled <- call_ CancelRequested;
  if (cancelled : bool) then
    returning (finish_persisted_explicit_agent_loop_non_success self t None
                 LoopStopCancelled s)
  else
    match build_explicit_agent_loop_iteration_prompt prompt iteration (max_turns policy) with
    | Err error => returning (fail_loop self t None error)
    | Ok iteration_prompt =>
      do (action, events) <-
        run_backend_task self (st_project t) (st_session t) c route_policy iteration_prompt;
      match action with
      | Ok outcome => finish_iteration self policy t s iteration outcome events
      | Err Cancelled =>
        do cancelled <- call_ CancelRequested;
        if (cancelled : bool) then
          returning (finish_persisted_explicit_agent_loop_non_success self t None
                       LoopStopCancelled s)
        else returning (fail_loop self t None Cancelled)
      | Err error => returning (fail_loop self t None error)
      end
    end.

(** [remaining] iterations are left, the next one is [iteration]. *)
Fixpoint loop_iterations (self : VibeCoderCore) (c : GatewayCredential)
    (route_policy : ModelRoutePolicyConfig) (policy : ExplicitAgentLoopPolicy) (prompt : str)
    (t : started_turn) (remaining : nat) (s : loop_state) (iteration : N) :
    core (Result PersistedExplicitAgentLoopOutcome) :=
  match remaining with
  | O => Ret (Err (agent_error (u "explicit_agent_loop_unreachable_terminal_state")))
  | S remaining =>
    do r <- loop_iteration self c route_policy policy prompt t s iteration;
    match r with
    | Return r => Ret r
    | NextIteration s =>
      loop_iterations self c route_policy policy prompt t remaining s (iteration + 1)
    end
  end.

Definition run_persisted_explicit_agent_loop (self : VibeCoderCore)
    (guard : ExplicitAgentLoopGuard) (c : GatewayCredential)
    (route_policy : ModelRoutePolicyConfig) (prompt : str) :
    core (Result PersistedExplicitAgentLoopOutcome) :=
  try _ <- give (validate_conversation_model_prompt prompt);
  try _ <- begin_once;
  do cancelled <- call_ CancelRequested;
  if (cancelled : bool) then Ret (Err Cancelled)
  else
    try _ <- require_action_agent (u "explicit_agent_loop");
    try _ <- give (conversation_store self);
    try t <- start_action_turn self (guard_project_id guard) (guard_conversation_id guard) prompt;
    loop_iterations self c route_policy (guard_policy guard) prompt t
      (N.to_nat (max_turns (guard_policy guard)))
      (start_loop_state (tree_sha256 (st_checkpoint t))) 1.

Definition run_persisted_explicit_agent_loop_resolved (self : VibeCoderCore)
    (reference : option SecretReference) (guard : ExplicitAgentLoopGuard)
    (route_policy : ModelRoutePolicyConfig) (prompt : str) :
    core (Result PersistedExplicitAgentLoopOutcome) :=
  try c <- resolve_credential reference;
  run_persisted_explicit_agent_loop self guard c route_policy prompt.

(** ** Cancelling *)

Definition request_explicit_agent_loop_cancel (guard : ExplicitAgentLoopGuard) :
    core (Result unit) :=
  do _ <- call_ RequestCancel;
  try _ <- call_ (InvalidateAuthorizations (guard_project_id guard)); Ret (Ok tt).

Definition cancel_active_explicit_agent_loop_turn (self : VibeCoderCore)
    (guard : ExplicitAgentLoopGuard) : core (Result unit) :=
  try _ <- request_explicit_agent_loop_cancel guard;
  try project <- call_ (WsOpenProject (guard_project_id guard));
  try _ <- call_ (WsVerifyProject project);
  try _ <- give (conversation_store self);
  try conversation <-
    load_conversation (guard_project_id guard) (guard_conversation_id guard);
  if negb (turn_pending conversation) then
    Ret (Err (invalid_request (u "explicit_agent_loop_no_active_turn")))
  else
    try session <- give (ok_or (agent_session conversation)
                           (db "conversation_session_not_persisted"));
    if negb (str_eqb (as_runtime_id session) (runtime_id self)) then
      Ret (Err (db "conversation_session_runtime_mismatch"))
    else
      try _ <- call_ (AgVerifyBinding project (as_session_id session));
      call_ (AgCancel (as_session_id session)).
