(* ===== verification/CoreExample.v ===== *)
(** * A concrete environment for the controller

    Answers for every call, so that the witnesses can execute whole operations: one
    conversation kept by the store, numbered snapshots whose tree differs each
    time, and an agent that answers every turn alike. *)
From S2P Require Import Prelude RustStr RustPath Domain WorkspaceContract Routing CommandPolicy.
From S2P Require Import ProcessContract Persistence Conversation Checkpoint Program CoreCalls.
From S2P Require Import BackendTask CheckpointOps ConversationTurns TurnFacts.

Definition ex_core : VibeCoderCore :=
  {| runtime_id := u "jcode"; has_process_runtime := true; has_project_state_store := true;
     has_conversation_store := true; has_checkpoint_store := true |}.
Definition ex_project : ProjectRef := {| pr_id := MkProjectId 1; pr_root := u "/p/1" |}.

Record ex_world := {
  w_conversation : PersistedConversation;
  w_snapshots : N;
  w_gate : gset ProjectId
}.

Definition ex_start : ex_world :=
  {| w_conversation := ex_conversation; w_snapshots := 0; w_gate := ∅ |}.

(** The agent's behaviour: the events and the result of every turn. *)
Record ex_agent := {
  ea_events : list AgentEvent;
  ea_result : Result TurnResult
}.

Definition ex_capabilities : RuntimeCapabilities :=
  {| sessions := true; streaming_events := true; permissions := true; model_selection := true;
     file_tools := true; command_tools := false |}.
Definition ex_bridge : ModelGatewayBridgeIdentity :=
  {| bridge_gateway_id := u "omniroute"; transport_provider := u "vibecoder";
     exact_model_id_passthrough := true |}.
Definition ex_profile : GatewayExecutionProfile :=
  {| profile_gateway_id := u "omniroute"; upstream_version := u "3.8.50";
     profile_id := u "exact"; profile_sha256 := replicate 64 97;
     exact_model_only := true; hidden_model_reroutes_disabled := true |}.
Definition ex_workspace : WorkspaceCapabilities :=
  {| read_write_files := true; managed_project_roots := true; canonical_path_containment := true;
     text_edit := true; project_search := true; ws_commands := false;
     process_isolation := false; resource_limits := false; snapshots := true;
     max_file_read_bytes := 1; max_file_write_bytes := 1 |}.
Definition ex_snapshot (n : N) (project : ProjectRef) (reason : CheckpointReason) :
    CheckpointMetadata :=
  {| cm_schema := 1; cm_checkpoint_id := MkCheckpointId n; cm_project_id := pr_id project;
     created_unix_ms := 0; cm_reason := reason; file_count := 1; total_bytes := 1;
     tree_sha256 := replicate 63 97 ++ [97 + n] |}.
Definition ex_restored (p : ProjectRef) (id : CheckpointId) : RollbackResult :=
  {| rb_project_id := pr_id p; rb_checkpoint_id := id; restored_file_count := 1;
     restored_total_bytes := 1; rb_tree_sha256 := [] |}.
Definition bridged (m : ModelRef) : ModelRef :=
  mkModelRef (mr_id m) None (Some (u "vibecoder")).

Section answers.
Context (agent : ex_agent).

Definition no : VibeCoderError := InvalidRequest (u "not in this example").

Fixpoint ex_answer (c : core_call) (w : ex_world) : core_resp c * ex_world :=
  match c as c return core_resp c * ex_world with
  | TryAcquire p =>
    if bool_decide (p ∈ w_gate w) then (Err (InvalidRequest (u "project_lifecycle_busy")), w)
    else (Ok tt, {| w_conversation := w_conversation w; w_snapshots := w_snapshots w;
                    w_gate := {[p]} ∪ w_gate w |})
  | Release p => (tt, {| w_conversation := w_conversation w; w_snapshots := w_snapshots w;
                         w_gate := w_gate w ∖ {[p]} |})
  | RequestCommand _ _ _ => (Err no, w)
  | DecideCommand _ _ _ _ => (Err no, w)
  | RevokePending _ | InvalidateAuthorizations _ | ProcActive _ => (Ok 0, w)
  | WsCapabilities => (ex_workspace, w)
  | WsCreateProject _ | WsOpenProject _ => (Ok ex_project, w)
  | WsResolvePath _ _ | WsFileExists _ _ | WsReadFile _ _ _ | WsEditText _ _ _ _ | WsApplyPatch _ _ _
  | WsListFiles _ _ | WsSearchText _ _ _ => (Err no, w)
  | AgBridge => (Some ex_bridge, w)
  | AgEnsureReady => (Ok ex_capabilities, w)
  | AgCreateSession _ => (Ok (MkSessionId (u "s1")), w)
  | AgRunTurn _ _ _ => ((ea_events agent, ea_result agent), w)
  | AgListModels _ => (Ok (bridged <$> ex_catalog), w)
  | AgCorroborate _ m => (Ok m, w)
  | GwProfile _ => (Ok ex_profile, w)
  | GwHealth _ => (Err no, w)
  | GwListModels _ => (Ok ex_catalog, w)
  | GwChat _ request =>
    (Ok {| requested_model_id := mr_id (req_model request); observed_model_id := None;
           response_text := u "hello again"; finish_reason := None; usage := None |}, w)
  | ResolveSecret _ => (Ok (u "key"), w)
  | ProcStart _ _ _ => (Err no, w)
  | PsUpdate _ s => (Ok s, w)
  | PsLoad _ => (Ok None, w)
  | PsList _ => (Ok [], w)
  | CvUpdate n c =>
    let stored := set_revision c (n + 1) in
    (Ok stored, {| w_conversation := stored; w_snapshots := w_snapshots w; w_gate := w_gate w |})
  | CvLoad _ _ => (Ok (Some (w_conversation w)), w)
  | CvList _ _ => (Ok [conversation_id (w_conversation w)], w)
  | CkCreate project reason =>
    (Ok (ex_snapshot (w_snapshots w) project reason),
     {| w_conversation := w_conversation w; w_snapshots := w_snapshots w + 1;
        w_gate := w_gate w |})
  | CkList _ _ => (Ok [], w)
  | CkRollback p id => (Ok (ex_restored p id), w)
  | CancelRequested => (false, w)
  | RequestCancel => (tt, w)
  | BeginOnce => (true, w)
  | NewUuid => (0, w)
  | Racing c => let (r, w) := ex_answer c w in (Some r, w)
  | WsRemoveProject _ | WsVerifyProject _ | WsCreateDirAll _ _ | WsAtomicWrite _ _ _
  | ValidateEnvelope _ | AgResumeSession _ _ | AgVerifyBinding _ _ | AgQuiescent _
  | AgRefresh _ _ | AgCancel _ | AgSetModel _ _ | ProcCancel _ | PsCreate _ | PsRemove _
  | CvCreate _ | CvRemove _ _ | CvRemoveProject _ | CkRemove _ _ => (Ok tt, w)
  end.

Definition ex_run {A} (p : core A) : A * list (event core_sig) * ex_world :=
  simulate ex_answer p ex_start.

Lemma ex_runs {A} (p : core A) : runs p (ex_run p).1.2 (ex_run p).1.1.
Proof. apply simulate_runs. Qed.

Lemma ex_stores {A} (p : core A) : Forall stores (ex_run p).1.2.
Proof. apply simulate_env. intros c w. by destruct c. Qed.
End answers.

(** An agent that writes one file and says so. *)
Definition ex_writer (reply : str) : ex_agent :=
  {| ea_events := [ToolStarted (u "write") (u "c1");
                   ToolFinished (u "write") (u "c1") true [] None];
     ea_result := Ok {| tr_text := reply; tr_cancelled := false;
                        tr_tool_calls := [{| tc_call_id := u "c1"; tc_tool := u "write";
                                             tc_output := []; tc_error := None |}];
                        tr_usage := None |} |}.
