(* ===== verification/BackendTaskFacts.v ===== *)
(** * What a backend task asks of the agent ([vibecoder-core])

    A monitor for [run_backend_task]: which route each call is about, what has been
    corroborated of it, and when a failed turn is tried on the next one; and that
    the fuel of [backend_loop] is enough. *)
From S2P Require Import Prelude RustStr Domain WorkspaceContract Routing TaskOrchestration.
From S2P Require Import CommandPolicy ProcessContract Persistence Conversation Checkpoint.
From S2P Require Import Program CoreCalls BackendTask TurnFacts CoreExample.

(** How far the current route is. *)
Inductive attempt_stage :=
| Chosen
| Asked (catalog : list ModelRef)
| Corroborated (catalog : list ModelRef) (active : ModelRef)
| Revoked (catalog : list ModelRef) (active : ModelRef)
| Ran (progress : bool) (r : Result TurnResult)
| Settled (progress : bool) (r : Result TurnResult)
| Over.

Record task_view := {
  tv_bridge : option ModelGatewayBridgeIdentity;
  tv_policy : option ResolvedModelRoutePolicy;
  tv_route : N;
  tv_stage : attempt_stage;
  tv_events : list AgentEvent
}.

Definition tv_start : task_view :=
  {| tv_bridge := None; tv_policy := None; tv_route := 0; tv_stage := Chosen; tv_events := [] |}.

Definition with_stage (v : task_view) (i : N) (st : attempt_stage) (events : list AgentEvent) :
    task_view :=
  {| tv_bridge := tv_bridge v; tv_policy := tv_policy v; tv_route := i; tv_stage := st;
     tv_events := tv_events v ++ events |}.

(** The catalog call, as the machine is asked it. *)
Definition asked (bridge : option ModelGatewayBridgeIdentity) (catalog : list ModelRef) :
    task_call :=
  match bridge with
  | Some bridge => CallBridged catalog (transport_provider bridge)
  | None => CallCatalog catalog
  end.

(** A failure of class [f] on route [i] is configured to go on with the next. *)
Definition falls_back (policy : ResolvedModelRoutePolicy) (i : N) (f : RouteFailureClass) : Prop :=
  (exists t, safe_fallback_trigger f = Some t /\ t ∈ fallback_on policy) /\
  i + 1 < len (routes policy).

(** When the agent may be asked for its catalog: once for every route, the next one
    only after the last one was not listed or its turn failed without progress. *)
Definition may_ask (policy : ResolvedModelRoutePolicy) (i : N) (st : attempt_stage) : Prop :=
  match st with
  | Chosen => True
  | Asked catalog => falls_back policy i ModelUnavailable /\
      exists model, routes policy !! N.to_nat i = Some model /\ mr_id model ∉ mr_id <$> catalog
  | Settled progress (Err e) => progress = false /\ falls_back policy i (classify_agent_failure e)
  | _ => False
  end.

Definition asked_route (i : N) (st : attempt_stage) : N :=
  match st with Chosen => i | _ => i + 1 end.

(** ** The machine at the top of the loop *)

Section machine.
Context (policy : ResolvedModelRoutePolicy) (pid : ProjectId) (session : SessionId).

Definition owned (m : BackendTaskStateMachine) : Prop :=
  bt_project_id m = pid /\ bt_session_id m = session.

Definition running_at (h : store) (m : BackendTaskStateMachine) (i : N) : Prop :=
  task_inv policy (h, m) /\ owned m /\ attempt m = Some (pristine i).

Definition ready_at (h : store) (m : BackendTaskStateMachine) (i : N) : Prop :=
  running_at h m i /\ phase m = Prepared.

Lemma running_at_route h m i :
  running_at h m i -> routes policy !! N.to_nat i = Some (selected_model m).
Proof. intros ((_ & Ha & _) & _ & E). rewrite E in Ha. by destruct Ha as (_ & _ & ?). Qed.

Lemma ready_unobserved h m i : ready_at h m i -> progress_seen (current_progress h m) = false.
Proof.
  intros (((_ & _ & Ho) & _) & Hp). unfold current_progress.
  destruct (observer m); [|done]. destruct Ho as [Ho _]. congruence.
Qed.

(** A failure decision: what it says and where it leaves the machine. *)
Lemma decide_at h m i f :
  running_at h m i ->
  let (r, m') := decide_failure h m f in
  match r with
  | Ok RetryConfiguredFallback =>
    progress_seen (current_progress h m) = false /\ falls_back policy i f /\
    ready_at h m' (i + 1)
  | Ok (StopTask _) =>
    progress_seen (current_progress h m) = true \/ ~ falls_back policy i f
  | Err _ => False
  end.
Proof.
  intros H. pose proof (running_at_route _ _ _ H) as Hroute. destruct H as (Hinv & Hown & Ha).
  pose proof (decide_failure_inv _ _ _ f Hinv) as Hinv'.
  destruct (decision_in_bounds policy i f _ Hroute) as (d & Hd & Hnext).
  rewrite (decide_failure_eq _ _ _ _ _ Hinv Ha) in Hinv' |- *. cbv zeta in *.
  destruct (progress_seen _); [by left|]. cbn [route_index pristine] in *. rewrite Hd in *.
  destruct d as [next model|reason].
  - destruct (Hnext _ _ eq_refl) as [-> _]. apply decision_fallback_iff in Hd as (_ & Ht & _ & Hm).
    split_and!; [done|split; [done|]|by split_and!].
    apply lookup_lt_Some in Hm. cbn in Hm. unfold len. lia.
  - right. intros [Ht Hl].
    destruct (lookup_lt_is_Some_2 (routes policy) (N.to_nat (i + 1))) as [model Hm];
      [unfold len in Hl; lia|].
    assert (decision_after_failure policy (pristine i) f = Ok (Fallback (pristine (i + 1)) model))
      by (by apply decision_fallback_iff).
    congruence.
Qed.

Lemma scan_catalog_None sel seen catalog :
  scan_catalog sel seen None catalog = Ok None -> sel ∉ mr_id <$> catalog.
Proof.
  assert (Hg : forall exact, scan_catalog sel seen exact catalog = Ok None ->
            exact = None /\ sel ∉ mr_id <$> catalog).
  { revert seen. induction catalog as [|x catalog IH]; intros seen exact; cbn.
    - intros [= ->]. split; [done|set_solver].
    - case_bool_decide; [done|]. intros [He Hn]%IH. case_bool_decide; [done|]. set_solver. }
  apply Hg.
Qed.

(** The answer of the agent's catalog. *)
Lemma catalog_at h m i bridge catalog :
  ready_at h m i ->
  let (r, m') :=
    match bridge with
    | Some bridge => corroborate_bridged_agent_catalog m catalog (transport_provider bridge)
    | None => corroborate_agent_catalog m catalog
    end in
  match r with
  | Ok true => catalog_names (selected_model m) (asked bridge catalog) /\
      running_at h m' i /\ phase m' = AgentCatalogCorroborated /\
      selected_model m' = selected_model m
  | Ok false => m' = m /\ mr_id (selected_model m) ∉ mr_id <$> catalog
  | Err _ => True
  end.
Proof.
  intros ((Hinv & Hown & Ha) & Hp).
  assert (Hm : running_at h (set_phase AgentCatalogCorroborated m) i).
  { split_and!; [|done|done]. apply set_phase_inv; rewrite ?Hp; done. }
  destruct bridge as [bridge|];
    [unfold corroborate_bridged_agent_catalog|unfold corroborate_agent_catalog];
    cbv zeta; cbn [asked];
    (lazymatch goal with |- context [match ?x with _ => _ end] =>
       destruct x as [[]|] eqn:E end); try done.
  1,3: split; [exact (confirms_catalog_names m (CallBridged _ _) E) ||
               exact (confirms_catalog_names m (CallCatalog _) E)|done].
  all: split; [done|]; apply (scan_catalog_None _ ∅).
  all: [> unfold check_bridged_agent_catalog in E|unfold check_agent_catalog in E].
  all: apply seq_ok in E as [_ E]; destruct (require_provider _ _) as [x|]; [|done].
  - apply if_err_ok in E as [_ E].
    destruct (scan_catalog _ _ _ _) as [[y|]|]; [by apply if_err_ok in E as [_ ?]|done..].
  - destruct (scan_catalog _ _ _ _) as [[y|]|]; [by apply seq_ok in E as [_ ?]|done..].
Qed.

(** The turn's events reach the observer of this attempt. *)
Lemma observed_at h m o events i :
  running_at h m i -> observer m = Some o ->
  let h' := foldl (fun h event => observe h o event) h events in
  running_at h' m i /\
  progress_seen (current_progress h' m) =
    progress_seen (current_progress h m) || existsb is_progress events.
Proof.
  intros Hr Ho. cbv zeta. revert h Hr. induction events as [|e events IH]; intros h Hr; cbn.
  { by rewrite orb_false_r. }
  assert (Hr' : running_at (observe h o e) m i).
  { destruct Hr as (Hinv & Hown). split; [|done].
    exact (run_call_inv _ _ _ (CallObserve o e) Hinv). }
  destruct (IH _ Hr') as [H1 ->]. split; [exact H1|].
  destruct Hr as ((_ & _ & Hobs) & _). rewrite Ho in Hobs. destruct Hobs as [_ Hlt].
  apply lookup_lt_is_Some in Hlt as [p Hp]. unfold current_progress, snapshot. rewrite Ho.
  unfold observe. rewrite list_lookup_alter_eq, Hp. cbn [fmap option_fmap option_map default id].
  by rewrite observe_progress_seen, orb_assoc.
Qed.

Lemma active_at h m i active :
  running_at h m i -> phase m = AgentCatalogCorroborated ->
  let (r, m') := corroborate_active_model m active in
  match r with
  | Ok _ => active_names (selected_model m) (CallActive active) /\ running_at h m' i /\
      phase m' = ActiveModelCorroborated /\ selected_model m' = selected_model m
  | Err _ => True
  end.
Proof.
  intros (Hinv & Hown & Ha) Hp. unfold corroborate_active_model.
  destruct (let? _ := _ in _) as [[]|] eqn:E; [|done].
  apply seq_ok in E as [_ E]. split; [by apply (confirms_active_names m)|].
  split; [|done]. split; [|done]. apply set_phase_inv; rewrite ?Hp; done.
Qed.

Lemma begin_at h m i :
  running_at h m i -> phase m = ActiveModelCorroborated ->
  exists o h' m', begin_inference h m = (Ok o, (h', m')) /\ running_at h' m' i /\
    observer m' = Some o /\ phase m' = Running /\ selected_model m' = selected_model m /\
    progress_seen (current_progress h' m') = false.
Proof.
  intros (Hinv & Hown & Ha) Hp. pose proof (run_call_inv _ _ _ CallBegin Hinv) as Hinv'.
  cbn [run_call snd] in Hinv'. unfold begin_inference in *.
  rewrite (proj2 (require_phase_ok _ _) Hp) in *.
  do 3 eexists. split; [done|]. split; [by split_and!|]. split_and!; try done.
  unfold current_progress, snapshot. cbn. by rewrite list_lookup_middle.
Qed.
End machine.

Section monitor.
Context (project : ProjectRef) (session : SessionId) (config : ModelRoutePolicyConfig)
  (prompt : str).

(** The route the view is at. *)
Definition route_is (v : task_view) (model : ModelRef) : Prop :=
  exists policy, tv_policy v = Some policy /\
    routes policy !! N.to_nat (tv_route v) = Some model.

Definition task_ok (v : task_view) (e : event core_sig) : Prop :=
  match ev_call e with
  | AgListModels s => s = session /\
      exists policy, tv_policy v = Some policy /\ may_ask policy (tv_route v) (tv_stage v)
  | AgCorroborate s model => s = session /\ route_is v model /\
      exists catalog, tv_stage v = Asked catalog /\
        catalog_names model (asked (tv_bridge v) catalog)
  | InvalidateAuthorizations p => p = pr_id project /\
      match tv_stage v with Corroborated _ _ | Ran _ _ => True | _ => False end
  | AgRunTurn s p m => s = session /\ p = prompt /\
      exists model catalog active, m = Some model /\ route_is v model /\
        tv_stage v = Revoked catalog active /\
        catalog_names model (asked (tv_bridge v) catalog) /\
        active_names model (CallActive active)
  | TryAcquire p | Release p => p = pr_id project
  | WsVerifyProject _ | ProcActive _ | AgQuiescent _ | AgVerifyBinding _ _ | AgEnsureReady
  | GwProfile _ | AgBridge | GwListModels _ | NewUuid => tv_stage v = Chosen
  | _ => False
  end.

Definition task_next (v : task_view) (e : event core_sig) : task_view :=
  match ev_call e as c return resp c -> task_view with
  | AgBridge => fun b =>
    {| tv_bridge := b; tv_policy := tv_policy v; tv_route := 0; tv_stage := Chosen;
       tv_events := [] |}
  | GwListModels _ => fun r =>
    {| tv_bridge := tv_bridge v;
       tv_policy := match r with
                    | Ok catalog =>
                      match resolve config catalog with Ok p => Some p | Err _ => None end
                    | Err _ => None
                    end;
       tv_route := 0; tv_stage := Chosen; tv_events := [] |}
  | AgListModels _ => fun r =>
    with_stage v (asked_route (tv_route v) (tv_stage v))
      (match r with Ok catalog => Asked catalog | Err _ => Over end) []
  | AgCorroborate _ _ => fun r =>
    with_stage v (tv_route v)
      (match tv_stage v, r with
       | Asked catalog, Ok active => Corroborated catalog active
       | _, _ => Over
       end) []
  | InvalidateAuthorizations _ => fun r =>
    with_stage v (tv_route v)
      (match tv_stage v, r with
       | Corroborated catalog active, Ok _ => Revoked catalog active
       | Ran progress t, Ok _ => Settled progress t
       | _, _ => Over
       end) []
  | AgRunTurn _ _ _ => fun r =>
    with_stage v (tv_route v) (Ran (existsb is_progress r.1) r.2) r.1
  | _ => fun _ => v
  end (ev_resp e).

(** How the task ends. *)
Definition task_ends (v : task_view) (r : TaskResult) : Prop :=
  r.2 = tv_events v /\
  match r.1 with
  | Ok o => exists progress,
      tv_stage v = Settled progress (Ok (out_turn o)) /\ tr_cancelled (out_turn o) = false /\
      route_is v (out_model o) /\ out_attempt_index o = tv_route v /\
      out_project_id o = pr_id project /\ out_session_id o = session
  | Err e =>
    match tv_stage v with
    | Settled _ (Ok turn) => e = Cancelled /\ tr_cancelled turn = true
    | Settled progress (Err failure) => e = failure /\
        (progress = true \/
         forall policy, tv_policy v = Some policy ->
           ~ falls_back policy (tv_route v) (classify_agent_failure failure))
    | Chosen | Asked _ | Corroborated _ _ | Over => True
    | Revoked _ _ | Ran _ _ => False
    end
  end.

Abbreviation twp := (wp (fun _ => True) task_ok task_next).

(** ** The loop *)

Section loop.
Context (policy : ResolvedModelRoutePolicy) (bridge : option ModelGatewayBridgeIdentity).

(** The view between two attempts: the next one is on route [i]. *)
Definition between (v : task_view) (delivered : list AgentEvent) (i : N) : Prop :=
  tv_policy v = Some policy /\ tv_bridge v = bridge /\ tv_events v = delivered /\
  asked_route (tv_route v) (tv_stage v) = i /\ may_ask policy (tv_route v) (tv_stage v).

(** The view in the middle of one. *)
Definition during (v : task_view) (delivered : list AgentEvent) (i : N) (st : attempt_stage) :
    Prop :=
  tv_policy v = Some policy /\ tv_bridge v = bridge /\ tv_events v = delivered /\
  tv_route v = i /\ tv_stage v = st.

Lemma during_next v delivered i st st' events :
  during v delivered i st -> during (with_stage v i st' events) (delivered ++ events) i st'.
Proof. intros (? & ? & <- & ? & ?). by split_and!. Qed.

Lemma during_next' v delivered i st st' :
  during v delivered i st -> during (with_stage v i st' []) delivered i st'.
Proof. intros (? & ? & <- & ? & ?). split_and!; try done. apply app_nil_r. Qed.

Lemma ends_with v delivered i st e :
  during v delivered i st ->
  match st with Chosen | Asked _ | Corroborated _ _ | Over => True | _ => False end ->
  task_ends v (Err e, delivered).
Proof. intros (_ & _ & Hev & _ & Hst) H. split; [done|]. cbn. rewrite Hst. by destruct st. Qed.

(** What follows the turn. *)
Lemma turn_ends (next : BackendTaskStateMachine -> core TaskResult) h task delivered i v progress
    res :
  running_at policy (pr_id project) session h task i -> phase task = Running ->
  progress_seen (current_progress h task) = progress ->
  during v delivered i (Settled progress res) ->
  (forall task', ready_at policy (pr_id project) session h task' (i + 1) ->
     between v delivered (i + 1) -> twp (next task') task_ends v) ->
  twp (match res with
       | Ok turn => Ret (complete task turn, delivered)
       | Err error =>
         let (decision, task) := decide_failure h task (classify_agent_failure error) in
         match decision with
         | Err e => Ret (Err e, delivered)
         | Ok RetryConfiguredFallback => next task
         | Ok (StopTask _) => Ret (Err error, delivered)
         end
       end) task_ends v.
Proof.
  intros Hr Hph Hprog Hv Hnext. pose proof (running_at_route _ _ _ _ _ _ Hr) as Hroute.
  pose proof Hv as (Hpol & Hbr & Hev & Hi & Hst). destruct res as [turn|error].
  - split; [done|]. pose proof Hr as (_ & [Hp Hs] & Ha).
    cbn [fst]. unfold complete. rewrite (proj2 (require_phase_ok _ _) Hph).
    destruct (tr_cancelled turn) eqn:Hc; [by rewrite Hst|]. rewrite Ha. cbn.
    exists progress. split_and!; try done. exists policy. by rewrite Hi.
  - pose proof (decide_at _ _ _ _ _ _ (classify_agent_failure error) Hr) as Hd.
    destruct (decide_failure _ _ _) as [[[|reason]|e] task']; [..|done].
    + destruct Hd as (Hp & Hf & Hr'). apply Hnext; [done|].
      rewrite Hprog in Hp. subst progress. split_and!; try done; rewrite Hst; cbn; [lia|].
      by rewrite Hi.
    + split; [done|]. cbn. rewrite Hst. split; [done|]. rewrite Hprog in Hd.
      destruct Hd as [?|Hn]; [by left|right]. intros p Hp. rewrite Hpol in Hp.
      injection Hp as <-. by rewrite Hi.
Qed.

(** A turn on a corroborated route: authorizations are revoked before and after. *)
Lemma attempt_turn (next : store -> BackendTaskStateMachine -> list AgentEvent -> core TaskResult)
    h3 task3 o model delivered i v2 catalog active :
  running_at policy (pr_id project) session h3 task3 i -> observer task3 = Some o ->
  phase task3 = Running -> progress_seen (current_progress h3 task3) = false ->
  routes policy !! N.to_nat i = Some model ->
  catalog_names model (asked bridge catalog) -> active_names model (CallActive active) ->
  during v2 delivered i (Corroborated catalog active) ->
  (forall h task delivered v, ready_at policy (pr_id project) session h task (i + 1) ->
     between v delivered (i + 1) -> twp (next h task delivered) task_ends v) ->
  twp (do answer <- call_ (InvalidateAuthorizations (pr_id project));
       match answer with
       | Err e => Ret (Err e, delivered)
       | Ok _ =>
         do (events, turn_result) <- call_ (AgRunTurn session prompt (Some model));
         let h := foldl (fun h event => observe h o event) h3 events in
         let delivered := delivered ++ events in
         do answer <- call_ (InvalidateAuthorizations (pr_id project));
         match answer with
         | Err e => Ret (Err e, delivered)
         | Ok _ =>
           match turn_result with
           | Ok turn => Ret (complete task3 turn, delivered)
           | Err error =>
             let (decision, task) := decide_failure h task3 (classify_agent_failure error) in
             match decision with
             | Err e => Ret (Err e, delivered)
             | Ok RetryConfiguredFallback => next h task delivered
             | Ok (StopTask _) => Ret (Err error, delivered)
             end
           end
         end
       end) task_ends v2.
Proof.
  intros Hr3 Ho Hp3 Hprog Hroute Hnames Hact Hv2 Hnext.
  apply wp_bind, wp_call_. intros answer _.
  pose proof Hv2 as (Hpol & Hbr & _ & Hi & Hst). split; [by split; [|rewrite Hst]|].
  set (v3 := task_next v2 _).
  assert (Hv3 : during v3 delivered i
            (match answer with Ok _ => Revoked catalog active | Err _ => Over end)).
  { subst v3. cbn. rewrite Hst, Hi. exact (during_next' _ _ _ _ _ Hv2). }
  clearbody v3. clear Hv2 Hpol Hbr Hi Hst v2.
  destruct answer as [?|e]; [|by eapply ends_with].
  apply wp_bind, wp_call_. intros [events res] _.
  pose proof Hv3 as (Hpol & Hbr & _ & Hi & Hst). split.
  { split_and!; [done|done|]. exists model, catalog, active.
    rewrite Hbr. split_and!; try done. exists policy. by rewrite Hi. }
  set (v4 := task_next v3 _).
  assert (Hv4 : during v4 (delivered ++ events) i (Ran (existsb is_progress events) res)).
  { subst v4. cbn. rewrite Hi. exact (during_next _ _ _ _ _ _ Hv3). }
  clearbody v4. clear Hv3 Hpol Hbr Hi Hst v3. cbv beta iota zeta.
  destruct (observed_at _ _ _ _ _ _ events _ Hr3 Ho) as [Hr4 Hprog4].
  rewrite Hprog in Hprog4. cbn [orb] in Hprog4.
  set (h4 := foldl _ h3 events) in *.
  apply wp_bind, wp_call_. intros answer _.
  pose proof Hv4 as (Hpol & Hbr & _ & Hi & Hst). split; [by split; [|rewrite Hst]|].
  set (v5 := task_next v4 _).
  assert (Hv5 : during v5 (delivered ++ events) i
            (match answer with Ok _ => Settled (existsb is_progress events) res | Err _ => Over end)).
  { subst v5. cbn. rewrite Hst, Hi. exact (during_next' _ _ _ _ _ Hv4). }
  clearbody v5. clear Hv4 Hpol Hbr Hi Hst v4.
  destruct answer as [?|e]; [|by eapply ends_with].
  apply (turn_ends (fun task => next h4 task (delivered ++ events)) h4 task3 _ i v5
           (existsb is_progress events)); try done.
  intros task' Hr' Hb. by apply Hnext.
Qed.

Lemma loop_ok stuck fuel h task delivered i v :
  ready_at policy (pr_id project) session h task i -> N.of_nat fuel + i = len (routes policy) ->
  between v delivered i ->
  twp (backend_loop stuck fuel project session prompt bridge h task delivered) task_ends v.
Proof.
  revert h task delivered i v. induction fuel as [|fuel IH]; intros h task delivered i v Hr Hf Hv.
  { destruct Hr as [Hr _]. apply running_at_route, lookup_lt_Some in Hr. unfold len in Hf. lia. }
  pose proof (running_at_route _ _ _ _ _ _ (proj1 Hr)) as Hroute.
  cbn [backend_loop]. apply wp_bind, wp_call_. intros answer _.
  destruct Hv as (Hpol & Hbr & Hev & Hi & Hask). split; [by split; [|exists policy]|].
  destruct answer as [catalog|e]; [|split; [cbn; by rewrite app_nil_r|done]].
  set (v1 := task_next v _).
  assert (Hv1 : during v1 delivered i (Asked catalog)).
  { by split_and!; [| |cbn; rewrite app_nil_r| |]. }
  clearbody v1. clear Hpol Hbr Hev Hi Hask v.
  pose proof (catalog_at _ _ _ _ _ _ bridge catalog Hr) as Hc.
  destruct (match bridge with Some _ => _ | None => _ end) as [[[]|e] task1];
    [..|by eapply ends_with].
  2:{ destruct Hc as [-> Hn].
      pose proof (decide_at _ _ _ _ _ _ ModelUnavailable (proj1 Hr)) as Hd.
      destruct (decide_failure _ _ _) as [[[|reason]|e] task']; [|by eapply ends_with|done].
      destruct Hd as (_ & Hfb & Hr'). apply (IH _ _ _ (i + 1)); [done|lia|].
      destruct Hv1 as (? & ? & ? & Hi & Hst). split_and!; try done; rewrite Hst; cbn; [lia|].
      rewrite Hi. eauto. }
  destruct Hc as (Hnames & Hr1 & Hp1 & Hm1). clear Hr.
  apply wp_bind, wp_call_. intros answer _.
  pose proof Hv1 as (Hpol & Hbr & _ & Hi & Hst). split.
  { split; [done|]. split; [exists policy; by rewrite Hi|]. exists catalog. by rewrite Hbr. }
  set (v2 := task_next v1 _).
  assert (Hv2 : during v2 delivered i
            (match answer with Ok a => Corroborated catalog a | Err _ => Over end)).
  { subst v2. cbn. rewrite Hst, Hi. exact (during_next' _ _ _ _ _ Hv1). }
  clearbody v2. clear Hv1 Hpol Hbr Hi Hst v1.
  destruct answer as [active|e]; [|case_match; by eapply ends_with].
  pose proof (active_at _ _ _ _ _ _ active Hr1 Hp1) as Ha. rewrite Hm1 in Ha.
  destruct (corroborate_active_model task1 active) as [[[]|e] task2]; [|by eapply ends_with].
  destruct Ha as (Hact & Hr2 & Hp2 & Hm2).
  destruct (begin_at _ _ _ _ _ _ Hr2 Hp2) as (o & h3 & task3 & -> & Hr3 & Ho & Hp3 & Hm3 & Hprog).
  apply (attempt_turn (fun h task delivered => backend_loop stuck fuel project session prompt
    bridge h task delivered) h3 task3 o (selected_model task) delivered i v2 catalog active);
    try done.
  intros h' task' delivered' v' Hr' Hb. apply (IH _ _ _ (i + 1)); [done|lia|done].
Qed.
End loop.

(** ** The whole task *)

Lemma prepared_at policy fresh task :
  prepare fresh (pr_id project) session prompt policy = Some (Ok task) ->
  ready_at policy (pr_id project) session [] task 0 /\ route_policy task = policy.
Proof.
  intros Hp. pose proof (prepare_inv _ _ _ _ _ _ [] Hp) as Hinv.
  unfold prepare in Hp. destruct (_ || _); [done|]. destruct (primary policy); [|done].
  injection Hp as <-. by split; [split; [split_and!|]|].
Qed.

(** Calls made before the route policy is resolved leave the view's stage. *)
Definition preparing (v : task_view) : Prop :=
  tv_policy v = None /\ tv_route v = 0 /\ tv_stage v = Chosen /\ tv_events v = [].

Ltac prep_step Hv :=
  lazymatch goal with
  | |- twp (Ret _) _ _ => cbn [wp]
  | |- twp (give _) _ _ => cbn [wp give]
  | |- twp (bind _ _) _ _ => apply wp_bind
  | |- twp (match ?x with _ => _ end) _ _ => destruct x eqn:?
  | |- twp (call_ (GwListModels _)) _ _ => fail
  | |- twp (call_ AgBridge) _ _ => fail
  | |- twp (call_ ?c) _ _ =>
    apply (wp_call_ _ _ _ c); intros ? _; (split; [exact Hv|]);
    cbn [task_next ev_call ev_resp]
  end.

Lemma prepare_ok self c stuck :
  twp (prepare_backend_task self project session c config prompt stuck)
    (fun v r =>
       match r with
       | Ok (task, bridge) => between (route_policy task) bridge v [] 0 /\
           ready_at (route_policy task) (pr_id project) session [] task 0
       | Err e => tv_stage v = Chosen /\ tv_events v = []
       end) tv_start.
Proof.
  assert (H0 : tv_stage tv_start = Chosen) by done.
  unfold prepare_backend_task, ensure_no_active_project_process. repeat (prep_step H0); try done.
  all: apply (wp_call_ _ _ _ AgBridge); intros bridge _; split; [exact H0|].
  all: repeat (prep_step H0); try done.
  all: lazymatch goal with |- twp (call_ ?c) _ _ => apply (wp_call_ _ _ _ c) end.
  all: intros [catalog|e] _; (split; [exact H0|]); repeat (prep_step H0); try done.
  all: subst; match goal with H : prepare _ _ _ _ _ = _ |- _ => apply prepared_at in H as [Hr <-] end.
  all: split; [|exact Hr].
  all: match goal with H : resolve _ _ = _ |- _ => unfold between; cbn; rewrite H end.
  all: by split_and!.
Qed.

Lemma whole_task_ok stuck self c :
  twp (run_backend_task_with stuck self project session c config prompt) task_ends tv_start.
Proof.
  unfold run_backend_task_with, lifecycle_scope. apply wp_bind, wp_call_. intros r _.
  split; [done|]. cbn [task_next ev_call ev_resp]. destruct r as [x|e]; [|done].
  apply wp_bind, wp_bind. eapply wp_mono; [apply prepare_ok|].
  intros v prepared Hv.
  assert (Hrel : forall a, task_ends v a ->
            twp (do _ <- call_ (Release (pr_id project)); Ret a) task_ends v).
  { intros a Ha. apply wp_bind, wp_call_. by intros [] _. }
  destruct prepared as [[task bridge]|e].
  - destruct Hv as [Hb Hr]. eapply wp_mono; [eapply loop_ok; [exact Hr|unfold len; lia|exact Hb]|].
    intros v' a Ha. apply wp_bind, wp_call_. by intros [] _.
  - destruct Hv as [Hst Hev]. cbn [wp]. apply Hrel. split; [done|]. cbn. by rewrite Hst.
Qed.
End monitor.

(** ** Fuel *)

Lemma loop_fuel policy project session prompt bridge stuck stuck' fuel h task delivered i :
  ready_at policy (pr_id project) session h task i -> N.of_nat fuel + i = len (routes policy) ->
  same (backend_loop stuck fuel project session prompt bridge h task delivered)
    (backend_loop stuck' fuel project session prompt bridge h task delivered).
Proof.
  revert h task delivered i. induction fuel as [|fuel IH]; intros h task delivered i Hr Hf.
  { destruct Hr as [Hr _]. apply running_at_route, lookup_lt_Some in Hr. unfold len in Hf. lia. }
  cbn [backend_loop]. apply same_bind; [apply same_refl|]. intros [catalog|e]; [|apply same_refl].
  pose proof (catalog_at _ _ _ _ _ _ bridge catalog Hr) as Hc.
  destruct (match bridge with Some _ => _ | None => _ end) as [[[]|e] task1];
    [..|apply same_refl].
  - destruct Hc as (_ & Hr1 & Hp1 & _).
    apply same_bind; [apply same_refl|]. intros [active|e]; [|apply same_refl].
    pose proof (active_at _ _ _ _ _ _ active Hr1 Hp1) as Ha.
    destruct (corroborate_active_model task1 active) as [[[]|e] task2]; [|apply same_refl].
    destruct Ha as (_ & Hr2 & Hp2 & _).
    destruct (begin_at _ _ _ _ _ _ Hr2 Hp2) as (o & h3 & task3 & -> & Hr3 & Ho & _).
    apply same_bind; [apply same_refl|]. intros [n|e]; [|apply same_refl].
    apply same_bind; [apply same_refl|]. intros [events res]. cbv zeta.
    destruct (observed_at _ _ _ _ _ _ events _ Hr3 Ho) as [Hr4 _].
    apply same_bind; [apply same_refl|]. intros [m|e]; [|apply same_refl].
    destruct res as [turn|error]; [apply same_refl|].
    pose proof (decide_at _ _ _ _ _ _ (classify_agent_failure error) Hr4) as Hd.
    destruct (decide_failure _ _ _) as [[[|reason]|e] task']; try apply same_refl.
    destruct Hd as (_ & _ & Hr'). apply (IH _ _ _ (i + 1)); [done|lia].
  - destruct Hc as [-> _].
    pose proof (decide_at _ _ _ _ _ _ ModelUnavailable (proj1 Hr)) as Hd.
    destruct (decide_failure _ _ _) as [[[|reason]|e] task']; try apply same_refl.
    destruct Hd as (_ & _ & Hr'). apply (IH _ _ _ (i + 1)); [done|lia].
Qed.

Ltac same_step :=
  lazymatch goal with
  | |- same ?p ?p => apply same_refl
  | |- same (bind (Ret _) _) _ => cbn [bind]
  | |- same (bind _ _) (bind _ _) => apply same_bind; [|intros ?]
  | |- same (match ?x with _ => _ end) _ => destruct x eqn:?
  end.

Lemma prepare_same self project session c config prompt stuck stuck' :
  same (prepare_backend_task self project session c config prompt stuck)
    (prepare_backend_task self project session c config prompt stuck').
Proof.
  unfold prepare_backend_task, give. repeat same_step.
  match goal with H : resolve _ _ = Ok _ |- _ =>
    eapply prepare_total in H as [r Hr] end.
  by rewrite Hr in *.
Qed.

Lemma task_same stuck stuck' self project session c config prompt :
  same (run_backend_task_with stuck self project session c config prompt)
    (run_backend_task_with stuck' self project session c config prompt).
Proof.
  unfold run_backend_task_with, lifecycle_scope.
  apply same_bind; [apply same_refl|]. intros [x|e]; [|apply same_refl].
  apply same_bind; [|intros ?; apply same_refl].
  eapply (same_bind_wp (fun _ => True) (task_ok project session prompt) (task_next config));
    [done|apply prepare_same|].
  eapply wp_mono; [apply prepare_ok|]. intros v [[task bridge]|e]; [|intros _; apply same_refl].
  intros [_ Hr]. eapply loop_fuel; [exact Hr|unfold len; lia].
Qed.

(** ** Properties *)

(** C4. In every run of a backend task: the routes of the policy resolved on the
    gateway's catalog are tried in order, each at most once; a turn is run only on
    the current route, after the agent's catalog has named it and the agent has then
    reported it active with the same provider, and with the project's command
    authorizations revoked just before and again just after it; the next route is
    tried only when the agent does not list the last one, or its turn failed without
    any text or tool event and the policy falls back on that failure.  The result is
    the outcome of the last turn on its route, or, after a failed turn, its own
    error, and only if no fallback was allowed; the handler was given exactly the
    events of all the turns. *)
Theorem backend_task_routes (self : VibeCoderCore) (project : ProjectRef) (session : SessionId)
    (c : GatewayCredential) (config : ModelRoutePolicyConfig) (prompt : str)
    (tr : list (event core_sig)) (r : TaskResult) :
  runs (run_backend_task self project session c config prompt) tr r ->
  accepted (task_ok project session prompt) (task_next config) tv_start tr /\
  task_ends project session (foldl (task_next config) tv_start tr) r.
Proof.
  intros Hr. eapply wp_sound; [apply whole_task_ok|exact Hr|]. by apply Forall_forall.
Qed.

(** C31. A backend task always ends with a result of its own: the loop has as much
    fuel as the policy has routes, and what the model would answer if that ran out,
    or if there were no route to start with, has no influence on any run. *)
Theorem backend_task_terminates (stuck stuck' : VibeCoderError) (self : VibeCoderCore)
    (project : ProjectRef) (session : SessionId) (c : GatewayCredential)
    (config : ModelRoutePolicyConfig) (prompt : str) (tr : list (event core_sig))
    (r : TaskResult) :
  runs (run_backend_task_with stuck self project session c config prompt) tr r <->
  runs (run_backend_task_with stuck' self project session c config prompt) tr r.
Proof. apply same_runs, task_same. Qed.

Abbreviation ex_task_run agent :=
  (ex_run agent (run_backend_task ex_core ex_project (MkSessionId (u "s1")) Anonymous ex_config
     (u "add a test"))).

Lemma backend_task_routes_witness :
  exists o, (ex_task_run (ex_writer (u "added"))).1.1.1 = Ok o /\
    (ex_task_run (ex_writer (u "added"))).1.1.2 = ea_events (ex_writer (u "added")) /\
    route_is (foldl (task_next ex_config) tv_start (ex_task_run (ex_writer (u "added"))).1.2)
      (out_model o).
Proof.
  destruct (backend_task_routes _ _ _ _ _ _ _ _ (ex_runs (ex_writer (u "added"))
              (run_backend_task ex_core ex_project (MkSessionId (u "s1")) Anonymous ex_config
                 (u "add a test")))) as [_ [He Ho]].
  assert (exists o, (ex_task_run (ex_writer (u "added"))).1.1.1 = Ok o) as [o Hr]
    by (eexists; vm_compute; reflexivity).
  exists o. split; [exact Hr|]. split; [vm_compute; reflexivity|]. rewrite Hr in Ho.
  destruct Ho as (progress & _ & _ & Ho & _). exact Ho.
Defined.
