(* ===== verification/ModelTurnSafety.v ===== *)
(** * What a model turn sends and stores ([vibecoder-core])

    A monitor for the turns answered directly by the gateway: what is sent, what is
    stored of the answer, and what a cancellation does to either. *)
From S2P Require Import Prelude RustStr StrFacts Domain Routing TaskOrchestration Persistence.
From S2P Require Import Conversation Checkpoint Program CoreCalls BackendTask CheckpointOps.
From S2P Require Import ConversationTurns TurnFacts ConversationFacts ModelTurn CoreExample.

Record model_turn_state := {
  ms_stored : option PersistedConversation;   (* as the store returned it with the marker *)
  ms_sent : bool;                             (* an inference has been requested *)
  ms_reply : option GatewayChatResponse;
  ms_cancelled : bool;                        (* what the last look at the handle said *)
  ms_final : option PersistedConversation;    (* what a later update has stored *)
  ms_refused : option VibeCoderError          (* the store's answer to a refused update *)
}.

Definition ms_start : model_turn_state :=
  {| ms_stored := None; ms_sent := false; ms_reply := None; ms_cancelled := false;
     ms_final := None; ms_refused := None |}.

Section monitor.
Context (requested : str) (tokens : N).

(** A reply to the model asked for, and of that model where it says so, with a text
    that can be stored. *)
Definition reply_usable (reply : GatewayChatResponse) : Prop :=
  requested_model_id reply = requested /\
  (forall id, observed_model_id reply = Some id -> id = requested) /\
  message_text_invalid (response_text reply) = false.

Definition chat_ok (s : model_turn_state) (req : GatewayChatRequest) : Prop :=
  ms_sent s = false /\
  exists conv, ms_stored s = Some conv /\ context_of conv (req_messages req) /\
    context_bounded (req_messages req) /\
    mr_id (req_model req) = requested /\ max_output_tokens req = tokens.

Definition model_ok (s : model_turn_state) (e : event core_sig) : Prop :=
  match ev_call e with
  | CvUpdate n c =>
    match ms_stored s with
    | None => turn_pending c = true
    | Some conv =>
      ms_final s = None /\ n = revision conv /\
      (c = set_turn_pending conv false \/
       exists reply, ms_reply s = Some reply /\ ms_cancelled s = false /\
         answered conv (response_text reply) = Ok c)
    end
  | GwChat _ req | Racing (GwChat _ req) => chat_ok s req
  | TryAcquire _ | Release _ | WsOpenProject _ | WsVerifyProject _ | CvLoad _ _
  | CancelRequested => True
  | GwProfile _ | GwListModels _ | Racing (GwProfile _) | Racing (GwListModels _) =>
    ms_sent s = false
  | _ => False
  end.

Definition with_reply (s : model_turn_state) (r : option GatewayChatResponse) :
    model_turn_state :=
  {| ms_stored := ms_stored s; ms_sent := true; ms_reply := r; ms_cancelled := ms_cancelled s;
     ms_final := ms_final s; ms_refused := ms_refused s |}.

Definition to_option {A} (r : Result A) : option A :=
  match r with Ok a => Some a | Err _ => None end.

Definition after_update (s : model_turn_state) (c : PersistedConversation) (r : Result PersistedConversation) :
    model_turn_state :=
  match r, ms_stored s with
  | Ok conv, None =>
    {| ms_stored := Some conv; ms_sent := ms_sent s; ms_reply := ms_reply s;
       ms_cancelled := ms_cancelled s; ms_final := None; ms_refused := ms_refused s |}
  | Ok _, Some _ =>
    {| ms_stored := ms_stored s; ms_sent := ms_sent s; ms_reply := ms_reply s;
       ms_cancelled := ms_cancelled s; ms_final := Some c; ms_refused := ms_refused s |}
  | Err e, _ =>
    {| ms_stored := ms_stored s; ms_sent := ms_sent s; ms_reply := ms_reply s;
       ms_cancelled := ms_cancelled s; ms_final := ms_final s; ms_refused := Some e |}
  end.

Definition model_next (s : model_turn_state) (e : event core_sig) : model_turn_state :=
  match ev_call e as c return resp c -> model_turn_state with
  | CvUpdate _ c => after_update s c
  | GwChat _ _ => fun r => with_reply s (to_option r)
  | Racing (GwChat _ _) => fun r =>
    with_reply s (match r with Some r => to_option r | None => None end)
  | CancelRequested => fun b =>
    {| ms_stored := ms_stored s; ms_sent := ms_sent s; ms_reply := ms_reply s;
       ms_cancelled := b; ms_final := ms_final s; ms_refused := ms_refused s |}
  | _ => fun _ => s
  end (ev_resp e).

(** Nothing that could be stored: the turn was cancelled, or no usable reply came. *)
Definition no_reply (s : model_turn_state) (e : VibeCoderError) : Prop :=
  (ms_cancelled s = true /\ e = Cancelled) \/
  forall reply, ms_reply s = Some reply -> ~ reply_usable reply.

(** How the turn ends. *)
Definition model_turn_ends (s : model_turn_state) (r : Result ConversationModelTurnOutcome) :
    Prop :=
  match r with
  | Ok o =>
    exists conv reply c, ms_stored s = Some conv /\ ms_reply s = Some reply /\
      reply_usable reply /\ answered conv (response_text reply) = Ok c /\
      ms_final s = Some c /\ assistant_text o = response_text reply /\
      ms_cancelled s = false /\ ms_refused s = None
  | Err e =>
    ms_stored s = None \/
    (exists conv, ms_stored s = Some conv /\ ms_final s = Some (set_turn_pending conv false) /\
       no_reply s e) \/
    (ms_final s = None /\ exists refused, ms_refused s = Some refused /\
       (e = refused \/ e = db "conversation_model_turn_failure_cleanup_failed"))
  end.

Abbreviation mwp := (wp stores model_ok model_next).

(** ** The inference *)

(** The marker is stored, nothing sent yet. *)
Definition stored (conv : PersistedConversation) (sent : bool)
    (reply : option GatewayChatResponse) (s : model_turn_state) : Prop :=
  ms_stored s = Some conv /\ ms_sent s = sent /\ ms_reply s = reply /\
  ms_final s = None /\ ms_refused s = None.

(** What the inference leaves: a reply it returns is the one the gateway gave, one it
    does not return was not usable. *)
Definition inferred (conv : PersistedConversation) (s : model_turn_state)
    (r : Result inference_reply) : Prop :=
  exists sent reply, stored conv sent reply s /\
    match r with
    | Ok i => reply = Some (ir_response i) /\ reply_usable (ir_response i)
    | Err _ => forall x, reply = Some x -> ~ reply_usable x
    end.

Lemma inferred_err conv sent s e : stored conv sent None s -> inferred conv s (Err e).
Proof. intros H. by exists sent, None. Qed.

Lemma select_exact_id catalog id m : select_exact_gateway_model catalog id = Ok m -> mr_id m = id.
Proof.
  unfold select_exact_gateway_model.
  destruct (filter _ catalog) as [|x [|]] eqn:E; [done| |done]. intros [= <-].
  assert (Hx : x ∈ filter (fun c => mr_id c = id) catalog) by (rewrite E; by left).
  by apply list_elem_of_filter in Hx as [? _].
Qed.

Lemma response_usable m r :
  mr_id m = requested ->
  validate_conversation_model_response m r = Ok tt <-> reply_usable r.
Proof.
  intros <-. unfold validate_conversation_model_response, reply_usable, str_eqb.
  rewrite !if_err_ok, negb_false_iff, bool_decide_eq_true.
  destruct (observed_model_id r) as [id|].
  - rewrite negb_false_iff, bool_decide_eq_true. naive_solver.
  - naive_solver.
Qed.

Lemma inference_direct c conv s :
  stored conv false None s ->
  mwp (inference c requested tokens conv)
    (fun s' r => inferred conv s' r /\ ms_cancelled s' = ms_cancelled s) s.
Proof.
  intros Hs. pose proof Hs as (Hst & Hsent & Hr & Hcl & Href). unfold inference, give.
  pose proof (context_exact conv) as [Hctx _].
  assert (Herr : forall e, inferred conv s (Err e) /\ ms_cancelled s = ms_cancelled s)
    by (intros e; split; [by eapply inferred_err|done]).
  apply wp_bind, wp_call_. intros [profile|e] _; (split; [exact Hsent|]); [|apply Herr].
  apply wp_bind. cbn [wp]. destruct (require_deterministic_gateway_profile _); [|apply Herr].
  apply wp_bind, wp_call_. intros [catalog|e] _; (split; [exact Hsent|]); [|apply Herr].
  apply wp_bind. cbn [wp].
  destruct (select_exact_gateway_model _ _) as [m|e] eqn:Hm; [|apply Herr].
  apply select_exact_id in Hm. apply wp_bind. cbn [wp].
  destruct (build_gateway_conversation_context conv) as [[ms total]|e]; [|apply Herr].
  destruct (Hctx ms total eq_refl) as (Hc & Hb & _).
  apply wp_bind, wp_call_. intros r _. split; [by split; [|exists conv]|].
  assert (Hw : stored conv true (to_option r) (model_next s (Ev (GwChat c _) r))).
  { by repeat split. }
  destruct r as [reply|e]; [|split; [by eapply inferred_err|done]].
  apply wp_bind. cbn [wp]. pose proof (response_usable _ reply Hm) as Hu.
  destruct (validate_conversation_model_response _ _) as [[]|e] eqn:Hv; cbn [wp].
  - split; [|done]. do 2 eexists. split; [exact Hw|]. split; [done|by apply Hu].
  - split; [|done]. do 2 eexists. split; [exact Hw|]. intros x [= <-] Hx. by apply Hu in Hx.
Qed.

(** Racing drops a run at a call; what has been sent by then stays sent. *)
Lemma race_inferred conv (p : core (Result inference_reply)) s :
  calls_only gateway_call p ->
  (exists sent reply, stored conv sent reply s /\ (sent = false -> reply = None)) ->
  mwp p (inferred conv) s -> mwp (race p) (inferred conv) s.
Proof.
  revert s. induction p as [r|c k IH]; intros s Hg Hs Hp; [exact Hp|].
  destruct Hg as [Hc Hg]. cbn [race]. apply wp_bind, wp_call_. intros r _.
  assert (Hnext : forall x, exists sent reply, stored conv sent reply (model_next s (Ev c x)) /\
                    (sent = false -> reply = None)).
  { destruct Hs as (sent & reply & (H1 & H2 & H3 & H4 & H5) & H6). intros x.
    destruct c; try done;
      [exists sent, reply|exists sent, reply|exists true, (to_option x)]; by repeat split. }
  assert (Hdrop : ms_sent s = false -> inferred conv s (Err Cancelled)).
  { intros H. destruct Hs as (sent & reply & Hs & Hr). destruct Hs as (H1 & H2 & H3 & H4 & H5).
    apply (inferred_err conv sent). split_and!; try done. rewrite H3. apply Hr. congruence. }
  destruct c; try done; destruct (Hp (Err Cancelled) I) as [Hok _]; (split; [exact Hok|]);
    (destruct r as [x|]; [apply IH; [apply Hg|apply (Hnext x)|apply (Hp x I)]|]).
  1,2: by apply Hdrop.
  destruct Hs as (sent & reply & (H1 & H2 & H3 & H4 & H5) & _).
  apply (inferred_err conv true). by split_and!.
Qed.

Lemma inference_raced c conv s :
  stored conv false None s ->
  mwp (await_conversation_model_inference_or_cancel (inference c requested tokens conv))
    (inferred conv) s.
Proof.
  intros Hs. apply wp_bind, wp_call_. intros b _. split; [exact I|].
  assert (Hb : stored conv false None (model_next s (Ev CancelRequested b))).
  { destruct Hs as (H1 & H2 & H3 & H4 & H5). by repeat split. }
  destruct b; [by eapply inferred_err|].
  apply race_inferred; [apply inference_gateway_only|by exists false, None|].
  eapply wp_mono; [by apply inference_direct|]. by intros s' r [].
Qed.

(** ** The whole turn *)

(** What the turn makes of it after the last look at the handle. *)
Definition settled (conv : PersistedConversation) (s : model_turn_state)
    (r : Result inference_reply) : Prop :=
  exists sent reply, stored conv sent reply s /\
    match r with
    | Ok i => reply = Some (ir_response i) /\ reply_usable (ir_response i) /\ ms_cancelled s = false
    | Err e => no_reply s e
    end.

Lemma inferred_settled conv s r :
  inferred conv s r -> ms_cancelled s = false -> settled conv s r.
Proof.
  intros (sent & reply & Hs & Hr) Hc. exists sent, reply. split; [done|].
  destruct r; [by destruct Hr|]. right. by destruct Hs as (_ & _ & -> & _).
Qed.

Lemma finish_ok conv s r :
  roomy conv -> settled conv s r -> mwp (finish_model_turn conv r) model_turn_ends s.
Proof.
  intros Hroom (sent & reply & (H1 & H2 & H3 & H4 & H5) & Hr).
  unfold finish_model_turn, clear_pending, update_conversation, or_error, give.
  assert (Hnext : forall n c x, model_next s (Ev (CvUpdate n c) x) = after_update s c x) by done.
  unfold after_update in Hnext. rewrite H1, H2, H3, H4, H5 in Hnext.
  destruct r as [i|e].
  - destruct Hr as (-> & Hu & Hc). pose proof Hu as (_ & _ & Hv). apply wp_bind. cbn [wp].
    pose proof (answered_roomy _ _ Hroom Hv) as Ha. rewrite Ha. apply wp_bind.
    lazymatch goal with |- mwp (call_ ?c) _ _ => apply (wp_call_ _ _ _ c) end.
    intros x _. split.
    { cbn. rewrite H1. split_and!; [done|done|right]. by exists (ir_response i). }
    rewrite Hnext. destruct x as [c'|e]; cbn [wp].
    + cbn. eexists conv, (ir_response i), _. by split_and!.
    + right; right. split; [done|]. exists e. split; [done|by left].
  - apply wp_bind, wp_bind, wp_bind.
    lazymatch goal with |- mwp (call_ ?c) _ _ => apply (wp_call_ _ _ _ c) end.
    intros x _. split.
    { cbn. rewrite H1. split_and!; [done|done|by left]. }
    rewrite Hnext. destruct x as [c'|e']; cbn.
    + right; left. exists conv. split_and!; [done|done|]. unfold no_reply in *. cbn. by rewrite <-H3.
    + right; right. split; [done|]. exists e'. split; [done|by right].
Qed.

(** What follows once the marker is stored. *)
Lemma turn_tail c conv (cancellable : bool) s :
  roomy conv -> stored conv false None s -> ms_cancelled s = false ->
  mwp (do result <- (if cancellable
                     then await_conversation_model_inference_or_cancel
                            (inference c requested tokens conv)
                     else inference c requested tokens conv);
       do cancelled <- (if cancellable then call_ CancelRequested else Ret false);
       finish_model_turn conv (if cancelled then Err Cancelled else result))
    model_turn_ends s.
Proof.
  intros Hroom Hs Hc. apply wp_bind. destruct cancellable.
  - eapply wp_mono; [by apply inference_raced|]. intros s' r (sent & reply & Hs' & Hr).
    apply wp_bind, (wp_call_ stores model_ok model_next CancelRequested). intros b _.
    split; [exact I|].
    assert (Hb : stored conv sent reply (model_next s' (Ev CancelRequested b)))
      by (by destruct Hs' as (? & ? & ? & ? & ?)).
    apply finish_ok; [done|]. destruct b.
    + exists sent, reply. split; [exact Hb|by left].
    + apply inferred_settled; [|done]. by exists sent, reply.
  - eapply wp_mono; [by apply inference_direct|]. intros s' r (Hr & Hc').
    apply wp_bind. cbn [wp]. apply finish_ok; [done|]. apply inferred_settled; [done|congruence].
Qed.

Ltac mstep H :=
  lazymatch goal with
  | |- mwp (Ret (Err _)) _ _ => first [apply H|cbn [wp]]
  | |- mwp (Ret _) _ _ => cbn [wp]
  | |- mwp (bind _ _) _ _ => apply wp_bind
  | |- mwp (match ?x with _ => _ end) _ _ => destruct x eqn:?
  | |- mwp (call_ ?c) _ _ =>
    lazymatch c with
    | CvUpdate _ _ => fail
    | _ => apply (wp_call_ stores model_ok model_next c); intros ? _; (split; [exact I|]);
      cbn [model_next ev_call ev_resp]
    end
  end.

Lemma model_turn_ok self pid id c prompt cancellable :
  mwp (run_persisted_model_conversation_turn_inner self pid id c requested tokens prompt
         cancellable) model_turn_ends ms_start.
Proof.
  unfold run_persisted_model_conversation_turn_inner, give, load_conversation, some_or,
    lifecycle_scope, update_conversation.
  assert (Herr : forall e, model_turn_ends ms_start (Err e)) by (intros e; by left).
  destruct (validate_conversation_model_prompt prompt) as [[]|] eqn:Hp.
  2:{ repeat mstep Herr. }
  apply valid_prompt_is_message in Hp. repeat mstep Herr.
  match goal with H : ensure_conversation_model_turn_capacity ?c _ = Ok ?x |- _ =>
    destruct x; destruct (arm_reserved _ _ _ H Hp) as [Harm Hroom] end.
  match goal with H : arm ?x _ = Ok _ |- _ =>
    rewrite Harm in H; injection H as <-; rename x into loaded end.
  lazymatch goal with |- mwp (call_ ?c) _ _ => apply (wp_call_ _ _ _ c) end.
  intros [conv|e] He; (split; [done|]); [|by intros [] _; split; [|left]].
  change (conv = set_revision (set_turn_pending (with_message loaded User prompt) true)
                   (revision loaded + 1)) in He.
  eapply wp_mono; [apply turn_tail; [by subst|by repeat split|done]|].
  intros s' r' Hr. apply wp_bind, (wp_call_ stores model_ok model_next (Release pid)).
  by intros [] _.
Qed.
End monitor.

(** ** Properties *)

(** C5. In every run of a turn answered by the gateway, cancellable or not: the
    user's message is stored with the marker before anything is sent; at most one
    inference is requested, for the model asked for and the number of tokens allowed,
    and what is sent is exactly the longest context within the bounds that starts
    with a user's message; the conversation is then updated at most once successfully,
    at the revision it was stored at, either to clear the marker alone or to append
    the reply of that inference, the latter only if the last look at the handle
    found no cancellation.  If the turn succeeds, that update has appended the reply it
    returns, which is of the model asked for.  If it fails, either the marker was never
    stored; or the update has cleared it and appended nothing, and then the turn was
    cancelled or no usable reply had come; or the store refused the last update, and
    the error is the store's or the one that says so. *)
Theorem model_turn_safe (self : VibeCoderCore) (pid : ProjectId) (id : ConversationId)
    (c : GatewayCredential) (requested : str) (tokens : N) (prompt : str) (cancellable : bool)
    (tr : list (event core_sig)) (r : Result ConversationModelTurnOutcome) :
  runs (run_persisted_model_conversation_turn_inner self pid id c requested tokens prompt
          cancellable) tr r -> Forall stores tr ->
  accepted (model_ok requested tokens) model_next ms_start tr /\
  model_turn_ends requested (foldl model_next ms_start tr) r.
Proof. apply wp_sound, model_turn_ok. Qed.

Abbreviation ex_model_turn :=
  (run_persisted_model_conversation_turn_inner ex_core (MkProjectId 1) (MkConversationId 7)
     Anonymous (u "provider-a/model-a") 512 (u "how are you?") true).

Lemma model_turn_safe_witness :
  exists o, (ex_run (ex_writer []) ex_model_turn).1.1 = Ok o /\
    accepted (model_ok (u "provider-a/model-a") 512) model_next ms_start
      (ex_run (ex_writer []) ex_model_turn).1.2 /\
    exists conv reply c,
      let s := foldl model_next ms_start (ex_run (ex_writer []) ex_model_turn).1.2 in
      ms_stored s = Some conv /\ ms_reply s = Some reply /\
      answered conv (response_text reply) = Ok c /\ ms_final s = Some c /\
      assistant_text o = response_text reply.
Proof.
  destruct (model_turn_safe _ _ _ _ _ _ _ _ _ _ (ex_runs (ex_writer []) ex_model_turn)
              (ex_stores _ _)) as [H1 H2].
  assert (exists o, (ex_run (ex_writer []) ex_model_turn).1.1 = Ok o) as [o Ho]
    by (eexists; vm_compute; reflexivity).
  exists o. split; [exact Ho|]. split; [exact H1|]. rewrite Ho in H2.
  destruct H2 as (conv & reply & c & E1 & E2 & _ & E3 & E4 & E5 & _).
  exists conv, reply, c. exact (conj E1 (conj E2 (conj E3 (conj E4 E5)))).
Defined.
