(* ===== verification/MarkerSafety.v ===== *)
(** * The pending marker and the workspace ([vibecoder-core])

    A monitor for agent action turns and explicit loops: when the marker may be set
    and cleared, what a snapshot is needed for, and which runs leave the marker. *)
From S2P Require Import Prelude RustStr StrFacts Domain Routing TaskOrchestration CommandPolicy.
From S2P Require Import ProcessContract Persistence Conversation Checkpoint Program CoreCalls.
From S2P Require Import BackendTask CheckpointOps ConversationTurns TurnFacts ExplicitLoop.
From S2P Require Import CoreExample.

(** How far a run is.  [ck] is the snapshot taken before the marker, [conv] the
    conversation as stored with it, [verified] the snapshot taken since the last
    turn, [extra] the ids of all such snapshots. *)
Inductive marker_stage :=
| Unmarked
| Snapshot (ck : CheckpointMetadata)
| Marked (ck : CheckpointMetadata) (conv : PersistedConversation)
    (verified : option CheckpointMetadata) (extra : list CheckpointId)
| Restored (ck : CheckpointMetadata) (conv : PersistedConversation)
| HalfRestored
| Committed (ck verified : CheckpointMetadata)
| RolledBack.

(** The update [c] that ends the turn of [conv]: nothing but the marker, or one
    assistant message, changes. *)
Definition clears (conv c : PersistedConversation) (text : option str) : Prop :=
  match text with
  | Some t => answered conv t = Ok c
  | None => c = set_turn_pending conv false
  end.

Definition stop_text (t : str) : Prop :=
  exists reason, reason <> Completed /\ t = explicit_agent_loop_stop_message reason.

Definition marker_ok (s : marker_stage) (e : event core_sig) : Prop :=
  match ev_call e with
  | CvUpdate n c =>
    match s with
    | Snapshot _ => turn_pending c = true
    | Marked ck conv (Some v) _ => n = revision conv /\ exists t, clears conv c (Some t)
    | Restored ck conv =>
      n = revision conv /\
      exists t, clears conv c t /\ match t with Some t => stop_text t | None => True end
    | _ => False
    end
  | CkCreate _ reason =>
    match s with
    | Unmarked => reason = BeforeAgentChange
    | Marked _ _ _ _ => reason = AgentChangeVerification
    | _ => False
    end
  | AgRunTurn _ _ _ => match s with Marked _ _ _ _ => True | _ => False end
  | CkRollback _ id =>
    match s with Marked ck _ _ _ => id = cm_checkpoint_id ck | _ => False end
  | CkRemove _ id =>
    match s with
    | Snapshot _ | Committed _ _ | RolledBack => True
    | Marked _ _ _ extra => id ∈ extra
    | _ => False
    end
  | CvCreate _ | CvRemove _ _ | CvRemoveProject _ | PsCreate _ | PsUpdate _ _ | PsRemove _
  | WsRemoveProject _ => False
  | _ => True
  end.

(** A step of the restoration that fails ends it half way. *)
Definition restore_step {A} (s : marker_stage) (r : Result A) : marker_stage :=
  match s, r with Restored _ _, Err _ => HalfRestored | _, _ => s end.

Definition marker_next (s : marker_stage) (e : event core_sig) : marker_stage :=
  match ev_call e as c return resp c -> marker_stage with
  | CvUpdate _ _ => fun r =>
    match s, r with
    | Snapshot ck, Ok conv => Marked ck conv None []
    | Marked ck _ (Some v) _, Ok _ => Committed ck v
    | Restored _ _, Ok _ => RolledBack
    | _, _ => s
    end
  | CkCreate _ _ => fun r =>
    match s, r with
    | Unmarked, Ok m => Snapshot m
    | Marked ck conv _ extra, Ok m => Marked ck conv (Some m) (cm_checkpoint_id m :: extra)
    | _, _ => s
    end
  | AgRunTurn _ _ _ => fun _ =>
    match s with Marked ck conv _ extra => Marked ck conv None extra | _ => s end
  | CkRollback _ _ => fun r =>
    match s, r with Marked ck conv _ _, Ok _ => Restored ck conv | _, _ => s end
  | InvalidateAuthorizations _ => restore_step s
  | WsOpenProject _ => restore_step s
  | WsVerifyProject _ => restore_step s
  | AgRefresh _ _ => restore_step s
  | _ => fun _ => s
  end (ev_resp e).

Abbreviation marks := (wp stores marker_ok marker_next).

(** ** Calls the monitor ignores *)

Definition ignored (c : core_call) : bool :=
  match c with
  | CvUpdate _ _ | CkCreate _ _ | AgRunTurn _ _ _ | CkRollback _ _ | CkRemove _ _ | CvCreate _
  | CvRemove _ _ | CvRemoveProject _ | PsCreate _ | PsUpdate _ _ | PsRemove _
  | WsRemoveProject _ | InvalidateAuthorizations _ | WsOpenProject _ | WsVerifyProject _
  | AgRefresh _ _ => false
  | _ => true
  end.

Definition restoring (s : marker_stage) : bool :=
  match s with Restored _ _ => true | _ => false end.

Lemma marks_ignored {A} (p : core A) Q s :
  calls_only ignored p -> (forall a, Q s a) -> marks p Q s.
Proof.
  intros Hp HQ. induction p as [a|c k IH]; cbn in *; [done|].
  destruct Hp as [Hc Hp]. intros r _.
  assert (marker_next s (Ev c r) = s) as -> by (by destruct c).
  split; [by destruct c|]. by apply IH.
Qed.

(** Outside the restoration the checks of the workspace change nothing either. *)
Lemma marks_check c Q s :
  restoring s = false ->
  match c with
  | InvalidateAuthorizations _ | WsOpenProject _ | WsVerifyProject _ | AgRefresh _ _ => True
  | _ => ignored c = true
  end -> (forall r, Q s r) -> marks (call_ c) Q s.
Proof.
  intros Hs Hc HQ. apply wp_call_. intros r _.
  assert (marker_next s (Ev c r) = s) as -> by (by destruct c; try done; destruct s).
  split; [by destruct c|]. apply HQ.
Qed.

Lemma marks_scope {A} pid (fail : VibeCoderError -> A) body Q s :
  (forall e, Q s (fail e)) -> marks body Q s -> marks (lifecycle_scope pid fail body) Q s.
Proof.
  intros Hf Hb. apply wp_bind, wp_call_. intros r _. split; [done|].
  change (marker_next s (Ev (TryAcquire pid) r)) with s.
  destruct r as [x|e]; [|apply Hf].
  apply wp_bind. eapply wp_mono; [exact Hb|]. intros s' a HQ.
  apply wp_bind, wp_call_. by intros [] _.
Qed.

Ltac marks_step :=
  lazymatch goal with
  | |- marks (Ret _) _ _ => cbn [wp]
  | |- marks (give _) _ _ => cbn [wp give]
  | |- marks (bind _ _) _ _ => apply wp_bind
  | |- marks (or_error _ _) _ _ => apply wp_bind
  | |- marks (some_or _ _) _ _ => apply wp_bind
  | |- marks (lifecycle_scope _ _ _) _ _ => apply marks_scope; [intros ?|]
  | |- marks (match ?x with _ => _ end) _ _ => destruct x eqn:?
  | |- marks (call_ ?c) _ _ => apply (marks_check c); [reflexivity|first [exact I|reflexivity]|intros ?]
  | |- marks _ _ _ => apply marks_ignored; [solve [calls_solve]|intros ?]
  end.
Ltac marks_solve := repeat marks_step.

(** Serve the call at the head, which the monitor accepts by computation. *)
Tactic Notation "serve" simple_intropattern(p) :=
  lazymatch goal with
  | |- marks (call_ ?c) _ _ =>
    apply (wp_call_ stores marker_ok marker_next c); intros p _; (split; [done|]);
    cbn [marker_next ev_call ev_resp restore_step]
  end.

(** ** The parts of a turn *)

Section parts.
Context (self : VibeCoderCore).

(** A verification snapshot. *)
Lemma marks_verification project ck conv v extra Q :
  (forall m, Q (Marked ck conv (Some m) (cm_checkpoint_id m :: extra)) (Ok m)) ->
  (forall e, Q (Marked ck conv v extra) (Err e)) ->
  marks (create_project_checkpoint self project AgentChangeVerification) Q
    (Marked ck conv v extra).
Proof.
  intros Hok Herr. unfold create_project_checkpoint. marks_solve; try apply Herr.
  serve [m|e]; [apply Hok|apply Herr].
Qed.

(** A snapshot may be dropped once it is not needed. *)
Lemma marks_remove pid id s Q :
  restoring s = false ->
  (forall r, marker_ok s (Ev (CkRemove pid id) r)) -> (forall r, Q s r) ->
  marks (remove_project_checkpoint self pid id) Q s.
Proof.
  intros Hs Hr HQ. unfold remove_project_checkpoint. apply wp_bind.
  apply (marks_check (WsOpenProject pid)); [done|done|]. intros [x|e]; [|apply HQ].
  marks_solve; try apply HQ.
  apply wp_call_. intros r _. split; [apply Hr|]. apply HQ.
Qed.

(** A turn of the task leaves the marker; earlier snapshots are stale after it. *)
Definition still_marked (ck : CheckpointMetadata) (conv : PersistedConversation)
    (extra : list CheckpointId) (s : marker_stage) : Prop :=
  exists v, s = Marked ck conv v extra.

Lemma marks_backend_loop stuck fuel project session prompt bridge h task delivered ck conv extra
    s (Q : marker_stage -> TaskResult -> Prop) :
  still_marked ck conv extra s ->
  (forall s r, still_marked ck conv extra s -> Q s r) ->
  marks (backend_loop stuck fuel project session prompt bridge h task delivered) Q s.
Proof.
  intros Hs HQ. revert s h task delivered Hs.
  induction fuel as [|fuel IH]; intros s h task delivered Hs; cbn [backend_loop]; [by apply HQ|].
  pose proof Hs as [v ->]. marks_solve.
  all: try by first [apply HQ|apply IH].
  serve [events res].
  assert (Hm : still_marked ck conv extra (Marked ck conv None extra)) by by eexists.
  marks_solve; by first [apply HQ|apply IH].
Qed.

Lemma marks_task project session c policy prompt ck conv v extra Q :
  (forall s r, still_marked ck conv extra s -> Q s r) ->
  marks (run_backend_task self project session c policy prompt) Q (Marked ck conv v extra).
Proof.
  intros HQ. unfold run_backend_task, run_backend_task_with, prepare_backend_task. marks_solve.
  all: try (apply HQ; by eexists).
  all: eapply marks_backend_loop; [by eexists|exact HQ].
Qed.

(** The marker is stored and has not been cleared. *)
Definition pending (s : marker_stage) : Prop :=
  match s with Marked _ _ _ _ | Restored _ _ | HalfRestored => True | _ => False end.

Lemma marks_refresh project ids ck conv (Q : marker_stage -> Result unit -> Prop) :
  Q (Restored ck conv) (Ok tt) -> (forall e, Q HalfRestored (Err e)) ->
  marks (refresh_sessions project ids) Q (Restored ck conv).
Proof.
  intros Hok Herr. induction ids as [|id ids IH]; cbn [refresh_sessions]; [done|].
  marks_solve. serve [x|e]; cbn; [exact IH|apply Herr].
Qed.

Lemma marks_rollback project ck conv v extra permitted
    (Q : marker_stage -> Result (ProjectRef * RollbackResult) -> Prop) :
  (forall x, Q (Restored ck conv) (Ok x)) -> (forall s e, pending s -> Q s (Err e)) ->
  marks (rollback_project_checkpoint_internal self project (cm_checkpoint_id ck) permitted) Q
    (Marked ck conv v extra).
Proof.
  intros Hok Herr. unfold rollback_project_checkpoint_internal. marks_solve.
  all: try by apply Herr.
  all: serve [result|e]; [|by apply Herr].
  all: do 3 (apply wp_bind; serve [?|?]; [|by apply Herr]).
  all: marks_solve.
  all: try (serve [?|?]; [|by apply Herr]).
  all: marks_solve.
  all: apply marks_refresh; [apply Hok|intros; by apply Herr].
Qed.

(** What the recovery procedures leave: everything restored and the marker
    cleared, or the marker and one of their two errors. *)
Definition preserved (codes : list VibeCoderError) {A} (s : marker_stage) (r : Result A) : Prop :=
  pending s /\ exists e, r = Err e /\ e ∈ codes.

Lemma marks_clear code ck conv (Q : marker_stage -> Result unit -> Prop) :
  Q RolledBack (Ok tt) -> Q (Restored ck conv) (Err code) ->
  marks (clear_pending code conv) Q (Restored ck conv).
Proof.
  intros Hok Herr. unfold clear_pending, update_conversation. marks_solve.
  lazymatch goal with |- marks (call_ ?c) _ _ => apply (wp_call_ _ _ _ c) end.
  intros [c'|e] _; cbn; (split; [split; [done|]; by exists None|]); [exact Hok|exact Herr].
Qed.

Lemma marks_recover rc cc t session verification ck v extra
    (Q : marker_stage -> Result unit -> Prop) :
  st_checkpoint t = ck ->
  Q RolledBack (Ok tt) ->
  (forall s r, preserved [rc; cc] s r -> Q s r) ->
  marks (recover_pending self rc cc t session verification) Q
    (Marked ck (st_conversation t) v extra).
Proof.
  intros <- Hok Hp. unfold recover_pending, rollback_project_checkpoint_for_pending_conversation.
  marks_solve. apply marks_rollback.
  - intros x. marks_solve. apply marks_clear.
    + marks_solve; (apply marks_remove; [done|done|intros ?]); marks_solve;
        try (apply marks_remove; [done|done|intros ?]; marks_solve); apply Hok.
    + apply Hp. split; [done|]. eexists. split; [done|set_solver].
  - intros s e Hs. marks_solve. apply Hp. split; [done|]. eexists. split; [done|set_solver].
Qed.

(** The start of a turn: either it ends with the marker unset, or with the marker
    stored on a conversation that has room for the reply. *)
Definition unmarked (s : marker_stage) : Prop :=
  match s with Unmarked | Snapshot _ => True | _ => False end.

Definition started (t : started_turn) : Prop :=
  roomy (st_conversation t) /\
  exists session, agent_session (st_conversation t) = Some session /\
    as_session_id session = st_session t.

Lemma ready_session_ok conv session_id :
  ready_session self conv = Ok session_id ->
  exists session, agent_session conv = Some session /\ as_session_id session = session_id.
Proof.
  unfold ready_session. destruct (agent_session conv) as [session|]; cbn.
  - intros. exists session. split; [done|]. by inv_match.
  - intros. by inv_match.
Qed.

Lemma marks_start pid id prompt (Q : marker_stage -> Result started_turn -> Prop) :
  message_text_invalid prompt = false ->
  (forall t, started t -> Q (Marked (st_checkpoint t) (st_conversation t) None []) (Ok t)) ->
  (forall s e, unmarked s -> Q s (Err e)) ->
  marks (start_action_turn self pid id prompt) Q Unmarked.
Proof.
  intros Hp Hok Herr. unfold start_action_turn, load_conversation, update_conversation.
  marks_solve; try by apply Herr.
  serve [ck|e]; [|by apply Herr]. marks_solve; [|by apply Herr].
  match goal with H : ready_session _ _ = Ok _ |- _ =>
    destruct (ready_session_ok _ _ H) as (session & Hs & Hid) end.
  match goal with H : ensure_conversation_agent_action_capacity ?c _ = Ok ?x |- _ =>
    destruct x; destruct (arm_reserved _ _ _ H Hp) as [Harm Hroom] end.
  match goal with H : arm _ _ = Ok _ |- _ => rewrite Harm in H; injection H as <- end.
  lazymatch goal with |- marks (call_ ?c) _ _ => apply (wp_call_ _ _ _ c) end.
  intros [c'|e] He; (split; [done|]); cbn in He |- *.
  - subst c'. apply (Hok {| st_project := _; st_session := _; st_conversation := _;
                            st_checkpoint := _ |}).
    split; [exact Hroom|]. by exists session.
  - intros ? _. split; [done|]. by apply Herr.
Qed.

(** ** Failing after the marker is stored *)

Definition action_codes : list VibeCoderError :=
  [checkpoint_error (u "conversation_agent_action_rollback_failed_pending_preserved");
   db "conversation_agent_action_failure_cleanup_failed_pending_preserved"].
Definition loop_codes : list VibeCoderError :=
  [checkpoint_error (u "explicit_agent_loop_rollback_failed_pending_preserved");
   db "explicit_agent_loop_failure_cleanup_failed_pending_preserved";
   checkpoint_error (u "explicit_agent_loop_terminal_rollback_failed_pending_preserved");
   db "explicit_agent_loop_terminal_persistence_failed_pending_preserved"].

(** How a turn fails: the marker was never stored, or the workspace is restored and
    the marker cleared, or the marker is kept and the error says so. *)
Definition fails (codes : list VibeCoderError) {A} (s : marker_stage) (r : Result A) : Prop :=
  is_err r = true /\ (unmarked s \/ s = RolledBack \/ preserved codes s r).

Lemma fails_preserved codes codes' {A B} s (r : Result A) e :
  preserved codes' s r -> r = Err e -> codes' ⊆ codes -> fails codes s (@Err VibeCoderError B e).
Proof.
  intros (Hs & e' & -> & He) [= ->] Hc. split; [done|]. right; right. split; [done|]. eauto.
Qed.

Lemma marks_fail_action {A} t post e v extra (Q : marker_stage -> Result A -> Prop) :
  started t -> (forall s r, fails action_codes s r -> Q s r) ->
  marks (fail_action self t post e) Q (Marked (st_checkpoint t) (st_conversation t) v extra).
Proof.
  intros (_ & session & Hs & _) HQ.
  unfold fail_action, recover_failed_persisted_agent_action. rewrite Hs. cbn [ok_or]. marks_solve.
  apply marks_recover; [done| |].
  - marks_solve. apply HQ. split; [done|]. by right; left.
  - intros s [[]|e'] Hp; [by destruct Hp as (_ & ? & ? & _)|]. cbn [wp]. apply HQ.
    by eapply fails_preserved.
Qed.

Lemma marks_fail_loop {A} t verification e v extra (Q : marker_stage -> Result A -> Prop) :
  (forall s r, fails loop_codes s r -> Q s r) ->
  marks (fail_loop self t verification e) Q
    (Marked (st_checkpoint t) (st_conversation t) v extra).
Proof.
  intros HQ. unfold fail_loop, recover_failed_persisted_explicit_agent_loop. marks_solve.
  apply marks_recover; [done| |].
  - marks_solve. apply HQ. split; [done|]. by right; left.
  - intros s [[]|e'] Hp; [by destruct Hp as (_ & ? & ? & _)|]. cbn [wp]. apply HQ.
    eapply fails_preserved; [done..|]. unfold loop_codes. set_solver.
Qed.

(** ** The action turn *)

Definition action_ends (s : marker_stage) (r : Result PersistedAgentActionTurnOutcome) : Prop :=
  match r with
  | Ok o => exists ck v, s = Committed ck v /\ tree_sha256 v <> tree_sha256 ck /\
      pre_action_tree_sha256 o = tree_sha256 ck /\ post_action_tree_sha256 o = tree_sha256 v
  | Err _ => fails action_codes s r
  end.

Lemma fails_action_ends s r : fails action_codes s r -> action_ends s r.
Proof. intros H. destruct r; [by destruct H|done]. Qed.

Lemma marks_remove_both pid a b ck v (Q : marker_stage -> bool -> Prop) :
  (forall r, Q (Committed ck v) r) -> marks (remove_both self pid a b) Q (Committed ck v).
Proof.
  intros HQ. unfold remove_both. marks_solve. apply marks_remove; [done|done|intros ?].
  marks_solve. apply marks_remove; [done|done|intros ?]. apply HQ.
Qed.

(** The reply and the cleared marker in one update of a verified turn. *)
Lemma marks_commit conv completed t ck v extra (Q : marker_stage -> Result PersistedConversation -> Prop) :
  answered conv t = Ok completed ->
  (forall c, Q (Committed ck v) (Ok c)) ->
  (forall e, Q (Marked ck conv (Some v) extra) (Err e)) ->
  marks (update_conversation conv completed) Q (Marked ck conv (Some v) extra).
Proof.
  intros Ht Hok Herr. unfold update_conversation.
  lazymatch goal with |- marks (call_ ?c) _ _ => apply (wp_call_ _ _ _ c) end.
  intros [c'|e] _; (split; [by split; [|exists t]|]); [apply Hok|apply Herr].
Qed.

Lemma marks_finish_action t outcome events v extra :
  started t ->
  marks (finish_action_turn self t outcome events) action_ends
    (Marked (st_checkpoint t) (st_conversation t) v extra).
Proof.
  intros Hs. unfold finish_action_turn.
  assert (Hf : forall post e v extra, marks (fail_action self t post e) action_ends
                 (Marked (st_checkpoint t) (st_conversation t) v extra)).
  { intros. apply marks_fail_action; [done|apply fails_action_ends]. }
  marks_solve; [|apply Hf].
  apply marks_verification; [intros m|intros e; apply Hf].
  destruct (str_eqb _ _) eqn:Hd; [apply Hf|].
  destruct (answered _ _) as [completed|e] eqn:Ha; [|apply Hf].
  marks_solve. eapply marks_commit; [exact Ha| |intros e; apply Hf].
  intros c. marks_solve. apply marks_remove_both. intros r. cbn [wp].
  do 2 eexists. split_and!; try done. by apply bool_decide_eq_false in Hd.
Qed.

Lemma marks_action_turn pid id c policy prompt :
  marks (run_persisted_agent_action_turn self pid id c policy prompt) action_ends Unmarked.
Proof.
  assert (Hu : forall s e, unmarked s -> action_ends s (Err e)).
  { intros s e Hs. split; [done|]. by left. }
  unfold run_persisted_agent_action_turn. marks_solve; try by apply Hu.
  apply marks_start; [by apply valid_prompt_is_message; destruct a| |].
  - intros t Ht. marks_solve. apply marks_task. intros s [[o|e] events] [v ->]; cbn [wp].
    + by apply marks_finish_action.
    + apply marks_fail_action; [done|apply fails_action_ends].
  - intros s e Hs. marks_solve. by apply Hu.
Qed.

(** ** The loop *)

Definition loop_ends (s : marker_stage) (r : Result PersistedExplicitAgentLoopOutcome) : Prop :=
  match r with
  | Ok o =>
    (stop_reason o = Completed /\ workspace_committed o = true /\ rollback_performed o = false /\
     exists ck v, s = Committed ck v /\ baseline_tree_sha256 o = tree_sha256 ck /\
       final_tree_sha256 o = tree_sha256 v) \/
    (stop_reason o <> Completed /\ workspace_committed o = false /\
     rollback_performed o = true /\ s = RolledBack /\
     final_tree_sha256 o = baseline_tree_sha256 o)
  | Err _ => fails loop_codes s r
  end.

Lemma fails_loop_ends s r : fails loop_codes s r -> loop_ends s r.
Proof. intros H. destruct r; [by destruct H|done]. Qed.

Lemma stop_message_valid reason :
  message_text_invalid (explicit_agent_loop_stop_message reason) = false.
Proof. destruct reason; vm_compute; reflexivity. Qed.

Lemma marks_finish_non_success t verification reason ls v extra :
  started t -> reason <> Completed ->
  marks (finish_persisted_explicit_agent_loop_non_success self t verification reason ls)
    loop_ends (Marked (st_checkpoint t) (st_conversation t) v extra).
Proof.
  intros [Hroom _] Hr. unfold finish_persisted_explicit_agent_loop_non_success,
    rollback_project_checkpoint_for_pending_conversation.
  rewrite bool_decide_eq_false_2 by done.
  assert (Hp : forall s e, pending s -> e ∈ loop_codes -> loop_ends s (Err e)).
  { intros s e Hs He. split; [done|]. right; right. split; [done|]. eauto. }
  marks_solve. apply marks_rollback.
  2:{ intros s e Hs. marks_solve. apply Hp; [done|]. unfold loop_codes. set_solver. }
  intros x. marks_solve.
  2:{ match goal with H : answered _ _ = Err _ |- _ =>
        by rewrite (answered_roomy _ _ Hroom (stop_message_valid reason)) in H end. }
  unfold update_conversation.
  lazymatch goal with |- marks (call_ ?c) _ _ => apply (wp_call_ _ _ _ c) end.
  intros [c'|e] _; (split; [split; [done|];
    eexists (Some _); split; [eassumption|by eexists]|]).
  - cbn [marker_next ev_call ev_resp]. marks_solve.
    all: apply marks_remove; [done|done|intros ?]; marks_solve.
    all: try (apply marks_remove; [done|done|intros ?]; marks_solve).
    all: right; by split_and!.
  - cbn. apply Hp; [done|]. unfold loop_codes. set_solver.
Qed.

(** What an iteration leaves: the loop's end, or the marker and a turn to go. *)
Definition iterated (policy : ExplicitAgentLoopPolicy) (t : started_turn) (iteration : N)
    (s : marker_stage) (r : iteration_result) : Prop :=
  match r with
  | Return r => loop_ends s r
  | NextIteration _ => iteration < max_turns policy /\
      exists extra, still_marked (st_checkpoint t) (st_conversation t) extra s
  end.

Section iteration.
Context (policy : ExplicitAgentLoopPolicy) (t : started_turn) (Ht : started t) (iteration : N).

Abbreviation done_ := (iterated policy t iteration).

Lemma marks_returning p v extra :
  marks p loop_ends (Marked (st_checkpoint t) (st_conversation t) v extra) ->
  marks (returning p) done_ (Marked (st_checkpoint t) (st_conversation t) v extra).
Proof. intros Hp. apply wp_bind. eapply wp_mono; [exact Hp|]. done. Qed.

Lemma marks_return_fail verification e v extra :
  marks (returning (fail_loop self t verification e)) done_
    (Marked (st_checkpoint t) (st_conversation t) v extra).
Proof. apply marks_returning, marks_fail_loop, fails_loop_ends. Qed.

Lemma marks_return_stop verification reason ls v extra :
  reason <> Completed ->
  marks (returning (finish_persisted_explicit_agent_loop_non_success self t verification
                      reason ls)) done_ (Marked (st_checkpoint t) (st_conversation t) v extra).
Proof. intros Hr. by apply marks_returning, marks_finish_non_success. Qed.

Lemma marks_continue ls verification successful extra :
  iteration <= max_turns policy -> cm_checkpoint_id verification ∈ extra ->
  marks (continue_loop self policy t ls verification successful iteration) done_
    (Marked (st_checkpoint t) (st_conversation t) (Some verification) extra).
Proof.
  intros Hi He. unfold continue_loop.
  destruct (_ || _); [apply marks_return_fail|].
  destruct (count_tree _ ls) as [n ls']. destruct (_ <=? n); [by apply marks_return_stop|].
  marks_solve. apply marks_remove; [done|by intros|intros ?].
  destruct (N.eqb_spec iteration (max_turns policy)); [by apply marks_return_stop|].
  split; [lia|]. by do 2 eexists.
Qed.

Lemma marks_complete ls verification body extra :
  marks (complete_loop self t ls verification body) loop_ends
    (Marked (st_checkpoint t) (st_conversation t) (Some verification) extra).
Proof.
  unfold complete_loop. destruct (answered _ _) as [completed|e] eqn:Ha.
  2:{ apply marks_fail_loop, fails_loop_ends. }
  marks_solve. eapply marks_commit; [exact Ha| |intros e; apply marks_fail_loop, fails_loop_ends].
  intros c. marks_solve. apply marks_remove_both. intros r. cbn [wp].
  left. split_and!; try done. by do 2 eexists.
Qed.

Lemma marks_finish_iteration ls outcome events v extra :
  iteration <= max_turns policy ->
  marks (finish_iteration self policy t ls iteration outcome events) done_
    (Marked (st_checkpoint t) (st_conversation t) v extra).
Proof.
  intros Hi. unfold finish_iteration. apply wp_bind, marks_check; [done..|].
  intros []; [by apply marks_return_stop|].
  destruct (parse_explicit_agent_loop_response _) as [[decision body]|e];
    [|apply marks_return_fail].
  destruct (validate_agent_loop_iteration_turn _ _) as [[[observed files] successful]|e];
    [|apply marks_return_fail].
  apply wp_bind, marks_verification; [intros verification|intros e; apply marks_return_fail].
  cbn zeta. destruct (_ <? _); [by apply marks_return_stop|].
  apply wp_bind, marks_check; [done..|]. intros []; [by apply marks_return_stop|].
  destruct decision; [apply marks_returning, marks_complete|apply marks_continue; [done|by left]].
Qed.

Lemma marks_iteration c rp prompt ls v extra :
  iteration <= max_turns policy ->
  marks (loop_iteration self c rp policy prompt t ls iteration) done_
    (Marked (st_checkpoint t) (st_conversation t) v extra).
Proof.
  intros Hi. unfold loop_iteration. apply wp_bind, marks_check; [done..|].
  intros []; [by apply marks_return_stop|].
  destruct (build_explicit_agent_loop_iteration_prompt _ _ _) as [p|e];
    [|apply marks_return_fail].
  apply wp_bind, marks_task. intros s [[o|e] events] [v' ->]; [by apply marks_finish_iteration|].
  destruct e; try apply marks_return_fail.
  apply wp_bind, marks_check; [done..|]. intros []; [by apply marks_return_stop|].
  apply marks_return_fail.
Qed.
End iteration.

Lemma marks_iterations c rp policy prompt t n ls iteration v extra :
  started t -> N.of_nat n + iteration = max_turns policy + 1 -> 1 <= iteration <= max_turns policy ->
  marks (loop_iterations self c rp policy prompt t n ls iteration) loop_ends
    (Marked (st_checkpoint t) (st_conversation t) v extra).
Proof.
  intros Ht. revert ls iteration v extra.
  induction n as [|n IH]; intros ls iteration v extra Hn Hi; cbn [loop_iterations]; [lia|].
  apply wp_bind. eapply wp_mono; [apply marks_iteration; [done|lia]|].
  intros s [r|ls'] Hr; [exact Hr|]. destruct Hr as [Hlt (extra' & v' & ->)].
  apply IH; lia.
Qed.

Lemma marks_loop guard c rp prompt :
  1 <= max_turns (guard_policy guard) ->
  marks (run_persisted_explicit_agent_loop self guard c rp prompt) loop_ends Unmarked.
Proof.
  intros Hm.
  assert (Hu : forall s e, unmarked s -> loop_ends s (Err e)).
  { intros s e Hs. split; [done|]. by left. }
  unfold run_persisted_explicit_agent_loop. marks_solve; try by apply Hu.
  apply marks_start; [by apply valid_prompt_is_message; destruct a| |].
  - intros t Ht. cbn [wp]. apply marks_iterations; [done|lia|lia].
  - intros s e Hs. marks_solve. by apply Hu.
Qed.
End parts.

(** ** Properties *)

(** C2. In every run of an agent action turn: the marker is stored only after a
    snapshot of the project, turns run only while it is stored, and it is cleared
    by one update only — with the reply appended, after a snapshot taken since the
    last turn, or with nothing appended once the snapshot from before the turn has
    been rolled back to and every session refreshed.  Until then that snapshot is
    not removed.  The turn returns an outcome exactly for a committed reply on a
    changed tree; an error either leaves the marker never stored, or the workspace
    restored and the marker cleared, or says that the marker is preserved. *)
Theorem action_turn_marker (self : VibeCoderCore) (pid : ProjectId) (id : ConversationId)
    (c : GatewayCredential) (policy : ModelRoutePolicyConfig) (prompt : str)
    (tr : list (event core_sig)) (r : Result PersistedAgentActionTurnOutcome) :
  runs (run_persisted_agent_action_turn self pid id c policy prompt) tr r -> Forall stores tr ->
  accepted marker_ok marker_next Unmarked tr /\
  action_ends (foldl marker_next Unmarked tr) r.
Proof. apply wp_sound, marks_action_turn. Qed.

(** C3. The same for the explicit loop over all its turns: its outcome says that
    the workspace is committed exactly when the final update carried the reply of a
    completed loop on a fresh snapshot, and that it was rolled back exactly when it
    was restored and the marker cleared with the reason; every error leaves the
    marker unset, or cleared after a restoration, or names that it is preserved. *)
Theorem explicit_loop_marker (self : VibeCoderCore) (guard : ExplicitAgentLoopGuard)
    (c : GatewayCredential) (policy : ModelRoutePolicyConfig) (prompt : str)
    (tr : list (event core_sig)) (r : Result PersistedExplicitAgentLoopOutcome) :
  ExplicitAgentLoopGuard_new (guard_project_id guard) (guard_conversation_id guard)
    (guard_policy guard) = Ok guard ->
  runs (run_persisted_explicit_agent_loop self guard c policy prompt) tr r -> Forall stores tr ->
  accepted marker_ok marker_next Unmarked tr /\
  loop_ends (foldl marker_next Unmarked tr) r.
Proof.
  intros Hg. apply wp_sound, marks_loop.
  unfold ExplicitAgentLoopGuard_new, ExplicitAgentLoopPolicy_validate in Hg.
  destruct (_ || _) eqn:E; [done|]. apply orb_false_iff in E as [?%N.eqb_neq _]. lia.
Qed.

(** ** Executions *)

Abbreviation ex_action :=
  (run_persisted_agent_action_turn ex_core (MkProjectId 1) (MkConversationId 7) Anonymous
     ex_config (u "add a test")).

Lemma action_turn_marker_witness :
  (exists o, (ex_run (ex_writer (u "added")) ex_action).1.1 = Ok o) /\
  accepted marker_ok marker_next Unmarked (ex_run (ex_writer (u "added")) ex_action).1.2.
Proof.
  split; [eexists; vm_compute; reflexivity|].
  destruct (action_turn_marker _ _ _ _ _ _ _ _ (ex_runs (ex_writer (u "added")) ex_action)
              (ex_stores _ _)) as [H _]. exact H.
Defined.

Definition ex_guard : ExplicitAgentLoopGuard :=
  {| guard_project_id := MkProjectId 1; guard_conversation_id := MkConversationId 7;
     guard_policy := ExplicitAgentLoopPolicy_default |}.
Abbreviation ex_loop :=
  (run_persisted_explicit_agent_loop ex_core ex_guard Anonymous ex_config (u "fix it")).
Definition ex_eager : ex_agent :=
  ex_writer (u "more" ++ lf ++ EXPLICIT_AGENT_LOOP_CONTINUE_MARKER).

(** An agent that always wants to go on is stopped at the fourth turn. *)
Lemma ex_loop_stops :
  exists o, (ex_run ex_eager ex_loop).1.1 = Ok o /\ stop_reason o = TurnBudgetExhausted /\
    turns_completed o = 4.
Proof. eexists. split; [vm_compute; reflexivity|]. by split. Qed.

Lemma explicit_loop_marker_witness :
  foldl marker_next Unmarked (ex_run ex_eager ex_loop).1.2 = RolledBack.
Proof.
  destruct ex_loop_stops as (o & Hr & Hs & _).
  destruct (explicit_loop_marker _ ex_guard _ _ _ _ _ eq_refl (ex_runs ex_eager ex_loop)
              (ex_stores _ _)) as [_ He].
  rewrite Hr in He. destruct He as [(Hc & _)|(_ & _ & _ & He & _)]; [|exact He].
  by rewrite Hs in Hc.
Defined.
