(* ===== verification/TurnReply.v ===== *)
(** * The reply of a conversation turn ([vibecoder-core])

    [run_persisted_conversation_turn] reserves no room for the reply: how each of its
    runs ends, and the replies that leave the conversation marked. *)
From S2P Require Import Prelude RustStr StrFacts Domain Routing TaskOrchestration Persistence.
From S2P Require Import Conversation Program CoreCalls BackendTask CheckpointOps.
From S2P Require Import ConversationTurns TurnFacts ConversationFacts CoreExample.

(** The conversation is stored with the marker, then at most one update clears it. *)
Inductive reply_stage :=
| NotMarked
| MarkedAs (conv : PersistedConversation)
| Refused (conv : PersistedConversation) (e : VibeCoderError)
| ClearedAs (conv final : PersistedConversation).

Definition reply_ok (s : reply_stage) (e : event core_sig) : Prop :=
  match ev_call e with
  | CvUpdate n c =>
    match s with
    | NotMarked => turn_pending c = true
    | MarkedAs conv => n = revision conv /\ turn_pending c = false
    | _ => False
    end
  | AgRunTurn _ _ _ => exists conv, s = MarkedAs conv
  | CvCreate _ | CvRemove _ _ | CvRemoveProject _ => False
  | _ => True
  end.

Definition reply_next (s : reply_stage) (e : event core_sig) : reply_stage :=
  match ev_call e as c return resp c -> reply_stage with
  | CvUpdate _ c => fun r =>
    match s, r with
    | NotMarked, Ok conv => MarkedAs conv
    | MarkedAs conv, Ok _ => ClearedAs conv c
    | MarkedAs conv, Err e => Refused conv e
    | _, _ => s
    end
  | _ => fun _ => s
  end (ev_resp e).

(** The last update of a turn that succeeded with [text]. *)
Definition final_conversation (conv : PersistedConversation) (text : str) :
    Result PersistedConversation :=
  if bool_decide (text = []) then Ok (set_turn_pending conv false) else answered conv text.

Definition reply_ends (s : reply_stage) (r : Result BackendTaskOutcome) : Prop :=
  match r with
  | Ok o => exists conv final, s = ClearedAs conv final /\
      final_conversation conv (tr_text (out_turn o)) = Ok final
  | Err e =>
    match s with
    | NotMarked => True
    | ClearedAs conv final => final = set_turn_pending conv false
    | Refused conv refused => e = refused \/ e = db "conversation_turn_failure_cleanup_failed"
    | MarkedAs conv => turn_pending conv = true /\
        exists text, text <> [] /\ answered conv text = Err e
    end
  end.

Abbreviation replies := (wp stores reply_ok reply_next).

(** Calls that never change the stage. *)
Definition no_update (c : core_call) : bool :=
  match c with
  | CvUpdate _ _ | CvCreate _ | CvRemove _ _ | CvRemoveProject _ => false
  | _ => true
  end.

Definition no_turn (c : core_call) : bool :=
  match c with AgRunTurn _ _ _ => false | _ => no_update c end.

Lemma replies_quiet {A} (test : core_call -> bool) (p : core A) Q s :
  (forall c, test c = true -> no_update c = true) ->
  (forall c, test c = true -> no_turn c = true) \/ (exists conv, s = MarkedAs conv) ->
  calls_only test p -> (forall a, Q s a) -> replies p Q s.
Proof.
  intros Ht Hs Hp HQ. induction p as [a|c k IH]; cbn in *; [done|].
  destruct Hp as [Hc Hp]. intros r _. pose proof (Ht c Hc) as Hu.
  assert (reply_next s (Ev c r) = s) as -> by (by destruct c).
  split; [|by apply IH].
  destruct Hs as [Hn|[conv ->]]; [specialize (Hn c Hc)|]; destruct c; try done; by exists conv.
Qed.

Lemma backend_loop_no_update stuck fuel project session prompt bridge h task delivered :
  calls_only no_update (backend_loop stuck fuel project session prompt bridge h task delivered).
Proof.
  revert h task delivered. induction fuel as [|fuel IH]; intros; cbn [backend_loop]; [exact I|].
  calls_solve; apply IH.
Qed.
#[local] Hint Resolve backend_loop_no_update : calls.

Lemma task_no_update self project session c policy prompt :
  calls_only no_update (run_backend_task self project session c policy prompt).
Proof. calls_solve. Qed.

Ltac replies_step :=
  lazymatch goal with
  | |- replies (Ret _) _ _ => cbn [wp]
  | |- replies (give _) _ _ => cbn [wp give]
  | |- replies (bind _ _) _ _ => apply wp_bind
  | |- replies (some_or _ _) _ _ => apply wp_bind
  | |- replies (or_error _ _) _ _ => apply wp_bind
  | |- replies (match ?x with _ => _ end) _ _ => destruct x eqn:?
  | |- replies (call_ (CvUpdate _ _)) _ _ => fail
  | |- replies (call_ ?c) _ _ =>
    apply (wp_call_ stores reply_ok reply_next c); intros ? _; (split; [exact I|]);
    cbn [reply_next ev_call ev_resp]
  end.

Lemma replies_start self pid id prompt
    (Q : reply_stage -> Result (ProjectRef * SessionId * PersistedConversation) -> Prop) :
  (forall project session conv, turn_pending conv = true ->
     Q (MarkedAs conv) (Ok (project, session, conv))) ->
  (forall e, Q NotMarked (Err e)) ->
  replies (start_conversation_turn self pid id prompt) Q NotMarked.
Proof.
  intros Hok Herr. unfold start_conversation_turn, lifecycle_scope, load_conversation,
    update_conversation. repeat replies_step; try apply Herr.
  match goal with H : arm _ _ = Ok _ |- _ => apply arm_ok in H as (d & _ & ->) end.
  lazymatch goal with |- replies (call_ ?c) _ _ => apply (wp_call_ _ _ _ c) end.
  intros [conv|e] He; (split; [done|]); cbn [reply_next ev_call ev_resp];
    repeat replies_step; [|apply Herr].
  cbn in He. subst conv. by apply Hok.
Qed.

Lemma conversation_turn_ok self pid id c policy prompt :
  replies (run_persisted_conversation_turn self pid id c policy prompt) reply_ends NotMarked.
Proof.
  unfold run_persisted_conversation_turn, clear_pending, update_conversation.
  case_match; [done|]. apply wp_bind. cbn [wp give]. case_match; [|done].
  apply wp_bind, replies_start; [|done].
  intros project session conv Hp. replies_step.
  apply (replies_quiet no_update); [done|right; by eexists|apply task_no_update|].
  intros [[o|e] events].
  - replies_step. cbn [wp give]. repeat replies_step.
    + match goal with H : _ = Ok ?x |- context [CvUpdate _ ?x] =>
        rename x into final; rename H into Hf end.
      assert (Hfinal : turn_pending final = false).
      { case_bool_decide; [by injection Hf as <-|].
        by apply append_message_ok in Hf as (_ & _ & _ & ->). }
      lazymatch goal with |- replies (call_ ?c) _ _ => apply (wp_call_ _ _ _ c) end.
      intros [c'|e] _; (split; [by split|]); cbn; [by do 2 eexists|by left].
    + cbn. split; [done|]. eexists. case_bool_decide; [done|by split].
  - repeat replies_step.
    lazymatch goal with |- replies (call_ ?c) _ _ => apply (wp_call_ _ _ _ c) end.
    intros [c'|e'] _; (split; [by split|]); cbn; [done|by right].
Qed.

(** How a conversation turn ends, in every run.  The marker is stored with the
    user's message and before the agent runs; one later update may clear it, at the
    revision it was stored at.  The turn succeeds exactly when that update was made,
    and it then appended the agent's text, or nothing if there was none.  After an
    error the marker is unset or was cleared with nothing appended, or the store
    refused the update, or the reply could not be appended to the conversation. *)
Theorem conversation_turn_ends (self : VibeCoderCore) (pid : ProjectId) (id : ConversationId)
    (c : GatewayCredential) (policy : ModelRoutePolicyConfig) (prompt : str)
    (tr : list (event core_sig)) (r : Result BackendTaskOutcome) :
  runs (run_persisted_conversation_turn self pid id c policy prompt) tr r -> Forall stores tr ->
  accepted reply_ok reply_next NotMarked tr /\
  reply_ends (foldl reply_next NotMarked tr) r.
Proof. apply wp_sound, conversation_turn_ok. Qed.

(** C33. A reply that the stored conversation cannot take, because it is full or the
    reply is too long or holds a NUL, is lost with the marker left in place: the turn
    ends with the error of the append, no update is made after the one that stored
    the marker, and every later turn or resumption of the conversation as stored is
    refused. *)
Theorem unstorable_reply_keeps_marker (self : VibeCoderCore) (pid : ProjectId)
    (id : ConversationId) (c : GatewayCredential) (policy : ModelRoutePolicyConfig)
    (prompt : str) (tr1 tr2 : list (event core_sig)) (project : ProjectRef)
    (session : SessionId) (conv : PersistedConversation) (o : BackendTaskOutcome)
    (events : list AgentEvent) :
  trim prompt <> [] -> has_conversation_store self = true ->
  runs (start_conversation_turn self pid id prompt) tr1 (Ok (project, session, conv)) ->
  Forall stores tr1 ->
  runs (run_backend_task self project session c policy prompt) tr2 (Ok o, events) ->
  tr_text (out_turn o) <> [] ->
  MAX_CONVERSATION_MESSAGES <= len (messages conv) \/
    MAX_CONVERSATION_TEXT_BYTES < text_bytes (messages conv) + blen (tr_text (out_turn o)) \/
    message_text_invalid (tr_text (out_turn o)) = true ->
  exists e, runs (run_persisted_conversation_turn self pid id c policy prompt) (tr1 ++ tr2) (Err e) /\
    Forall (fun e => no_update (ev_call e) = true) tr2 /\
    turn_pending conv = true /\
    (forall later, exists e, ready_session later conv = Err e).
Proof.
  intros Hp Hstore Hstart Henv Htask Ht Hbad.
  assert (Hmark : turn_pending conv = true).
  { assert (Hw : replies (start_conversation_turn self pid id prompt)
       (fun _ r => forall p s c, r = Ok (p, s, c) -> turn_pending c = true) NotMarked)
      by (apply replies_start; naive_solver).
    by eapply (wp_sound _ _ _ _ _ _ _ _ Hw Hstart Henv). }
  destruct (answered conv (tr_text (out_turn o))) as [d|e] eqn:Ha.
  { apply append_message_ok in Ha as (Hm & Hl & Hb & _). cbn in Hl, Hb.
    destruct Hbad as [?|[?|?]]; [lia|lia|congruence]. }
  exists e. split_and!; [| |done|].
  - unfold run_persisted_conversation_turn. rewrite bool_decide_eq_false_2 by done.
    unfold conversation_store, require. rewrite Hstore. cbn [bind give].
    apply runs_bind. do 3 eexists. split; [done|]. split; [exact Hstart|]. cbv beta iota.
    apply runs_bind. exists tr2. do 2 eexists. rewrite app_nil_r. split; [done|].
    split; [exact Htask|]. cbv beta iota zeta. rewrite bool_decide_eq_false_2 by done. cbn [bind give].
    by rewrite Ha.
  - eapply calls_only_runs; [apply task_no_update|exact Htask].
  - intros later. unfold ready_session. rewrite Hmark. repeat case_match; by eexists.
Qed.

(** ** Executions *)

Abbreviation ex_turn :=
  (run_persisted_conversation_turn ex_core (MkProjectId 1) (MkConversationId 7) Anonymous
     ex_config (u "add a test")).

Lemma conversation_turn_ends_witness :
  exists conv final,
    foldl reply_next NotMarked (ex_run (ex_writer (u "added")) ex_turn).1.2 = ClearedAs conv final.
Proof.
  destruct (conversation_turn_ends _ _ _ _ _ _ _ _ (ex_runs (ex_writer (u "added")) ex_turn)
              (ex_stores _ _)) as [_ He].
  assert (exists o, (ex_run (ex_writer (u "added")) ex_turn).1.1 = Ok o) as [o Ho]
    by (eexists; vm_compute; reflexivity).
  rewrite Ho in He. destruct He as (conv & final & He & _). by exists conv, final.
Defined.

(** An agent whose reply holds a NUL. *)
Definition ex_nul : ex_agent := ex_writer [97; 0].
Definition ex_started := ex_run ex_nul
  (start_conversation_turn ex_core (MkProjectId 1) (MkConversationId 7) (u "add a test")).
Definition ex_task := simulate (ex_answer ex_nul)
  (run_backend_task ex_core ex_project (MkSessionId (u "s1")) Anonymous ex_config
     (u "add a test")) ex_started.2.

Lemma unstorable_reply_keeps_marker_witness :
  exists tr e, runs ex_turn tr (Err e).
Proof.
  assert (exists conv, ex_started.1.1 = Ok (ex_project, MkSessionId (u "s1"), conv))
    as [conv Hc] by (eexists; vm_compute; reflexivity).
  assert (exists o, ex_task.1.1.1 = Ok o /\ tr_text (out_turn o) = [97; 0]) as (o & Ho & Ht)
    by (eexists; split; [vm_compute; reflexivity|reflexivity]).
  edestruct (unstorable_reply_keeps_marker ex_core (MkProjectId 1) (MkConversationId 7) Anonymous
               ex_config (u "add a test") ex_started.1.2 ex_task.1.2) as (e & He & _);
    [done|done| | | | | |exists (ex_started.1.2 ++ ex_task.1.2), e; exact He].
  - rewrite <-Hc. apply ex_runs.
  - apply ex_stores.
  - rewrite <-Ho, <-surjective_pairing. apply simulate_runs.
  - by rewrite Ht.
  - do 2 right. by rewrite Ht.
Defined.
