(* ===== verification/ProjectOps.v ===== *)
(** * Projects, sessions, commands and build repair ([vibecoder-core])

    The remaining operations of the controller: each checks that the project is
    quiescent where it changes files, holds the lifecycle permit where it may not
    overlap with a turn, and revokes command approvals at the boundaries of a turn.
    The operations on website projects are in [WebOps.v]. *)
From S2P Require Import Prelude RustStr StrFacts RustPath Domain WorkspaceContract Routing.
From S2P Require Import CommandPolicy.
From S2P Require Import ProcessContract BuildContract BuildRepair BuildLoop Persistence.
From S2P Require Import Conversation Checkpoint Program CoreCalls BackendTask.

Abbreviation db code := (Domain.Persistence (u code)).

(** ** Commands *)

Definition request_project_command (project : ProjectRef) (session_id : SessionId)
    (command : CommandSpec) : core (Result CommandRequestOutcome) :=
  try _ <- call_ (WsVerifyProject project);
  try _ <- call_ (AgVerifyBinding project session_id);
  call_ (RequestCommand session_id (pr_id project) command).

Definition decide_project_command (project : ProjectRef) (session_id : SessionId)
    (approval : CommandApprovalRequest) (decision : CommandApprovalDecision) :
    core (Result CommandDecisionOutcome) :=
  try _ <-
    match decision with
    | AllowOnce =>
      try _ <- call_ (WsVerifyProject project);
      call_ (AgVerifyBinding project session_id)
    | Deny => Ret (Ok tt)
    end;
  call_ (DecideCommand session_id (pr_id project) approval decision).

Definition revoke_pending_project_commands (session_id : SessionId) : core (Result N) :=
  call_ (RevokePending session_id).

Definition start_authorized_project_command_with_lifecycle_held (self : VibeCoderCore)
    (project : ProjectRef) (session_id : SessionId) (envelope : CommandExecutionEnvelope)
    (options : ProcessExecutionOptions) : core (Result RunningProcess) :=
  if negb (bool_decide (env_project_id envelope = pr_id project))
     || negb (bool_decide (env_session_id envelope = session_id)) then
    Ret (Err (Process (u "process_authorization_scope_mismatch")))
  else
    try _ <- call_ (WsVerifyProject project);
    try _ <- call_ (AgVerifyBinding project session_id);
    try _ <- give (process_runtime self);
    try _ <- call_ (ValidateEnvelope envelope);
    call_ (ProcStart project envelope options).

Definition start_authorized_project_command (self : VibeCoderCore) (project : ProjectRef)
    (session_id : SessionId) (envelope : CommandExecutionEnvelope)
    (options : ProcessExecutionOptions) : core (Result RunningProcess) :=
  with_lifecycle (pr_id project)
    (start_authorized_project_command_with_lifecycle_held self project session_id envelope
       options).

Definition cancel_project_process (self : VibeCoderCore) (id : ProcessId) : core (Result unit) :=
  try _ <- give (process_runtime self); call_ (ProcCancel id).

Definition prepare_build_job (project : ProjectRef) (target : BuildTargetKind) :
    core (Result BuildJobDescriptor) :=
  try _ <- call_ (WsVerifyProject project);
  do fresh <- call_ NewUuid;
  Ret (Ok (BuildJobDescriptor_new fresh (pr_id project) target)).

Definition start_authorized_build_job (self : VibeCoderCore) (project : ProjectRef)
    (session_id : SessionId) (descriptor : BuildJobDescriptor)
    (envelope : CommandExecutionEnvelope) (options : ProcessExecutionOptions) :
    core (Result RunningBuildJob) :=
  if negb (bool_decide (jd_project_id descriptor = pr_id project)) then
    Ret (Err (build_error (u "build_project_scope_mismatch")))
  else
    try running <-
      start_authorized_project_command self project session_id envelope options;
    Ret (Ok {| job_descriptor := descriptor; job_process := running |}).

(** ** Persisted projects *)

Definition create_persisted_project (self : VibeCoderCore) : core (Result ProjectRef) :=
  try _ <- give (project_state_store self);
  do fresh <- call_ NewUuid;
  try project <- call_ (WsCreateProject (MkProjectId fresh));
  do created <- call_ (PsCreate (PersistedProjectState_new (pr_id project)));
  match created with
  | Err error =>
    do removed <- call_ (WsRemoveProject project);
    Ret (Err (if is_ok removed then error else db "project_create_state_rollback_failed"))
  | Ok _ => Ret (Ok project)
  end.

Definition load_project_state (project_id : ProjectId) : core (Result PersistedProjectState) :=
  some_or (db "project_state_not_found") (call_ (PsLoad project_id)).

Definition open_persisted_project (self : VibeCoderCore) (id : ProjectId) :
    core (Result (ProjectRef * PersistedProjectState)) :=
  try _ <- give (project_state_store self);
  try state <- load_project_state id;
  try project <- call_ (WsOpenProject id);
  Ret (Ok (project, state)).

Definition list_persisted_project_ids (self : VibeCoderCore) (max_projects : N) :
    core (Result (list ProjectId)) :=
  try _ <- give (project_state_store self); call_ (PsList max_projects).

Definition remove_persisted_project (self : VibeCoderCore) (project : ProjectRef) :
    core (Result unit) :=
  with_lifecycle (pr_id project)
    (try _ <- give (project_state_store self);
     try state <- load_project_state (pr_id project);
     try _ <- call_ (WsVerifyProject project);
     try _ <- ensure_no_active_project_process self (pr_id project);
     try _ <- call_ (AgQuiescent project);
     try _ <- call_ (InvalidateAuthorizations (pr_id project));
     try _ <-
       match ps_agent_session state with
       | Some session =>
         try _ <- call_ (RevokePending (as_session_id session)); Ret (Ok tt)
       | None => Ret (Ok tt)
       end;
     try _ <- call_ (WsRemoveProject project);
     try _ <- (if has_conversation_store self
               then call_ (CvRemoveProject (pr_id project))
               else Ret (Ok tt));
     call_ (PsRemove (pr_id project))).

(** ** Persisted conversations *)

Definition new_session (self : VibeCoderCore) (session_id : SessionId) : PersistedAgentSession :=
  {| as_runtime_id := runtime_id self; as_session_id := session_id;
     as_preferred_model := None |}.

Definition create_persisted_conversation (self : VibeCoderCore) (project : ProjectRef) :
    core (Result ConversationId) :=
  with_lifecycle (pr_id project)
    (try _ <- give (conversation_store self);
     try _ <- call_ (WsVerifyProject project);
     try _ <- give (project_state_store self);
     try _ <- load_project_state (pr_id project);
     do fresh <- call_ NewUuid;
     let id := MkConversationId fresh in
     let conversation := pending_creation id (pr_id project) in
     try _ <- call_ (CvCreate conversation);
     do session <- call_ (AgCreateSession project);
     match session with
     | Err error =>
       do removed <- call_ (CvRemove (pr_id project) id);
       Ret (Err (if is_ok removed then error else db "conversation_create_rollback_failed"))
     | Ok session_id =>
       try _ <-
         or_error (db "conversation_session_persistence_incomplete_after_create")
           (call_ (CvUpdate (revision conversation)
                     (set_agent_session conversation (new_session self session_id))));
       Ret (Ok id)
     end).

Definition list_persisted_conversation_ids (self : VibeCoderCore) (project_id : ProjectId)
    (max_conversations : N) : core (Result (list ConversationId)) :=
  try _ <- call_ (WsOpenProject project_id);
  try _ <- give (conversation_store self);
  call_ (CvList project_id max_conversations).

Definition load_persisted_conversation (self : VibeCoderCore) (project_id : ProjectId)
    (id : ConversationId) : core (Result PersistedConversation) :=
  try _ <- call_ (WsOpenProject project_id);
  try _ <- give (conversation_store self);
  some_or (db "conversation_not_found") (call_ (CvLoad project_id id)).

(** ** The session of a project *)

Definition with_session (s : PersistedProjectState) (pending : bool)
    (session : option PersistedAgentSession) : PersistedProjectState :=
  {| ps_schema := ps_schema s; ps_revision := ps_revision s; ps_project_id := ps_project_id s;
     ps_session_creation_pending := pending; ps_agent_session := session;
     ps_route_policy := ps_route_policy s |}.

Definition with_route_policy (s : PersistedProjectState)
    (policy : option ModelRoutePolicyConfig) : PersistedProjectState :=
  {| ps_schema := ps_schema s; ps_revision := ps_revision s; ps_project_id := ps_project_id s;
     ps_session_creation_pending := ps_session_creation_pending s;
     ps_agent_session := ps_agent_session s; ps_route_policy := policy |}.

Definition start_persisted_project_session (self : VibeCoderCore) (project : ProjectRef) :
    core (Result SessionId) :=
  with_lifecycle (pr_id project)
    (try _ <- give (project_state_store self);
     try _ <- call_ (WsVerifyProject project);
     try state <- load_project_state (pr_id project);
     if ps_session_creation_pending state then
       Ret (Err (db "project_session_creation_incomplete"))
     else if is_some (ps_agent_session state) then
       Ret (Err (db "project_session_already_persisted"))
     else
       try state <- call_ (PsUpdate (ps_revision state)
                             (with_session state true (ps_agent_session state)));
       do session <- call_ (AgCreateSession project);
       match session with
       | Err error =>
         do updated <- call_ (PsUpdate (ps_revision state)
                                (with_session state false (ps_agent_session state)));
         Ret (Err (if is_ok updated then error
                   else db "project_session_pending_clear_failed"))
       | Ok session_id =>
         try _ <-
           or_error (db "project_session_persistence_incomplete_after_create")
             (call_ (PsUpdate (ps_revision state)
                       (with_session state false (Some (new_session self session_id)))));
         Ret (Ok session_id)
       end).

(** The checks of a loaded state before its session is used. *)
Definition ready_project_session (self : VibeCoderCore) (state : PersistedProjectState) :
    Result PersistedAgentSession :=
  if ps_session_creation_pending state then Err (db "project_session_creation_incomplete")
  else
    let? session := ok_or (ps_agent_session state) (db "project_session_not_persisted") in
    if negb (str_eqb (as_runtime_id session) (runtime_id self)) then
      Err (db "project_session_runtime_mismatch")
    else Ok session.

Definition resume_persisted_project_session (self : VibeCoderCore) (project_id : ProjectId) :
    core (Result (ProjectRef * SessionId)) :=
  with_lifecycle project_id
    (try (project, state) <- open_persisted_project self project_id;
     try session <- give (ready_project_session self state);
     try _ <- call_ (AgResumeSession project (as_session_id session));
     Ret (Ok (project, as_session_id session))).

Definition set_persisted_session_model (self : VibeCoderCore) (project_id : ProjectId)
    (model : ModelRef) : core (Result unit) :=
  with_lifecycle project_id
    (try _ <- give (project_state_store self);
     try (project, state) <- open_persisted_project self project_id;
     try session <- give (ready_project_session self state);
     try _ <- call_ (AgResumeSession project (as_session_id session));
     let target := {| model_id := mr_id model; provider := mr_provider model |} in
     try _ <- give (validate_target target);
     let session :=
       {| as_runtime_id := as_runtime_id session; as_session_id := as_session_id session;
          as_preferred_model := Some target |} in
     try _ <- call_ (PsUpdate (ps_revision state)
                       (with_session state (ps_session_creation_pending state) (Some session)));
     call_ (AgSetModel (as_session_id session) model)).

Definition set_persisted_route_policy (self : VibeCoderCore) (project_id : ProjectId)
    (policy : option ModelRoutePolicyConfig) : core (Result PersistedProjectState) :=
  try _ <- give (project_state_store self);
  try _ <- call_ (WsOpenProject project_id);
  try _ <- give (match policy with
                 | Some policy => ModelRoutePolicyConfig_validate policy
                 | None => Ok tt
                 end);
  try state <- load_project_state project_id;
  if ps_session_creation_pending state then
    Ret (Err (db "project_session_creation_incomplete"))
  else call_ (PsUpdate (ps_revision state) (with_route_policy state policy)).

Definition start_project_session (project : ProjectRef) : core (Result SessionId) :=
  with_lifecycle (pr_id project)
    (try _ <- call_ (WsVerifyProject project); call_ (AgCreateSession project)).

Definition resume_project_session (project : ProjectRef) (session_id : SessionId) :
    core (Result unit) :=
  with_lifecycle (pr_id project)
    (try _ <- call_ (WsVerifyProject project); call_ (AgResumeSession project session_id)).

Definition list_session_models (session_id : SessionId) : core (Result (list ModelRef)) :=
  call_ (AgListModels session_id).

Definition set_session_model (session_id : SessionId) (model : ModelRef) : core (Result unit) :=
  call_ (AgSetModel session_id model).

(** ** Workspace operations *)

Definition create_project : core (Result ProjectRef) :=
  do fresh <- call_ NewUuid; call_ (WsCreateProject (MkProjectId fresh)).

Definition open_project (id : ProjectId) : core (Result ProjectRef) := call_ (WsOpenProject id).

Definition remove_project (self : VibeCoderCore) (project : ProjectRef) : core (Result unit) :=
  with_lifecycle (pr_id project)
    (try _ <- call_ (WsVerifyProject project);
     try _ <- ensure_no_active_project_process self (pr_id project);
     try _ <- call_ (AgQuiescent project);
     try _ <- call_ (InvalidateAuthorizations (pr_id project));
     call_ (WsRemoveProject project)).

Definition resolve_project_path (project : ProjectRef) (relative : os_path) :
    core (Result os_path) := call_ (WsResolvePath project relative).

Definition create_project_dir_all (project : ProjectRef) (relative : os_path) :
    core (Result unit) :=
  with_lifecycle (pr_id project) (call_ (WsCreateDirAll project relative)).

Definition read_project_file (project : ProjectRef) (relative : os_path) (max_bytes : N) :
    core (Result bytes) := call_ (WsReadFile project relative max_bytes).

Definition atomic_write_project_file (project : ProjectRef) (relative : os_path)
    (contents : bytes) : core (Result unit) :=
  with_lifecycle (pr_id project) (call_ (WsAtomicWrite project relative contents)).

Definition edit_project_text_file (project : ProjectRef) (relative : os_path)
    (expected replacement : str) : core (Result TextEditResult) :=
  with_lifecycle (pr_id project) (call_ (WsEditText project relative expected replacement)).

Definition apply_project_text_patch (project : ProjectRef) (relative : os_path)
    (hunks : list TextPatchHunk) : core (Result TextPatchResult) :=
  with_lifecycle (pr_id project) (call_ (WsApplyPatch project relative hunks)).

Definition list_project_files (project : ProjectRef) (max_entries : N) :
    core (Result ProjectFileList) := call_ (WsListFiles project max_entries).

Definition search_project_text (project : ProjectRef) (needle : str) (max_matches : N) :
    core (Result ProjectTextSearchResult) := call_ (WsSearchText project needle max_matches).

(** ** Build repair

    The guard is passed as state ([&mut BuildRepairLoopGuard]).  Its cancellation
    flag is shared: what a cancellation handle has done in the meantime is seen
    where the guard reads the flag, through [CancelRequested]. *)

Record BuildRepairTurnOutcome := {
  rt_checkpoint : CheckpointMetadata;
  rt_failure : BuildFailureEvidence;
  rt_turn : TurnResult
}.

Definition run_first_build_repair_turn `{Sha256} (self : VibeCoderCore) (project : ProjectRef)
    (session_id : SessionId) (failed_build : BuildResult) (model : option ModelRef) :
    core (Result BuildRepairTurnOutcome) :=
  try plan <- give (from_failed_build failed_build);
  if negb (bool_decide (ev_project_id (plan_evidence plan) = pr_id project)) then
    Ret (Err (build_error (u "build_repair_project_scope_mismatch")))
  else
    with_lifecycle (pr_id project)
      (try _ <- call_ (WsVerifyProject project);
       try _ <- ensure_no_active_project_process self (pr_id project);
       try _ <- call_ (AgQuiescent project);
       try _ <- call_ (AgVerifyBinding project session_id);
       try _ <- call_ (InvalidateAuthorizations (pr_id project));
       try _ <- give (checkpoint_store self);
       try checkpoint <- call_ (CkCreate project BeforeBuildRepair);
       do (_, turn_result) <- call_ (AgRunTurn session_id (plan_prompt plan) model);
       try _ <- call_ (InvalidateAuthorizations (pr_id project));
       try turn <- give turn_result;
       Ret (Ok {| rt_checkpoint := checkpoint; rt_failure := plan_evidence plan;
                  rt_turn := turn |})).

Inductive GuardedBuildRepairDecision :=
| RepairTurn (attempt : N) (repair : BuildRepairTurnOutcome)
    (stop : option BuildRepairLoopStopReason)
| StopRepair (reason : BuildRepairLoopStopReason).

(** The guard with its cancellation flag read again. *)
Definition sync_cancellation (g : BuildRepairLoopGuard) : core BuildRepairLoopGuard :=
  do requested <- call_ CancelRequested; Ret (if (requested : bool) then request g else g).

Definition run_guarded_build_repair_turn `{Sha256} (self : VibeCoderCore)
    (guard : BuildRepairLoopGuard) (project : ProjectRef) (session_id : SessionId)
    (failed_build : BuildResult) (model : option ModelRef) :
    core (Result GuardedBuildRepairDecision * BuildRepairLoopGuard) :=
  if negb (bool_decide (project_id guard = pr_id project))
     || negb (bool_decide (target guard = br_target failed_build)) then
    Ret (Err (build_error (u "build_loop_project_scope_mismatch")), guard)
  else
    do guard <- sync_cancellation guard;
    let (authorized, guard) := authorize_repair guard failed_build in
    match authorized with
    | Err e => Ret (Err e, guard)
    | Ok (Stop reason) => Ret (Ok (StopRepair reason), guard)
    | Ok (Repair permit) =>
      do repair <- run_first_build_repair_turn self project session_id failed_build model;
      match repair with
      | Err e => Ret (Err e, guard)
      | Ok repair =>
        let fingerprint := ev_fingerprint_sha256 (rt_failure repair) in
        do guard <- sync_cancellation guard;
        let (finished, guard) := finish_repair guard permit (rt_turn repair) fingerprint in
        match finished with
        | Err e => Ret (Err e, guard)
        | Ok _ =>
          if negb (str_eqb fingerprint (rap_fingerprint_sha256 permit)) then
            Ret (Err (build_error (u "build_loop_repair_evidence_changed")), guard)
          else
            do guard <- sync_cancellation guard;
            Ret (Ok (RepairTurn (rap_attempt permit) repair (stop_reason guard)), guard)
        end
      end
    end.

Definition request_build_repair_loop_cancel (guard : BuildRepairLoopGuard) : core (Result unit) :=
  do _ <- call_ RequestCancel;
  try _ <- call_ (InvalidateAuthorizations (project_id guard)); Ret (Ok tt).

Definition cancel_active_build_repair_turn (guard : BuildRepairLoopGuard) (project : ProjectRef)
    (session_id : SessionId) : core (Result unit) :=
  if negb (bool_decide (project_id guard = pr_id project)) then
    Ret (Err (build_error (u "build_loop_project_scope_mismatch")))
  else
    try _ <- request_build_repair_loop_cancel guard;
    try _ <- call_ (WsVerifyProject project);
    try _ <- call_ (AgVerifyBinding project session_id);
    call_ (AgCancel session_id).

Definition new_build_repair_loop (fresh : N) (project_id : ProjectId) (target : BuildTargetKind)
    (policy : BuildRepairLoopPolicy) : Result BuildRepairLoopGuard :=
  BuildRepairLoopGuard_new fresh project_id target policy.

(** ** The gateway *)

Definition gateway_health (c : GatewayCredential) : core (Result GatewayHealth) :=
  call_ (GwHealth c).

Definition list_gateway_models (c : GatewayCredential) : core (Result (list ModelRef)) :=
  call_ (GwListModels c).

Definition gateway_execution_profile (c : GatewayCredential) :
    core (Result GatewayExecutionProfile) := call_ (GwProfile c).

Definition gateway_health_resolved (reference : option SecretReference) :
    core (Result GatewayHealth) :=
  try c <- resolve_credential reference; gateway_health c.

Definition list_gateway_models_resolved (reference : option SecretReference) :
    core (Result (list ModelRef)) :=
  try c <- resolve_credential reference; list_gateway_models c.
