(* ===== verification/WebToolchain.v ===== *)
(** * Website toolchain detection ([vibecoder-web-toolchain])

    What a website project is built with, decided from which of fifteen files exist
    and from its [package.json].  Parsing JSON is the [serde_json] crate's and
    hashing [sha2]'s: both are parameters. *)
From S2P Require Import Prelude RustStr StrFacts RustPath Domain BuildContract BuildRepair.
From S2P Require Import Program.
From S2P Require Import ProcessContract CoreCalls BackendTask CoreExample.

(** ** [serde_json] *)

(** [serde_json::Value]; of a number only its spelling is kept. *)
#[warnings="-register-all"]
Inductive Value :=
| JNull
| JBool (b : bool)
| JNumber (spelling : str)
| JString (s : str)
| JArray (values : list Value)
| JObject (entries : list (str * Value)).

Class SerdeJson := from_str : str -> option Value.

Abbreviation Map := (list (str * Value)).

Definition as_object (v : Value) : option Map :=
  match v with JObject entries => Some entries | _ => None end.
Definition as_str (v : Value) : option str :=
  match v with JString s => Some s | _ => None end.

(** [Map::get]. *)
Fixpoint get (object : Map) (key : str) : option Value :=
  match object with
  | [] => None
  | (k, v) :: object => if str_eqb k key then Some v else get object key
  end.

(** ** Data *)

Definition MAX_PACKAGE_JSON_BYTES : N := 1024 * 1024.
Definition MAX_LOCKFILE_BYTES : N := 8 * 1024 * 1024.
Definition MAX_PACKAGE_NAME_BYTES : N := 256.
Definition MAX_RUNTIME_REQUIREMENT_BYTES : N := 256.
Definition BUILD_SCRIPT_NAME : str := u "build".

Inductive PackageManager := Npm | Pnpm | Yarn | Bun.

#[export] Instance PackageManager_eq_dec : EqDecision PackageManager.
Proof. solve_decision. Defined.

Definition runtime_tool_id (m : PackageManager) : str :=
  match m with Npm => u "npm" | Pnpm => u "pnpm" | Yarn => u "yarn" | Bun => u "bun" end.

Inductive WebFramework := Static | Vite | React | Vue | NextJs | Angular | GenericNode.

#[export] Instance WebFramework_eq_dec : EqDecision WebFramework.
Proof. solve_decision. Defined.

Record NodeRuntimeRequirement := { engines_node : option str }.

#[export] Instance NodeRuntimeRequirement_eq_dec : EqDecision NodeRuntimeRequirement.
Proof. solve_decision. Defined.

Inductive DependencyInstallIntent := Locked | Unlocked | NotRequired.

#[export] Instance DependencyInstallIntent_eq_dec : EqDecision DependencyInstallIntent.
Proof. solve_decision. Defined.

Record WebsiteBuildIntent := {
  bi_package_manager : option PackageManager;
  bi_install : DependencyInstallIntent;
  bi_build_script_name : option str
}.

#[export] Instance WebsiteBuildIntent_eq_dec : EqDecision WebsiteBuildIntent.
Proof. solve_decision. Defined.

Record WebsiteToolchainReport := {
  wr_framework : WebFramework;
  wr_package_manager : option PackageManager;
  wr_package_manager_declaration : option str;
  wr_node_requirement : option NodeRuntimeRequirement;
  wr_package_name : option str;
  wr_has_build_script : bool;
  wr_build_intent : WebsiteBuildIntent;
  wr_manifest_sha256_hex : str;
  wr_lockfile_relative_path : option str;
  wr_lockfile_sha256_hex : option str
}.

#[export] Instance WebsiteToolchainReport_eq_dec : EqDecision WebsiteToolchainReport.
Proof. solve_decision. Defined.

(** ** The manifest *)

Definition toolchain_error (code : string) : VibeCoderError := Build (u code).

Definition is_bidi_control (c : N) : bool :=
  (c =? 0x61c) || (c =? 0x200e) || (c =? 0x200f) || (c =? 0x202a) || (c =? 0x202b)
  || (c =? 0x202c) || (c =? 0x202d) || (c =? 0x202e) || (c =? 0x2066) || (c =? 0x2067)
  || (c =? 0x2068) || (c =? 0x2069).

Definition hidden (c : N) : bool := is_control c || is_bidi_control c.

Definition validate_metadata_text (text : str) (max_bytes : N) (error : string) : Result unit :=
  if bool_decide (text = []) || (max_bytes <? blen text) || existsb hidden text then
    Err (toolchain_error error)
  else Ok tt.

Definition optional_bounded_string (object : Map) (key : str) (max_bytes : N)
    (error : string) : Result (option str) :=
  match get object key with
  | None => Ok None
  | Some value =>
    let? text := ok_or (as_str value) (toolchain_error error) in
    let? _ := validate_metadata_text text max_bytes error in Ok (Some text)
  end.

Definition has_string_script (object : Map) (name : str) : Result bool :=
  match get object (u "scripts") with
  | None => Ok false
  | Some value =>
    let? scripts := ok_or (as_object value) (toolchain_error "web_toolchain_scripts_invalid") in
    match get scripts name with
    | None => Ok false
    | Some script =>
      let? text := ok_or (as_str script)
                     (toolchain_error "web_toolchain_build_script_invalid") in
      if bool_decide (text = []) || (64 * 1024 <? blen text) then
        Err (toolchain_error "web_toolchain_build_script_invalid")
      else Ok true
    end
  end.

Definition parse_node_requirement (object : Map) : Result NodeRuntimeRequirement :=
  let? engines_node :=
    match get object (u "engines") with
    | None => Ok None
    | Some (JObject engines) =>
      optional_bounded_string engines (u "node") MAX_RUNTIME_REQUIREMENT_BYTES
        "web_toolchain_node_engine_invalid"
    | Some _ => Err (toolchain_error "web_toolchain_engines_invalid")
    end in
  Ok {| engines_node := engines_node |}.

Definition named_manager (name : str) : Result PackageManager :=
  if str_eqb name (u "npm") then Ok Npm
  else if str_eqb name (u "pnpm") then Ok Pnpm
  else if str_eqb name (u "yarn") then Ok Yarn
  else if str_eqb name (u "bun") then Ok Bun
  else Err (toolchain_error "web_toolchain_package_manager_unsupported").

Definition at_sign : N := 64.

(** [text.split('@').next()]. *)
Definition before_at (text : str) : str := default text (head (split at_sign text)).

Definition parse_package_manager_field (object : Map) :
    Result (option (PackageManager * str)) :=
  match get object (u "packageManager") with
  | None => Ok None
  | Some value =>
    let? text := ok_or (as_str value)
                   (toolchain_error "web_toolchain_package_manager_field_invalid") in
    let? _ := validate_metadata_text text MAX_RUNTIME_REQUIREMENT_BYTES
                "web_toolchain_package_manager_field_invalid" in
    let? manager := named_manager (before_at text) in
    Ok (Some (manager, text))
  end.

(** One section of dependencies. *)
Fixpoint add_dependencies (out : gset str) (entries : Map) : Result (gset str) :=
  match entries with
  | [] => Ok out
  | (name, _) :: entries =>
    if (MAX_PACKAGE_NAME_BYTES <? blen name) || bool_decide (name = []) || existsb hidden name
    then Err (toolchain_error "web_toolchain_dependency_name_invalid")
    else add_dependencies ({[name]} ∪ out) entries
  end.

Fixpoint dependency_sections (object : Map) (out : gset str) (keys : list str) :
    Result (gset str) :=
  match keys with
  | [] => Ok out
  | key :: keys =>
    match get object key with
    | None => dependency_sections object out keys
    | Some value =>
      let? entries := ok_or (as_object value)
                        (toolchain_error "web_toolchain_dependencies_invalid") in
      let? out := add_dependencies out entries in dependency_sections object out keys
    end
  end.

Definition dependency_names (object : Map) : Result (gset str) :=
  dependency_sections object ∅ [u "dependencies"; u "devDependencies"; u "peerDependencies"].

(** ** The files *)

Definition has (files : gset str) (name : string) : bool := bool_decide (u name ∈ files).

Definition first_of (files : gset str) (a b : string) : option str :=
  if has files a then Some (u a) else if has files b then Some (u b) else None.

Definition found_lockfiles (files : gset str) : list (PackageManager * str) :=
  option_list ((Npm,.) <$> first_of files "npm-shrinkwrap.json" "package-lock.json")
  ++ (if has files "pnpm-lock.yaml" then [(Pnpm, u "pnpm-lock.yaml")] else [])
  ++ (if has files "yarn.lock" then [(Yarn, u "yarn.lock")] else [])
  ++ option_list ((Bun,.) <$> first_of files "bun.lock" "bun.lockb").

Definition detect_lockfile_manager (files : gset str) :
    Result (option (PackageManager * str)) :=
  if has files "bun.lock" && has files "bun.lockb" then
    Err (toolchain_error "web_toolchain_multiple_bun_lockfiles")
  else
    match found_lockfiles files with
    | [] => Ok None
    | [one] => Ok (Some one)
    | _ => Err (toolchain_error "web_toolchain_multiple_lockfiles")
    end.

Definition reconcile_package_manager (field lockfile : option PackageManager) :
    Result PackageManager :=
  match field, lockfile with
  | Some a, Some b =>
    if negb (bool_decide (a = b)) then
      Err (toolchain_error "web_toolchain_package_manager_conflict")
    else Ok a
  | Some manager, None | None, Some manager => Ok manager
  | None, None => Err (toolchain_error "web_toolchain_package_manager_unknown")
  end.

Definition detect_framework (dependencies files : gset str) : WebFramework :=
  if has dependencies "next" || has files "next.config.js" || has files "next.config.mjs"
     || has files "next.config.ts" then NextJs
  else if has dependencies "@angular/core" || has files "angular.json" then Angular
  else if has dependencies "vite" || has files "vite.config.js" || has files "vite.config.ts"
     || has files "vite.config.mjs" then Vite
  else if has dependencies "vue" then Vue
  else if has dependencies "react" then React
  else GenericNode.

(** ** The inspection *)

Definition probed_files : list str :=
  [u "package.json"; u "index.html"; u "package-lock.json"; u "npm-shrinkwrap.json";
   u "pnpm-lock.yaml"; u "yarn.lock"; u "bun.lock"; u "bun.lockb"; u "next.config.js";
   u "next.config.mjs"; u "next.config.ts"; u "angular.json"; u "vite.config.js";
   u "vite.config.ts"; u "vite.config.mjs"].

Fixpoint probe_files (project : ProjectRef) (files : gset str) (names : list str) :
    core (Result (gset str)) :=
  match names with
  | [] => Ret (Ok files)
  | relative :: names =>
    try exists_ <- call_ (WsFileExists project (Utf8Path relative));
    probe_files project (if (exists_ : bool) then {[relative]} ∪ files else files) names
  end.

Definition static_report : WebsiteToolchainReport :=
  {| wr_framework := Static; wr_package_manager := None;
     wr_package_manager_declaration := None; wr_node_requirement := None;
     wr_package_name := None; wr_has_build_script := false;
     wr_build_intent := {| bi_package_manager := None; bi_install := NotRequired;
                           bi_build_script_name := None |};
     wr_manifest_sha256_hex := []; wr_lockfile_relative_path := None;
     wr_lockfile_sha256_hex := None |}.



Definition read_manifest `{SerdeJson} (package_bytes : bytes) : Result Map :=
  let? package_text := ok_or (from_utf8 package_bytes)
                         (toolchain_error "web_toolchain_package_json_non_utf8") in
  let? root := ok_or (from_str package_text)
                 (toolchain_error "web_toolchain_package_json_invalid") in
  ok_or (as_object root) (toolchain_error "web_toolchain_package_json_root_invalid").

(** What the manifest says before a lockfile is read. *)
Record manifest_head := {
  mh_name : option str;
  mh_node : NodeRuntimeRequirement;
  mh_declaration : option str;
  mh_lockfile : option (PackageManager * str);
  mh_manager : PackageManager
}.

Definition read_head (object : Map) (files : gset str) : Result manifest_head :=
  let? name := optional_bounded_string object (u "name") MAX_PACKAGE_NAME_BYTES
                 "web_toolchain_package_name_invalid" in
  let? node := parse_node_requirement object in
  let? field := parse_package_manager_field object in
  let? lockfile := detect_lockfile_manager files in
  let? manager := reconcile_package_manager (fst <$> field) (fst <$> lockfile) in
  Ok {| mh_name := name; mh_node := node; mh_declaration := snd <$> field;
        mh_lockfile := lockfile; mh_manager := manager |}.

(** The report once the lockfile is read. *)
Definition finish_report (object : Map) (files : gset str) (h : manifest_head)
    (manifest_sha256 : str) (lockfile : option (str * str)) : Result WebsiteToolchainReport :=
  let? dependencies := dependency_names object in
  let? has_build_script := has_string_script object BUILD_SCRIPT_NAME in
  Ok {| wr_framework := detect_framework dependencies files;
        wr_package_manager := Some (mh_manager h);
        wr_package_manager_declaration := mh_declaration h;
        wr_node_requirement := Some (mh_node h);
        wr_package_name := mh_name h;
        wr_has_build_script := has_build_script;
        wr_build_intent :=
          {| bi_package_manager := Some (mh_manager h);
             bi_install := if is_some (mh_lockfile h) then Locked else Unlocked;
             bi_build_script_name :=
               if has_build_script : bool then Some BUILD_SCRIPT_NAME else None |};
        wr_manifest_sha256_hex := manifest_sha256;
        wr_lockfile_relative_path := fst <$> lockfile;
        wr_lockfile_sha256_hex := snd <$> lockfile |}.

Definition inspect_website_project `{Sha256, SerdeJson} (project : ProjectRef) :
    core (Result WebsiteToolchainReport) :=
  try _ <- call_ (WsVerifyProject project);
  try files <- probe_files project ∅ probed_files;
  if negb (has files "package.json") then
    Ret (if has files "index.html" then Ok static_report
         else Err (toolchain_error "web_toolchain_package_json_missing"))
  else
    try package_bytes <-
      call_ (WsReadFile project (Utf8Path (u "package.json")) MAX_PACKAGE_JSON_BYTES);
    try object <- give (read_manifest package_bytes);
    try h <- give (read_head object files);
    try lockfile <-
      match mh_lockfile h with
      | Some (_, relative) =>
        try bytes <- call_ (WsReadFile project (Utf8Path relative) MAX_LOCKFILE_BYTES);
        Ret (Ok (Some (relative, digest_hex bytes)))
      | None => Ret (Ok None)
      end;
    Ret (finish_report object files h (digest_hex package_bytes) lockfile).

(** ** What an inspection has seen *)

(** The answers to [WsFileExists] and the bytes read, by relative path. *)
Record seen := mkSeen { answers : gmap str bool; contents : gmap str bytes }.

Definition nothing_seen : seen := mkSeen ∅ ∅.

Definition see (s : seen) (e : event core_sig) : seen :=
  match ev_call e as c return resp c -> seen with
  | WsFileExists _ (Utf8Path f) => fun r =>
    match r with Ok b => mkSeen (<[f := b]> (answers s)) (contents s) | Err _ => s end
  | WsReadFile _ (Utf8Path f) _ => fun r =>
    match r with Ok bs => mkSeen (answers s) (<[f := bs]> (contents s)) | Err _ => s end
  | _ => fun _ => s
  end (ev_resp e).

Definition present (s : seen) (f : str) : Prop := answers s !! f = Some true.
Definition absent (s : seen) (f : str) : Prop := answers s !! f = Some false.

(** The calls of an inspection. *)
Definition inspection_call (project : ProjectRef) (c : core_call) : Prop :=
  match c with
  | WsVerifyProject p => p = project
  | WsFileExists p f => p = project /\ f ∈ Utf8Path <$> probed_files
  | WsReadFile p f n =>
    p = project /\ f ∈ Utf8Path <$> probed_files /\ n <= MAX_LOCKFILE_BYTES
  | _ => False
  end.

(** The lockfiles of a package manager, the preferred one first. *)
Definition lockfiles (m : PackageManager) : list str :=
  match m with
  | Npm => [u "npm-shrinkwrap.json"; u "package-lock.json"]
  | Pnpm => [u "pnpm-lock.yaml"]
  | Yarn => [u "yarn.lock"]
  | Bun => [u "bun.lock"; u "bun.lockb"]
  end.

(** No manager other than [m] has a lockfile. *)
Definition only_manager (s : seen) (m : PackageManager) : Prop :=
  forall m', m' <> m -> Forall (absent s) (lockfiles m').

Definition build_script_of (object : Map) (text : str) : Prop :=
  exists scripts, get object (u "scripts") = Some (JObject scripts) /\
    get scripts BUILD_SCRIPT_NAME = Some (JString text) /\ text <> [].

(** The report describes a project with a manifest. *)
Record described `{Sha256, SerdeJson} (s : seen) (r : WebsiteToolchainReport)
    (m : PackageManager) (manifest : bytes) (object : Map) : Prop := {
  ds_present : present s (u "package.json");
  ds_read : contents s !! u "package.json" = Some manifest;
  ds_digest : wr_manifest_sha256_hex r = digest_hex manifest;
  ds_parsed : read_manifest manifest = Ok object;
  ds_manager : wr_package_manager r = Some m;
  ds_intent : bi_package_manager (wr_build_intent r) = Some m;
  ds_script : wr_has_build_script r = true <-> exists text, build_script_of object text;
  ds_script_name : bi_build_script_name (wr_build_intent r) =
    if wr_has_build_script r then Some BUILD_SCRIPT_NAME else None;
  ds_only : only_manager s m;
  ds_declared : forall d, wr_package_manager_declaration r = Some d ->
    get object (u "packageManager") = Some (JString d) /\ before_at d = runtime_tool_id m;
  ds_lockfile :
    match wr_lockfile_relative_path r with
    | Some f =>
      bi_install (wr_build_intent r) = Locked /\ f ∈ lockfiles m /\ present s f /\
      exists bs, contents s !! f = Some bs /\ wr_lockfile_sha256_hex r = Some (digest_hex bs)
    | None =>
      bi_install (wr_build_intent r) = Unlocked /\ wr_lockfile_sha256_hex r = None /\
      Forall (absent s) (lockfiles m) /\ is_some (wr_package_manager_declaration r) = true
    end
}.

(** The report describes what was seen. *)
Definition describes `{Sha256, SerdeJson} (s : seen) (r : WebsiteToolchainReport) : Prop :=
  (r = static_report /\ absent s (u "package.json") /\ present s (u "index.html")) \/
  exists m manifest object, described s r m manifest object.

(** ** Lemmas *)

(** [files] are the files found among [names]. *)
Definition found (s : seen) (names : list str) (files : gset str) : Prop :=
  forall f, f ∈ names -> answers s !! f = Some (bool_decide (f ∈ files)).

Lemma found_present s files f : found s probed_files files -> f ∈ probed_files ->
  f ∈ files -> present s f.
Proof. intros Hf Hp Hin. unfold present. by rewrite Hf, bool_decide_true. Qed.
Lemma found_absent s files f : found s probed_files files -> f ∈ probed_files ->
  f ∉ files -> absent s f.
Proof. intros Hf Hp Hin. unfold absent. by rewrite Hf, bool_decide_false. Qed.

Lemma lockfiles_probed m : Forall (.∈ probed_files) (lockfiles m).
Proof. apply (bool_decide_eq_true_1 _). by destruct m; vm_compute. Qed.
Lemma lockfile_probed m f : f ∈ lockfiles m -> f ∈ probed_files.
Proof. revert f. apply Forall_forall, lockfiles_probed. Qed.

(** A lockfile is found for one manager and no other has any. *)
Lemma detect_lockfile_ok files o :
  detect_lockfile_manager files = Ok o ->
  match o with
  | Some (m, f) => f ∈ lockfiles m /\ f ∈ files /\
    forall m', m' <> m -> Forall (.∉ files) (lockfiles m')
  | None => forall m, Forall (.∉ files) (lockfiles m)
  end.
Proof.
  unfold detect_lockfile_manager, found_lockfiles, first_of, has.
  repeat case_bool_decide; cbn -[u]; try discriminate; intros [= <-].
  all: repeat split; try done; try by (repeat (left || right)).
  all: intros []; try done; intros; repeat constructor; done.
Qed.

Lemma named_manager_ok name m : named_manager name = Ok m -> name = runtime_tool_id m.
Proof.
  unfold named_manager, str_eqb. repeat case_bool_decide; intros [= <-]; done.
Qed.

Lemma as_object_Some v o : as_object v = Some o <-> v = JObject o.
Proof. destruct v; cbn; split; congruence. Qed.
Lemma as_str_Some v t : as_str v = Some t <-> v = JString t.
Proof. destruct v; cbn; split; congruence. Qed.

Lemma parse_package_manager_field_ok object o :
  parse_package_manager_field object = Ok o ->
  match o with
  | Some (m, d) => get object (u "packageManager") = Some (JString d) /\
                   before_at d = runtime_tool_id m
  | None => True
  end.
Proof.
  unfold parse_package_manager_field. destruct (get object _) as [v|]; [|by intros [= <-]].
  destruct (as_str v) as [d|] eqn:Ed; [|done]. apply as_str_Some in Ed as ->. cbn [ok_or].
  destruct (validate_metadata_text _ _ _); [|done].
  destruct (named_manager _) as [m|] eqn:Em; [|done]. intros [= <-].
  split; [done|]. by apply named_manager_ok.
Qed.

Lemma has_string_script_ok object b :
  has_string_script object BUILD_SCRIPT_NAME = Ok b ->
  b = true <-> exists text, build_script_of object text.
Proof.
  unfold has_string_script, build_script_of. destruct (get object _) as [v|]; [|naive_solver].
  destruct (as_object v) as [scripts|] eqn:Es; [|done]. apply as_object_Some in Es as ->.
  cbn [ok_or]. destruct (get scripts BUILD_SCRIPT_NAME) as [v|] eqn:Eg; [|naive_solver].
  destruct (as_str v) as [text|] eqn:Et; [|done]. apply as_str_Some in Et as ->. cbn [ok_or].
  case_bool_decide; [done|]. destruct (_ <? _); [done|]. intros [= <-]. naive_solver.
Qed.

Lemma reconcile_ok field lockfile m :
  reconcile_package_manager field lockfile = Ok m ->
  (forall m', field = Some m' -> m' = m) /\ (forall m', lockfile = Some m' -> m' = m) /\
  (lockfile = None -> field = Some m).
Proof.
  unfold reconcile_package_manager. destruct field, lockfile; try case_bool_decide; naive_solver.
Qed.

Lemma read_head_ok object files h :
  read_head object files = Ok h ->
  detect_lockfile_manager files = Ok (mh_lockfile h) /\
  (forall m f, mh_lockfile h = Some (m, f) -> m = mh_manager h) /\
  (forall d, mh_declaration h = Some d ->
    get object (u "packageManager") = Some (JString d) /\
    before_at d = runtime_tool_id (mh_manager h)) /\
  (mh_lockfile h = None -> is_some (mh_declaration h) = true).
Proof.
  unfold read_head. destruct (optional_bounded_string _ _ _ _); [|done].
  destruct (parse_node_requirement _); [|done].
  destruct (parse_package_manager_field _) as [field|] eqn:Ef; [|done].
  apply parse_package_manager_field_ok in Ef.
  destruct (detect_lockfile_manager _) as [lockfile|]; [|done].
  destruct (reconcile_package_manager _ _) as [m|] eqn:Er; [|done].
  apply reconcile_ok in Er as (Hf & Hl & Hn). intros [= <-]. cbn. split_and!; [done|..].
  - intros m' f ->. by apply Hl.
  - destruct field as [[m' d']|]; [|done]. intros d [= ->]. by rewrite <-(Hf m' eq_refl).
  - intros ->. specialize (Hn eq_refl). by destruct field.
Qed.

Lemma probed_package : u "package.json" ∈ probed_files.
Proof. by repeat (left || right). Qed.
Lemma probed_index : u "index.html" ∈ probed_files.
Proof. by repeat (left || right). Qed.

(** A report follows from what was read. *)
Lemma finish_report_describes `{Sha256, SerdeJson} s files manifest object h lockfile r :
  found s probed_files files -> u "package.json" ∈ files ->
  contents s !! u "package.json" = Some manifest ->
  read_manifest manifest = Ok object -> read_head object files = Ok h ->
  match mh_lockfile h with
  | Some (_, f) => exists bs, contents s !! f = Some bs /\ lockfile = Some (f, digest_hex bs)
  | None => lockfile = None
  end ->
  finish_report object files h (digest_hex manifest) lockfile = Ok r ->
  described s r (mh_manager h) manifest object.
Proof.
  intros Hfiles Hpkg Hman Hread Hhead Hlock. unfold finish_report.
  destruct (dependency_names object); [|done].
  destruct (has_string_script _ _) as [b|] eqn:Eb; [|done]. apply has_string_script_ok in Eb.
  apply read_head_ok in Hhead as (Hd & Hm & Hdecl & Hnone). apply detect_lockfile_ok in Hd.
  assert (Habs : forall m, Forall (.∉ files) (lockfiles m) -> Forall (absent s) (lockfiles m)).
  { intros m. rewrite !Forall_forall. intros Hn f Hf. eapply found_absent; eauto using lockfile_probed. }
  intros [= <-]. split; cbn -[u]; try done.
  - exact (found_present _ _ _ Hfiles probed_package Hpkg).
  - intros m' Hne. apply Habs. destruct (mh_lockfile h) as [[m f]|]; [|apply Hd].
    apply Hd. by rewrite (Hm m f eq_refl).
  - destruct (mh_lockfile h) as [[m f]|]; [|subst lockfile; cbn; split_and!; auto].
    destruct Hlock as (bs & ? & ->). cbn. rewrite <-(Hm m f eq_refl). destruct Hd as (? & ? & _).
    split_and!; [done..| |by exists bs]. eapply found_present; eauto using lockfile_probed.
Qed.

(** ** The inspection under a monitor that sees its answers *)
Section inspection.
Context `{Sha256, SerdeJson} {S : Type} (env : event core_sig -> Prop)
  (ok : S -> event core_sig -> Prop) (next : S -> event core_sig -> S)
  (view : S -> seen) (I : S -> Prop) (project : ProjectRef).
Context (observes : forall s e, inspection_call project (ev_call e) -> I s ->
  ok s e /\ I (next s e) /\ view (next s e) = see (view s) e).

Abbreviation inspected := (wp env ok next).

Lemma inspect_call c (Q : S -> core_resp c -> Prop) s :
  inspection_call project c -> I s ->
  (forall r s', I s' -> view s' = see (view s) (Ev c r) -> Q s' r) -> inspected (call_ c) Q s.
Proof.
  intros Hc Hi HQ. apply wp_call_. intros r _. destruct (observes s (Ev c r) Hc Hi) as (? & ? & ?).
  split; [done|]. by apply HQ.
Qed.

Lemma probe_files_found names s files asked :
  I s -> Forall (.∈ probed_files) names -> NoDup (asked ++ names) ->
  (forall f, f ∈ files -> f ∈ asked) -> found (view s) asked files ->
  inspected (probe_files project files names)
    (fun s' r => I s' /\ contents (view s') = contents (view s) /\
       match r with Ok files => found (view s') (asked ++ names) files | Err _ => True end) s.
Proof.
  revert s files asked. induction names as [|n names IH]; intros s files asked Hi Hp Hnd Hsub Hf;
    cbn [probe_files]; [by rewrite app_nil_r|].
  apply Forall_cons in Hp as [Hn Hp]. apply wp_bind, inspect_call; [|done|].
  - split; [done|]. by apply list_elem_of_fmap_2.
  - intros [b|e] s' Hi' Hv; [|by cbn; rewrite Hv].
    assert (Hna : n ∉ asked).
    { intros Ha. rewrite NoDup_app in Hnd. destruct Hnd as (_ & Hx & _). apply (Hx n Ha). by left. }
    rewrite cons_middle, app_assoc in *.
    eapply wp_mono; [apply (IH s' _ (asked ++ [n])); try done|].
    + intros f. destruct b; set_solver.
    + rewrite Hv. intros f Hfa. cbn. apply elem_of_app in Hfa as [Hfa|Hfa%list_elem_of_singleton].
      * rewrite lookup_insert_ne by (by intros ->). rewrite (Hf f Hfa). f_equal.
        apply bool_decide_ext. destruct b; set_solver.
      * subst f. rewrite lookup_insert_eq. f_equal. symmetry.
        destruct b; [apply bool_decide_eq_true|apply bool_decide_eq_false]; set_solver.
    + cbn. intros s'' r (? & -> & ?). by rewrite Hv.
Qed.

Lemma inspect_website_wp s :
  I s -> view s = nothing_seen ->
  inspected (inspect_website_project project)
    (fun s' r => I s' /\ match r with Ok report => describes (view s') report | Err _ => True end) s.
Proof.
  intros Hi Hs. unfold inspect_website_project.
  apply wp_bind, inspect_call; [done..|]. intros [[]|e] s1 Hi1 Hv1; [|done].
  rewrite Hs in Hv1. cbn in Hv1.
  apply wp_bind. eapply wp_mono;
    [apply (probe_files_found probed_files s1 ∅ []); [done| | |set_solver|by intros f ?%elem_of_nil]|].
  { by apply Forall_forall. }
  { apply (bool_decide_eq_true_1 _). by vm_compute. }
  intros s2 [files|e] (Hi2 & Hc2 & Hf2); [|done]. cbn [app] in Hf2.
  unfold has. case_bool_decide as Hpkg; cbn [negb].
  2:{ case_bool_decide as Hidx; split; try done. left. split_and!; [done|..].
      - eapply found_absent, Hpkg; [done|apply probed_package].
      - eapply found_present; [done|apply probed_index|done]. }
  apply wp_bind, inspect_call; [|done|].
  { split_and!; [done|apply list_elem_of_fmap_2, probed_package|by vm_compute]. }
  intros [manifest|e] s3 Hi3 Hv3; [|done]. cbn in Hv3.
  destruct (read_manifest manifest) as [object|] eqn:Eo; [|by split].
  cbn [give bind]. destruct (read_head object files) as [h|] eqn:Eh; [|by split].
  cbn [give bind]. apply wp_bind.
  assert (Hmf : match mh_lockfile h with Some (m, f) => f ∈ lockfiles m | None => True end).
  { apply read_head_ok in Eh as (Hd & _). apply detect_lockfile_ok in Hd.
    by destruct (mh_lockfile h) as [[m f]|]; [apply Hd|]. }
  destruct (mh_lockfile h) as [[m f]|] eqn:El.
  - apply wp_bind, inspect_call; [|done|].
    { split_and!; [done|by eapply list_elem_of_fmap_2, lockfile_probed|done]. }
    intros [bs|e] s4 Hi4 Hv4; [|done]. cbn in Hv4. cbn [wp]. split; [done|].
    destruct (finish_report _ _ _ _ _) as [r|] eqn:Er; [|done]. right.
    eexists _, _, _. eapply finish_report_describes; [| | | |exact Eh| |exact Er]; try done.
    + intros f' Hf'. rewrite Hv4, Hv3. cbn. by apply Hf2.
    + rewrite Hv4, Hv3. cbn. destruct (decide (f = u "package.json")) as [->|Hne].
      * exfalso. by destruct m; apply (bool_decide_eq_true_2 _) in Hmf.
      * rewrite lookup_insert_ne by done. by rewrite lookup_insert_eq.
    + rewrite El. exists bs. split; [|done]. rewrite Hv4. cbn. by rewrite lookup_insert_eq.
  - cbn [wp]. split; [done|].
    destruct (finish_report _ _ _ _ _) as [r|] eqn:Er; [|done]. right.
    eexists _, _, _. eapply finish_report_describes; [| | | |exact Eh| |exact Er]; try done.
    + intros f' Hf'. rewrite Hv3. cbn. by apply Hf2.
    + rewrite Hv3. cbn. by rewrite lookup_insert_eq.
    + by rewrite El.
Qed.
End inspection.

(** An inspection reads at most the fifteen files it knows, within the project and
    the size limits, and its report says what it read: whether there is a build
    script in the manifest, the one package manager whose lockfile exists or that
    the manifest declares, and the digests of the manifest and of that lockfile.  A
    report is never made from the lockfiles of two managers, nor against the
    manager the manifest declares. *)
Theorem inspection_faithful `{Sha256, SerdeJson} project tr r :
  runs (inspect_website_project project) tr r ->
  Forall (fun e => inspection_call project (ev_call e)) tr /\
  match r with Ok report => describes (foldl see nothing_seen tr) report | Err _ => True end.
Proof.
  intros Hr.
  destruct (wp_sound (fun _ => True) (fun _ e => inspection_call project (ev_call e)) see
    (inspect_website_project project)
    (fun s r => True /\ match r with Ok report => describes s report | Err _ => True end)
    nothing_seen tr r) as [Ha [_ Hd]]; [|done|by apply Forall_forall|].
  - by apply (inspect_website_wp _ _ _ (fun s => s) (fun _ => True)).
  - split; [|done]. eapply accepted_Forall; [|exact Ha]. done.
Qed.

(** ** A project with an npm lockfile *)

Definition ex_json : SerdeJson :=
  fun _ => Some (JObject [(u "scripts", JObject [(u "build", JString (u "vite build"))])]).
Definition ex_sha256 : Sha256 := fun bs => bs.
Definition ex_existing : gset str := {[u "package.json"; u "package-lock.json"]}.
Definition ex_started : RunningProcess :=
  {| rp_process_id := MkProcessId 3; events_poisoned := false; events := [] |}.

Definition ex_web_answer (c : core_call) (w : ex_world) : core_resp c * ex_world :=
  match c as c return core_resp c * ex_world with
  | WsFileExists _ (Utf8Path f) => (Ok (bool_decide (f ∈ ex_existing)), w)
  | WsReadFile _ (Utf8Path f) _ =>
    (Ok (if str_eqb f (u "package.json") then [123] else [35]), w)
  | ProcStart _ _ _ => (Ok ex_started, w)
  | c => ex_answer (ex_writer []) c w
  end.

Definition ex_web_run {A} (p : core A) : A * list (event core_sig) * ex_world :=
  simulate ex_web_answer p ex_start.

Definition ex_inspection : Result WebsiteToolchainReport * list (event core_sig) * ex_world :=
  ex_web_run (@inspect_website_project ex_sha256 ex_json ex_project).

Lemma inspection_faithful_witness :
  exists report, ex_inspection.1.1 = Ok report /\ wr_package_manager report = Some Npm /\
    @describes ex_sha256 ex_json (foldl see nothing_seen ex_inspection.1.2) report.
Proof.
  destruct ex_inspection.1.1 as [report|] eqn:E; [|vm_compute in E; discriminate E].
  exists report. split; [done|]. split; [by vm_compute in E; injection E as <-|].
  destruct (@inspection_faithful ex_sha256 ex_json ex_project ex_inspection.1.2
    ex_inspection.1.1 (simulate_runs _ _ _)) as [_ Hd].
  rewrite E in Hd. exact Hd.
Defined.
