(* ===== verification/WebPipeline.v ===== *)
(** * The website build pipeline ([vibecoder-web-build-pipeline])

    Two stages, dependency installation and the build script, each a command that
    has to be approved and whose result decides the next state. *)
From S2P Require Import Prelude RustStr RustPath Domain CommandPolicy ProcessContract.
From S2P Require Import BuildContract WebToolchain.

Record WebsitePipelineId := MkWebsitePipelineId { pipeline_uuid : N }.

#[export] Instance WebsitePipelineId_eq_dec : EqDecision WebsitePipelineId.
Proof. solve_decision. Defined.

Inductive WebsiteBuildStage := DependencyInstall | BuildScript.

#[export] Instance WebsiteBuildStage_eq_dec : EqDecision WebsiteBuildStage.
Proof. solve_decision. Defined.

Inductive WebsiteBuildPipelineState :=
| NoBuildRequired
| AwaitingApproval (stage : WebsiteBuildStage)
| Running (stage : WebsiteBuildStage)
| Succeeded
| Failed
| PipelineCancelled
| PipelineTimedOut.

#[export] Instance WebsiteBuildPipelineState_eq_dec : EqDecision WebsiteBuildPipelineState.
Proof. solve_decision. Defined.

Definition is_terminal (s : WebsiteBuildPipelineState) : bool :=
  match s with
  | NoBuildRequired | Succeeded | Failed | PipelineCancelled | PipelineTimedOut => true
  | AwaitingApproval _ | Running _ => false
  end.

Record WebsiteBuildPolicy := {
  install_dependencies : bool;
  allow_dependency_install_scripts : bool
}.

Definition WebsiteBuildPolicy_default : WebsiteBuildPolicy :=
  {| install_dependencies := true; allow_dependency_install_scripts := false |}.

Record WebsiteBuildPipeline := mkPipeline {
  wp_pipeline_id : WebsitePipelineId;
  wp_project_id : ProjectId;
  wp_report : WebsiteToolchainReport;
  wp_policy : WebsiteBuildPolicy;
  wp_state : WebsiteBuildPipelineState
}.

Definition with_state (p : WebsiteBuildPipeline) (s : WebsiteBuildPipelineState) :
    WebsiteBuildPipeline :=
  mkPipeline (wp_pipeline_id p) (wp_project_id p) (wp_report p) (wp_policy p) s.

Definition web_build_error (code : string) : VibeCoderError := Build (u code).

Definition initial_state (report : WebsiteToolchainReport) (policy : WebsiteBuildPolicy) :
    Result WebsiteBuildPipelineState :=
  if negb (is_some (wr_package_manager report)) then
    if wr_has_build_script report then
      Err (web_build_error "web_build_static_script_inconsistent")
    else Ok NoBuildRequired
  else if negb (wr_has_build_script report)
     || negb (bool_decide (bi_build_script_name (wr_build_intent report) = Some (u "build")))
  then Err (web_build_error "web_build_script_missing")
  else if install_dependencies policy then
    match bi_install (wr_build_intent report) with
    | Locked => Ok (AwaitingApproval DependencyInstall)
    | Unlocked => Err (web_build_error "web_build_unlocked_install_disallowed")
    | NotRequired => Err (web_build_error "web_build_install_intent_inconsistent")
    end
  else Ok (AwaitingApproval BuildScript).

(** [fresh] is the UUID of [WebsitePipelineId::new]. *)
Definition WebsiteBuildPipeline_new (fresh : N) (project_id : ProjectId)
    (report : WebsiteToolchainReport) (policy : WebsiteBuildPolicy) :
    Result WebsiteBuildPipeline :=
  let? state := initial_state report policy in
  Ok (mkPipeline (MkWebsitePipelineId fresh) project_id report policy state).

Definition verify_toolchain_unchanged (p : WebsiteBuildPipeline)
    (current : WebsiteToolchainReport) : Result unit :=
  if negb (bool_decide (wp_report p = current)) then
    Err (web_build_error "web_build_toolchain_changed")
  else Ok tt.

Definition current_stage (p : WebsiteBuildPipeline) : option WebsiteBuildStage :=
  match wp_state p with AwaitingApproval stage | Running stage => Some stage | _ => None end.

(** [parse::<u32>] of the leading digits. *)
Fixpoint leading_digits (s : str) : str :=
  match s with
  | c :: s => if is_ascii_digit c then c :: leading_digits s else []
  | [] => []
  end.

Definition parse_u32 (s : str) : option N :=
  match s with [] => None | _ => parse_digits u32_max 0 s end.

Definition yarn_locked_install_args (p : WebsiteBuildPipeline) : Result (list str) :=
  if allow_dependency_install_scripts (wp_policy p) then
    Ok [u "install"; u "--frozen-lockfile"]
  else
    let? declaration :=
      ok_or (wr_package_manager_declaration (wp_report p))
        (web_build_error "web_build_yarn_version_required_for_safe_install") in
    let? version := ok_or (strip_prefix (u "yarn@") declaration)
                      (web_build_error "web_build_yarn_version_invalid") in
    let? major := ok_or (parse_u32 (leading_digits version))
                    (web_build_error "web_build_yarn_version_invalid") in
    if major =? 0 then Err (web_build_error "web_build_yarn_version_invalid")
    else if major =? 1 then Ok [u "install"; u "--frozen-lockfile"; u "--ignore-scripts"]
    else Ok [u "install"; u "--immutable"; u "--mode=skip-build"].

Definition install_args (p : WebsiteBuildPipeline) (manager : PackageManager) :
    Result (list str) :=
  let? locked :=
    match bi_install (wr_build_intent (wp_report p)) with
    | Locked => Ok true
    | Unlocked => Err (web_build_error "web_build_unlocked_install_disallowed")
    | NotRequired => Err (web_build_error "web_build_install_intent_inconsistent")
    end in
  let? args :=
    match manager, (locked : bool) with
    | Npm, true => Ok [u "ci"]
    | Pnpm, true => Ok [u "install"; u "--frozen-lockfile"]
    | Yarn, true => yarn_locked_install_args p
    | Bun, true => Ok [u "install"; u "--frozen-lockfile"]
    | _, false => Err (web_build_error "web_build_unlocked_install_disallowed")
    end in
  Ok (if negb (allow_dependency_install_scripts (wp_policy p))
         && negb (bool_decide (manager = Yarn))
      then args ++ [u "--ignore-scripts"] else args).

Definition command_for_stage (p : WebsiteBuildPipeline) (stage : WebsiteBuildStage) :
    Result CommandSpec :=
  let? manager := ok_or (wr_package_manager (wp_report p))
                    (web_build_error "web_build_package_manager_missing") in
  let? args := match stage with
               | DependencyInstall => install_args p manager
               | BuildScript => Ok [u "run"; u "build"]
               end in
  Ok (mkCommand (RuntimeTool (runtime_tool_id manager)) args (Utf8Path (u "."))).

Definition awaiting (p : WebsiteBuildPipeline) : Result WebsiteBuildStage :=
  match wp_state p with
  | AwaitingApproval stage => Ok stage
  | _ => Err (web_build_error "web_build_stage_not_awaiting_approval")
  end.

Definition current_command (p : WebsiteBuildPipeline) : Result CommandSpec :=
  let? stage := awaiting p in command_for_stage p stage.

(** [CommandSpec::eq]: paths are compared by their components. *)
Definition program_eqb (a b : CommandProgram) : bool :=
  match a, b with
  | RuntimeTool x, RuntimeTool y => str_eqb x y
  | WorkspaceExecutable x, WorkspaceExecutable y => path_eqb x y
  | _, _ => false
  end.
Definition command_eqb (a b : CommandSpec) : bool :=
  program_eqb (program a) (program b) && bool_decide (args a = args b)
  && path_eqb (working_dir a) (working_dir b).

Definition command_matches_current_stage (p : WebsiteBuildPipeline) (command : CommandSpec) :
    Result unit :=
  let? current := current_command p in
  if negb (command_eqb current command) then
    Err (web_build_error "web_build_authorized_command_mismatch")
  else Ok tt.

Record RunningWebsiteBuildStage := {
  rs_pipeline : WebsiteBuildPipeline;
  rs_stage : WebsiteBuildStage;
  rs_running : RunningBuildJob
}.

Definition into_running (p : WebsiteBuildPipeline) (running : RunningBuildJob) :
    Result RunningWebsiteBuildStage :=
  let? stage := awaiting p in
  if negb (bool_decide (jd_project_id (job_descriptor running) = wp_project_id p))
     || negb (bool_decide (jd_target (job_descriptor running) = Website))
  then Err (web_build_error "web_build_running_job_scope_mismatch")
  else Ok {| rs_pipeline := with_state p (Running stage); rs_stage := stage;
             rs_running := running |}.

Definition finish_stage (p : WebsiteBuildPipeline) (stage : WebsiteBuildStage)
    (result : BuildResult) : Result WebsiteBuildPipeline :=
  if negb (bool_decide (br_project_id result = wp_project_id p))
     || negb (bool_decide (br_target result = Website))
  then Err (web_build_error "web_build_result_scope_mismatch")
  else if negb (bool_decide (wp_state p = Running stage)) then
    Err (web_build_error "web_build_result_stage_mismatch")
  else
    let? state :=
      match br_state result with
      | BsSucceeded =>
        Ok match stage with
           | DependencyInstall => AwaitingApproval BuildScript
           | BuildScript => Succeeded
           end
      | BsFailed => Ok Failed
      | BsCancelled => Ok PipelineCancelled
      | BsTimedOut => Ok PipelineTimedOut
      | BsQueued | BsRunning => Err (web_build_error "web_build_nonterminal_stage_result")
      end in
    Ok (with_state p state).

Record WebsiteBuildStageCompletion := {
  wc_stage : WebsiteBuildStage;
  wc_pipeline : WebsiteBuildPipeline;
  wc_result : BuildResult
}.

Definition stage_drain_events (s : RunningWebsiteBuildStage) (max_events : N) :
    Result (list BuildEvent) * RunningWebsiteBuildStage :=
  let (r, job) := BuildContract.drain_events (rs_running s) max_events in
  (r, {| rs_pipeline := rs_pipeline s; rs_stage := rs_stage s; rs_running := job |}).

(** [wait]: the process completes with [r]. *)
Definition stage_wait (s : RunningWebsiteBuildStage) (r : Result ProcessResult) :
    Result WebsiteBuildStageCompletion :=
  let? result := BuildContract.wait (rs_running s) r in
  let? pipeline := finish_stage (rs_pipeline s) (rs_stage s) result in
  Ok {| wc_stage := rs_stage s; wc_pipeline := pipeline; wc_result := result |}.

(** ** The life of a pipeline

    A stage is started by a process of the right scope, events arrive and are drained
    in any order, and it is waited for. *)

Definition arrive (s : RunningWebsiteBuildStage) (e : ProcessEvent) : RunningWebsiteBuildStage :=
  let process := job_process (rs_running s) in
  {| rs_pipeline := rs_pipeline s; rs_stage := rs_stage s;
     rs_running := {| job_descriptor := job_descriptor (rs_running s);
                      job_process := with_events process (events process ++ [e]) |} |}.

Inductive drained : RunningWebsiteBuildStage -> RunningWebsiteBuildStage -> Prop :=
| drained_none s : drained s s
| drained_some s n s' : drained (stage_drain_events s n).2 s' -> drained s s'
| drained_arrive s e s' : drained (arrive s e) s' -> drained s s'.

Inductive stage_step (p : WebsiteBuildPipeline) :
    WebsiteBuildStageCompletion -> WebsiteBuildPipeline -> Prop :=
| stage_completed running s s' process c :
    into_running p running = Ok s -> drained s s' -> stage_wait s' (Ok process) = Ok c ->
    stage_step p c (wc_pipeline c).

(** The stages the report and the policy ask for. *)
Definition required_stages (report : WebsiteToolchainReport) (policy : WebsiteBuildPolicy) :
    list WebsiteBuildStage :=
  if negb (is_some (wr_package_manager report)) then []
  else if install_dependencies policy then [DependencyInstall; BuildScript]
  else [BuildScript].

(** The state of a build of the stages [todo] whose first results are [results]. *)
Fixpoint outcome (todo : list WebsiteBuildStage) (results : list BuildState) :
    option WebsiteBuildPipelineState :=
  match todo, results with
  | [], [] => Some Succeeded
  | stage :: _, [] => Some (AwaitingApproval stage)
  | _ :: todo, BsSucceeded :: results => outcome todo results
  | _ :: _, [BsFailed] => Some Failed
  | _ :: _, [BsCancelled] => Some PipelineCancelled
  | _ :: _, [BsTimedOut] => Some PipelineTimedOut
  | _, _ => None
  end.

Definition build_outcome (stages : list WebsiteBuildStage) (results : list BuildState) :
    option WebsiteBuildPipelineState :=
  match stages with
  | [] => match results with [] => Some NoBuildRequired | _ => None end
  | _ => outcome stages results
  end.

Definition result_of (c : WebsiteBuildStageCompletion) : BuildState := br_state (wc_result c).

(** The parts of a pipeline that never change. *)
Definition plan (p : WebsiteBuildPipeline) :
    WebsitePipelineId * ProjectId * WebsiteToolchainReport * WebsiteBuildPolicy :=
  (wp_pipeline_id p, wp_project_id p, wp_report p, wp_policy p).

(** An installation that takes the versions of the lockfile. *)
Definition locked_args (as_ : list str) : Prop :=
  u "ci" ∈ as_ \/ u "--frozen-lockfile" ∈ as_ \/ u "--immutable" ∈ as_.

(** An installation that runs no scripts of the dependencies. *)
Definition scriptless_args (as_ : list str) : Prop :=
  u "--ignore-scripts" ∈ as_ \/ u "--mode=skip-build" ∈ as_.

(** The manifest declares a release of yarn. *)
Definition yarn_declared (report : WebsiteToolchainReport) : Prop :=
  exists version major, wr_package_manager_declaration report = Some (u "yarn@" ++ version) /\
    parse_u32 (leading_digits version) = Some major /\ 1 <= major.

(** ** Lemmas *)

Lemma drained_same s s' :
  drained s s' ->
  rs_pipeline s' = rs_pipeline s /\ rs_stage s' = rs_stage s /\
  job_descriptor (rs_running s') = job_descriptor (rs_running s).
Proof.
  induction 1 as [s|s n s' _ (-> & -> & ->)|s e s' _ (-> & -> & ->)]; [done| |done].
  unfold stage_drain_events, BuildContract.drain_events.
  destruct ((n =? 0) || _); [done|]. by destruct (drain_process_events _ _).
Qed.

Lemma into_running_ok p running s :
  into_running p running = Ok s <->
  exists stage, wp_state p = AwaitingApproval stage /\
    jd_project_id (job_descriptor running) = wp_project_id p /\
    jd_target (job_descriptor running) = Website /\
    s = {| rs_pipeline := with_state p (Running stage); rs_stage := stage;
           rs_running := running |}.
Proof.
  unfold into_running, awaiting.
  destruct (wp_state p); try (by split; [|intros (? & ? & _)]).
  rewrite if_err_ok, orb_false_iff, !negb_false_iff, !bool_decide_eq_true. split.
  - intros [[? ?] [= <-]]. by exists stage.
  - by intros (? & [= <-] & ? & ? & ->).
Qed.

(** The state after a stage. *)
Definition after_stage (stage : WebsiteBuildStage) (s : BuildState) : WebsiteBuildPipelineState :=
  match s with
  | BsSucceeded =>
    match stage with DependencyInstall => AwaitingApproval BuildScript | BuildScript => Succeeded end
  | BsFailed | BsQueued | BsRunning => Failed
  | BsCancelled => PipelineCancelled
  | BsTimedOut => PipelineTimedOut
  end.

Lemma stage_wait_ok p running s s' process :
  into_running p running = Ok s -> drained s s' ->
  exists stage result,
    wp_state p = AwaitingApproval stage /\
    result = from_process_result (job_descriptor running) process /\
    BuildContract.is_terminal (br_state result) = true /\
    stage_wait s' (Ok process) =
      Ok {| wc_stage := stage; wc_pipeline := with_state p (after_stage stage (br_state result));
            wc_result := result |}.
Proof.
  intros (stage & Hp & Hid & Ht & ->)%into_running_ok (Hs' & Hst & Hj)%drained_same. cbn in *.
  exists stage, (from_process_result (job_descriptor running) process).
  assert (Ht' : BuildContract.is_terminal
                  (br_state (from_process_result (job_descriptor running) process)) = true)
    by (cbn; destruct (termination process); [case_bool_decide|..]; done).
  split_and!; [done..|]. unfold stage_wait, BuildContract.wait. cbn -[from_process_result].
  rewrite Hs', Hst, Hj. unfold finish_stage. cbn [br_project_id br_target from_process_result].
  rewrite Hid, Ht. cbn. rewrite !bool_decide_true by done. cbn in *.
  by destruct (termination process); [case_bool_decide|..].
Qed.

Lemma stage_step_ok p c p' :
  stage_step p c p' ->
  exists stage, wp_state p = AwaitingApproval stage /\ wc_stage c = stage /\
    BuildContract.is_terminal (result_of c) = true /\ p' = with_state p (after_stage stage (result_of c)).
Proof.
  intros [running s s' process c' Hr Hd Hw].
  destruct (stage_wait_ok _ _ _ _ process Hr Hd) as (stage & result & ? & ? & ? & Hw').
  rewrite Hw in Hw'. injection Hw' as ->. by exists stage.
Qed.

Lemma new_pipeline fresh pid report policy p :
  WebsiteBuildPipeline_new fresh pid report policy = Ok p ->
  plan p = (MkWebsitePipelineId fresh, pid, report, policy) /\
  build_outcome (required_stages report policy) [] = Some (wp_state p).
Proof.
  unfold WebsiteBuildPipeline_new, initial_state, required_stages.
  repeat case_match; intros [= <-]; try done; by simplify_eq/=.
Qed.

(** Stages left to run from a state. *)
Lemma stages_from p cs p' :
  steps stage_step p cs p' ->
  plan p' = plan p /\
  forall todo, outcome todo [] = Some (wp_state p) -> todo `suffix_of` [DependencyInstall; BuildScript] ->
    outcome todo (result_of <$> cs) = Some (wp_state p') /\ (wc_stage <$> cs) `prefix_of` todo.
Proof.
  induction 1 as [p|p c p1 cs p' Hs Hss [Hpl IH]].
  - split; [done|]. intros todo Ho _. split; [done|]. apply prefix_nil.
  - destruct (stage_step_ok _ _ _ Hs) as (stage & Hp & Hc & Hr & ->).
    split; [by rewrite Hpl|]. intros todo Ho Hsuf. rewrite Hp in Ho.
    destruct todo as [|stage' todo]; [done|]. injection Ho as ->.
    assert (Hend : is_terminal (after_stage stage (result_of c)) = true -> cs = []).
    { intros Hterm. destruct cs as [|c' cs]; [done|]. exfalso.
      apply steps_cons_inv in Hss as (? & Hs' & _).
      destruct (stage_step_ok _ _ _ Hs') as (? & Hp' & _). cbn in Hp'. by rewrite Hp' in Hterm. }
    cbn [fmap list_fmap]. rewrite Hc.
    destruct (result_of c) eqn:Er; try discriminate Hr.
    all: try (rewrite (Hend eq_refl) in *; apply steps_nil_inv in Hss as ->; cbn;
      split; [done|by apply prefix_cons, prefix_nil]).
    assert (Htodo : outcome todo [] = Some (wp_state (with_state p (after_stage stage BsSucceeded)))
                    /\ todo `suffix_of` [DependencyInstall; BuildScript]).
    { clear -Hsuf. destruct Hsuf as [k Hk]. destruct k as [|? [|? [|? k]]]; simplify_eq/=.
      - split; [done|]. by exists [DependencyInstall].
      - split; [done|]. by exists [DependencyInstall; BuildScript]. }
    destruct Htodo as [Ho Hsuf']. destruct (IH todo Ho Hsuf'). split; [done|]. by apply prefix_cons.
Qed.

(** Manager commands are fixed points of the engine's validation. *)
Definition manager_command (m : PackageManager) (as_ : list str) : CommandSpec :=
  mkCommand (RuntimeTool (runtime_tool_id m)) as_ (Utf8Path (u ".")).

Ltac command_case :=
  split_and!; [done|unfold locked_args; set_solver
              |first [done|intros _; unfold scriptless_args; set_solver]
              |by vm_compute].

Lemma install_args_ok p m as_ :
  install_args p m = Ok as_ ->
  bi_install (wr_build_intent (wp_report p)) = Locked /\ locked_args as_ /\
  (allow_dependency_install_scripts (wp_policy p) = false -> scriptless_args as_) /\
  validate_command_spec (manager_command m as_) = Ok (manager_command m as_).
Proof.
  unfold install_args, yarn_locked_install_args.
  destruct (bi_install _); [|done..].
  destruct m, (allow_dependency_install_scripts (wp_policy p)); cbn;
    try (intros [= <-]; command_case).
  destruct (wr_package_manager_declaration (wp_report p)) as [d|]; [cbn|done].
  destruct (strip_prefix _ d) as [version|]; [cbn|done].
  destruct (parse_u32 _) as [major|]; [cbn|done].
  destruct (major =? 0); [done|]. destruct (major =? 1); intros [= <-]; command_case.
Qed.

Lemma yarn_args_err p e :
  allow_dependency_install_scripts (wp_policy p) = false ->
  yarn_locked_install_args p = Err e -> ~ yarn_declared (wp_report p).
Proof.
  unfold yarn_locked_install_args. intros -> Hr (version & major & Hd & Hm & Hle).
  rewrite Hd in Hr. cbn [ok_or] in Hr. change (strip_prefix (u "yarn@") (u "yarn@" ++ version))
    with (Some version) in Hr. cbn [ok_or] in Hr. rewrite Hm in Hr. cbn [ok_or] in Hr.
  destruct (N.eqb_spec major 0); [lia|]. by destruct (major =? 1).
Qed.

Lemma install_args_err p m e :
  bi_install (wr_build_intent (wp_report p)) = Locked -> install_args p m = Err e ->
  m = Yarn /\ allow_dependency_install_scripts (wp_policy p) = false /\
  ~ yarn_declared (wp_report p).
Proof.
  unfold install_args. intros ->.
  destruct m; try done. destruct (yarn_locked_install_args p) as [|e'] eqn:Ey; [done|]. intros _.
  destruct (allow_dependency_install_scripts (wp_policy p)) eqn:Ea;
    [by unfold yarn_locked_install_args in Ey; rewrite Ea in Ey|].
  split_and!; [done..|]. by eapply yarn_args_err.
Qed.

(** What an awaiting pipeline knows of its report. *)
Definition awaiting_inv (p : WebsiteBuildPipeline) : Prop :=
  match wp_state p with
  | AwaitingApproval stage =>
    is_some (wr_package_manager (wp_report p)) = true /\
    (stage = DependencyInstall -> bi_install (wr_build_intent (wp_report p)) = Locked)
  | _ => True
  end.

Lemma awaiting_inv_new fresh pid report policy p :
  WebsiteBuildPipeline_new fresh pid report policy = Ok p -> awaiting_inv p.
Proof.
  unfold WebsiteBuildPipeline_new, initial_state, awaiting_inv.
  repeat case_match; intros [= <-]; simplify_eq/=; try done; (split; [by apply negb_false_iff|by intros ?]).
Qed.

Lemma awaiting_inv_steps p cs p' : steps stage_step p cs p' -> awaiting_inv p -> awaiting_inv p'.
Proof.
  intros Hs Hp. eapply (steps_invariant _ awaiting_inv); [|exact Hp|exact Hs].
  clear. intros p c p' Hp (stage & Hw & _ & _ & ->)%stage_step_ok.
  unfold awaiting_inv in *. rewrite Hw in Hp. destruct Hp as [Hm _].
  cbn. unfold after_stage. by repeat case_match; simplify_eq.
Qed.

Lemma current_command_ok p stage c :
  wp_state p = AwaitingApproval stage -> current_command p = Ok c ->
  exists m, wr_package_manager (wp_report p) = Some m /\ c = manager_command m (args c) /\
    match stage with
    | DependencyInstall => install_args p m = Ok (args c)
    | BuildScript => args c = [u "run"; u "build"]
    end.
Proof.
  unfold current_command, awaiting, command_for_stage. intros ->. cbn.
  destruct (wr_package_manager (wp_report p)) as [m|]; [|done]. exists m. split; [done|].
  destruct stage; cbn in *; [destruct (install_args p m); [|done]|]; by simplify_eq.
Qed.

Lemma manager_command_eqb m as_ :
  command_eqb (manager_command m as_) (manager_command m as_) = true.
Proof.
  unfold command_eqb. cbn [args manager_command]. rewrite bool_decide_true by done. by destruct m.
Qed.

(** A command equal to a manager command is, once validated, that command. *)
Lemma matching_command m as_ c v :
  command_eqb (manager_command m as_) c = true -> validate_command_spec c = Ok v ->
  v = manager_command m as_.
Proof.
  unfold command_eqb. rewrite !andb_true_iff, bool_decide_eq_true.
  destruct c as [[t|w] as' wd]; cbn [program args working_dir manager_command program_eqb];
    [|naive_solver].
  intros [[Ht%bool_decide_eq_true <-] Hw]. subst t. unfold validate_command_spec.
  intros [_ H]%if_err_ok. cbn [program args working_dir] in H.
  destruct (check_args 0 as_) as [as'|] eqn:Ea; [|done].
  apply check_args_ok in Ea as (-> & _); [|by vm_compute].
  destruct (normalize_project_relative wd true) as [q|] eqn:Eq; [|done].
  apply normalize_iff in Eq as [_ ->]. destruct wd as [t|b]; [|done].
  cbn [path_eqb] in Hw. apply bool_decide_eq_true in Hw.
  unfold path_names in H. rewrite <-Hw in H. revert H. unfold manager_command.
  by destruct m; vm_compute; intros [= <-].
Qed.

(** C19. A pipeline follows the history of its stages' results: what it runs are the
    stages its report and policy ask for, in that order and each once; it has
    succeeded exactly when all of them have, and stops at the first that failed, was
    cancelled or timed out.  Its id, project, report and policy never change, and a
    stage that was started can always be waited for. *)
Theorem pipeline_follows_results fresh pid report policy p cs p' :
  WebsiteBuildPipeline_new fresh pid report policy = Ok p ->
  steps stage_step p cs p' ->
  build_outcome (required_stages report policy) (result_of <$> cs) = Some (wp_state p') /\
  (wc_stage <$> cs) `prefix_of` required_stages report policy /\
  plan p' = (MkWebsitePipelineId fresh, pid, report, policy) /\
  forall running s s' process, into_running p' running = Ok s -> drained s s' ->
    exists c, stage_wait s' (Ok process) = Ok c /\ stage_step p' c (wc_pipeline c).
Proof.
  intros [Hp Ho]%new_pipeline Hs.
  destruct (stages_from _ _ _ Hs) as [Hpl Hst]. rewrite Hpl, Hp.
  assert (Hgo : build_outcome (required_stages report policy) (result_of <$> cs) = Some (wp_state p')
     /\ (wc_stage <$> cs) `prefix_of` required_stages report policy).
  { unfold required_stages in *. case_match.
    - injection Ho as Ho. destruct Hs as [|? c ? ? ? Hc]; [by rewrite <-Ho|].
      by destruct (stage_step_ok _ _ _ Hc) as (? & Hn & _); rewrite Hn in Ho.
    - case_match; (apply Hst; [done|]); [by exists []|by exists [DependencyInstall]]. }
  destruct Hgo as [??]. split_and!; [done..|].
  intros running s s' process Hr Hd.
  destruct (stage_wait_ok _ _ _ _ process Hr Hd) as (stage & result & ? & ? & ? & Hw).
  eexists. split; [exact Hw|]. by econstructor.
Qed.

(** C34. What a pipeline asks to run is safe to show for approval: the package manager of
    its report in the project's directory, the build script, or an installation of
    the locked versions that runs no scripts unless the policy allows them.  The
    approval engine leaves the command as it is, and any other command that is
    accepted for the stage is validated to the same one.  There is always such a
    command, except for an installation without scripts by a yarn whose release the
    manifest does not declare. *)
Theorem stage_command_safe fresh pid report policy p cs p' stage :
  WebsiteBuildPipeline_new fresh pid report policy = Ok p ->
  steps stage_step p cs p' -> wp_state p' = AwaitingApproval stage ->
  exists m, wr_package_manager report = Some m /\
    match current_command p' with
    | Ok c =>
      c = manager_command m (args c) /\ validate_command_spec c = Ok c /\
      match stage with
      | BuildScript => args c = [u "run"; u "build"]
      | DependencyInstall =>
        bi_install (wr_build_intent report) = Locked /\ locked_args (args c) /\
        (allow_dependency_install_scripts policy = false -> scriptless_args (args c))
      end /\
      command_matches_current_stage p' c = Ok tt /\
      forall c' v, command_matches_current_stage p' c' = Ok tt ->
        validate_command_spec c' = Ok v -> v = c
    | Err _ =>
      stage = DependencyInstall /\ m = Yarn /\
      allow_dependency_install_scripts policy = false /\ ~ yarn_declared report
    end.
Proof.
  intros Hn Hs Hw. pose proof (awaiting_inv_new _ _ _ _ _ Hn) as Hi.
  apply (awaiting_inv_steps _ _ _ Hs) in Hi. unfold awaiting_inv in Hi. rewrite Hw in Hi.
  destruct (stages_from _ _ _ Hs) as [Hpl _], (new_pipeline _ _ _ _ _ Hn) as [Hp _].
  rewrite Hp in Hpl. injection Hpl as _ _ <- <-. destruct Hi as [Hm Hl].
  destruct (wr_package_manager (wp_report p')) as [m|] eqn:Em; [|done]. exists m. split; [done|].
  destruct (current_command p') as [c|e] eqn:Ec.
  - destruct (current_command_ok _ _ _ Hw Ec) as (m' & Hm' & Hc & Hargs). simplify_eq.
    assert (Hv : validate_command_spec c = Ok c).
    { rewrite Hc. destruct stage; [by apply install_args_ok in Hargs as (_ & _ & _ & ?)|].
      rewrite Hargs. by destruct m. }
    unfold command_matches_current_stage. rewrite Ec. cbn. split_and!; [done..| | |].
    + destruct stage; [|done]. by apply install_args_ok in Hargs as (? & ? & ? & _).
    + rewrite Hc. by rewrite manager_command_eqb.
    + intros c' v [Hq%negb_false_iff _]%if_err_ok. rewrite Hc in Hq |- *. by apply matching_command.
  - unfold current_command, awaiting, command_for_stage in Ec. rewrite Hw, Em in Ec. cbn in Ec.
    destruct stage; cbn in Ec; [|done].
    destruct (install_args p' m) eqn:Ea; [done|]. split; [done|]. eapply install_args_err; eauto.
Qed.

(** ** A locked npm project *)

Definition ex_report : WebsiteToolchainReport :=
  {| wr_framework := Vite; wr_package_manager := Some Npm;
     wr_package_manager_declaration := None;
     wr_node_requirement := Some {| engines_node := None |}; wr_package_name := None;
     wr_has_build_script := true;
     wr_build_intent := {| bi_package_manager := Some Npm; bi_install := Locked;
                           bi_build_script_name := Some (u "build") |};
     wr_manifest_sha256_hex := u "00"; wr_lockfile_relative_path := Some (u "package-lock.json");
     wr_lockfile_sha256_hex := Some (u "11") |}.
Definition ex_project_id : ProjectId := MkProjectId 7.
Definition ex_pipeline : WebsiteBuildPipeline :=
  mkPipeline (MkWebsitePipelineId 1) ex_project_id ex_report WebsiteBuildPolicy_default
    (AwaitingApproval DependencyInstall).
Definition ex_running : RunningBuildJob :=
  {| job_descriptor := BuildJobDescriptor_new 2 ex_project_id Website;
     job_process := {| rp_process_id := MkProcessId 3; events_poisoned := false; events := [] |} |}.
Definition ex_installed : ProcessResult :=
  {| res_process_id := MkProcessId 3; termination := Exited; exit_code := Some 0%Z;
     duration_ms := 5; stdout := []; stderr := []; res_stdout_truncated := false;
     res_stderr_truncated := false; event_queue_overflowed := false |}.
Definition ex_completion : WebsiteBuildStageCompletion :=
  {| wc_stage := DependencyInstall;
     wc_pipeline := with_state ex_pipeline (AwaitingApproval BuildScript);
     wc_result := from_process_result (job_descriptor ex_running) ex_installed |}.

Lemma ex_steps : steps stage_step ex_pipeline [ex_completion] (wc_pipeline ex_completion).
Proof.
  apply steps_one. eapply (stage_completed _ ex_running _ _ ex_installed);
    [reflexivity|apply drained_none|reflexivity].
Qed.

Lemma pipeline_follows_results_witness :
  build_outcome [DependencyInstall; BuildScript] [BsSucceeded]
    = Some (wp_state (wc_pipeline ex_completion)).
Proof.
  apply (pipeline_follows_results 1 ex_project_id ex_report WebsiteBuildPolicy_default ex_pipeline
    [ex_completion] (wc_pipeline ex_completion) eq_refl ex_steps).
Defined.

Lemma stage_command_safe_witness :
  exists m, wr_package_manager ex_report = Some m /\
    match current_command (wc_pipeline ex_completion) with
    | Ok c => validate_command_spec c = Ok c
    | Err _ => m = Yarn
    end.
Proof.
  destruct (stage_command_safe 1 ex_project_id ex_report WebsiteBuildPolicy_default ex_pipeline
    [ex_completion] (wc_pipeline ex_completion) BuildScript eq_refl ex_steps eq_refl)
    as (m & Hm & H).
  exists m. split; [exact Hm|]. destruct (current_command _); [apply H|]. apply H.
Defined.
