(* ===== verification/WebOps.v ===== *)
(** * Website builds ([vibecoder-core])

    The operations of the controller on website projects: the toolchain is inspected
    again before every step of a pipeline, and the command that is approved and
    started is the one of the pipeline's stage. *)
From S2P Require Import Prelude RustStr StrFacts RustPath Domain CommandPolicy ProcessContract.
From S2P Require Import BuildContract BuildRepair BuildLoop Program CoreCalls BackendTask.
From S2P Require Import CoreExample ProjectOps WebToolchain WebPipeline.

Section operations.
Context `{Sha256, SerdeJson} (self : VibeCoderCore).

Definition inspect_website_toolchain (project : ProjectRef) :
    core (Result WebsiteToolchainReport) := inspect_website_project project.

Definition prepare_website_build_pipeline (project : ProjectRef) (policy : WebsiteBuildPolicy) :
    core (Result WebsiteBuildPipeline) :=
  try _ <- call_ (WsVerifyProject project);
  try report <- inspect_website_project project;
  do fresh <- call_ NewUuid;
  Ret (WebsiteBuildPipeline_new fresh (pr_id project) report policy).

Definition request_website_build_stage_command (project : ProjectRef) (session_id : SessionId)
    (pipeline : WebsiteBuildPipeline) : core (Result CommandRequestOutcome) :=
  if negb (bool_decide (wp_project_id pipeline = pr_id project)) then
    Ret (Err (web_build_error "web_build_project_scope_mismatch"))
  else
    try current <- inspect_website_project project;
    try _ <- give (verify_toolchain_unchanged pipeline current);
    try command <- give (current_command pipeline);
    request_project_command project session_id command.

Definition start_authorized_website_build_stage (project : ProjectRef) (session_id : SessionId)
    (pipeline : WebsiteBuildPipeline) (envelope : CommandExecutionEnvelope)
    (options : ProcessExecutionOptions) : core (Result RunningWebsiteBuildStage) :=
  with_lifecycle (pr_id project)
    (if negb (bool_decide (wp_project_id pipeline = pr_id project)) then
       Ret (Err (web_build_error "web_build_project_scope_mismatch"))
     else
       try _ <- call_ (WsVerifyProject project);
       try _ <- call_ (AgQuiescent project);
       try current <- inspect_website_project project;
       try _ <- give (verify_toolchain_unchanged pipeline current);
       try _ <- give (command_matches_current_stage pipeline (env_command envelope));
       do fresh <- call_ NewUuid;
       let descriptor := BuildJobDescriptor_new fresh (pr_id project) Website in
       try running_process <-
         start_authorized_project_command_with_lifecycle_held self project session_id envelope
           options;
       Ret (into_running pipeline
              {| job_descriptor := descriptor; job_process := running_process |})).

(** ** The repair loop of a website build *)

Definition wrong_loop (guard : BuildRepairLoopGuard) (p : ProjectId) : bool :=
  negb (bool_decide (project_id guard = p)) || negb (bool_decide (target guard = Website)).

Definition loop_scope_mismatch : VibeCoderError :=
  build_error (u "build_loop_project_scope_mismatch").

Definition record_guarded_website_build_completion (guard : BuildRepairLoopGuard)
    (completion : WebsiteBuildStageCompletion) :
    Result (option BuildRepairLoopStopReason) * BuildRepairLoopGuard :=
  if wrong_loop guard (wp_project_id (wc_pipeline completion)) then
    (Err loop_scope_mismatch, guard)
  else
    match wp_state (wc_pipeline completion) with
    | AwaitingApproval _ => (Ok None, guard)
    | WebPipeline.Failed => (Ok None, guard)
    | WebPipeline.Succeeded | PipelineCancelled | PipelineTimedOut =>
      let (finished, guard) := finish_nonfailed_build guard (wc_result completion) in
      ((let? reason := finished in Ok (Some reason)), guard)
    | NoBuildRequired | WebPipeline.Running _ =>
      (Err (build_error (u "build_loop_website_completion_state_invalid")), guard)
    end.

Definition prepare_guarded_website_rebuild (guard : BuildRepairLoopGuard)
    (project : ProjectRef) (policy : WebsiteBuildPolicy) :
    core (Result WebsiteBuildPipeline * BuildRepairLoopGuard) :=
  if wrong_loop guard (pr_id project) then Ret (Err loop_scope_mismatch, guard)
  else
    do guard <- sync_cancellation guard;
    match rebuild_permit guard with
    | Err e => Ret (Err e, guard)
    | Ok permit =>
      do prepared <- prepare_website_build_pipeline project policy;
      match prepared with
      | Err e => Ret (Err e, guard)
      | Ok pipeline =>
        do guard <- sync_cancellation guard;
        let (marked, guard) := mark_rebuild_prepared guard permit in
        Ret ((let? _ := marked in Ok pipeline), guard)
      end
    end.

Definition cancel_active_guarded_website_rebuild (guard : BuildRepairLoopGuard)
    (running : RunningWebsiteBuildStage) : core (Result unit) :=
  if wrong_loop guard (wp_project_id (rs_pipeline running)) then Ret (Err loop_scope_mismatch)
  else
    try _ <- request_build_repair_loop_cancel guard;
    cancel_project_process self (rp_process_id (job_process (rs_running running))).

End operations.

(** ** Starting a stage *)

(** What is known since the permit of the project was acquired. *)
Record stage_state := mkStage {
  st_held : bool;
  st_seen : seen;
  st_valid : option CommandExecutionEnvelope;
  st_started : option RunningProcess
}.

Definition stage_start : stage_state := mkStage false nothing_seen None None.

Definition stage_next (s : stage_state) (e : event core_sig) : stage_state :=
  match ev_call e as c return resp c -> stage_state with
  | TryAcquire _ => fun r =>
    match r with Ok _ => mkStage true nothing_seen None (st_started s) | Err _ => s end
  | Release _ => fun _ => mkStage false (st_seen s) (st_valid s) (st_started s)
  | ValidateEnvelope envelope => fun r =>
    mkStage (st_held s) (st_seen s) (if is_ok r then Some envelope else None) (st_started s)
  | ProcStart _ _ _ => fun r =>
    match r with
    | Ok process => mkStage (st_held s) (st_seen s) (st_valid s) (Some process)
    | Err _ => s
    end
  | _ => fun _ => mkStage (st_held s) (see (st_seen s) e) (st_valid s) (st_started s)
  end (ev_resp e).

Section starting.
Context `{Sha256, SerdeJson} (self : VibeCoderCore) (project : ProjectRef)
  (session_id : SessionId) (pipeline : WebsiteBuildPipeline)
  (envelope : CommandExecutionEnvelope) (options : ProcessExecutionOptions).

(** The only process that may be started. *)
Definition stage_ok (s : stage_state) (e : event core_sig) : Prop :=
  match ev_call e with
  | ProcStart p started o =>
    p = project /\ started = envelope /\ o = options /\
    st_held s = true /\ st_valid s = Some envelope /\ st_started s = None /\
    describes (st_seen s) (wp_report pipeline) /\
    command_matches_current_stage pipeline (env_command envelope) = Ok tt
  | _ => True
  end.

Abbreviation staged := (wp (fun _ => True) stage_ok stage_next).

Definition stage_end (s : stage_state) (r : Result RunningWebsiteBuildStage) : Prop :=
  st_held s = false /\
  match r with
  | Ok running =>
    exists stage process,
      wp_state pipeline = AwaitingApproval stage /\ st_started s = Some process /\
      rs_pipeline running = with_state pipeline (Running stage) /\ rs_stage running = stage /\
      job_process (rs_running running) = process
  | Err _ => st_started s = None
  end.

Lemma matches_awaiting c :
  command_matches_current_stage pipeline c = Ok tt ->
  exists stage, wp_state pipeline = AwaitingApproval stage.
Proof.
  unfold command_matches_current_stage, current_command, awaiting.
  destruct (wp_state pipeline); try done. by eexists.
Qed.

Definition before_start (s : stage_state) : Prop := st_held s = true /\ st_started s = None.

(** Leaving the scope of the permit. *)
Lemma leave_wp s r :
  match r with
  | Ok running => forall s', st_held s' = false -> st_started s' = st_started s -> stage_end s' r
  | Err _ => before_start s
  end -> staged (do _ <- call_ (Release (pr_id project)); Ret r) stage_end s.
Proof.
  intros Hr. apply wp_bind, wp_call_. intros [] _. split; [done|]. cbn [wp].
  destruct r; [by apply Hr|]. split; [done|]. apply Hr.
Qed.

Lemma into_running_started stage process fresh :
  wp_project_id pipeline = pr_id project -> wp_state pipeline = AwaitingApproval stage ->
  into_running pipeline
    {| job_descriptor := BuildJobDescriptor_new fresh (pr_id project) Website;
       job_process := process |} =
  Ok {| rs_pipeline := with_state pipeline (Running stage); rs_stage := stage;
        rs_running := {| job_descriptor := BuildJobDescriptor_new fresh (pr_id project) Website;
                         job_process := process |} |}.
Proof. intros Hp Hs. apply into_running_ok. exists stage. by rewrite Hp. Qed.

Ltac stage_call := apply wp_bind, wp_call_; intros [?|?] _; (split; [done|]).

Lemma start_stage_wp :
  staged (start_authorized_website_build_stage self project session_id pipeline envelope options)
    stage_end stage_start.
Proof.
  unfold start_authorized_website_build_stage, lifecycle_scope.
  stage_call; [|done]. apply wp_bind. case_match eqn:Ep; [by apply leave_wp|].
  apply negb_false_iff, bool_decide_eq_true in Ep.
  stage_call; [|by apply leave_wp]. stage_call; [|by apply leave_wp].
  apply wp_bind. eapply wp_mono.
  { apply (inspect_website_wp _ _ _ st_seen before_start); [|done..].
    intros s [c r] Hc [??]. by destruct c; try destruct r. }
  intros s [report|e] [[Hh Hst] Hd]; [|by apply leave_wp].
  unfold verify_toolchain_unchanged. case_bool_decide as Hrep; [subst report|by apply leave_wp].
  cbn [give bind negb]. destruct (command_matches_current_stage _ _) as [[]|] eqn:Em;
    [|by apply leave_wp].
  cbn [give bind]. apply wp_bind, wp_call_. intros fresh _. split; [done|].
  apply wp_bind. unfold start_authorized_project_command_with_lifecycle_held.
  case_match; [by apply leave_wp|]. stage_call; [|by apply leave_wp].
  stage_call; [|by apply leave_wp]. destruct (process_runtime self); [|by apply leave_wp].
  cbn [give bind]. stage_call; [|by apply leave_wp].
  apply wp_call_. intros r _. split; [by split_and!|].
  destruct r as [process|e]; [|by apply leave_wp]. cbn [wp].
  destruct (matches_awaiting _ Em) as [stage Hs].
  rewrite (into_running_started stage) by done. apply leave_wp. intros s' Hh' Hs'.
  split; [done|]. exists stage, process. by split_and!.
Qed.
End starting.

(** C18. A started stage runs what was inspected and approved: the process is started
    under the permit of the project, for the envelope validated by the approval
    engine, whose command is the one of the pipeline's current stage, and only if
    the manifest and the lockfile read under that same permit have the digests the
    pipeline was prepared with.  A start that fails leaves no process behind, one
    that succeeds hands over the process it started, and the permit is given back
    in every case. *)
Theorem started_stage_bound `{Sha256, SerdeJson} self project session_id pipeline envelope
    options tr r :
  runs (start_authorized_website_build_stage self project session_id pipeline envelope options)
    tr r ->
  accepted (stage_ok project pipeline envelope options) stage_next stage_start tr /\
  stage_end pipeline (foldl stage_next stage_start tr) r.
Proof.
  intros Hr. eapply wp_sound; [apply start_stage_wp|exact Hr|].
  by apply Forall_forall.
Qed.

(** ** An installation in the example project *)

Definition ex_report_read : WebsiteToolchainReport :=
  match ex_inspection.1.1 with Ok report => report | Err _ => static_report end.
Definition ex_web_pipeline : WebsiteBuildPipeline :=
  mkPipeline (MkWebsitePipelineId 5) (pr_id ex_project) ex_report_read WebsiteBuildPolicy_default
    (AwaitingApproval DependencyInstall).
Definition ex_session : SessionId := MkSessionId (u "s1").
Definition ex_envelope : CommandExecutionEnvelope :=
  {| env_request_id := u "r1"; env_session_id := ex_session; env_project_id := pr_id ex_project;
     env_command := manager_command Npm [u "ci"; u "--ignore-scripts"];
     environment_policy := RuntimeManagedClean; project_epoch := 0 |}.
Definition ex_options : ProcessExecutionOptions :=
  {| timeout_ms := 60000; max_stdout_bytes := 1024; max_stderr_bytes := 1024 |}.
Definition ex_stage_run (options : ProcessExecutionOptions) :=
  ex_web_run (@start_authorized_website_build_stage ex_sha256 ex_json ex_core ex_project
                ex_session ex_web_pipeline ex_envelope options).

Lemma started_stage_bound_witness :
  exists running, (ex_stage_run ex_options).1.1 = Ok running /\
    rs_stage running = DependencyInstall.
Proof.
  pose proof (@started_stage_bound ex_sha256 ex_json ex_core ex_project ex_session
    ex_web_pipeline ex_envelope ex_options
    _ _ (simulate_runs ex_web_answer _ ex_start)) as [_ [_ He]].
  destruct (ex_stage_run ex_options).1.1 as [running|] eqn:E;
    [|vm_compute in E; discriminate E].
  exists running. split; [done|]. unfold ex_stage_run, ex_web_run in E. rewrite E in He.
  destruct He as (stage & process & Hs & _ & _ & <- & _). by injection Hs as <-.
Defined.
