(* ===== verification/Lifecycle.v ===== *)
(** * The project lifecycle gate ([vibecoder-core])

    The gate is a set of busy projects behind a mutex.  A monitor says what an
    operation may call while it holds a permit; tasks that run operations
    concurrently then never hold two permits of one project, whatever order their
    calls are served in.

    The code changes some things of a project without its permit, and the monitor lets
    it: see [changes]. *)
From S2P Require Import Prelude RustStr StrFacts RustPath Domain WorkspaceContract Routing.
From S2P Require Import CommandPolicy.
From S2P Require Import ProcessContract BuildContract BuildRepair BuildLoop Persistence.
From S2P Require Import Conversation Checkpoint Program CoreCalls BackendTask CheckpointOps.
From S2P Require Import ConversationTurns ModelTurn ExplicitLoop ProjectOps.
From S2P Require Import WebToolchain WebPipeline WebOps.

(** ** The gate *)

Record ProjectLifecycleGate := {
  gate_poisoned : bool;
  active : gset ProjectId
}.

Definition try_acquire (g : ProjectLifecycleGate) (p : ProjectId) :
    Result unit * ProjectLifecycleGate :=
  if gate_poisoned g then
    (Err (InvalidRequest (u "project_lifecycle_gate_poisoned")), g)
  else if bool_decide (p ∈ active g) then
    (Err (InvalidRequest (u "project_lifecycle_busy")), g)
  else (Ok tt, {| gate_poisoned := gate_poisoned g; active := {[p]} ∪ active g |}).

(** Dropping a [ProjectLifecyclePermit]; a poisoned lock is entered all the same. *)
Definition drop_permit (g : ProjectLifecycleGate) (p : ProjectId) : ProjectLifecycleGate :=
  {| gate_poisoned := gate_poisoned g; active := active g ∖ {[p]} |}.

(** ** What a permit is needed for *)

(** The permit an operation holds, and what it has verified since it acquired it:
    that the agent is quiescent and which sessions are bound to the project. *)
Record permit := mkPermit {
  pm_project : ProjectId;
  pm_quiet : bool;
  pm_sessions : list SessionId
}.

(** What a running operation may rely on: its permit, and the projects it has itself
    created, which nothing else knows of. *)
Record standing := mkStanding {
  permit_held : option permit;
  created : list ProjectId
}.

Definition no_standing : standing := mkStanding None [].

(** The project the call changes, where a permit is needed for that: its files, its
    existence, its snapshots, its sessions and processes, and the creation and removal
    of what is stored for it.  Not here are the calls that the code makes without a
    permit: creating a project (under a fresh id), the updates of stored states and
    conversations (each bound to the revision it expects), removing one snapshot, and
    [AgSetModel] and the cancellations, which name a session or a process, and the
    requests and decisions of the command policy. *)
Definition changes (c : core_call) : option ProjectId :=
  match c with
  | WsRemoveProject project
  | WsCreateDirAll project _ | WsAtomicWrite project _ _ | WsEditText project _ _ _
  | WsApplyPatch project _ _ | AgCreateSession project | AgResumeSession project _
  | AgRefresh project _ | ProcStart project _ _ | CkCreate project _ | CkRollback project _ =>
    Some (pr_id project)
  | PsCreate state => Some (ps_project_id state)
  | CvCreate conversation => Some (conversation_project conversation)
  | PsRemove p | CvRemove p _ | CvRemoveProject p => Some p
  | _ => None
  end.

(** The calls that also need a quiescent agent. *)
Definition needs_quiet (c : core_call) : bool :=
  match c with
  | CkCreate _ _ | CkRollback _ _ | AgRunTurn _ _ _ | WsRemoveProject _ | PsRemove _
  | CvRemoveProject _ => true
  | _ => false
  end.

(** Storing the state of a new project, and taking the project back when that fails,
    are done by the operation that has created it, without a permit. *)
Definition of_creator (c : core_call) : bool :=
  match c with PsCreate _ | WsRemoveProject _ => true | _ => false end.

Definition holds (s : standing) (p : ProjectId) : Prop :=
  exists h, permit_held s = Some h /\ pm_project h = p.

Definition call_ok (s : standing) (c : core_call) : Prop :=
  match c with
  | TryAcquire _ => permit_held s = None
  | Release p => holds s p
  | Racing c =>
    match c with
    | GwProfile _ | GwListModels _ | GwChat _ _ => True
    | _ => False
    end
  | AgRunTurn session _ _ =>
    exists h, permit_held s = Some h /\ session ∈ pm_sessions h /\ pm_quiet h = true
  | c =>
    match changes c with
    | Some p =>
      (exists h, permit_held s = Some h /\ pm_project h = p /\
         (needs_quiet c = true -> pm_quiet h = true)) \/
      (of_creator c = true /\ p ∈ created s)
    | None => True
    end
  end.

Definition verified (s : standing) (project : ProjectRef) (f : permit -> permit)
    (r : Result unit) : standing :=
  match permit_held s, r with
  | Some h, Ok _ =>
    if decide (pr_id project = pm_project h) then mkStanding (Some (f h)) (created s) else s
  | _, _ => s
  end.

Definition permit_next (s : standing) (e : event core_sig) : standing :=
  match ev_call e as c return resp c -> standing with
  | TryAcquire p => fun r =>
    match r with Ok _ => mkStanding (Some (mkPermit p false [])) (created s) | Err _ => s end
  | Release _ => fun _ => mkStanding None (created s)
  | WsCreateProject _ => fun r =>
    match r with
    | Ok project => mkStanding (permit_held s) (pr_id project :: created s)
    | Err _ => s
    end
  | AgQuiescent project =>
    verified s project (fun h => mkPermit (pm_project h) true (pm_sessions h))
  | AgVerifyBinding project session =>
    verified s project (fun h => mkPermit (pm_project h) (pm_quiet h) (session :: pm_sessions h))
  | _ => fun _ => s
  end (ev_resp e).

(** The workspace opens the project it is asked for. *)
Definition opens_named (e : event core_sig) : Prop :=
  match ev_call e as c return resp c -> Prop with
  | WsOpenProject id => fun r => match r with Ok project => pr_id project = id | Err _ => True end
  | _ => fun _ => True
  end (ev_resp e).

Definition permit_ok (s : standing) (e : event core_sig) : Prop := call_ok s (ev_call e).

Abbreviation permitted := (wp opens_named permit_ok permit_next).

(** A whole operation starts and ends without a permit. *)
Definition disciplined {A} (p : core A) : Prop :=
  forall s, permit_held s = None -> permitted p (fun s' _ => permit_held s' = None) s.

(** ** Calls that need no permit *)

Definition plain_call (c : core_call) : bool :=
  match c with
  | TryAcquire _ | Release _ | Racing _ | AgRunTurn _ _ _ => false
  | c => is_none (changes c)
  end.

Abbreviation plain := (calls_only plain_call).

(** ** Rules *)

(** The permit of [pid] is held, with what is known to be verified. *)
Definition under (pid : ProjectId) (q : bool) (ss : list SessionId) (s : standing) : Prop :=
  exists h, permit_held s = Some h /\ pm_project h = pid /\ (q = true -> pm_quiet h = true) /\
    ss ⊆ pm_sessions h.

Lemma under_holds pid q ss s : under pid q ss s -> holds s pid.
Proof. intros (h & ? & ? & _). by eexists. Qed.

Lemma under_start pid l : under pid false [] (mkStanding (Some (mkPermit pid false [])) l).
Proof. eexists. repeat split; [done|set_solver]. Qed.

Lemma under_verified pid q ss s project f r :
  (forall h, pm_project (f h) = pm_project h) ->
  (forall h, pm_quiet h = true -> pm_quiet (f h) = true) ->
  (forall h, pm_sessions h ⊆ pm_sessions (f h)) ->
  under pid q ss s -> under pid q ss (verified s project f r).
Proof.
  intros Hp Hq Hs (h & Hh & <- & ? & ?). unfold verified. rewrite Hh.
  destruct r; [case_decide|]; eexists; repeat split; eauto; set_solver.
Qed.

(** A call that is allowed leaves what was known. *)
Definition allowed (pid : ProjectId) (q : bool) (ss : list SessionId) (c : core_call) : Prop :=
  match c with
  | TryAcquire _ | Release _ => False
  | Racing (GwProfile _) | Racing (GwListModels _) | Racing (GwChat _ _) => True
  | Racing _ => False
  | AgRunTurn session _ _ => q = true /\ session ∈ ss
  | c =>
    match changes c with
    | Some p => p = pid /\ (needs_quiet c = true -> q = true)
    | None => True
    end
  end.

Lemma allowed_ok pid q ss s c : under pid q ss s -> allowed pid q ss c -> call_ok s c.
Proof.
  intros (h & Hh & <- & Hq & Hs).
  destruct c; cbn; try done;
    try (intros [-> ?]; left; exists h; split_and!; by auto).
  intros [-> ?]. exists h. split_and!; by auto.
Qed.

Lemma under_next pid q ss s c r :
  under pid q ss s -> allowed pid q ss c -> under pid q ss (permit_next s (Ev c r)).
Proof.
  intros Hu Ha. destruct c; cbn in *; try done; [by destruct r|..];
    apply under_verified; try done; set_solver.
Qed.

Lemma under_call pid q ss s c (Q : standing -> resp c -> Prop) :
  under pid q ss s -> allowed pid q ss c ->
  (forall r s', opens_named (Ev c r) -> under pid q ss s' -> Q s' r) -> permitted (call_ c) Q s.
Proof.
  intros Hu Ha HQ. apply wp_call_. intros r He.
  split; [by eapply allowed_ok|]. apply HQ; [done|]. by apply under_next.
Qed.

Lemma under_quiescent pid q ss s project (Q : standing -> Result unit -> Prop) :
  under pid q ss s -> pr_id project = pid ->
  (forall r s', under pid (q || is_ok r) ss s' -> Q s' r) ->
  permitted (call_ (AgQuiescent project)) Q s.
Proof.
  intros Hu Hp HQ. apply wp_call_. intros r He. split; [done|]. apply HQ.
  destruct r as [[]|e]; [|rewrite orb_false_r; by apply under_next].
  destruct Hu as (h & Hh & <- & ? & ?). cbn. unfold verified. rewrite Hh, decide_True by done.
  eexists. by repeat split.
Qed.

Lemma under_binding pid q ss s project session (Q : standing -> Result unit -> Prop) :
  under pid q ss s -> pr_id project = pid ->
  (forall r s', under pid q (if is_ok r then session :: ss else ss) s' -> Q s' r) ->
  permitted (call_ (AgVerifyBinding project session)) Q s.
Proof.
  intros Hu Hp HQ. apply wp_call_. intros r He. split; [done|]. apply HQ.
  destruct r as [[]|e]; [|by apply under_next].
  destruct Hu as (h & Hh & <- & ? & ?). cbn. unfold verified. rewrite Hh, decide_True by done.
  eexists. repeat split; [done|set_solver].
Qed.

Lemma under_plain {A} pid q ss s (p : core A) Q :
  plain p -> under pid q ss s -> (forall a s', under pid q ss s' -> Q s' a) -> permitted p Q s.
Proof.
  revert s. induction p as [a|c k IH]; cbn; intros s Hp Hu HQ; [by apply HQ|].
  destruct Hp as [Hc Hp]. intros r He.
  assert (allowed pid q ss c) by (by destruct c).
  split; [by eapply allowed_ok|]. apply IH; [apply Hp| |done]. by apply under_next.
Qed.

Lemma disciplined_plain {A} (p : core A) : plain p -> disciplined p.
Proof.
  unfold disciplined. induction p as [a|c k IH]; cbn; [done|].
  intros [Hc Hp] s Hs r _. split; [by destruct c|]. apply IH; [done|].
  destruct c; try done; cbn; [by destruct r|..]; unfold verified; by rewrite Hs.
Qed.

Lemma disciplined_ret {A} (a : A) : disciplined (Ret a).
Proof. by intros s Hs. Qed.

Lemma disciplined_bind {A B} (p : core A) (k : A -> core B) :
  disciplined p -> (forall a, disciplined (k a)) -> disciplined (bind p k).
Proof.
  intros Hp Hk s Hs. apply wp_bind. eapply wp_mono; [by apply Hp|]. intros s' a. apply Hk.
Qed.

(** A scope: the body starts with a fresh permit and keeps it. *)
Lemma disciplined_scope {A} pid (fail : VibeCoderError -> A) body :
  (forall s, under pid false [] s -> permitted body (fun s _ => holds s pid) s) ->
  disciplined (lifecycle_scope pid fail body).
Proof.
  intros Hb s0 Hs0. apply wp_bind, wp_call_. intros r _. split; [done|].
  destruct r as [x|e]; [|done]. apply wp_bind. eapply wp_mono; [apply Hb, under_start|]. intros s a Hs.
  apply wp_bind, wp_call_. by intros [] _.
Qed.

(** ** The tactics

    [under_step] for the calls of a scope. *)
Create HintDb disciplined discriminated.

Ltac permit_side := solve [done | cbn; split; [congruence|done] | cbn; split; [done|set_solver]].

Ltac under_step :=
  lazymatch goal with
  | |- permitted (Ret _) _ _ => cbn [wp]
  | |- permitted (give _) _ _ => cbn [wp give]
  | |- permitted (bind _ _) _ _ => apply wp_bind
  | |- permitted (or_error _ _) _ _ => apply wp_bind
  | |- permitted (some_or _ _) _ _ => apply wp_bind
  | H : under _ _ _ ?s |- permitted (call_ (AgQuiescent _)) _ ?s =>
    apply (under_quiescent _ _ _ _ _ _ H); [congruence|]; clear H; intros [?|?] ? H; cbn in H
  | H : under _ _ _ ?s |- permitted (call_ (AgVerifyBinding _ _)) _ ?s =>
    apply (under_binding _ _ _ _ _ _ _ H); [congruence|]; clear H; intros [?|?] ? H; cbn in H
  | H : under _ _ _ ?s |- permitted (call_ ?c) _ ?s =>
    apply (under_call _ _ _ _ c _ H); [permit_side|]; clear H; intros ? ? ? H
  | |- permitted (match ?x with _ => _ end) _ _ => destruct x eqn:?
  | H : under _ _ _ ?s |- permitted _ _ ?s =>
    eapply under_plain; [|exact H|]; [solve [calls_solve]|clear H; intros ? ? H]
  | H : under _ _ _ ?s |- holds ?s _ => exact (under_holds _ _ _ _ H)
  end.
Ltac under_solve := repeat under_step.

(** Operations composed of scopes and of calls that need no permit. *)
Ltac disciplined_step :=
  lazymatch goal with
  | |- disciplined (Ret _) => exact (fun _ H => H)
  | |- disciplined (give _) => exact (fun _ H => H)
  | |- disciplined (bind _ _) => apply disciplined_bind; [|intros ?]
  | |- disciplined (or_error _ _) => apply disciplined_bind; [|intros ?]
  | |- disciplined (some_or _ _) => apply disciplined_bind; [|intros ?]
  | |- disciplined (call_ _) => by apply disciplined_plain, calls_only_call_
  | |- disciplined (match ?x with _ => _ end) => destruct x
  | |- disciplined (lifecycle_scope _ _ _) =>
    apply disciplined_scope; intros ? ?; solve [under_solve]
  | |- disciplined ?p =>
    first [solve [eauto with disciplined nocore]
          |apply disciplined_plain; solve [calls_solve]
          |unfold_head p]
  end.
Ltac disciplined_solve := repeat disciplined_step.

Section operations.
Context (self : VibeCoderCore).

Lemma plain_no_active pid : plain (ensure_no_active_project_process self pid).
Proof. unfold ensure_no_active_project_process. calls_solve. Qed.
Hint Resolve plain_no_active : calls.

Lemma plain_load pid id : plain (load_conversation pid id).
Proof. unfold load_conversation. calls_solve. Qed.
Hint Resolve plain_load : calls.

Lemma create_checkpoint_disciplined project reason :
  disciplined (create_project_checkpoint self project reason).
Proof. apply disciplined_scope. intros s Hu. under_solve. Qed.

Lemma conversation_sessions_plain pid permitted_turn :
  plain (conversation_sessions self pid permitted_turn).
Proof. unfold conversation_sessions. calls_solve. Qed.
Hint Resolve conversation_sessions_plain : calls.

Lemma refresh_under pid q ss s project ids (Q : standing -> Result unit -> Prop) :
  under pid q ss s -> pr_id project = pid ->
  (forall r s', under pid q ss s' -> Q s' r) -> permitted (refresh_sessions project ids) Q s.
Proof.
  intros Hu Hp HQ. revert s Hu. induction ids as [|id ids IH]; intros s Hu; cbn [refresh_sessions].
  - by apply HQ.
  - under_solve; [by apply IH|by apply HQ].
Qed.

Lemma rollback_disciplined project id permitted_turn :
  disciplined (rollback_project_checkpoint_internal self project id permitted_turn).
Proof.
  apply disciplined_scope. intros s Hu. under_solve.
  all: eapply refresh_under; [exact Hu|done|clear Hu; intros ? ? Hu; under_solve].
Qed.

Lemma plain_remove_checkpoint pid id : plain (remove_project_checkpoint self pid id).
Proof. unfold remove_project_checkpoint. calls_solve. Qed.
Hint Resolve plain_remove_checkpoint : calls.

(** The observers of the attempts see the answers of [AgRunTurn] only, so the loop
    needs no more than the bound session. *)
Lemma backend_loop_under pid q ss s stuck fuel project session prompt bridge h task delivered
    (Q : standing -> TaskResult -> Prop) :
  under pid q ss s -> q = true -> session ∈ ss ->
  (forall r s', under pid q ss s' -> Q s' r) ->
  permitted (backend_loop stuck fuel project session prompt bridge h task delivered) Q s.
Proof.
  intros Hu -> Hs HQ. revert s h task delivered Hu.
  induction fuel as [|fuel IH]; intros s h task delivered Hu; cbn [backend_loop]; [by apply HQ|].
  under_solve; by first [apply HQ|apply IH].
Qed.

Lemma run_backend_task_disciplined stuck project session c policy prompt :
  disciplined (run_backend_task_with stuck self project session c policy prompt).
Proof.
  apply disciplined_scope. intros s Hu. unfold prepare_backend_task. under_solve.
  all: eapply backend_loop_under; [exact Hu|done|set_solver|].
  all: intros; by eapply under_holds.
Qed.

Hint Resolve create_checkpoint_disciplined rollback_disciplined run_backend_task_disciplined :
  disciplined.

Lemma run_backend_task_ok project session c policy prompt :
  disciplined (run_backend_task self project session c policy prompt).
Proof. apply run_backend_task_disciplined. Qed.
Hint Resolve run_backend_task_ok : disciplined.

Lemma clear_pending_plain code conv : plain (clear_pending code conv).
Proof. unfold clear_pending, update_conversation. calls_solve. Qed.
Lemma update_plain conv updated : plain (update_conversation conv updated).
Proof. unfold update_conversation. calls_solve. Qed.
Hint Resolve clear_pending_plain update_plain : calls.

Lemma recover_disciplined rc cc t session v : disciplined (recover_pending self rc cc t session v).
Proof.
  unfold recover_pending, rollback_project_checkpoint_for_pending_conversation. disciplined_solve.
Qed.
Hint Resolve recover_disciplined : disciplined.

Lemma fail_action_disciplined {A} t post e : disciplined (@fail_action A self t post e).
Proof. unfold fail_action, recover_failed_persisted_agent_action. disciplined_solve. Qed.
Lemma fail_loop_disciplined {A} t v e : disciplined (@fail_loop A self t v e).
Proof. unfold fail_loop, recover_failed_persisted_explicit_agent_loop. disciplined_solve. Qed.
Hint Resolve fail_action_disciplined fail_loop_disciplined : disciplined.

Lemma start_action_disciplined pid id prompt : disciplined (start_action_turn self pid id prompt).
Proof. unfold start_action_turn. disciplined_solve. Qed.
Lemma require_action_agent_plain prefix : plain (require_action_agent prefix).
Proof. unfold require_action_agent. calls_solve. Qed.
Lemma remove_both_plain pid a b : plain (remove_both self pid a b).
Proof. unfold remove_both. calls_solve. Qed.
Hint Resolve start_action_disciplined : disciplined.
Hint Resolve require_action_agent_plain remove_both_plain : calls.

Lemma finish_action_disciplined t outcome events :
  disciplined (finish_action_turn self t outcome events).
Proof. unfold finish_action_turn. disciplined_solve. Qed.
Hint Resolve finish_action_disciplined : disciplined.

Lemma finish_non_success_disciplined t v reason s :
  disciplined (finish_persisted_explicit_agent_loop_non_success self t v reason s).
Proof.
  unfold finish_persisted_explicit_agent_loop_non_success,
    rollback_project_checkpoint_for_pending_conversation. disciplined_solve.
Qed.
Hint Resolve finish_non_success_disciplined : disciplined.

Lemma loop_iterations_disciplined c rp policy prompt t n s i :
  disciplined (loop_iterations self c rp policy prompt t n s i).
Proof.
  revert s i. induction n as [|n IH]; intros s i; cbn [loop_iterations];
    [apply disciplined_ret|].
  apply disciplined_bind; [|intros []; [apply disciplined_ret|apply IH]].
  unfold loop_iteration, finish_iteration, continue_loop, complete_loop, returning.
  disciplined_solve.
Qed.
Hint Resolve loop_iterations_disciplined : disciplined.

Lemma race_under {A} pid q ss s (p : core (Result A)) (Q : standing -> Result A -> Prop) :
  calls_only gateway_call p ->
  under pid q ss s -> (forall r s', under pid q ss s' -> Q s' r) -> permitted (race p) Q s.
Proof.
  intros Hp Hu HQ. revert s Hu Hp.
  induction p as [r|c k IH]; intros s Hu Hp; cbn [race]; [by apply HQ|].
  destruct Hp as [Hc Hp]. apply wp_bind, (under_call pid q ss); [done|by destruct c|].
  intros [r|] s' _ Hu'; [by apply IH|by apply HQ].
Qed.

Lemma inference_plain c model tokens conversation :
  plain (inference c model tokens conversation).
Proof. unfold inference. calls_solve. Qed.
Lemma finish_model_turn_plain conv r : plain (finish_model_turn conv r).
Proof. unfold finish_model_turn. calls_solve. Qed.
Hint Resolve inference_plain finish_model_turn_plain : calls.

Lemma model_turn_disciplined pid id c model tokens prompt cancellable :
  disciplined (run_persisted_model_conversation_turn_inner self pid id c model tokens prompt
                 cancellable).
Proof.
  unfold run_persisted_model_conversation_turn_inner.
  repeat (apply disciplined_bind; [apply disciplined_ret|intros [?|?]; [|apply disciplined_ret]]).
  case_match; [apply disciplined_ret|].
  apply disciplined_scope. intros s Hu. under_solve.
  all: unfold await_conversation_model_inference_or_cancel; under_solve.
  eapply race_under; [apply inference_gateway_only|exact Hu|]. clear Hu.
  intros ? ? Hu. under_solve.
Qed.
Hint Resolve model_turn_disciplined : disciplined.

(** The one place where a project is stored and removed without its permit: by the
    operation that has created it. *)
Lemma create_persisted_disciplined : disciplined (create_persisted_project self).
Proof.
  unfold create_persisted_project, give. apply disciplined_bind; [apply disciplined_ret|].
  intros [[]|e]; [|apply disciplined_ret].
  apply disciplined_bind; [by apply disciplined_plain, calls_only_call_|]. intros fresh s Hs.
  apply wp_bind, wp_call_. intros [project|e] _; (split; [done|]); [|exact Hs].
  apply wp_bind, wp_call_. intros [[]|e] _; (split; [right; by split; [|left]|]); [exact Hs|].
  apply wp_bind, wp_call_. intros r _. by split; [right; split; [|left]|].
Qed.
Hint Resolve create_persisted_disciplined : disciplined.
End operations.

(** ** Every operation of the controller *)

Inductive controller_op :=
| OpRequestCommand (p : ProjectRef) (s : SessionId) (c : CommandSpec)
| OpDecideCommand (p : ProjectRef) (s : SessionId) (a : CommandApprovalRequest)
    (d : CommandApprovalDecision)
| OpRevokePending (s : SessionId)
| OpStartCommand (p : ProjectRef) (s : SessionId) (e : CommandExecutionEnvelope)
    (o : ProcessExecutionOptions)
| OpPrepareBuild (p : ProjectRef) (t : BuildTargetKind)
| OpStartBuild (p : ProjectRef) (s : SessionId) (d : BuildJobDescriptor)
    (e : CommandExecutionEnvelope) (o : ProcessExecutionOptions)
| OpCancelProcess (id : ProcessId)
| OpCreateCheckpoint (p : ProjectRef) (r : CheckpointReason)
| OpListCheckpoints (p : ProjectId) (n : N)
| OpRemoveCheckpoint (p : ProjectId) (id : CheckpointId)
| OpRollback (p : ProjectRef) (id : CheckpointId)
| OpResolvePolicy (r : option SecretReference) (p : ModelRoutePolicyConfig)
| OpRunTask (p : ProjectRef) (s : SessionId) (c : GatewayCredential)
    (r : ModelRoutePolicyConfig) (prompt : str)
| OpPreflight (r : option SecretReference)
| OpCreatePersistedProject
| OpOpenPersistedProject (p : ProjectId)
| OpListPersistedProjects (n : N)
| OpRemovePersistedProject (p : ProjectRef)
| OpCreateConversation (p : ProjectRef)
| OpListConversations (p : ProjectId) (n : N)
| OpLoadConversation (p : ProjectId) (id : ConversationId)
| OpResumeConversation (p : ProjectId) (id : ConversationId)
| OpConversationTurn (p : ProjectId) (id : ConversationId) (c : GatewayCredential)
    (r : ModelRoutePolicyConfig) (prompt : str)
| OpActionTurn (p : ProjectId) (id : ConversationId) (r : option SecretReference)
    (policy : ModelRoutePolicyConfig) (prompt : str)
| OpModelTurn (p : ProjectId) (id : ConversationId) (c : GatewayCredential) (model : str)
    (tokens : N) (prompt : str) (cancellable : bool)
| OpCancelTurn (p : ProjectId) (id : ConversationId)
| OpStartPersistedSession (p : ProjectRef)
| OpResumePersistedSession (p : ProjectId)
| OpSetPersistedModel (p : ProjectId) (m : ModelRef)
| OpSetRoutePolicy (p : ProjectId) (r : option ModelRoutePolicyConfig)
| OpStartSession (p : ProjectRef)
| OpResumeSession (p : ProjectRef) (s : SessionId)
| OpListModels (s : SessionId)
| OpSetModel (s : SessionId) (m : ModelRef)
| OpCreateProject
| OpOpenProject (p : ProjectId)
| OpRemoveProject (p : ProjectRef)
| OpResolvePath (p : ProjectRef) (f : os_path)
| OpCreateDirs (p : ProjectRef) (f : os_path)
| OpReadFile (p : ProjectRef) (f : os_path) (n : N)
| OpWriteFile (p : ProjectRef) (f : os_path) (contents : bytes)
| OpEditFile (p : ProjectRef) (f : os_path) (expected replacement : str)
| OpPatchFile (p : ProjectRef) (f : os_path) (hunks : list TextPatchHunk)
| OpListFiles (p : ProjectRef) (n : N)
| OpSearch (p : ProjectRef) (needle : str) (n : N)
| OpRepairTurn (p : ProjectRef) (s : SessionId) (b : BuildResult) (m : option ModelRef)
| OpGuardedRepair (g : BuildRepairLoopGuard) (p : ProjectRef) (s : SessionId) (b : BuildResult)
    (m : option ModelRef)
| OpCancelRepairLoop (g : BuildRepairLoopGuard)
| OpCancelRepairTurn (g : BuildRepairLoopGuard) (p : ProjectRef) (s : SessionId)
| OpExplicitLoop (r : option SecretReference) (g : ExplicitAgentLoopGuard)
    (policy : ModelRoutePolicyConfig) (prompt : str)
| OpCancelLoop (g : ExplicitAgentLoopGuard)
| OpCancelLoopTurn (g : ExplicitAgentLoopGuard)
| OpInspectWebsite (p : ProjectRef)
| OpPrepareWebsite (p : ProjectRef) (policy : WebsiteBuildPolicy)
| OpRequestStage (p : ProjectRef) (s : SessionId) (pipeline : WebsiteBuildPipeline)
| OpStartStage (p : ProjectRef) (s : SessionId) (pipeline : WebsiteBuildPipeline)
    (e : CommandExecutionEnvelope) (o : ProcessExecutionOptions)
| OpPrepareRebuild (g : BuildRepairLoopGuard) (p : ProjectRef) (policy : WebsiteBuildPolicy)
| OpCancelRebuild (g : BuildRepairLoopGuard) (r : RunningWebsiteBuildStage).

Definition ignore {A} (p : core A) : core unit := do _ <- p; Ret tt.

Definition op_program `{Sha256, SerdeJson} (self : VibeCoderCore) (o : controller_op) : core unit :=
  match o with
  | OpRequestCommand p s c => ignore (request_project_command p s c)
  | OpDecideCommand p s a d => ignore (decide_project_command p s a d)
  | OpRevokePending s => ignore (revoke_pending_project_commands s)
  | OpStartCommand p s e o => ignore (start_authorized_project_command self p s e o)
  | OpPrepareBuild p t => ignore (prepare_build_job p t)
  | OpStartBuild p s d e o => ignore (start_authorized_build_job self p s d e o)
  | OpCancelProcess id => ignore (cancel_project_process self id)
  | OpCreateCheckpoint p r => ignore (create_project_checkpoint self p r)
  | OpListCheckpoints p n => ignore (list_project_checkpoints self p n)
  | OpRemoveCheckpoint p id => ignore (remove_project_checkpoint self p id)
  | OpRollback p id => ignore (rollback_project_checkpoint self p id)
  | OpResolvePolicy r p => ignore (resolve_model_route_policy_resolved r p)
  | OpRunTask p s c r prompt => ignore (run_backend_task self p s c r prompt)
  | OpPreflight r => ignore (preflight_resolved r)
  | OpCreatePersistedProject => ignore (create_persisted_project self)
  | OpOpenPersistedProject p => ignore (open_persisted_project self p)
  | OpListPersistedProjects n => ignore (list_persisted_project_ids self n)
  | OpRemovePersistedProject p => ignore (remove_persisted_project self p)
  | OpCreateConversation p => ignore (create_persisted_conversation self p)
  | OpListConversations p n => ignore (list_persisted_conversation_ids self p n)
  | OpLoadConversation p id => ignore (load_persisted_conversation self p id)
  | OpResumeConversation p id => ignore (resume_persisted_conversation self p id)
  | OpConversationTurn p id c r prompt =>
    ignore (run_persisted_conversation_turn self p id c r prompt)
  | OpActionTurn p id r policy prompt =>
    ignore (run_persisted_agent_action_turn_resolved self r p id policy prompt)
  | OpModelTurn p id c model tokens prompt b =>
    ignore (run_persisted_model_conversation_turn_inner self p id c model tokens prompt b)
  | OpCancelTurn p id => ignore (cancel_persisted_conversation_turn self p id)
  | OpStartPersistedSession p => ignore (start_persisted_project_session self p)
  | OpResumePersistedSession p => ignore (resume_persisted_project_session self p)
  | OpSetPersistedModel p m => ignore (set_persisted_session_model self p m)
  | OpSetRoutePolicy p r => ignore (set_persisted_route_policy self p r)
  | OpStartSession p => ignore (start_project_session p)
  | OpResumeSession p s => ignore (resume_project_session p s)
  | OpListModels s => ignore (list_session_models s)
  | OpSetModel s m => ignore (set_session_model s m)
  | OpCreateProject => ignore create_project
  | OpOpenProject p => ignore (open_project p)
  | OpRemoveProject p => ignore (remove_project self p)
  | OpResolvePath p f => ignore (resolve_project_path p f)
  | OpCreateDirs p f => ignore (create_project_dir_all p f)
  | OpReadFile p f n => ignore (read_project_file p f n)
  | OpWriteFile p f bs => ignore (atomic_write_project_file p f bs)
  | OpEditFile p f e r => ignore (edit_project_text_file p f e r)
  | OpPatchFile p f hunks => ignore (apply_project_text_patch p f hunks)
  | OpListFiles p n => ignore (list_project_files p n)
  | OpSearch p needle n => ignore (search_project_text p needle n)
  | OpRepairTurn p s b m => ignore (run_first_build_repair_turn self p s b m)
  | OpGuardedRepair g p s b m => ignore (run_guarded_build_repair_turn self g p s b m)
  | OpCancelRepairLoop g => ignore (request_build_repair_loop_cancel g)
  | OpCancelRepairTurn g p s => ignore (cancel_active_build_repair_turn g p s)
  | OpExplicitLoop r g policy prompt =>
    ignore (run_persisted_explicit_agent_loop_resolved self r g policy prompt)
  | OpCancelLoop g => ignore (request_explicit_agent_loop_cancel g)
  | OpCancelLoopTurn g => ignore (cancel_active_explicit_agent_loop_turn self g)
  | OpInspectWebsite p => ignore (inspect_website_toolchain p)
  | OpPrepareWebsite p policy => ignore (prepare_website_build_pipeline p policy)
  | OpRequestStage p s pipeline => ignore (request_website_build_stage_command p s pipeline)
  | OpStartStage p s pipeline e o =>
    ignore (start_authorized_website_build_stage self p s pipeline e o)
  | OpPrepareRebuild g p policy => ignore (prepare_guarded_website_rebuild g p policy)
  | OpCancelRebuild g r => ignore (cancel_active_guarded_website_rebuild self g r)
  end.

#[local] Hint Resolve create_checkpoint_disciplined rollback_disciplined run_backend_task_ok
  fail_action_disciplined fail_loop_disciplined start_action_disciplined
  finish_action_disciplined loop_iterations_disciplined model_turn_disciplined
  create_persisted_disciplined : disciplined.
#[local] Hint Resolve plain_no_active plain_load plain_remove_checkpoint clear_pending_plain
  update_plain require_action_agent_plain : calls.

Lemma repair_turn_disciplined `{Sha256} self p s b m :
  disciplined (run_first_build_repair_turn self p s b m).
Proof. unfold run_first_build_repair_turn. disciplined_solve. Qed.
#[local] Hint Resolve repair_turn_disciplined : disciplined.

Lemma probe_files_plain project files names : plain (probe_files project files names).
Proof. revert files. induction names as [|n names IH]; intros files; cbn [probe_files]; calls_solve. Qed.
#[local] Hint Resolve probe_files_plain : calls.

Lemma inspect_website_plain `{Sha256, SerdeJson} project :
  plain (inspect_website_project project).
Proof. unfold inspect_website_project. calls_solve. Qed.
#[local] Hint Resolve inspect_website_plain : calls.

Lemma operations_disciplined `{Sha256, SerdeJson} self o : disciplined (op_program self o).
Proof.
  destruct o; unfold op_program, ignore; (apply disciplined_bind; [|intros; apply disciplined_ret]).
  all: unfold start_authorized_website_build_stage, start_authorized_build_job, start_authorized_project_command,
    start_authorized_project_command_with_lifecycle_held, resume_persisted_project_session,
    set_persisted_session_model, open_persisted_project.
  all: disciplined_solve.
Qed.

(** ** Tasks that share the gate

    A task has made some calls and has a program left; a step serves the next call
    of any task.  The gate answers as it is modelled above, everything else answers
    arbitrarily, except that [WsOpenProject] opens the project named. *)

Definition task : Type := list (event core_sig) * core unit.

Record pool := mkPool { tasks : list task; gate : ProjectLifecycleGate }.

Definition gate_answers (g : ProjectLifecycleGate) (c : core_call) :
    core_resp c -> ProjectLifecycleGate -> Prop :=
  match c with
  | TryAcquire p => fun r g' => (r, g') = try_acquire g p
  | Release p => fun _ g' => g' = drop_permit g p
  | _ => fun _ g' => g' = g
  end.

Inductive pool_step (P : pool) : pool -> Prop :=
| serve i tr c k r g' :
    tasks P !! i = Some (tr, Call c k) ->
    opens_named (Ev c r) ->
    gate_answers (gate P) c r g' ->
    pool_step P (mkPool (<[i := (tr ++ [Ev c r], k r)]> (tasks P)) g').

Definition permit_of (tr : list (event core_sig)) : standing := foldl permit_next no_standing tr.

Definition start_pool `{Sha256, SerdeJson} (self : VibeCoderCore) (poisoned : bool)
    (ops : list controller_op) : pool :=
  mkPool ((fun o => ([], op_program self o)) <$> ops)
    {| gate_poisoned := poisoned; active := ∅ |}.

(** Task [i] holds the permit of [p]. *)
Definition holder (P : pool) (i : nat) (p : ProjectId) : Prop :=
  exists t, tasks P !! i = Some t /\ holds (permit_of t.1) p.

(** [busy] is the set of projects with a holder, and no project has two. *)
Definition tracks (busy : gset ProjectId) (H : nat -> ProjectId -> Prop) : Prop :=
  (forall p, p ∈ busy <-> exists i, H i p) /\ (forall i j p, H i p -> H j p -> i = j).

Definition pool_inv (P : pool) : Prop :=
  (forall i t, tasks P !! i = Some t -> permitted t.2 (fun s _ => permit_held s = None) (permit_of t.1)) /\
  tracks (active (gate P)) (holder P).

Lemma tracks_ext busy H H' :
  (forall i p, H' i p <-> H i p) -> tracks busy H -> tracks busy H'.
Proof. intros He [Hb Hu]. split; [intros p; rewrite Hb|]; naive_solver. Qed.

Lemma tracks_acquire busy H i p0 :
  tracks busy H -> p0 ∉ busy ->
  tracks ({[p0]} ∪ busy) (fun j p => H j p \/ (j = i /\ p = p0)).
Proof.
  intros [Hb Hu] Hp. rewrite Hb in Hp. split.
  - intros p. rewrite elem_of_union, elem_of_singleton, Hb. naive_solver.
  - naive_solver.
Qed.

Lemma tracks_release busy H i p0 :
  tracks busy H -> H i p0 -> (forall p, H i p -> p = p0) ->
  tracks (busy ∖ {[p0]}) (fun j p => j <> i /\ H j p).
Proof.
  intros [Hb Hu] Hi Ho. split.
  - intros p. rewrite elem_of_difference, elem_of_singleton, Hb. split.
    + intros [[j Hj] Hp]. exists j. split; [naive_solver|done].
    + intros (j & Hj & Hp). split; [eauto|]. intros ->. eauto.
  - naive_solver.
Qed.

Lemma permit_next_project s e :
  (forall p, ev_call e <> TryAcquire p) -> (forall p, ev_call e <> Release p) ->
  forall p, holds (permit_next s e) p <-> holds s p.
Proof.
  destruct e as [c r]. cbn. intros Ha Hr p.
  assert (Hv : forall project f (r : Result unit), (forall h, pm_project (f h) = pm_project h) ->
            holds (verified s project f r) p <-> holds s p).
  { intros project f r' Hf. unfold verified, holds. destruct s as [[h|] l]; [|done]. cbn.
    destruct r'; [|done]. case_decide; [|done].
    split; intros (h' & [= <-] & <-); eexists; eauto. }
  destruct c; try done; [by edestruct Ha|by edestruct Hr|by destruct r|by apply Hv|by apply Hv].
Qed.

Lemma holds_inj s p q : holds s p -> holds s q -> p = q.
Proof. intros (h & Hh & <-) (h' & Hh' & <-). congruence. Qed.

Lemma permit_of_snoc tr e : permit_of (tr ++ [e]) = permit_next (permit_of tr) e.
Proof. apply foldl_snoc. Qed.

(** The holders after one task has moved. *)
Lemma holder_insert P i j t g p :
  (i < length (tasks P))%nat ->
  holder (mkPool (<[i := t]> (tasks P)) g) j p <->
  (j = i /\ holds (permit_of t.1) p) \/ (j <> i /\ holder P j p).
Proof.
  intros Hi. unfold holder. cbn. destruct (decide (j = i)) as [->|Hne].
  - rewrite list_lookup_insert_eq by done. naive_solver.
  - rewrite list_lookup_insert_ne by done. naive_solver.
Qed.

Lemma holds_none s p : permit_held s = None -> ~ holds s p.
Proof. intros Hs (? & ? & _). congruence. Qed.

(** A served call keeps the gate and the holders together. *)
Lemma served_tracks P i s c r g' :
  (forall p, holds s p <-> holder P i p) -> call_ok s c -> gate_answers (gate P) c r g' ->
  tracks (active (gate P)) (holder P) ->
  tracks (active g') (fun j p =>
    (j = i /\ holds (permit_next s (Ev c r)) p) \/ (j <> i /\ holder P j p)).
Proof.
  intros Hown Hc Hg Ht.
  assert (Hsame : active g' = active (gate P) ->
            (forall p, holds (permit_next s (Ev c r)) p <-> holds s p) ->
            tracks (active g') (fun j p =>
              (j = i /\ holds (permit_next s (Ev c r)) p) \/ (j <> i /\ holder P j p))).
  { intros -> He. eapply tracks_ext; [|exact Ht]. intros j p. cbn beta. rewrite He, Hown.
    destruct (decide (j = i)) as [->|]; naive_solver. }
  assert (Hother : (forall p, c <> TryAcquire p) -> (forall p, c <> Release p) ->
            g' = gate P -> tracks (active g') (fun j p =>
              (j = i /\ holds (permit_next s (Ev c r)) p) \/ (j <> i /\ holder P j p))).
  { intros Ha Hr ->. apply Hsame; [done|]. intros p. by apply permit_next_project. }
  destruct c; (try by apply Hother); rename p into p0.
  - cbn in Hc, Hg. unfold try_acquire in Hg.
    destruct (gate_poisoned _); [|case_bool_decide as Hb]; injection Hg as -> ->; [by apply Hsame..|].
    eapply tracks_ext; [|by eapply (tracks_acquire _ _ i)]. intros j p. cbn.
    assert (Hn : ~ holder P i p) by (rewrite <-Hown; by apply holds_none).
    unfold holds. cbn. destruct (decide (j = i)) as [->|]; naive_solver.
  - cbn in Hc, Hg. subst g'.
    assert (Hi : holder P i p0) by (by apply Hown).
    eapply tracks_ext; [|eapply (tracks_release _ _ i); [exact Ht|exact Hi|]].
    + intros j p. cbn. pose proof (holds_none (mkStanding None (created s)) p eq_refl). naive_solver.
    + intros p Hp%Hown. by eapply holds_inj.
Qed.

Lemma pool_step_inv P P' : pool_step P P' -> pool_inv P -> pool_inv P'.
Proof.
  intros [i tr c k r g' Hi Hn Hg] (Hok & Ht).
  pose proof (lookup_lt_Some _ _ _ Hi) as Hlt.
  destruct (Hok _ _ Hi r Hn) as [Hc Hk]. split.
  - intros j t' Hj. cbn in Hj. destruct (decide (j = i)) as [->|Hne].
    + rewrite list_lookup_insert_eq in Hj by done. injection Hj as <-. cbn.
      by rewrite permit_of_snoc.
    + rewrite list_lookup_insert_ne in Hj by done. eauto.
  - eapply tracks_ext, (served_tracks P i _ c r g' _ Hc Hg Ht).
    intros j p. rewrite holder_insert by done. cbn. by rewrite permit_of_snoc.
    Unshelve. intros p. unfold holder. rewrite Hi. naive_solver.
Qed.

(** Every call has an answer. *)
Lemma some_answer c : exists r, opens_named (Ev c r).
Proof.
  assert (w : WorkspaceCapabilities) by (by repeat constructor).
  destruct c; try by exists (Err Cancelled).
  all: try (by exists tt); try (by exists w); try (by exists None); try (by exists true);
    try (by exists 0); by exists ([], Err Cancelled).
Qed.

Lemma start_pool_inv `{Sha256, SerdeJson} self poisoned ops : pool_inv (start_pool self poisoned ops).
Proof.
  assert (Hn : forall i p, ~ holder (start_pool self poisoned ops) i p).
  { intros i p (t & Ht & Hh). cbn in Ht. apply list_lookup_fmap_Some in Ht as (o & -> & _).
    by apply holds_none in Hh. }
  split.
  - intros i t Ht. cbn in Ht. apply list_lookup_fmap_Some in Ht as (o & -> & _).
    by apply operations_disciplined.
  - split; [|naive_solver]. intros p. cbn. split; [set_solver|naive_solver].
Qed.

Lemma reachable_inv `{Sha256, SerdeJson} self poisoned ops P :
  rtc pool_step (start_pool self poisoned ops) P -> pool_inv P.
Proof.
  apply (rtc_ind_r pool_inv); [apply start_pool_inv|].
  intros P1 P2 _ Hs. by eapply pool_step_inv.
Qed.

(** C1. Operations of the controller running concurrently, in any interleaving and
    with arbitrary answers, never overlap on one project where the code takes its
    permit: the busy projects of the gate are exactly those some task holds a permit of,
    no project has two holders, and an operation that is over holds none.  Under the
    permit of the project are made all calls that write its files, create, resume or
    refresh its sessions, run a turn, start a process, create a snapshot or roll back,
    create or remove a conversation, or remove the project, its state or all its
    conversations; the turn, the snapshot, the rollback and the removals of the
    project, its state and all its conversations only after the agent was found quiescent
    under the same permit, and the turn only on a session then verified to be bound to
    the project.  The one exception: the state of a new project is stored, and the
    project removed when that fails, by the operation that has itself just created it.
    The calls that the code makes without a permit are not among these ([changes] lists
    them): creating a project, updates by revision of a stored state or conversation,
    removing a single snapshot, [AgSetModel], cancellations, command approvals. *)
Theorem operations_exclusive `{Sha256, SerdeJson} (self : VibeCoderCore) (poisoned : bool)
    (ops : list controller_op) (P : pool) :
  rtc pool_step (start_pool self poisoned ops) P ->
  (forall p, p ∈ active (gate P) <-> exists i, holder P i p) /\
  (forall i j p, holder P i p -> holder P j p -> i = j) /\
  (forall i tr c k, tasks P !! i = Some (tr, Call c k) -> call_ok (permit_of tr) c) /\
  (forall i tr a, tasks P !! i = Some (tr, Ret a) -> permit_held (permit_of tr) = None).
Proof.
  intros (Hok & Hb & Hu)%reachable_inv. split_and!; [done..| |].
  - intros i tr c k Hi. destruct (some_answer c) as [r Hr]. by destruct (Hok _ _ Hi r Hr).
  - intros i tr a Hi. exact (Hok _ _ Hi).
Qed.

(** Two tasks writing to the same project: while the first holds the permit the
    second cannot get one. *)
Definition ex_core : VibeCoderCore :=
  {| runtime_id := u "jcode"; has_process_runtime := false; has_project_state_store := false;
     has_conversation_store := true; has_checkpoint_store := true |}.
Definition ex_project : ProjectRef := {| pr_id := MkProjectId 1; pr_root := u "/p/1" |}.
Definition ex_hash : Sha256 := fun bs => bs.
Definition ex_json : SerdeJson := fun _ => None.

Definition ex_ops : list controller_op :=
  [OpCreateCheckpoint ex_project Manual; OpWriteFile ex_project (Utf8Path (u "a")) []].

Lemma operations_exclusive_witness :
  exists P, (forall i j p, holder P i p -> holder P j p -> i = j) /\
    holder P 0 (MkProjectId 1) /\
    exists tr k, tasks P !! 1%nat = Some (tr, Call (TryAcquire (MkProjectId 1)) k).
Proof.
  eexists. split; [|split].
  - apply (operations_exclusive (H := ex_hash) (H0 := ex_json) ex_core false ex_ops), rtc_once.
    by eapply (serve _ 0 _ (TryAcquire (MkProjectId 1)) _ (Ok tt)).
  - eexists. split; [reflexivity|]. eexists. by split.
  - by do 2 eexists.
Defined.
