(* ===== verification/NativeProbe.v ===== *)
(** * Probing native artifacts ([vibecoder-runtime-packaging], [native_probe.rs])

    The ELF inspection of a package-installed file, the bounded version command
    and the version grammar.  A file is what its [symlink_metadata] says and the
    bytes an open of it reads; each open may see other bytes.  The operating
    system's process is the sequence of its polls. *)
From S2P Require Import Prelude RustStr StrFacts RustPath.

Definition ELF_HEADER_BYTES : N := 64.
Definition ELF64_PROGRAM_HEADER_BYTES : N := 56.
Definition ELFCLASS64 : N := 2.
Definition ELFDATA2LSB : N := 1.
Definition ET_DYN : N := 3.
Definition EM_AARCH64 : N := 183.
Definition PT_LOAD : N := 1.
Definition PT_INTERP : N := 3.
Definition MAX_INTERPRETER_BYTES : N := 256.
Definition ANDROID_LINKER64 : str := u "/system/bin/linker64".
Definition MAX_PROGRAM_HEADERS : N := 256.
Definition MAX_PROBE_OUTPUT_BYTES : N := 8 * 1024.
Definition MAX_VERSION_PROBE_TIMEOUT_MS : N := 10000.
Definition REQUIRED_PAGE_BYTES : N := 16 * 1024.

Inductive ProbeState := Passed | Failed | NotRun.

#[export] Instance ProbeState_eq_dec : EqDecision ProbeState.
Proof. solve_decision. Defined.

Record RuntimeComponentEvidence := {
  ev_component_id : str;
  ev_package_presence : ProbeState;
  ev_arm64_identity : ProbeState;
  ev_execution : ProbeState;
  ev_version : ProbeState;
  ev_unix_socket_round_trip : ProbeState;
  ev_service_round_trip : ProbeState;
  ev_runtime_binding : ProbeState;
  ev_page_size_16k_compatibility : ProbeState;
  ev_expected_version_requirement : option str;
  ev_observed_version : option str
}.

Record NativeArtifactProbe := mkProbe {
  package_presence : ProbeState;
  arm64_identity : ProbeState;
  execution : ProbeState;
  version : ProbeState;
  page_size_16k_compatibility : ProbeState;
  observed_version : option str
}.

Definition into_component_evidence (p : NativeArtifactProbe) (component_id : str)
    (expected_version_requirement : option str) : RuntimeComponentEvidence :=
  {| ev_component_id := component_id;
     ev_package_presence := package_presence p;
     ev_arm64_identity := arm64_identity p;
     ev_execution := execution p;
     ev_version := version p;
     ev_unix_socket_round_trip := NotRun;
     ev_service_round_trip := NotRun;
     ev_runtime_binding := NotRun;
     ev_page_size_16k_compatibility := page_size_16k_compatibility p;
     ev_expected_version_requirement := expected_version_requirement;
     ev_observed_version := observed_version p |}.

Record ElfInspection := {
  arm64 : bool;
  page_16k : bool;
  interpreter : option str
}.

Definition state (value : bool) : ProbeState := if value then Passed else Failed.

(** ** Reading an ELF file *)

Definition le_value (bs : bytes) : N := foldr (fun b acc => b + 256 * acc) 0 bs.
Definition read_u16 (bs : bytes) : N := le_value (take 2 bs).
Definition read_u32 (bs : bytes) : N := le_value (take 4 bs).
Definition read_u64 (bs : bytes) : N := le_value (take 8 bs).

(** [&bytes[from..to]] of an array that is long enough. *)
Definition slice (bs : bytes) (from to : nat) : bytes := take (to - from) (drop from bs).

(** [seek] to [offset] and [read_exact] of [n] bytes. *)
Definition read_exact_at (file : bytes) (offset n : N) : option bytes :=
  if offset + n <=? len file then Some (take (N.to_nat n) (drop (N.to_nat offset) file))
  else None.

Definition is_power_of_two (n : N) : bool := negb (n =? 0) && (N.land n (n - 1) =? 0).

Record ElfScan := mkScan {
  saw_load : bool;
  scan_page_16k : bool;
  interpreter_range : option (N * N)
}.

(** [file_offset.checked_add(file_size).is_none_or(|end| end > file_len)] *)
Definition segment_outside (file_offset file_size file_len : N) : bool :=
  match checked_add u64_max file_offset file_size with
  | None => true
  | Some segment_end => file_len <? segment_end
  end.

(** One program header. *)
Definition scan_header (file_len : N) (ph : bytes) (s : ElfScan) : option ElfScan :=
  let header_type := read_u32 (slice ph 0 4) in
  let file_offset := read_u64 (slice ph 8 16) in
  let virtual_address := read_u64 (slice ph 16 24) in
  let file_size := read_u64 (slice ph 32 40) in
  let memory_size := read_u64 (slice ph 40 48) in
  let align := read_u64 (slice ph 48 56) in
  if header_type =? PT_INTERP then
    if is_some (interpreter_range s) || (file_size <? 2) || (MAX_INTERPRETER_BYTES <? file_size)
       || segment_outside file_offset file_size file_len
    then None
    else Some (mkScan (saw_load s) (scan_page_16k s) (Some (file_offset, file_size)))
  else if negb (header_type =? PT_LOAD) then Some s
  else if (memory_size <? file_size) || segment_outside file_offset file_size file_len then None
  else
    Some (mkScan true
            (if (align <? REQUIRED_PAGE_BYTES) || negb (is_power_of_two align)
                || negb (file_offset mod REQUIRED_PAGE_BYTES
                         =? virtual_address mod REQUIRED_PAGE_BYTES)
             then false else scan_page_16k s)
            (interpreter_range s)).

(** The loop [for index in 0..phnum], [count] headers being left. *)
Fixpoint scan_headers (file : bytes) (phoff phentsize index : N) (count : nat) (s : ElfScan) :
    option ElfScan :=
  match count with
  | O => Some s
  | S count =>
    offset ← (checked_mul u64_max index phentsize ≫= checked_add u64_max phoff);
    ph ← read_exact_at file offset ELF64_PROGRAM_HEADER_BYTES;
    s ← scan_header (len file) ph s;
    scan_headers file phoff phentsize (index + 1) count s
  end.

Definition read_interpreter (file : bytes) (range : option (N * N)) : option (option str) :=
  match range with
  | None => Some None
  | Some (offset, size) =>
    bs ← read_exact_at file offset size;
    if negb (bool_decide (last bs = Some 0)) then None
    else
      value ← from_utf8 (take (length bs - 1) bs);
      if bool_decide (value = []) then None else Some (Some value)
  end.

(** [open]: the bytes of the opened file, [None] when it cannot be opened. *)
Definition inspect_elf (open : option bytes) : option ElfInspection :=
  file ← open;
  header ← read_exact_at file 0 ELF_HEADER_BYTES;
  if negb (bool_decide (slice header 0 4 = [127; 69; 76; 70]))
     || negb (bool_decide (header !! 4%nat = Some ELFCLASS64))
     || negb (bool_decide (header !! 5%nat = Some ELFDATA2LSB))
  then None
  else
    let elf_type := read_u16 (slice header 16 18) in
    let machine := read_u16 (slice header 18 20) in
    if negb (elf_type =? ET_DYN) then None
    else
      let phoff := read_u64 (slice header 32 40) in
      let phentsize := read_u16 (slice header 54 56) in
      let phnum := read_u16 (slice header 56 58) in
      if (phentsize <? ELF64_PROGRAM_HEADER_BYTES) || (phnum =? 0)
         || (MAX_PROGRAM_HEADERS <? phnum)
      then None
      else
        table_bytes ← checked_mul u64_max phentsize phnum;
        table_end ← checked_add u64_max phoff table_bytes;
        if (phoff <? ELF_HEADER_BYTES) || (len file <? table_end) then None
        else
          s ← scan_headers file phoff phentsize 0 (N.to_nat phnum) (mkScan false true None);
          if negb (saw_load s) then None
          else
            interp ← read_interpreter file (interpreter_range s);
            Some {| arm64 := machine =? EM_AARCH64; page_16k := scan_page_16k s;
                    interpreter := interp |}.

(** ** Versions *)

Abbreviation triple := (N * N * N)%type.

Inductive Comparison := Less | LessOrEqual | Greater | GreaterOrEqual | Equal.

Definition dot_char : N := 46.

(** A part that is absent counts as zero. *)
Definition optional_part (part : option str) : option N :=
  match part with None => Some 0 | Some part => parse_u64 part end.

Definition semver_bound (value : str) : option triple :=
  if bool_decide (value = [])
     || negb (forallb (fun byte => is_ascii_digit byte || (byte =? dot_char)) (as_bytes value))
  then None
  else
    let parts := split dot_char value in
    if bool_decide (parts = []) || (3 <? len parts)
       || existsb (fun part => bool_decide (part = [])) parts
    then None
    else
      major ← (head parts ≫= parse_u64);
      minor ← optional_part (parts !! 1%nat);
      patch ← optional_part (parts !! 2%nat);
      Some (major, minor, patch).

(** [value.matches('.').count()] *)
Definition dots (value : str) : N := count (N.eqb dot_char) value.

Definition exact_semver (value : str) : option triple :=
  if negb (dots value =? 2) then None else semver_bound value.

Definition parse_comparator (token : str) : option (Comparison * triple) :=
  let with_operator op value := v ← semver_bound value; Some (op, v) in
  match strip_prefix (u ">=") token with
  | Some value => with_operator GreaterOrEqual value
  | None =>
  match strip_prefix (u "<=") token with
  | Some value => with_operator LessOrEqual value
  | None =>
  match strip_prefix (u ">") token with
  | Some value => with_operator Greater value
  | None =>
  match strip_prefix (u "<") token with
  | Some value => with_operator Less value
  | None =>
  match strip_prefix (u "=") token with
  | Some value => with_operator Equal value
  | None => None
  end end end end end.

(** The token loop of [version_requirement_is_supported]. *)
Fixpoint tokens_supported (saw_comparator : bool) (tokens : list str) : bool :=
  match tokens with
  | [] => saw_comparator
  | token :: tokens =>
    match parse_comparator token with
    | None => false
    | Some _ => tokens_supported true tokens
    end
  end.

Fixpoint branches_supported (saw_branch : bool) (branches : list str) : bool :=
  match branches with
  | [] => saw_branch
  | branch :: branches =>
    let branch := trim branch in
    if bool_decide (branch = []) then false
    else if negb (tokens_supported false (split_whitespace branch)) then false
    else branches_supported true branches
  end.

Definition version_requirement_is_supported (requirement : str) : bool :=
  let requirement := trim requirement in
  if is_some (exact_semver requirement) then true
  else branches_supported false (split_str (u "||") requirement).

(** Tuples compare lexicographically. *)
Definition triple_lt (a b : triple) : bool :=
  let '(a1, a2, a3) := a in
  let '(b1, b2, b3) := b in
  (a1 <? b1) || (a1 =? b1) && ((a2 <? b2) || (a2 =? b2) && (a3 <? b3)).
Definition triple_eqb (a b : triple) : bool := bool_decide (a = b).

Definition compare (operator : Comparison) (actual expected : triple) : bool :=
  match operator with
  | Less => triple_lt actual expected
  | LessOrEqual => triple_lt actual expected || triple_eqb actual expected
  | Greater => triple_lt expected actual
  | GreaterOrEqual => triple_lt expected actual || triple_eqb actual expected
  | Equal => triple_eqb actual expected
  end.

(** The token loop of [version_requirement_matches]: [None] is its [return false]. *)
Fixpoint tokens_match (actual : triple) (saw_comparator branch_matches : bool)
    (tokens : list str) : option (bool * bool) :=
  match tokens with
  | [] => Some (saw_comparator, branch_matches)
  | token :: tokens =>
    match parse_comparator token with
    | None => None
    | Some (operator, expected) =>
      tokens_match actual true (branch_matches && compare operator actual expected) tokens
    end
  end.

Fixpoint branches_match (actual : triple) (branches : list str) : bool :=
  match branches with
  | [] => false
  | branch :: branches =>
    let branch := trim branch in
    if bool_decide (branch = []) then false
    else
      match tokens_match actual false true (split_whitespace branch) with
      | None => false
      | Some (saw_comparator, branch_matches) =>
        if negb saw_comparator then false
        else if branch_matches then true
        else branches_match actual branches
      end
  end.

Definition is_version_byte (b : N) : bool := is_ascii_digit b || (b =? dot_char).

(** The inner [while] of [first_semver_triplet]: the run and what follows it. *)
Fixpoint version_run (bs : bytes) : bytes * bytes :=
  match bs with
  | b :: bs' => if is_version_byte b then let '(run, rest) := version_run bs' in (b :: run, rest)
                else ([], bs)
  | [] => ([], [])
  end.

(** The outer loop on the bytes from [start]; fuel for one byte each. *)
Fixpoint first_semver_from (fuel : nat) (bs : bytes) : option triple :=
  match fuel, bs with
  | S fuel, b :: bs' =>
    if negb (is_ascii_digit b) then first_semver_from fuel bs'
    else
      let '(run, rest) := version_run bs in
      match exact_semver (trim_end_matches (N.eqb dot_char) run) with
      | Some version => Some version
      | None => first_semver_from fuel (drop 1 rest)
      end
  | _, _ => None
  end.

(** The runs are ASCII, so the slice [&value[start..end]] is at boundaries. *)
Definition first_semver_triplet (value : str) : option triple :=
  first_semver_from (length (as_bytes value)) (as_bytes value).

Definition N_text (n : N) : str := u (pretty n).
Definition format_semver (v : triple) : str :=
  let '(a, b, c) := v in N_text a ++ [dot_char] ++ N_text b ++ [dot_char] ++ N_text c.

Definition version_requirement_matches (requirement output : str) : bool :=
  match first_semver_triplet output with
  | None => false
  | Some actual =>
    let requirement := trim requirement in
    if negb (version_requirement_is_supported requirement) then false
    else
      match exact_semver requirement with
      | Some expected => triple_eqb expected actual
      | None => branches_match actual (split_str (u "||") requirement)
      end
  end.

(** ** The bounded command *)

(** What [read] on a non-blocking pipe gives. *)
Inductive PipeRead := ReadChunk (chunk : bytes) | ReadEnd | ReadError.

(** [drain_nonblocking]; reads after the list are [WouldBlock]. *)
Fixpoint drain_nonblocking (reads : list PipeRead) (output : bytes) : bytes :=
  match reads with
  | ReadChunk chunk :: reads =>
    let remaining := saturating_sub MAX_PROBE_OUTPUT_BYTES (len output) in
    drain_nonblocking reads
      (if 0 <? remaining then output ++ take (N.to_nat remaining) chunk else output)
  | ReadEnd :: _ | ReadError :: _ | [] => output
  end.

Inductive TryWait :=
| WaitExited (success : bool)
| WaitRunning (before_deadline : bool)
| WaitError.

(** A turn of the polling loop: both pipes, [try_wait], and the pipes again for
    the final drain. *)
Record Poll := {
  poll_stdout : list PipeRead;
  poll_stderr : list PipeRead;
  poll_wait : TryWait;
  final_stdout : list PipeRead;
  final_stderr : list PipeRead
}.

Inductive ProbeCommandResult :=
| CommandExited (success : bool) (output : bytes)
| CommandTimedOut
| SpawnFailed.

(** [None]: the polls end before the child does. *)
Fixpoint poll_loop (polls : list Poll) (output : bytes) : option ProbeCommandResult :=
  match polls with
  | [] => None
  | p :: polls =>
    let output := drain_nonblocking (poll_stderr p) (drain_nonblocking (poll_stdout p) output) in
    match poll_wait p with
    | WaitExited success =>
      Some (CommandExited success
              (drain_nonblocking (final_stderr p) (drain_nonblocking (final_stdout p) output)))
    | WaitRunning true => poll_loop polls output
    | WaitRunning false => Some CommandTimedOut
    | WaitError => Some SpawnFailed
    end
  end.

(** A child that was spawned: whether its pipes could be made non-blocking, and
    its polls. *)
Record SpawnedChild := {
  pipes_nonblocking : bool;
  child_polls : list Poll
}.

Definition run_bounded_command (child : option SpawnedChild) : option ProbeCommandResult :=
  match child with
  | None => Some SpawnFailed
  | Some child =>
    if negb (pipes_nonblocking child) then Some SpawnFailed
    else poll_loop (child_polls child) []
  end.

(** ** Probes *)

Inductive FileType := FtSymlink | FtFile | FtOther.

(** [metadata]: what [symlink_metadata] gives, [None] for an error. *)
Definition probe_android_native_artifact (metadata : option FileType) (open : option bytes) :
    NativeArtifactProbe :=
  match metadata with
  | Some FtFile =>
    match inspect_elf open with
    | Some i => mkProbe Passed (state (arm64 i)) NotRun NotRun (state (page_16k i)) None
    | None => mkProbe Passed Failed NotRun NotRun Failed None
    end
  | _ => mkProbe Failed NotRun NotRun NotRun NotRun None
  end.

Definition set_arm64 (p : NativeArtifactProbe) (s : ProbeState) : NativeArtifactProbe :=
  mkProbe (package_presence p) s (execution p) (version p) (page_size_16k_compatibility p)
    (observed_version p).
Definition set_run (p : NativeArtifactProbe) (e v : ProbeState) (o : option str) :
    NativeArtifactProbe :=
  mkProbe (package_presence p) (arm64_identity p) e v (page_size_16k_compatibility p) o.

Definition interpreter_accepted (i : ElfInspection) : bool :=
  match interpreter i with None => true | Some value => str_eqb value ANDROID_LINKER64 end.

(** The probe after the command has run. *)
Definition record_command (probe : NativeArtifactProbe) (version_requirement : str)
    (result : ProbeCommandResult) : NativeArtifactProbe :=
  match result with
  | CommandExited success output =>
    if success then
      let output := trim (from_utf8_lossy output) in
      set_run probe (state success) (state (version_requirement_matches version_requirement output))
        (format_semver <$> first_semver_triplet output)
    else set_run probe (state success) Failed (observed_version probe)
  | CommandTimedOut | SpawnFailed => set_run probe Failed Failed (observed_version probe)
  end.

(** [android]: [target_os]; [open1] and [open2]: the two opens of the file;
    [command]: the outcome of the bounded command. *)
Definition probe_android_native_executable (android : bool) (metadata : option FileType)
    (open1 open2 : option bytes) (version_requirement : str) (command : ProbeCommandResult) :
    NativeArtifactProbe :=
  let probe := probe_android_native_artifact metadata open1 in
  if negb (bool_decide (package_presence probe = Passed))
     || negb (bool_decide (arm64_identity probe = Passed))
     || negb (bool_decide (page_size_16k_compatibility probe = Passed))
  then probe
  else
    match inspect_elf open2 with
    | Some inspection =>
      if interpreter_accepted inspection then
        if negb android then probe else record_command probe version_requirement command
      else set_arm64 probe Failed
    | None => set_arm64 probe Failed
    end.

(** ** Specification of the inspection *)

Record ProgramHeader := {
  ph_type : N;
  ph_offset : N;
  ph_vaddr : N;
  ph_filesz : N;
  ph_memsz : N;
  ph_align : N
}.

Definition decode_header (ph : bytes) : ProgramHeader :=
  {| ph_type := read_u32 (slice ph 0 4); ph_offset := read_u64 (slice ph 8 16);
     ph_vaddr := read_u64 (slice ph 16 24); ph_filesz := read_u64 (slice ph 32 40);
     ph_memsz := read_u64 (slice ph 40 48); ph_align := read_u64 (slice ph 48 56) |}.

Definition elf_phoff (file : bytes) : N := read_u64 (slice file 32 40).
Definition elf_phentsize (file : bytes) : N := read_u16 (slice file 54 56).
Definition elf_phnum (file : bytes) : N := read_u16 (slice file 56 58).

(** The file's bytes from an offset. *)
Definition bytes_at (file : bytes) (offset n : N) : bytes :=
  take (N.to_nat n) (drop (N.to_nat offset) file).

Definition headers_from (file : bytes) (phoff phentsize index : N) (count : nat) :
    list ProgramHeader :=
  (fun i => decode_header
     (bytes_at file (phoff + (index + N.of_nat i) * phentsize) ELF64_PROGRAM_HEADER_BYTES))
    <$> seq 0 count.

Definition program_headers (file : bytes) : list ProgramHeader :=
  headers_from file (elf_phoff file) (elf_phentsize file) 0 (N.to_nat (elf_phnum file)).

(** A 64-bit little-endian shared object whose program header table is in the file. *)
Definition elf_header_ok (file : bytes) : Prop :=
  64 <= len file /\ slice file 0 4 = [127; 69; 76; 70] /\
  file !! 4%nat = Some ELFCLASS64 /\ file !! 5%nat = Some ELFDATA2LSB /\
  read_u16 (slice file 16 18) = ET_DYN /\
  56 <= elf_phentsize file /\ 1 <= elf_phnum file <= 256 /\
  64 <= elf_phoff file /\
  elf_phoff file + elf_phentsize file * elf_phnum file <= len file.

Definition is_load (h : ProgramHeader) : bool := ph_type h =? PT_LOAD.
Definition is_interp (h : ProgramHeader) : bool := ph_type h =? PT_INTERP.

Definition in_file (file_len : N) (h : ProgramHeader) : Prop :=
  ph_offset h + ph_filesz h <= file_len.
Definition load_ok (file_len : N) (h : ProgramHeader) : Prop :=
  ph_filesz h <= ph_memsz h /\ in_file file_len h.
Definition interp_ok (file_len : N) (h : ProgramHeader) : Prop :=
  2 <= ph_filesz h <= 256 /\ in_file file_len h.

(** At least 16 KiB aligned, file and memory offsets congruent. *)
Definition aligned_16k (h : ProgramHeader) : bool :=
  (REQUIRED_PAGE_BYTES <=? ph_align h) && is_power_of_two (ph_align h)
  && (ph_offset h mod REQUIRED_PAGE_BYTES =? ph_vaddr h mod REQUIRED_PAGE_BYTES).

Definition interp_range (h : ProgramHeader) : option (N * N) :=
  if is_interp h then Some (ph_offset h, ph_filesz h) else None.
Definition interps (hs : list ProgramHeader) : list (N * N) := omap interp_range hs.

(** The text of the interpreter segment: valid UTF-8 up to one final NUL. *)
Definition interpreter_is (file : bytes) (range : option (N * N)) (i : option str) : Prop :=
  match range with
  | None => i = None
  | Some (offset, size) =>
    exists value, i = Some value /\ value <> [] /\ bytes_at file offset size = as_bytes value ++ [0]
      /\ from_utf8_lossy (as_bytes value) = value
  end.

(** ** Lemmas: the inspection *)

Lemma read_exact_at_iff file offset n bs :
  read_exact_at file offset n = Some bs <->
  offset + n <= len file /\ bs = bytes_at file offset n.
Proof.
  unfold read_exact_at, bytes_at. destruct (N.leb_spec (offset + n) (len file)); naive_solver lia.
Qed.

Lemma segment_outside_iff offset size file_len :
  file_len <= u64_max ->
  segment_outside offset size file_len = false <-> offset + size <= file_len.
Proof.
  intros Hmax. unfold segment_outside, checked_add.
  destruct (N.leb_spec (offset + size) u64_max); [by rewrite N.ltb_ge|]. split; [done|lia].
Qed.

(** One header, decoded. *)
Lemma scan_header_iff file_len ph s s' :
  file_len <= u64_max ->
  let h := decode_header ph in
  scan_header file_len ph s = Some s' <->
  (is_load h = true -> load_ok file_len h) /\ (is_interp h = true -> interp_ok file_len h) /\
  (is_interp h = true -> interpreter_range s = None) /\
  saw_load s' = is_load h || saw_load s /\
  scan_page_16k s' = (negb (is_load h) || aligned_16k h) && scan_page_16k s /\
  interpreter_range s' =
    match interp_range h with Some r => Some r | None => interpreter_range s end.
Proof.
  intros Hmax h. unfold scan_header. change (read_u32 (slice ph 0 4)) with (ph_type h).
  change (read_u64 (slice ph 8 16)) with (ph_offset h).
  change (read_u64 (slice ph 16 24)) with (ph_vaddr h).
  change (read_u64 (slice ph 32 40)) with (ph_filesz h).
  change (read_u64 (slice ph 40 48)) with (ph_memsz h).
  change (read_u64 (slice ph 48 56)) with (ph_align h). clearbody h.
  unfold is_load, is_interp, interp_range, is_interp, load_ok, interp_ok, in_file, aligned_16k.
  destruct s as [sl pg rg], s' as [sl' pg' rg']; cbn [saw_load scan_page_16k interpreter_range].
  destruct (N.eqb_spec (ph_type h) PT_INTERP) as [Hi|Hi].
  - assert (Hl : (ph_type h =? PT_LOAD) = false) by (rewrite Hi; done). rewrite Hl. cbn.
    destruct (is_some rg) eqn:Er; cbn [orb].
    { split; [done|]. intros (_ & _ & H & _). destruct rg; [|done]. by discriminate H. }
    assert (rg = None) as -> by by destruct rg.
    destruct (N.ltb_spec (ph_filesz h) 2); cbn [orb]; [naive_solver lia|].
    destruct (N.ltb_spec MAX_INTERPRETER_BYTES (ph_filesz h)) as [Hb|Hb]; cbn [orb];
      unfold MAX_INTERPRETER_BYTES in Hb; [naive_solver lia|].
    destruct (segment_outside _ _ _) eqn:Es.
    + split; [done|]. intros (_ & H' & _). destruct (H' eq_refl) as [_ Hin].
      apply (segment_outside_iff _ _ _ Hmax) in Hin. congruence.
    + apply (segment_outside_iff _ _ _ Hmax) in Es. naive_solver.
  - destruct (N.eqb_spec (ph_type h) PT_LOAD) as [Hl|Hl]; cbn [negb orb andb]; [|naive_solver].
    destruct (N.ltb_spec (ph_memsz h) (ph_filesz h)); cbn [orb]; [naive_solver lia|].
    destruct (segment_outside _ _ _) eqn:Es.
    + split; [done|]. intros (H' & _). destruct (H' eq_refl) as [_ Hin].
      apply (segment_outside_iff _ _ _ Hmax) in Hin. congruence.
    + apply (segment_outside_iff _ _ _ Hmax) in Es.
      rewrite (N.ltb_antisym REQUIRED_PAGE_BYTES).
      destruct (REQUIRED_PAGE_BYTES <=? ph_align h), (is_power_of_two (ph_align h)),
        (ph_offset h mod REQUIRED_PAGE_BYTES =? ph_vaddr h mod REQUIRED_PAGE_BYTES);
        cbn; naive_solver.
Qed.

Lemma scan_headers_iff file phoff phentsize index n s s' :
  len file <= u64_max -> ELF64_PROGRAM_HEADER_BYTES <= phentsize ->
  phoff + (index + N.of_nat n) * phentsize <= len file ->
  let hs := headers_from file phoff phentsize index n in
  scan_headers file phoff phentsize index n s = Some s' <->
  Forall (fun h => is_load h = true -> load_ok (len file) h) hs /\
  Forall (fun h => is_interp h = true -> interp_ok (len file) h) hs /\
  saw_load s' = existsb is_load hs || saw_load s /\
  scan_page_16k s' = forallb (fun h => negb (is_load h) || aligned_16k h) hs && scan_page_16k s /\
  match interps hs with
  | [] => interpreter_range s' = interpreter_range s
  | [r] => interpreter_range s = None /\ interpreter_range s' = Some r
  | _ => False
  end.
Proof.
  intros Hmax He. revert index s. induction n as [|n IH]; intros index s Hle; cbn [scan_headers].
  { destruct s, s'; cbn. naive_solver. }
  assert (Hidx : index * phentsize <= u64_max /\ phoff + index * phentsize <= u64_max /\
    phoff + index * phentsize + ELF64_PROGRAM_HEADER_BYTES <= len file) by nia.
  destruct Hidx as (H1 & H2 & H3).
  unfold checked_mul. rewrite (proj2 (N.leb_le _ _) H1). cbn [mbind option_bind].
  unfold checked_add. rewrite (proj2 (N.leb_le _ _) H2). cbn [mbind option_bind].
  set (ph := bytes_at file (phoff + index * phentsize) ELF64_PROGRAM_HEADER_BYTES).
  assert (read_exact_at file (phoff + index * phentsize) ELF64_PROGRAM_HEADER_BYTES = Some ph)
    as -> by (by apply read_exact_at_iff).
  cbn [mbind option_bind].
  assert (Hhs : headers_from file phoff phentsize index (S n)
    = decode_header ph :: headers_from file phoff phentsize (index + 1) n).
  { unfold headers_from. cbn [seq]. rewrite fmap_cons. f_equal.
    - by rewrite N.add_0_r.
    - rewrite <-fmap_S_seq, <-list_fmap_compose. apply list_fmap_ext. intros i x _. cbn.
      do 2 f_equal. lia. }
  rewrite Hhs, bind_Some. set (h := decode_header ph). set (hs := headers_from _ _ _ _ n).
  assert (Hin : interps (h :: hs) = match interp_range h with Some r => r :: interps hs
    | None => interps hs end) by done.
  rewrite Hin, !Forall_cons. cbn [existsb forallb].
  assert (Hr : is_interp h = match interp_range h with Some _ => true | None => false end)
    by (unfold interp_range; by destruct (is_interp h)).
  split.
  - intros (s1 & Hs1 & Hs'). apply scan_header_iff in Hs1; [|done]. apply IH in Hs'; [|lia].
    fold h in Hs1. fold hs in Hs'. destruct Hs1 as (Hl1 & Hi1 & Hn1 & Hsl1 & Hpg1 & Hrg1).
    destruct Hs' as (Hl & Hi & Hsl & Hpg & Hrg).
    rewrite Hsl1 in Hsl. rewrite Hpg1 in Hpg. rewrite Hrg1 in Hrg. rewrite Hr in Hn1.
    split_and!; try done.
    + rewrite Hsl. by rewrite orb_assoc, (orb_comm (is_load h)).
    + rewrite Hpg. by rewrite andb_assoc, (andb_comm (negb _ || _)).
    + destruct (interp_range h) as [r|]; [|done].
      destruct (interps hs) as [|r' [|]]; [split; [auto|done]|naive_solver|done].
  - intros ([Hl1 Hl] & [Hi1 Hi] & Hsl & Hpg & Hrg).
    exists (mkScan (is_load h || saw_load s) ((negb (is_load h) || aligned_16k h) && scan_page_16k s)
      (match interp_range h with Some r => Some r | None => interpreter_range s end)).
    split.
    + apply scan_header_iff; [done|]. fold h. split_and!; try done. rewrite Hr.
      destruct (interp_range h); [|done]. intros _.
      destruct (interps hs) as [|r' rs]; [by destruct Hrg|done].
    + apply IH; [lia|]. fold hs. cbn. split_and!; try done.
      * rewrite Hsl. by rewrite orb_assoc, (orb_comm (is_load h)).
      * rewrite Hpg. by rewrite andb_assoc, (andb_comm (negb _ || _)).
      * destruct (interp_range h); [|done]. destruct (interps hs) as [|r' rs]; [by destruct Hrg|done].
Qed.

Lemma last_Some_app (bs : bytes) b : last bs = Some b -> bs = take (length bs - 1) bs ++ [b].
Proof.
  intros [k ->]%last_Some. rewrite length_app. cbn [length].
  replace (length k + 1 - 1)%nat with (length k) by lia. by rewrite take_app_length.
Qed.

Lemma read_interpreter_iff file range i :
  match range with Some (offset, size) => offset + size <= len file | None => True end ->
  read_interpreter file range = Some i <-> interpreter_is file range i.
Proof.
  destruct range as [[offset size]|]; cbn [read_interpreter interpreter_is]; [|naive_solver].
  intros Hle. assert (read_exact_at file offset size = Some (bytes_at file offset size)) as ->
    by (by apply read_exact_at_iff).
  cbn [mbind option_bind]. set (bs := bytes_at file offset size).
  destruct (decide (last bs = Some 0)) as [Hlast|Hlast].
  - rewrite bool_decide_eq_true_2 by done. cbn [negb].
    pose proof (last_Some_app _ _ Hlast) as Hbs. set (body := take (length bs - 1) bs) in *.
    unfold from_utf8. split.
    + destruct (bool_decide (as_bytes (from_utf8_lossy body) = body)) eqn:Eb; [|done].
      bool_prop. cbn. case_bool_decide as Hz; [done|]. intros [= <-].
      exists (from_utf8_lossy body). split_and!; try done; congruence.
    + intros (value & -> & Hne & Heq & Hrt). rewrite Hbs in Heq.
      apply app_inj_2 in Heq as [-> _]; [|done]. rewrite Hrt, bool_decide_eq_true_2 by done.
      cbn. by rewrite bool_decide_eq_false_2.
  - rewrite bool_decide_eq_false_2 by done. cbn. split; [done|].
    intros (value & _ & _ & Heq & _). rewrite Heq, last_snoc in Hlast. done.
Qed.

Lemma slice_header file a b : (b <= 64)%nat -> slice (bytes_at file 0 ELF_HEADER_BYTES) a b = slice file a b.
Proof.
  intros Hb. unfold slice, bytes_at. change (N.to_nat ELF_HEADER_BYTES) with 64%nat.
  change (N.to_nat 0) with 0%nat. rewrite drop_0, skipn_firstn_comm, take_take.
  f_equal. lia.
Qed.

Lemma lookup_header file (k : nat) :
  (k < 64)%nat -> bytes_at file 0 ELF_HEADER_BYTES !! k = file !! k.
Proof.
  intros Hk. unfold bytes_at. change (N.to_nat ELF_HEADER_BYTES) with 64%nat.
  change (N.to_nat 0) with 0%nat. by rewrite drop_0, lookup_take_lt.
Qed.

Lemma if_none_iff {A} (b : bool) (k : option A) a :
  (if b then None else k) = Some a <-> b = false /\ k = Some a.
Proof. destruct b; naive_solver. Qed.

Lemma inspect_elf_iff file i :
  inspect_elf (Some file) = Some i <->
  64 <= len file /\ slice file 0 4 = [127; 69; 76; 70] /\
  file !! 4%nat = Some ELFCLASS64 /\ file !! 5%nat = Some ELFDATA2LSB /\
  read_u16 (slice file 16 18) = ET_DYN /\
  56 <= elf_phentsize file /\ 1 <= elf_phnum file <= 256 /\
  (exists table_end,
    (checked_mul u64_max (elf_phentsize file) (elf_phnum file)
       ≫= checked_add u64_max (elf_phoff file)) = Some table_end /\
    64 <= elf_phoff file /\ table_end <= len file) /\
  exists s, scan_headers file (elf_phoff file) (elf_phentsize file) 0
              (N.to_nat (elf_phnum file)) (mkScan false true None) = Some s /\
    saw_load s = true /\ read_interpreter file (interpreter_range s) = Some (interpreter i) /\
    arm64 i = (read_u16 (slice file 18 20) =? EM_AARCH64) /\ page_16k i = scan_page_16k s.
Proof.
  unfold inspect_elf. cbn [mbind option_bind]. rewrite bind_Some.
  assert (Hh : forall Q : bytes -> Prop,
    (exists header, read_exact_at file 0 ELF_HEADER_BYTES = Some header /\ Q header) <->
    64 <= len file /\ Q (bytes_at file 0 ELF_HEADER_BYTES)).
  { intros Q. setoid_rewrite read_exact_at_iff. change (0 + ELF_HEADER_BYTES) with 64. naive_solver. }
  rewrite Hh, !slice_header, !lookup_header by lia.
  fold (elf_phoff file) (elf_phentsize file) (elf_phnum file).
  rewrite !if_none_iff, !orb_false_iff, !negb_false_iff, !bool_decide_eq_true, !N.eqb_eq,
    !N.eqb_neq, !N.ltb_ge.
  unfold ELF64_PROGRAM_HEADER_BYTES, MAX_PROGRAM_HEADERS, ELF_HEADER_BYTES.
  destruct (checked_mul _ _ _) as [tb|]; cbn [mbind option_bind]; [|naive_solver].
  destruct (checked_add _ _ _) as [te|]; cbn [mbind option_bind]; [|naive_solver].
  rewrite if_none_iff, orb_false_iff, !N.ltb_ge, bind_Some.
  setoid_rewrite if_none_iff. setoid_rewrite bind_Some. setoid_rewrite negb_false_iff.
  split.
  - intros (? & (([??] & ?) & ? & ([? ?] & ?) & [? ?] & s & Hs & Hl & interp & Hi & [= <-])).
    cbn [arm64 page_16k interpreter].
    split_and!; try done; try lia; [by exists te|]. by exists s.
  - intros (? & ? & ? & ? & ? & ? & ? & (te' & [= <-] & ? & ?) & s & ? & ? & ? & Ha & Hp).
    split_and!; try done; try lia. exists s. split; [done|]. split; [done|].
    exists (interpreter i). split; [done|]. destruct i. cbn in *. by subst.
Qed.

Lemma table_fits a b c n :
  c <= u64_max ->
  (exists e, (checked_mul u64_max b n ≫= checked_add u64_max a) = Some e /\ 64 <= a /\ e <= c) <->
  64 <= a /\ a + b * n <= c.
Proof.
  intros Hc. unfold checked_mul. destruct (N.leb_spec (b * n) u64_max); cbn [mbind option_bind].
  - setoid_rewrite checked_add_Some. split; [naive_solver lia|]. intros [??].
    exists (a + b * n). split_and!; try done; lia.
  - split; [naive_solver|]. lia.
Qed.

(** The interpreter range recorded by the loop is inside the file. *)
Lemma interps_in_file (file : bytes) hs offset size :
  Forall (fun h => is_interp h = true -> interp_ok (len file) h) hs ->
  (offset, size) ∈ interps hs -> offset + size <= len file.
Proof.
  intros Hf (h & Hr & Hin)%list_elem_of_omap. rewrite Forall_forall in Hf.
  unfold interp_range in Hin. destruct (is_interp h) eqn:Ei; [|done]. injection Hin as <- <-.
  by apply Hf.
Qed.

(** ** Lemmas: versions *)

Lemma tokens_supported_iff saw tokens :
  tokens_supported saw tokens = true <->
  (saw = true \/ tokens <> []) /\ Forall (fun t => parse_comparator t <> None) tokens.
Proof.
  revert saw. induction tokens as [|t tokens IH]; intros saw; cbn [tokens_supported].
  - split; [by auto|]. naive_solver.
  - destruct (parse_comparator t) eqn:E; [rewrite IH|].
    + rewrite Forall_cons. naive_solver.
    + split; [done|]. intros [_ [? _]%Forall_cons]. done.
Qed.

Definition branch_supported (branch : str) : Prop :=
  split_whitespace (trim branch) <> [] /\
  Forall (fun t => parse_comparator t <> None) (split_whitespace (trim branch)).

Lemma split_whitespace_nil : split_whitespace [] = [].
Proof. done. Qed.

Lemma branches_supported_iff saw branches :
  branches_supported saw branches = true <->
  (saw = true \/ branches <> []) /\ Forall branch_supported branches.
Proof.
  revert saw. induction branches as [|b branches IH]; intros saw; cbn [branches_supported].
  - split; [by auto|]. naive_solver.
  - rewrite Forall_cons. unfold branch_supported at 1.
    case_bool_decide as Hb; [rewrite Hb, split_whitespace_nil; naive_solver|].
    destruct (tokens_supported false (split_whitespace (trim b))) eqn:E; cbn [negb].
    + apply tokens_supported_iff in E. rewrite IH. naive_solver.
    + split; [done|]. intros (_ & [Hs Hf] & _).
      rewrite (proj2 (tokens_supported_iff _ _)) in E; [done|]. by split; [right|].
Qed.

Definition token_holds (actual : triple) (token : str) : Prop :=
  exists operator expected, parse_comparator token = Some (operator, expected) /\
    compare operator actual expected = true.

Lemma tokens_match_eq actual saw acc tokens :
  Forall (fun t => parse_comparator t <> None) tokens ->
  exists m, tokens_match actual saw acc tokens
    = Some (saw || negb (bool_decide (tokens = [])), m) /\
  (m = true <-> acc = true /\ Forall (token_holds actual) tokens).
Proof.
  intros Ht. revert saw acc. induction Ht as [|t tokens Ht _ IH]; intros saw acc;
    cbn [tokens_match].
  - exists acc. rewrite orb_false_r. split; [done|]. naive_solver.
  - destruct (parse_comparator t) as [[op e]|] eqn:E; [|done].
    destruct (IH true (acc && compare op actual e)) as (m & -> & Hm). exists m.
    rewrite orb_true_r. split; [done|]. rewrite Hm, andb_true_iff, Forall_cons.
    unfold token_holds at 2. rewrite E. naive_solver.
Qed.

Lemma branches_match_iff actual branches :
  Forall branch_supported branches ->
  branches_match actual branches = true <->
  Exists (fun b => Forall (token_holds actual) (split_whitespace (trim b))) branches.
Proof.
  induction 1 as [|b branches [Hne Hf] _ IH]; cbn [branches_match]; [by rewrite Exists_nil|].
  rewrite Exists_cons. case_bool_decide as Hb; [by rewrite Hb in Hne|].
  destruct (tokens_match_eq actual false true _ Hf) as (m & -> & Hm). cbn [orb].
  rewrite bool_decide_eq_false_2 by done. cbn [negb].
  destruct m; [naive_solver|]. rewrite IH. naive_solver.
Qed.

Lemma split_str_from_ne pat cur k s : split_str_from pat cur k s <> [].
Proof.
  revert cur k. induction s as [|c s IH]; intros cur k; cbn [split_str_from]; [done|].
  destruct k; [|apply IH]. by destruct (starts_with _ _).
Qed.

(** ** Lemmas: decimal text *)

Lemma pretty_N_char_code d : d < 10 -> Ascii.N_of_ascii (pretty_N_char d) = 48 + d.
Proof.
  intros Hd. assert (d ∈ N.of_nat <$> seq 0 10) as Hin.
  { apply list_elem_of_fmap. exists (N.to_nat d). rewrite elem_of_seq. lia. }
  cbn in Hin. repeat (apply elem_of_cons in Hin as [->|Hin]; [done|]). by apply elem_of_nil in Hin.
Qed.

Lemma u_String a s : u (String a s) = Ascii.N_of_ascii a :: u s.
Proof. done. Qed.

Lemma parse_digit_step max x d s :
  d < 10 -> x * 10 + d <= max ->
  parse_digits max x ((48 + d) :: s) = parse_digits max (x * 10 + d) s.
Proof.
  intros Hd Hle. cbn [parse_digits]. unfold is_ascii_digit, in_range.
  rewrite (proj2 (N.leb_le 48 (48 + d))), (proj2 (N.leb_le (48 + d) 57)) by lia. cbn [andb].
  unfold checked_mul. rewrite (proj2 (N.leb_le (x * 10) max)) by lia. cbn [mbind option_bind].
  unfold checked_add. replace (48 + d - 48) with d by lia. by rewrite (proj2 (N.leb_le _ max)).
Qed.

Lemma pretty_go_parse max x s :
  x <= max -> parse_digits max 0 (u (pretty_N_go x s)) = parse_digits max x (u s).
Proof.
  revert s. induction (N.lt_wf_0 x) as [x _ IH]; intros s Hx.
  destruct (N.eq_dec x 0) as [->|Hne]; [by rewrite pretty_N_go_0|].
  rewrite pretty_N_go_step by lia.
  pose proof (N.mod_upper_bound x 10 ltac:(done)) as Hmod.
  pose proof (N.div_mod x 10 ltac:(done)) as Hdm.
  assert (x / 10 < x) as Hlt by (apply N.div_lt; lia).
  rewrite IH by lia.
  rewrite u_String, pretty_N_char_code by done.
  rewrite parse_digit_step by lia. f_equal. lia.
Qed.

Lemma pretty_go_digits x s :
  Forall (fun c => is_ascii_digit c = true) (u s) ->
  Forall (fun c => is_ascii_digit c = true) (u (pretty_N_go x s)).
Proof.
  revert s. induction (N.lt_wf_0 x) as [x _ IH]; intros s Hs.
  destruct (N.eq_dec x 0) as [->|Hne]; [by rewrite pretty_N_go_0|].
  rewrite pretty_N_go_step by lia. apply IH; [apply N.div_lt; lia|].
  rewrite u_String. constructor; [|done].
  pose proof (N.mod_upper_bound x 10 ltac:(done)) as Hmod.
  rewrite pretty_N_char_code by done. unfold is_ascii_digit, in_range.
  apply andb_true_iff. rewrite !N.leb_le. clear -Hmod. generalize dependent (x mod 10). intros k Hk. lia.
Qed.

Lemma pretty_go_ne x s : 0 < x \/ u s <> [] -> u (pretty_N_go x s) <> [].
Proof.
  revert s. induction (N.lt_wf_0 x) as [x _ IH]; intros s Hs.
  destruct (N.eq_dec x 0) as [->|Hne]; [rewrite pretty_N_go_0; by destruct Hs; [lia|]|].
  rewrite pretty_N_go_step by lia. apply IH; [apply N.div_lt; lia|]. by right.
Qed.

Lemma N_text_spec n :
  Forall (fun c => is_ascii_digit c = true) (N_text n) /\ N_text n <> [] /\
  (n <= u64_max -> parse_u64 (N_text n) = Some n).
Proof.
  unfold N_text, pretty, pretty_N. destruct (decide (n = 0)) as [->|Hn].
  - split_and!; [by repeat constructor|done|done].
  - split_and!; [apply pretty_go_digits; constructor|apply pretty_go_ne; left; lia|].
    intros Hle. unfold parse_u64.
    assert (Hne : u (pretty_N_go n "") <> []) by (apply pretty_go_ne; left; lia).
    destruct (u (pretty_N_go n "")) eqn:E; [done|]. rewrite <-E.
    by rewrite pretty_go_parse.
Qed.

(** ** Lemmas: the text of a version *)

Lemma digit_not_dot c : is_ascii_digit c = true -> c <> dot_char /\ c < 128.
Proof. unfold is_ascii_digit, in_range, dot_char. intros H. bool_prop. lia. Qed.

Lemma digits_no_dot s : Forall (fun c => is_ascii_digit c = true) s -> dot_char ∉ s.
Proof.
  intros Hs Hin. rewrite Forall_forall in Hs. apply Hs, digit_not_dot in Hin. by destruct Hin.
Qed.

Lemma dots_digits s : Forall (fun c => is_ascii_digit c = true) s -> dots s = 0.
Proof.
  intros Hs%digits_no_dot. apply count_zero. intros c Hc. apply N.eqb_neq. by intros <-.
Qed.

Lemma format_semver_ascii v :
  Forall (fun c => is_version_byte c = true) (format_semver v).
Proof.
  destruct v as [[a b] c]. unfold format_semver, is_version_byte.
  rewrite !Forall_app. split_and!; try (by repeat constructor);
    (eapply Forall_impl; [apply N_text_spec|]); by intros ? ->.
Qed.

Lemma version_byte_small c : is_version_byte c = true -> c < 128.
Proof.
  unfold is_version_byte, is_ascii_digit, in_range, dot_char. intros H. split_bools; bool_prop; lia.
Qed.

Definition u64_triple (v : triple) : Prop :=
  v.1.1 <= u64_max /\ v.1.2 <= u64_max /\ v.2 <= u64_max.

(** Printing a version and reading it back. *)
Lemma exact_semver_format v : u64_triple v -> exact_semver (format_semver v) = Some v.
Proof.
  destruct v as [[a b] c]. intros (Ha & Hb & Hc). cbn in Ha, Hb, Hc.
  destruct (N_text_spec a) as (Hda & Hna & Hpa). destruct (N_text_spec b) as (Hdb & Hnb & Hpb).
  destruct (N_text_spec c) as (Hdc & Hnc & Hpc).
  unfold exact_semver.
  assert (dots (format_semver (a, b, c)) = 2) as ->.
  { unfold format_semver, dots. rewrite !count_app.
    pose proof (dots_digits _ Hda) as Za. pose proof (dots_digits _ Hdb) as Zb.
    pose proof (dots_digits _ Hdc) as Zc. unfold dots in Za, Zb, Zc. by rewrite Za, Zb, Zc. }
  cbn [N.eqb Pos.eqb negb]. unfold semver_bound.
  rewrite as_bytes_ascii;
    [|eapply Forall_impl; [apply format_semver_ascii|]; apply version_byte_small].
  assert (forallb (fun byte => is_ascii_digit byte || (byte =? dot_char)) (format_semver (a, b, c))
    = true) as ->.
  { apply forallb_forall. intros x Hx%list_elem_of_In. pose proof (format_semver_ascii (a, b, c)) as Hf.
    rewrite Forall_forall in Hf. by apply Hf. }
  rewrite bool_decide_eq_false_2 by (unfold format_semver; by destruct (N_text a)). cbn [negb orb].
  assert (split dot_char (format_semver (a, b, c)) = [N_text a; N_text b; N_text c]) as ->.
  { unfold split, format_semver. cbn [app].
    rewrite split_from_app, split_from_app, split_from_no_sep by by apply digits_no_dot. done. }
  cbn. rewrite !bool_decide_eq_false_2 by done. cbn.
  rewrite Hpa, Hpb, Hpc by done. done.
Qed.

Lemma version_run_app run rest :
  Forall (fun c => is_version_byte c = true) run ->
  match rest with b :: _ => is_version_byte b = false | [] => True end ->
  version_run (run ++ rest) = (run, rest).
Proof.
  intros Hr Hrest. induction Hr as [|c run Hc _ IH]; cbn [app version_run].
  - destruct rest; [done|]. cbn. by rewrite Hrest.
  - by rewrite Hc, IH.
Qed.

Lemma trim_end_matches_snoc f s c : f c = false -> trim_end_matches f (s ++ [c]) = s ++ [c].
Proof.
  intros Hc. unfold trim_end_matches. rewrite rev_app_distr. cbn. rewrite Hc. cbn.
  by rewrite rev_involutive.
Qed.

Lemma format_semver_last v :
  exists s c, format_semver v = s ++ [c] /\ is_ascii_digit c = true.
Proof.
  destruct v as [[a b] c]. destruct (N_text_spec c) as (Hd & Hne & _).
  destruct (exists_last Hne) as (t & d & Ht).
  exists (N_text a ++ [dot_char] ++ N_text b ++ [dot_char] ++ t), d.
  unfold format_semver. rewrite Ht, <-!app_assoc. split; [done|].
  rewrite Ht in Hd. apply Forall_app in Hd as [_ Hd]. by apply Forall_cons in Hd as [? _].
Qed.

Lemma format_semver_head v :
  exists c s, format_semver v = c :: s /\ is_ascii_digit c = true.
Proof.
  destruct v as [[a b] c]. destruct (N_text_spec a) as (Hd & Hne & _). unfold format_semver.
  destruct (N_text a) as [|d t]; [done|]. apply Forall_cons in Hd as [Hd _]. by eexists _, _.
Qed.

Lemma as_bytes_not_digit pre :
  Forall (fun c => is_ascii_digit c = false) pre ->
  Forall (fun b => is_ascii_digit b = false) (as_bytes pre).
Proof.
  induction 1 as [|c pre Hc _ IH]; [constructor|]. cbn. apply Forall_app. split; [|done].
  unfold utf8_encode_char, is_ascii_digit, in_range in *.
  assert (Hbig : forall b, 57 < b -> (48 <=? b) && (b <=? 57) = false).
  { intros b Hb. apply andb_false_iff. right. by apply N.leb_gt. }
  repeat case_match; rewrite ?Forall_cons, Forall_nil; split_and!; try done;
    apply Hbig; (eapply N.lt_le_trans; [|apply N.le_add_r]; done).
Qed.

Lemma first_semver_skip fuel pre bs :
  Forall (fun b => is_ascii_digit b = false) pre -> (length pre <= fuel)%nat ->
  first_semver_from fuel (pre ++ bs) = first_semver_from (fuel - length pre) bs.
Proof.
  intros Hp. revert fuel. induction Hp as [|b pre Hb _ IH]; intros fuel Hf.
  - by rewrite Nat.sub_0_r.
  - destruct fuel as [|fuel]; cbn in Hf; [lia|]. cbn [app first_semver_from length].
    rewrite Hb. cbn [negb]. rewrite IH by lia. f_equal.
Qed.

(** ** Lemmas: the command *)

Lemma drain_nonblocking_le reads output :
  len output <= MAX_PROBE_OUTPUT_BYTES -> len (drain_nonblocking reads output) <= MAX_PROBE_OUTPUT_BYTES.
Proof.
  revert output. induction reads as [|[chunk| |] reads IH]; intros output Ho;
    cbn [drain_nonblocking]; try done.
  apply IH. unfold saturating_sub. destruct (N.ltb_spec 0 (MAX_PROBE_OUTPUT_BYTES - len output)); [|done].
  rewrite len_app. pose proof (len_take chunk (N.to_nat (MAX_PROBE_OUTPUT_BYTES - len output))). lia.
Qed.

Lemma poll_loop_le polls output success out :
  len output <= MAX_PROBE_OUTPUT_BYTES ->
  poll_loop polls output = Some (CommandExited success out) -> len out <= MAX_PROBE_OUTPUT_BYTES.
Proof.
  revert output. induction polls as [|p polls IH]; intros output Ho; cbn [poll_loop]; [done|].
  assert (Ho' : len (drain_nonblocking (poll_stderr p) (drain_nonblocking (poll_stdout p) output))
    <= MAX_PROBE_OUTPUT_BYTES) by by do 2 apply drain_nonblocking_le.
  destruct (poll_wait p) as [ok|[]|]; try done; [|by apply IH].
  intros [= _ <-]. by do 2 apply drain_nonblocking_le.
Qed.

(** The loop is over at the first poll that finds the child gone, or finds the
    deadline passed. *)
Lemma poll_loop_ends polls output :
  (exists p, p ∈ polls /\ poll_wait p <> WaitRunning true) -> is_some (poll_loop polls output) = true.
Proof.
  revert output. induction polls as [|p polls IH]; intros output (q & Hq & Hw);
    [by apply elem_of_nil in Hq|]. cbn [poll_loop].
  destruct (poll_wait p) as [ok|[]|] eqn:E; try done. apply IH.
  apply elem_of_cons in Hq as [->|Hq]; [done|]. eauto.
Qed.

(** ** Lemmas: the probe *)

(** Both looks at the file were favourable, on Android. *)
Definition probe_ran (android : bool) (metadata : option FileType) (open1 open2 : option bytes) :
    Prop :=
  android = true /\ metadata = Some FtFile /\
  (exists i, inspect_elf open1 = Some i /\ arm64 i = true /\ page_16k i = true) /\
  exists i, inspect_elf open2 = Some i /\ interpreter_accepted i = true.

Lemma probe_cases android metadata open1 open2 requirement command :
  let p := probe_android_native_executable android metadata open1 open2 requirement command in
  (probe_ran android metadata open1 open2 /\
   p = record_command (mkProbe Passed Passed NotRun NotRun Passed None) requirement command) \/
  (~ probe_ran android metadata open1 open2 /\ execution p = NotRun /\ version p = NotRun).
Proof.
  unfold probe_ran, probe_android_native_executable, probe_android_native_artifact.
  destruct metadata as [[| |]|];
    try (right; split; [by intros (_ & ? & _)|by split]).
  destruct (inspect_elf open1) as [i1|];
    [|right; split; [by intros (_ & _ & (? & ? & _) & _)|by split]].
  destruct (arm64 i1) eqn:E1, (page_16k i1) eqn:E2; cbn;
    try (right; split; [by intros (_ & _ & (? & [= <-] & ? & ?) & _); congruence|by split]).
  destruct (inspect_elf open2) as [i2|];
    [|right; split; [by intros (_ & _ & _ & ? & ? & _)|by split]].
  destruct (interpreter_accepted i2) eqn:E3;
    [|right; split; [intros (_ & _ & _ & ? & [= <-] & ?); congruence|by split]].
  destruct android; [left|right; split; [by intros [? _]|by split]]. split; [|done].
  split_and!; [done|done|by exists i1|by exists i2].
Qed.

(** ** Properties *)

(** C39. What the inspection accepts, exactly: a little-endian 64-bit shared
    object whose program header table lies in the file, with a loadable segment,
    every loadable segment and the interpreter segment inside the file and of
    sane size, at most one interpreter segment, holding a non-empty NUL-ended
    text. 16 KiB compatibility is reported exactly when every loadable segment
    is aligned for it. No arithmetic overflows, no read fails. *)
Theorem inspect_elf_exact (file : bytes) (i : ElfInspection) :
  len file <= u64_max ->
  inspect_elf (Some file) = Some i <->
  elf_header_ok file /\
  let hs := program_headers file in
  existsb is_load hs = true /\
  Forall (fun h => is_load h = true -> load_ok (len file) h) hs /\
  Forall (fun h => is_interp h = true -> interp_ok (len file) h) hs /\
  (exists range, interps hs = option_list range /\ interpreter_is file range (interpreter i)) /\
  page_16k i = forallb (fun h => negb (is_load h) || aligned_16k h) hs /\
  arm64 i = (read_u16 (slice file 18 20) =? 183).
Proof.
  intros Hmax. rewrite inspect_elf_iff, table_fits by done. unfold elf_header_ok.
  assert (Ht : elf_phoff file + elf_phentsize file * elf_phnum file <= len file ->
    elf_phoff file + (0 + N.of_nat (N.to_nat (elf_phnum file))) * elf_phentsize file <= len file)
    by (rewrite N2Nat.id; lia).
  pose proof (fun s He Hle => scan_headers_iff file (elf_phoff file) (elf_phentsize file) 0
    (N.to_nat (elf_phnum file)) (mkScan false true None) s Hmax He (Ht Hle)) as Hscan.
  change (headers_from _ _ _ _ _) with (program_headers file) in Hscan.
  set (hs := program_headers file) in *. cbn [saw_load scan_page_16k interpreter_range] in Hscan.
  split.
  - intros (? & ? & ? & ? & ? & ? & ? & (? & ?) & s & Hs & Hl & Hi & Ha & Hp).
    apply Hscan in Hs as (HL & HI & Hsl & Hsp & Hr); [|done..].
    rewrite orb_false_r in Hsl. rewrite andb_true_r in Hsp. rewrite Hl in Hsl. rewrite Hsp in Hp.
    assert (Hrange : interps hs = option_list (interpreter_range s))
      by (destruct (interps hs) as [|r [|]]; [by rewrite Hr|by destruct Hr as [_ ->]|done]).
    split; [split_and!; try done; lia|]. split_and!; try done. exists (interpreter_range s).
    split; [done|]. apply read_interpreter_iff; [|done].
    destruct (interpreter_range s) as [[offset size]|]; [|done].
    apply (interps_in_file file hs); [done|]. rewrite Hrange. by left.
  - intros ((? & ? & ? & ? & ? & ? & ? & ? & ?) & Hl & HL & HI & (range & Hr & Hi) & Hp & Ha).
    split_and!; try done; try lia. exists (mkScan true (page_16k i) range). split_and!; try done.
    + apply Hscan; [done|done|]. split_and!; try done; cbn; [by rewrite Hl|by rewrite andb_true_r|].
      rewrite Hr. by destruct range.
    + apply read_interpreter_iff; [|done]. destruct range as [[offset size]|]; [|done].
      apply (interps_in_file file hs); [done|]. rewrite Hr. by left.
Qed.

(** The grammar and its meaning: a version requirement matches an output
    exactly when it is supported, the output has a version, and that version is
    the required one or, for ranges, satisfies every comparator of some branch;
    and it is supported exactly when it is one version or every branch is a
    non-empty list of comparators. *)
Theorem version_requirement_meaning (requirement output : str) :
  let branches := split_str (u "||") (trim requirement) in
  (version_requirement_matches requirement output = true <->
   version_requirement_is_supported (trim requirement) = true /\
   exists actual, first_semver_triplet output = Some actual /\
     match exact_semver (trim requirement) with
     | Some expected => expected = actual
     | None => Exists (fun b => Forall (token_holds actual) (split_whitespace (trim b))) branches
     end) /\
  (version_requirement_is_supported requirement = true <->
   exact_semver (trim requirement) <> None \/ Forall branch_supported branches).
Proof.
  intros branches. split.
  - unfold version_requirement_matches.
    destruct (first_semver_triplet output) as [actual|]; [|naive_solver].
    destruct (version_requirement_is_supported (trim requirement)) eqn:Es; cbn [negb];
      [|naive_solver].
    destruct (exact_semver (trim requirement)) as [expected|] eqn:Ex.
    + unfold triple_eqb. rewrite bool_decide_eq_true. naive_solver.
    + fold branches. rewrite branches_match_iff; [naive_solver|].
      unfold version_requirement_is_supported in Es. rewrite trim_idem, Ex in Es.
      by apply branches_supported_iff in Es as [_ ?].
  - unfold version_requirement_is_supported. fold branches.
    destruct (exact_semver (trim requirement)); cbn -[branches_supported]; [naive_solver|].
    rewrite branches_supported_iff. pose proof (split_str_from_ne (u "||") [] 0 (trim requirement)).
    naive_solver.
Qed.

(** Printing and finding a version are inverse: in an output that has no
    digit before it and does not continue it, the version found is the one
    printed, for all components a [u64] holds. *)
Theorem first_semver_of_output (pre post : str) (v : triple) :
  u64_triple v -> Forall (fun c => is_ascii_digit c = false) pre ->
  match as_bytes post with b :: _ => is_version_byte b = false | [] => True end ->
  first_semver_triplet (pre ++ format_semver v ++ post) = Some v.
Proof.
  intros Hv Hpre Hpost. unfold first_semver_triplet.
  assert (as_bytes (pre ++ format_semver v ++ post)
    = as_bytes pre ++ format_semver v ++ as_bytes post) as ->.
  { unfold as_bytes. rewrite !bind_app. do 2 f_equal. apply as_bytes_ascii.
    eapply Forall_impl; [apply format_semver_ascii|]. apply version_byte_small. }
  rewrite first_semver_skip; [|by apply as_bytes_not_digit|rewrite length_app; lia].
  rewrite length_app, Nat.add_comm, Nat.add_sub.
  pose proof (version_run_app _ _ (format_semver_ascii v) Hpost) as Hrun.
  destruct (format_semver_head v) as (c & s & Heq & Hc).
  destruct (format_semver_last v) as (t & d & Hlast & Hd).
  pose proof (exact_semver_format v Hv) as Hex.
  rewrite Heq in *. cbn [app length first_semver_from]. cbn [app] in Hrun.
  rewrite Hc, Hrun. cbn [negb]. rewrite Hlast, trim_end_matches_snoc, <-Hlast, Hex; [done|].
  apply N.eqb_neq. intros <-. done.
Qed.

(** A native executable counts as executed exactly when it was run on
    Android, after both looks at it found a regular ARM64, 16 KiB compatible ELF
    file with Android's linker or none, and exited successfully; its version
    counts only if it was executed and the output matches. Elsewhere nothing is
    run. What a command is given credit for is at most 8 KiB of output. *)
Theorem native_probe_exact (android : bool) (metadata : option FileType)
    (open1 open2 : option bytes) (requirement : str) (child : option SpawnedChild)
    (command : ProbeCommandResult) :
  run_bounded_command child = Some command ->
  let p := probe_android_native_executable android metadata open1 open2 requirement command in
  (execution p = Passed <->
     android = true /\ metadata = Some FtFile /\
     (exists i, inspect_elf open1 = Some i /\ arm64 i = true /\ page_16k i = true) /\
     (exists i, inspect_elf open2 = Some i /\ interpreter_accepted i = true) /\
     exists out, command = CommandExited true out) /\
  (version p = Passed <->
     execution p = Passed /\ exists out, command = CommandExited true out /\
       version_requirement_matches requirement (trim (from_utf8_lossy out)) = true) /\
  (android = false -> execution p = NotRun /\ version p = NotRun) /\
  (forall success out, command = CommandExited success out -> len out <= 8192).
Proof.
  intros Hcmd p. split_and!; subst p.
  4:{ intros success out ->. unfold run_bounded_command in Hcmd. destruct child as [c|]; [|done].
      destruct (negb _); [done|]. by eapply poll_loop_le in Hcmd. }
  all: destruct (probe_cases android metadata open1 open2 requirement command)
    as [[Hran ->]|(Hran & He & Hv)].
  all: unfold probe_ran in Hran.
  - destruct Hran as (Ha & Hm & H1 & H2).
    destruct command as [[] out| |]; cbn;
      [split; [intros _; split_and!; try done; by exists out|done]|..];
      (split; [done|]; by intros (_ & _ & _ & _ & ? & ?)).
  - rewrite He. split; [done|]. intros (Ha & Hm & H1 & H2 & _). by destruct Hran.
  - destruct command as [[] out| |]; cbn; [|by split; [|intros [? _]]..].
    destruct (version_requirement_matches _ _) eqn:E; cbn;
      [split; [intros _; split; [done|by exists out]|done]|].
    split; [done|]. intros (_ & out' & [= <-] & Hm). congruence.
  - rewrite He, Hv. by split; [|intros [? _]].
  - destruct Hran as (-> & _). done.
  - done.
Qed.

(** ** Concrete cases *)

Definition ex_le (width : nat) (n : N) : bytes :=
  (fun i => N.shiftr n (8 * N.of_nat i) mod 256) <$> seq 0 width.

(** A shared object with one loadable segment and Android's linker. *)
Definition ex_elf (align : N) : bytes :=
  [127; 69; 76; 70; 2; 1; 1; 0; 0; 0; 0; 0; 0; 0; 0; 0]
  ++ ex_le 2 3 ++ ex_le 2 183 ++ ex_le 4 1 ++ ex_le 8 0 ++ ex_le 8 64 ++ ex_le 8 0
  ++ ex_le 4 0 ++ ex_le 2 64 ++ ex_le 2 56 ++ ex_le 2 2 ++ ex_le 2 0 ++ ex_le 2 0 ++ ex_le 2 0
  ++ ex_le 4 1 ++ ex_le 4 5 ++ ex_le 8 0 ++ ex_le 8 0 ++ ex_le 8 0 ++ ex_le 8 176
  ++ ex_le 8 176 ++ ex_le 8 align
  ++ ex_le 4 3 ++ ex_le 4 4 ++ ex_le 8 176 ++ ex_le 8 176 ++ ex_le 8 176 ++ ex_le 8 21
  ++ ex_le 8 21 ++ ex_le 8 1
  ++ as_bytes ANDROID_LINKER64 ++ [0].

Example ex_elf_16k :
  inspect_elf (Some (ex_elf 16384))
  = Some {| arm64 := true; page_16k := true; interpreter := Some ANDROID_LINKER64 |}.
Proof. by vm_compute. Qed.
Example ex_elf_4k : page_16k <$> inspect_elf (Some (ex_elf 4096)) = Some false.
Proof. by vm_compute. Qed.
Example ex_truncated : inspect_elf (Some (take 190 (ex_elf 16384))) = None.
Proof. by vm_compute. Qed.

Example ex_requirement :
  version_requirement_matches (u ">=20.20.2 <21 || >=22.12 <23") (u "v22.12.1") = true /\
  version_requirement_matches (u ">=20.20.2 <21 || >=22.12 <23") (u "v21.0.0") = false /\
  version_requirement_is_supported (u "^20.1.0") = false.
Proof. by vm_compute. Qed.

Lemma inspect_elf_exact_witness : elf_header_ok (ex_elf 16384).
Proof.
  assert (Hmax : len (ex_elf 16384) <= u64_max) by (vm_compute; discriminate).
  destruct (proj1 (inspect_elf_exact (ex_elf 16384) _ Hmax) ex_elf_16k) as [H _]. exact H.
Defined.

Lemma first_semver_of_output_witness :
  first_semver_triplet (u "git version " ++ format_semver (2, 45, 0) ++ u " (apple)")
  = Some (2, 45, 0).
Proof.
  apply first_semver_of_output.
  - repeat split; vm_compute; discriminate.
  - repeat (constructor; [reflexivity|]). constructor.
  - reflexivity.
Defined.

Definition ex_child : option SpawnedChild :=
  Some {| pipes_nonblocking := true;
          child_polls :=
            [{| poll_stdout := []; poll_stderr := []; poll_wait := WaitRunning true;
                final_stdout := []; final_stderr := [] |};
             {| poll_stdout := [ReadChunk (as_bytes (u "v20.20.2"))]; poll_stderr := [];
                poll_wait := WaitExited true; final_stdout := []; final_stderr := [] |}] |}.

Lemma native_probe_exact_witness :
  let command := CommandExited true (as_bytes (u "v20.20.2")) in
  run_bounded_command ex_child = Some command /\
  execution (probe_android_native_executable true (Some FtFile) (Some (ex_elf 16384))
    (Some (ex_elf 16384)) (u ">=20") command) = Passed.
Proof.
  intros command. assert (Hc : run_bounded_command ex_child = Some command) by reflexivity.
  split; [exact Hc|].
  destruct (native_probe_exact true (Some FtFile) (Some (ex_elf 16384)) (Some (ex_elf 16384))
    (u ">=20") ex_child command Hc) as [[_ H] _].
  apply H. split; [reflexivity|]. split; [reflexivity|].
  split; [eexists; split; [exact ex_elf_16k|split; reflexivity]|].
  split; [eexists; split; [exact ex_elf_16k|vm_compute; reflexivity]|].
  eexists. reflexivity.
Defined.
