(* ===== verification/RuntimePackaging.v ===== *)
(** * Runtime inventory and readiness ([vibecoder-runtime-packaging], [lib.rs])

    The inventory of packaged runtime components, its validation, and the
    evaluation of probe evidence into a readiness report.  [serde_json] is a
    parameter: the inventory a text denotes, if any. *)
From S2P Require Import Prelude RustStr RustPath Domain NativeProbe.

Definition INVENTORY_SCHEMA : N := 1.
Definition ANDROID_ARM64_ABI : str := u "arm64-v8a".
Definition ANDROID_ARM64_RUST_TARGET : str := u "aarch64-linux-android".
Definition ANDROID_WX_TARGET_API : N := 29.
Definition MAX_COMPONENTS : N := 64.
Definition MAX_COMPONENT_ID_BYTES : N := 64.
Definition MAX_VERSION_REQUIREMENT_BYTES : N := 128.
Definition MAX_RUNTIME_PATH_BYTES : N := 4096.
Definition MAX_RUNTIME_PATH_COMPONENT_BYTES : N := 255.

Inductive RuntimeCapability := Core | AgentRuntime | GatewayRuntime | WebsiteBuild | AndroidBuild.
#[export] Instance RuntimeCapability_eq_dec : EqDecision RuntimeCapability.
Proof. solve_decision. Defined.

Inductive RuntimeArtifactKind :=
| InProcessNative | NativeExecutable | NativeLibrary | DataBundle | JavaArchive.
#[export] Instance RuntimeArtifactKind_eq_dec : EqDecision RuntimeArtifactKind.
Proof. solve_decision. Defined.

Inductive RuntimePlacement :=
| ApkNativeLibrary | ApkNativeExecutable | DownloadedPackageSplitNativeExecutable
| ApkAsset | WritableAppData.
#[export] Instance RuntimePlacement_eq_dec : EqDecision RuntimePlacement.
Proof. solve_decision. Defined.

Record RuntimeComponentSpec := {
  component_id : str;
  version_requirement : str;
  version_requirement_pinned : bool;
  artifact_kind : RuntimeArtifactKind;
  placement : RuntimePlacement;
  delivery_module : option str;
  bundled_in_base : option bool;
  rc_relative_path : option os_path;
  required_for : list RuntimeCapability;
  requires_exec_probe : bool;
  requires_version_probe : bool;
  requires_unix_socket_probe : bool;
  requires_service_probe : bool;
  requires_runtime_binding_probe : bool;
  requires_16k_page_compatibility : bool
}.

Record AndroidArm64RuntimeInventory := {
  schema : N;
  target_os : str;
  abi : str;
  rust_target : str;
  writable_app_home_exec_forbidden_from_target_api : N;
  inv_components : list RuntimeComponentSpec
}.

Definition packaging_error (code : str) : VibeCoderError := Config code.

Definition component_id_byte (b : N) : bool :=
  is_ascii_alphanumeric b || (b =? 46) || (b =? 95) || (b =? 45).

Definition validate_component_id (value : str) : Result unit :=
  if bool_decide (value = []) || (MAX_COMPONENT_ID_BYTES <? blen value)
     || negb (forallb component_id_byte (as_bytes value))
  then Err (packaging_error (u "runtime_component_id_invalid"))
  else Ok tt.

Definition is_forbidden_path_char (c : N) : bool :=
  is_control c || (c =? 0x61C) || (c =? 0x200E) || (c =? 0x200F)
  || in_range 0x202A 0x202E c || in_range 0x2066 0x2069 c.

(** The component loop of [validate_relative_path]. *)
Fixpoint check_path_components (cs : list component) : Result unit :=
  match cs with
  | [] => Ok tt
  | Normal value :: cs =>
    if bool_decide (value = []) || (MAX_RUNTIME_PATH_COMPONENT_BYTES <? blen value)
    then Err (packaging_error (u "runtime_component_path_invalid"))
    else check_path_components cs
  | _ :: _ => Err (packaging_error (u "runtime_component_path_invalid"))
  end.

Definition validate_relative_path (path : os_path) : Result unit :=
  if is_absolute path then Err (packaging_error (u "runtime_component_path_absolute"))
  else
    let? text := ok_or (path_to_str path) (packaging_error (u "runtime_component_path_non_utf8")) in
    if bool_decide (text = []) || (MAX_RUNTIME_PATH_BYTES <? blen text)
       || contains_char 92 text || existsb is_forbidden_path_char text
    then Err (packaging_error (u "runtime_component_path_invalid"))
    else check_path_components (components path).

(** [capabilities.insert] fails on the second occurrence. *)
Fixpoint has_duplicate {A} `{EqDecision A} (seen l : list A) : bool :=
  match l with
  | [] => false
  | x :: l => if bool_decide (x ∈ seen) then true else has_duplicate (x :: seen) l
  end.

Definition is_process_or_data (k : RuntimeArtifactKind) : bool :=
  match k with
  | NativeExecutable | DataBundle | JavaArchive => true
  | InProcessNative | NativeLibrary => false
  end.

(** The [match component.artifact_kind] of [validate_component]. *)
Definition validate_placement (c : RuntimeComponentSpec) : Result unit :=
  match artifact_kind c with
  | InProcessNative | NativeLibrary =>
    if negb (bool_decide (placement c = ApkNativeLibrary)) || requires_exec_probe c
       || negb (requires_16k_page_compatibility c)
    then Err (packaging_error (u "runtime_native_library_placement_invalid"))
    else Ok tt
  | NativeExecutable =>
    if negb (bool_decide (placement c = ApkNativeExecutable)
             || bool_decide (placement c = DownloadedPackageSplitNativeExecutable))
       || negb (is_some (rc_relative_path c)) || negb (requires_exec_probe c)
       || negb (requires_16k_page_compatibility c)
    then Err (packaging_error (u "runtime_native_executable_placement_invalid"))
    else if bool_decide (placement c = DownloadedPackageSplitNativeExecutable) then
      let module := default [] (delivery_module c) in
      if bool_decide (module = []) || (128 <? blen module)
         || negb (bool_decide (bundled_in_base c = Some false))
      then Err (packaging_error (u "runtime_package_split_delivery_invalid"))
      else Ok tt
    else Ok tt
  | DataBundle | JavaArchive =>
    if negb (bool_decide (placement c = ApkAsset) || bool_decide (placement c = WritableAppData))
       || requires_exec_probe c || requires_16k_page_compatibility c
    then Err (packaging_error (u "runtime_data_placement_invalid"))
    else Ok tt
  end.

Definition validate_component (c : RuntimeComponentSpec) : Result unit :=
  let? _ := validate_component_id (component_id c) in
  let version := trim (version_requirement c) in
  if bool_decide (version = []) || (MAX_VERSION_REQUIREMENT_BYTES <? blen version)
  then Err (packaging_error (u "runtime_component_version_invalid"))
  else if bool_decide (required_for c = [])
  then Err (packaging_error (u "runtime_component_capability_empty"))
  else if has_duplicate [] (required_for c)
  then Err (packaging_error (u "runtime_component_capability_duplicate"))
  else
    let? _ := match rc_relative_path c with
              | Some path => validate_relative_path path
              | None => Ok tt
              end in
    let? _ := validate_placement c in
    if requires_unix_socket_probe c && negb (bool_decide (artifact_kind c = NativeExecutable))
    then Err (packaging_error (u "runtime_socket_probe_kind_invalid"))
    else if requires_service_probe c && negb (is_process_or_data (artifact_kind c))
    then Err (packaging_error (u "runtime_service_probe_kind_invalid"))
    else if requires_runtime_binding_probe c && negb (is_process_or_data (artifact_kind c))
    then Err (packaging_error (u "runtime_binding_probe_kind_invalid"))
    else if version_requirement_pinned c && requires_version_probe c
            && negb (version_requirement_is_supported (version_requirement c))
    then Err (packaging_error (u "runtime_component_version_requirement_unsupported"))
    else Ok tt.

(** The component loop of [validate]; [ids] is the set of ids seen. *)
Fixpoint validate_components (ids : list str) (cs : list RuntimeComponentSpec) : Result unit :=
  match cs with
  | [] => Ok tt
  | c :: cs =>
    let? _ := validate_component c in
    if bool_decide (component_id c ∈ ids)
    then Err (packaging_error (u "runtime_inventory_component_duplicate"))
    else validate_components (component_id c :: ids) cs
  end.

Definition Inventory_validate (inv : AndroidArm64RuntimeInventory) : Result unit :=
  if negb (schema inv =? INVENTORY_SCHEMA)
  then Err (packaging_error (u "runtime_inventory_schema_unsupported"))
  else if negb (str_eqb (target_os inv) (u "android"))
          || negb (str_eqb (abi inv) ANDROID_ARM64_ABI)
          || negb (str_eqb (rust_target inv) ANDROID_ARM64_RUST_TARGET)
  then Err (packaging_error (u "runtime_inventory_target_mismatch"))
  else if negb (writable_app_home_exec_forbidden_from_target_api inv =? ANDROID_WX_TARGET_API)
  then Err (packaging_error (u "runtime_inventory_wx_policy_mismatch"))
  else if bool_decide (inv_components inv = []) || (MAX_COMPONENTS <? len (inv_components inv))
  then Err (packaging_error (u "runtime_inventory_component_count_invalid"))
  else validate_components [] (inv_components inv).

Class InventoryJson := inventory_from_slice : bytes -> option AndroidArm64RuntimeInventory.

Definition from_json `{InventoryJson} (bs : bytes) : Result AndroidArm64RuntimeInventory :=
  let? inventory := ok_or (inventory_from_slice bs)
                      (packaging_error (u "runtime_inventory_json_invalid")) in
  let? _ := Inventory_validate inventory in
  Ok inventory.

(** ** Readiness *)

Record ReadinessBlocker := mkBlocker { blocker_component_id : str; blocker_code : str }.

Record AndroidRuntimeReadinessReport := {
  core_ready : bool;
  agent_ready : bool;
  gateway_ready : bool;
  website_build_ready : bool;
  android_build_ready : bool;
  blockers : list ReadinessBlocker
}.

Definition backend_ready (r : AndroidRuntimeReadinessReport) : bool :=
  core_ready r && agent_ready r && gateway_ready r.
Definition fully_ready (r : AndroidRuntimeReadinessReport) : bool :=
  backend_ready r && website_build_ready r && android_build_ready r.

Abbreviation evidence_map := (gmap str RuntimeComponentEvidence).

(** The loop that fills [by_id]. *)
Fixpoint index_evidence (by_id : evidence_map) (evidence : list RuntimeComponentEvidence) :
    Result evidence_map :=
  match evidence with
  | [] => Ok by_id
  | proof :: evidence =>
    let? _ := validate_component_id (ev_component_id proof) in
    if is_some (by_id !! ev_component_id proof)
    then Err (packaging_error (u "runtime_evidence_component_duplicate"))
    else index_evidence (<[ev_component_id proof := proof]> by_id) evidence
  end.

(** [ready] and [blockers], as [require_probe] changes them. *)
Abbreviation readiness := (bool * list ReadinessBlocker)%type.

Definition require_probe (state : option ProbeState) (s : readiness) (id code : str) : readiness :=
  if bool_decide (state <> Some Passed) then (false, s.2 ++ [mkBlocker id code]) else s.

Definition require_if (needed : bool) (state : option ProbeState) (s : readiness) (id code : str) :
    readiness :=
  if needed then require_probe state s id code else s.

Definition is_native (k : RuntimeArtifactKind) : bool :=
  match k with
  | InProcessNative | NativeExecutable | NativeLibrary => true
  | DataBundle | JavaArchive => false
  end.

(** The checks of one component, in the code's order. *)
Definition check_component (c : RuntimeComponentSpec) (proof : option RuntimeComponentEvidence)
    (blockers : list ReadinessBlocker) : readiness :=
  let id := component_id c in
  let s := (true, blockers) in
  let s := if negb (version_requirement_pinned c)
           then (false, s.2 ++ [mkBlocker id (u "runtime_version_requirement_unpinned")]) else s in
  let s := require_probe (ev_package_presence <$> proof) s id
             (u "runtime_package_presence_unproven") in
  let s := require_if (is_native (artifact_kind c)) (ev_arm64_identity <$> proof) s id
             (u "runtime_arm64_identity_unproven") in
  let s := require_if (requires_exec_probe c) (ev_execution <$> proof) s id
             (u "runtime_execution_unproven") in
  let s := require_if (requires_version_probe c) (ev_version <$> proof) s id
             (u "runtime_version_unproven") in
  let s := require_if (requires_unix_socket_probe c) (ev_unix_socket_round_trip <$> proof) s id
             (u "runtime_unix_socket_unproven") in
  let s := require_if (requires_service_probe c) (ev_service_round_trip <$> proof) s id
             (u "runtime_service_round_trip_unproven") in
  let s := require_if (requires_runtime_binding_probe c) (ev_runtime_binding <$> proof) s id
             (u "runtime_binding_unproven") in
  require_if (requires_16k_page_compatibility c) (ev_page_size_16k_compatibility <$> proof) s id
    (u "runtime_16k_page_compatibility_unproven").

(** [capability_ready], the map with its five keys, and [capability_present]. *)
Record Capabilities := mkCapabilities {
  capability_ready : RuntimeCapability -> bool;
  capability_present : list RuntimeCapability
}.

Definition set_ready (m : RuntimeCapability -> bool) (c : RuntimeCapability) (b : bool) :
    RuntimeCapability -> bool := fun d => if bool_decide (d = c) then b else m d.

Fixpoint mark_capabilities (ready : bool) (caps : list RuntimeCapability) (s : Capabilities) :
    Capabilities :=
  match caps with
  | [] => s
  | c :: caps =>
    mark_capabilities ready caps
      (mkCapabilities (if negb ready then set_ready (capability_ready s) c false
                       else capability_ready s)
         (c :: capability_present s))
  end.

Fixpoint check_components (by_id : evidence_map) (cs : list RuntimeComponentSpec)
    (blockers : list ReadinessBlocker) (s : Capabilities) :
    list ReadinessBlocker * Capabilities :=
  match cs with
  | [] => (blockers, s)
  | c :: cs =>
    let '(ready, blockers) := check_component c (by_id !! component_id c) blockers in
    check_components by_id cs blockers (mark_capabilities ready (required_for c) s)
  end.

Definition all_capabilities : list RuntimeCapability :=
  [Core; AgentRuntime; GatewayRuntime; WebsiteBuild; AndroidBuild].

(** Capabilities no component is required for are not ready. *)
Fixpoint clear_absent (present caps : list RuntimeCapability) (m : RuntimeCapability -> bool) :
    RuntimeCapability -> bool :=
  match caps with
  | [] => m
  | c :: caps =>
    clear_absent present caps
      (if negb (bool_decide (c ∈ present)) then set_ready m c false else m)
  end.

Definition evaluate_android_arm64_readiness (inventory : AndroidArm64RuntimeInventory)
    (evidence : list RuntimeComponentEvidence) : Result AndroidRuntimeReadinessReport :=
  let? _ := Inventory_validate inventory in
  let? by_id := index_evidence ∅ evidence in
  if existsb (fun id => negb (existsb (fun c => str_eqb (component_id c) id)
                                (inv_components inventory))) (map_to_list by_id).*1
  then Err (packaging_error (u "runtime_evidence_unknown_component"))
  else
    let '(blockers, s) :=
      check_components by_id (inv_components inventory) [] (mkCapabilities (fun _ => true) []) in
    let ready := clear_absent (capability_present s) all_capabilities (capability_ready s) in
    Ok {| core_ready := ready Core;
          agent_ready := ready AgentRuntime;
          gateway_ready := ready GatewayRuntime;
          website_build_ready := ready WebsiteBuild;
          android_build_ready := ready AndroidBuild;
          blockers := blockers |}.

(** ** Specification *)

Definition proven (state : option ProbeState) : bool := bool_decide (state = Some Passed).

(** The checks of a component: whether it asks for it, whether it is met, the
    code of the blocker. *)
Definition component_checks (c : RuntimeComponentSpec) (proof : option RuntimeComponentEvidence) :
    list (bool * bool * str) :=
  [(true, version_requirement_pinned c, u "runtime_version_requirement_unpinned");
   (true, proven (ev_package_presence <$> proof), u "runtime_package_presence_unproven");
   (is_native (artifact_kind c), proven (ev_arm64_identity <$> proof),
    u "runtime_arm64_identity_unproven");
   (requires_exec_probe c, proven (ev_execution <$> proof), u "runtime_execution_unproven");
   (requires_version_probe c, proven (ev_version <$> proof), u "runtime_version_unproven");
   (requires_unix_socket_probe c, proven (ev_unix_socket_round_trip <$> proof),
    u "runtime_unix_socket_unproven");
   (requires_service_probe c, proven (ev_service_round_trip <$> proof),
    u "runtime_service_round_trip_unproven");
   (requires_runtime_binding_probe c, proven (ev_runtime_binding <$> proof),
    u "runtime_binding_unproven");
   (requires_16k_page_compatibility c, proven (ev_page_size_16k_compatibility <$> proof),
    u "runtime_16k_page_compatibility_unproven")].

Definition unmet_code (check : bool * bool * str) : option str :=
  let '(needed, met, code) := check in if needed && negb met then Some code else None.

Definition unmet (c : RuntimeComponentSpec) (proof : option RuntimeComponentEvidence) : list str :=
  omap unmet_code (component_checks c proof).

(** The evidence for a component id. *)
Fixpoint find_evidence (evidence : list RuntimeComponentEvidence) (id : str) :
    option RuntimeComponentEvidence :=
  match evidence with
  | [] => None
  | proof :: evidence =>
    if bool_decide (ev_component_id proof = id) then Some proof else find_evidence evidence id
  end.

Definition capability_is_ready (r : AndroidRuntimeReadinessReport) (c : RuntimeCapability) : bool :=
  match c with
  | Core => core_ready r
  | AgentRuntime => agent_ready r
  | GatewayRuntime => gateway_ready r
  | WebsiteBuild => website_build_ready r
  | AndroidBuild => android_build_ready r
  end.

Definition ready_for (evidence : list RuntimeComponentEvidence) (cs : list RuntimeComponentSpec)
    (cap : RuntimeCapability) : Prop :=
  (exists c, c ∈ cs /\ cap ∈ required_for c) /\
  forall c, c ∈ cs -> cap ∈ required_for c -> unmet c (find_evidence evidence (component_id c)) = [].

(** ** Lemmas *)

Lemma require_if_step needed state s id code (codes : list str) bl :
  s = (bool_decide (codes = []), bl ++ (mkBlocker id <$> codes)) ->
  require_if needed state s id code =
  (bool_decide (codes ++ option_list (unmet_code (needed, proven state, code)) = []),
   bl ++ (mkBlocker id <$> (codes ++ option_list (unmet_code (needed, proven state, code))))).
Proof.
  intros ->. unfold require_if, require_probe, unmet_code, proven.
  destruct needed; cbn [andb]; [|by rewrite !app_nil_r].
  destruct (decide (state = Some Passed)) as [Hs|Hs].
  - rewrite (bool_decide_eq_false_2 (state <> Some Passed)) by (intros Hn; by apply Hn).
    rewrite (bool_decide_eq_true_2 (state = Some Passed)) by done. cbn. by rewrite !app_nil_r.
  - rewrite (bool_decide_eq_true_2 (state <> Some Passed)) by done.
    rewrite (bool_decide_eq_false_2 (state = Some Passed)) by done. cbn.
    rewrite fmap_app, app_assoc. f_equal. symmetry. apply bool_decide_eq_false_2. by destruct codes.
Qed.

Lemma omap_list_cons {A B} (f : A -> option B) x l :
  omap f (x :: l) = option_list (f x) ++ omap f l.
Proof. rewrite omap_cons. by destruct (f x). Qed.

Lemma check_component_eq c proof bl :
  check_component c proof bl =
  (bool_decide (unmet c proof = []), bl ++ (mkBlocker (component_id c) <$> unmet c proof)).
Proof.
  unfold check_component, unmet, component_checks. rewrite !omap_list_cons.
  change (omap unmet_code []) with (@nil str). rewrite app_nil_r, !app_assoc.
  cbv zeta.
  repeat (apply require_if_step). change (require_probe ?a ?b ?c ?d) with (require_if true a b c d).
  apply require_if_step. cbn. destruct (version_requirement_pinned c); cbn; [|done].
  by rewrite app_nil_r.
Qed.

Lemma mark_capabilities_spec ready caps s cap :
  (capability_ready (mark_capabilities ready caps s) cap =
   capability_ready s cap && (ready || negb (bool_decide (cap ∈ caps)))) /\
  (cap ∈ capability_present (mark_capabilities ready caps s) <->
   cap ∈ capability_present s \/ cap ∈ caps).
Proof.
  revert s. induction caps as [|c caps IH]; intros s; cbn [mark_capabilities].
  - rewrite bool_decide_eq_false_2 by apply not_elem_of_nil. cbn. rewrite orb_true_r, andb_true_r.
    set_solver.
  - destruct (IH (mkCapabilities (if negb ready then set_ready (capability_ready s) c false
      else capability_ready s) (c :: capability_present s))) as [-> ->]. cbn. split; [|set_solver].
    destruct ready; cbn; [done|]. unfold set_ready.
    rewrite (bool_decide_ext (cap ∈ c :: caps) (cap = c \/ cap ∈ caps)) by apply elem_of_cons.
    rewrite bool_decide_or. destruct (bool_decide (cap = c)); cbn; [by rewrite andb_false_r|done].
Qed.

Lemma check_components_spec by_id cs bl s :
  let r := check_components by_id cs bl s in
  let unmet_of c := unmet c (by_id !! component_id c) in
  r.1 = bl ++ (cs ≫= fun c => mkBlocker (component_id c) <$> unmet_of c) /\
  forall cap,
    (capability_ready r.2 cap = true <->
     capability_ready s cap = true /\ forall c, c ∈ cs -> cap ∈ required_for c -> unmet_of c = []) /\
    (cap ∈ capability_present r.2 <->
     cap ∈ capability_present s \/ exists c, c ∈ cs /\ cap ∈ required_for c).
Proof.
  revert bl s. induction cs as [|c cs IH]; intros bl s; cbn [check_components].
  { rewrite app_nil_r. set_solver. }
  rewrite check_component_eq.
  set (ok := bool_decide (unmet c (by_id !! component_id c) = [])).
  destruct (IH (bl ++ (mkBlocker (component_id c) <$> unmet c (by_id !! component_id c)))
    (mark_capabilities ok (required_for c) s)) as [-> Hcap].
  split; [by rewrite bind_cons, app_assoc|]. intros cap. destruct (Hcap cap) as [-> ->].
  destruct (mark_capabilities_spec ok (required_for c) s cap) as [-> ->].
  rewrite andb_true_iff, orb_true_iff, negb_true_iff, bool_decide_eq_false. subst ok.
  rewrite bool_decide_eq_true. split.
  - split.
    + intros [[? Hc] Hcs]. split; [done|]. intros d [->|Hd]%elem_of_cons Hin; [by destruct Hc|eauto].
    + intros [? Hall]. split; [split; [done|]|].
      * destruct (decide (cap ∈ required_for c)); [left; apply Hall; [by left|done]|by right].
      * intros d Hd. apply Hall. by right.
  - set_solver.
Qed.

Lemma clear_absent_spec present caps m cap :
  clear_absent present caps m cap = true <->
  m cap = true /\ (cap ∈ caps -> cap ∈ present).
Proof.
  revert m. induction caps as [|c caps IH]; intros m; cbn [clear_absent]; [set_solver|].
  rewrite IH, elem_of_cons. case_bool_decide as Hc; cbn [negb].
  - split; [intros [? ?]; split; [done|]; intros [->|?]; auto|]. intros [? ?]. split; auto.
  - unfold set_ready. case_bool_decide as He.
    + subst c. split; [by intros [? _]|]. intros [? Hp]. destruct Hc. by apply Hp; left.
    + split; [|intros [? ?]; split; auto]. intros [? ?]. split; [done|]. intros [?|?]; [done|auto].
Qed.

Lemma all_capabilities_elem cap : cap ∈ all_capabilities.
Proof. destruct cap; unfold all_capabilities; set_solver. Qed.

Lemma index_evidence_spec by_id evidence :
  (is_ok (index_evidence by_id evidence) = true <->
   Forall (fun p => validate_component_id (ev_component_id p) = Ok tt) evidence /\
   NoDup (ev_component_id <$> evidence) /\
   forall p, p ∈ evidence -> by_id !! ev_component_id p = None) /\
  forall m, index_evidence by_id evidence = Ok m -> forall id,
    m !! id = match find_evidence evidence id with Some p => Some p | None => by_id !! id end.
Proof.
  revert by_id. induction evidence as [|p evidence IH]; intros by_id; cbn [index_evidence].
  { split; [|by intros m [= ->]]. cbn. split; [|done]. intros _.
    split_and!; [constructor|constructor|by intros p ?%elem_of_nil]. }
  rewrite Forall_cons, fmap_cons, NoDup_cons.
  destruct (validate_component_id (ev_component_id p)) as [[]|e]; [|split; [|done]; naive_solver].
  destruct (by_id !! ev_component_id p) as [q|] eqn:E; cbn [is_some].
  { split; [|done]. split; [done|]. intros (_ & _ & Hf). specialize (Hf p ltac:(by left)). congruence. }
  destruct (IH (<[ev_component_id p:=p]> by_id)) as [Hok Hm]. split.
  - rewrite Hok. split.
    + intros (? & ? & Hf). split_and!; try done.
      * intros (q & Hq & Hin)%list_elem_of_fmap. specialize (Hf q Hin).
        by rewrite Hq, lookup_insert_eq in Hf.
      * intros q [->|Hin]%elem_of_cons; [done|]. specialize (Hf q Hin).
        by apply lookup_insert_None in Hf as [? _].
    + intros ([_ ?] & [Hn ?] & Hf). split_and!; try done. intros q Hin.
      apply lookup_insert_None. split; [apply Hf; by right|]. intros Heq. apply Hn. rewrite Heq.
      by apply list_elem_of_fmap_2.
  - intros m Hidx id.
    change (index_evidence (<[ev_component_id p:=p]> by_id) evidence = Ok m) in Hidx.
    rewrite (Hm m Hidx id). cbn [find_evidence].
    assert (Hdup : ev_component_id p = id -> find_evidence evidence id = None).
    { intros <-. assert (Hf : is_ok (index_evidence (<[ev_component_id p:=p]> by_id) evidence) = true)
        by by rewrite Hidx. apply Hok in Hf as (_ & _ & Hf).
      clear -Hf. induction evidence as [|q ev IH]; [done|]. cbn [find_evidence].
      case_bool_decide as Hq; [|apply IH; intros; apply Hf; by right].
      specialize (Hf q ltac:(by left)). by rewrite Hq, lookup_insert_eq in Hf. }
    case_bool_decide as Hid; [rewrite (Hdup Hid), <-Hid; by rewrite lookup_insert_eq|].
    by rewrite lookup_insert_ne.
Qed.

Lemma find_evidence_some evidence id p :
  find_evidence evidence id = Some p -> p ∈ evidence /\ ev_component_id p = id.
Proof.
  induction evidence as [|q ev IH]; cbn [find_evidence]; [done|].
  case_bool_decide as Hq; [intros [= ->]; split; [by left|done]|].
  intros [? ?]%IH. split; [by right|done].
Qed.

Lemma find_evidence_is_some evidence id :
  is_some (find_evidence evidence id) = true <-> id ∈ ev_component_id <$> evidence.
Proof.
  induction evidence as [|q ev IH]; cbn [find_evidence]; [set_solver|].
  rewrite fmap_cons, elem_of_cons. case_bool_decide as Hq; cbn; [naive_solver|].
  rewrite IH. naive_solver.
Qed.

Lemma unknown_component_iff evidence m cs :
  (forall id, m !! id = match find_evidence evidence id with Some p => Some p | None => None end) ->
  existsb (fun id => negb (existsb (fun c => str_eqb (component_id c) id) cs))
    (map_to_list m).*1 = false <->
  forall p, p ∈ evidence -> exists c, c ∈ cs /\ component_id c = ev_component_id p.
Proof.
  intros Hm.
  assert (Hkeys : forall id, id ∈ (map_to_list m).*1 <-> id ∈ ev_component_id <$> evidence).
  { intros id. rewrite <-find_evidence_is_some. transitivity (is_some (m !! id) = true).
    - rewrite list_elem_of_fmap. split.
      + intros ([k p] & -> & Hin%elem_of_map_to_list). cbn. by rewrite Hin.
      + destruct (m !! id) as [p|] eqn:E; [|done]. intros _. exists (id, p).
        by rewrite elem_of_map_to_list.
    - rewrite Hm. by destruct (find_evidence evidence id). }
  rewrite existsb_false_iff. setoid_rewrite Hkeys. setoid_rewrite negb_false_iff.
  setoid_rewrite existsb_true_iff. unfold str_eqb. setoid_rewrite bool_decide_eq_true.
  split.
  - intros H p Hp. apply H. by apply list_elem_of_fmap_2.
  - intros H id (p & -> & Hp)%list_elem_of_fmap. by apply H.
Qed.

Lemma evaluate_ok_iff inv evidence r :
  evaluate_android_arm64_readiness inv evidence = Ok r ->
  (forall cap, capability_is_ready r cap = true <-> ready_for evidence (inv_components inv) cap) /\
  blockers r = inv_components inv ≫= fun c =>
    mkBlocker (component_id c) <$> unmet c (find_evidence evidence (component_id c)).
Proof.
  unfold evaluate_android_arm64_readiness. destruct (Inventory_validate inv) as [[]|]; [|done].
  destruct (index_evidence ∅ evidence) as [m|] eqn:Em; [|done].
  assert (Hm : forall id, m !! id = find_evidence evidence id).
  { intros id. destruct (index_evidence_spec ∅ evidence) as [_ H]. rewrite (H m Em id).
    rewrite lookup_empty. by destruct (find_evidence evidence id). }
  destruct (existsb _ _); [done|].
  destruct (check_components_spec m (inv_components inv) [] (mkCapabilities (fun _ => true) []))
    as [Hbl Hcap].
  destruct (check_components m _ _ _) as [bl s]. cbn [fst snd] in Hbl, Hcap. intros [= <-].
  cbn [blockers]. split.
  - intros cap. transitivity (clear_absent (capability_present s) all_capabilities
      (capability_ready s) cap = true); [by destruct cap|].
    rewrite clear_absent_spec. destruct (Hcap cap) as [-> ->]. unfold ready_for.
    pose proof (all_capabilities_elem cap). cbn [capability_ready capability_present].
    setoid_rewrite Hm. split.
    + intros [[_ Hall] Hex]. split; [|done].
      destruct (Hex ltac:(done)) as [?%elem_of_nil|?]; done.
    + intros [Hex Hall]. split; [done|]. intros _. by right.
  - rewrite Hbl. cbn [app]. apply list_bind_ext; [|done]. intros c. by rewrite Hm.
Qed.

(** The checks a native component of a valid inventory cannot do without. *)
Lemma native_component_checks c :
  validate_component c = Ok tt -> is_native (artifact_kind c) = true ->
  placement c <> WritableAppData /\ placement c <> ApkAsset /\
  requires_16k_page_compatibility c = true /\
  (artifact_kind c = NativeExecutable -> requires_exec_probe c = true).
Proof.
  unfold validate_component. rewrite seq_ok, !if_err_ok, !seq_ok.
  intros (_ & _ & _ & _ & _ & Hp & _) Hn. unfold validate_placement in Hp.
  destruct (artifact_kind c); try done.
  - apply if_err_ok in Hp as [Hp _]. bool_prop. split_and!; congruence.
  - apply if_err_ok in Hp as [Hp _]. rewrite !orb_false_iff, !negb_false_iff in Hp.
    destruct Hp as [[[Hp ?] ?] ?]. apply orb_true_iff in Hp as [Hp|Hp]; bool_prop;
      split_and!; congruence.
  - apply if_err_ok in Hp as [Hp _]. bool_prop. split_and!; congruence.
Qed.

Lemma validate_components_ok ids cs :
  validate_components ids cs = Ok tt <->
  Forall (fun c => validate_component c = Ok tt) cs /\ NoDup (component_id <$> cs) /\
  Forall (fun c => component_id c ∉ ids) cs.
Proof.
  revert ids. induction cs as [|c cs IH]; intros ids; cbn [validate_components].
  { split; [|done]. intros _. cbn. split_and!; constructor. }
  rewrite seq_ok, if_err_ok, bool_decide_eq_false, IH, fmap_cons, NoDup_cons, !Forall_cons.
  rewrite !Forall_forall. set_solver.
Qed.

Lemma inventory_components_valid inv :
  Inventory_validate inv = Ok tt ->
  Forall (fun c => validate_component c = Ok tt) (inv_components inv) /\
  NoDup (component_id <$> inv_components inv).
Proof.
  unfold Inventory_validate. rewrite !if_err_ok, validate_components_ok. naive_solver.
Qed.

Lemma unmet_nil_proven c proof needed met code :
  unmet c proof = [] -> (needed, met, code) ∈ component_checks c proof -> needed = true -> met = true.
Proof.
  unfold unmet. intros Hu Hin ->. destruct met; [done|].
  assert (code ∈ omap unmet_code (component_checks c proof)) as Hc; [|by rewrite Hu in Hc; apply elem_of_nil in Hc].
  apply list_elem_of_omap. by exists (true, false, code).
Qed.

(** ** Properties *)

(** C40. Readiness is what the evidence proves, no more: an evaluation succeeds
    exactly for a valid inventory and well-formed evidence with one entry per
    component, all known; a capability is then ready exactly when some component
    serves it and every component serving it has its version pinned and every
    probe it asks for passed (a probe not run, or no evidence, counts as not
    passed); and the blockers are exactly the unmet checks, in inventory order. *)
Theorem readiness_exact (inv : AndroidArm64RuntimeInventory)
    (evidence : list RuntimeComponentEvidence) :
  let cs := inv_components inv in
  (is_ok (evaluate_android_arm64_readiness inv evidence) = true <->
   Inventory_validate inv = Ok tt /\
   Forall (fun p => validate_component_id (ev_component_id p) = Ok tt) evidence /\
   NoDup (ev_component_id <$> evidence) /\
   forall p, p ∈ evidence -> exists c, c ∈ cs /\ component_id c = ev_component_id p) /\
  forall r, evaluate_android_arm64_readiness inv evidence = Ok r ->
    (forall cap, capability_is_ready r cap = true <-> ready_for evidence cs cap) /\
    blockers r = cs ≫= fun c =>
      mkBlocker (component_id c) <$> unmet c (find_evidence evidence (component_id c)).
Proof.
  intros cs. split; [|intros r; apply evaluate_ok_iff].
  unfold evaluate_android_arm64_readiness.
  destruct (index_evidence_spec ∅ evidence) as [Hok Hm].
  destruct (Inventory_validate inv) as [[]|]; [|naive_solver].
  destruct (index_evidence ∅ evidence) as [m|] eqn:Em.
  - destruct (proj1 Hok eq_refl) as (? & ? & _).
    pose proof (unknown_component_iff evidence m cs (Hm m eq_refl)) as Hun. fold cs.
    destruct (existsb _ _).
    + split; [done|]. intros (_ & _ & _ & Hk). by apply Hun in Hk.
    + destruct (check_components _ _ _ _). split; [|done]. intros _.
      split_and!; try done. by apply Hun.
  - split; [done|]. intros (_ & ? & ? & _). cbn in Hok.
    assert (false = true) by (apply Hok; split_and!; try done). done.
Qed.

(** No capability becomes ready on native code that could be replaced or
    was not proven: each native component serving a ready capability lies in the
    installed package, never in writable app data or assets, and the evidence
    shows it present, ARM64 and 16 KiB compatible, and executed where it is an
    executable. *)
Theorem ready_native_code_is_proven (inv : AndroidArm64RuntimeInventory)
    (evidence : list RuntimeComponentEvidence) (r : AndroidRuntimeReadinessReport)
    (cap : RuntimeCapability) (c : RuntimeComponentSpec) :
  evaluate_android_arm64_readiness inv evidence = Ok r -> capability_is_ready r cap = true ->
  c ∈ inv_components inv -> cap ∈ required_for c -> is_native (artifact_kind c) = true ->
  placement c <> WritableAppData /\ placement c <> ApkAsset /\
  exists p, p ∈ evidence /\ ev_component_id p = component_id c /\
    ev_package_presence p = Passed /\ ev_arm64_identity p = Passed /\
    ev_page_size_16k_compatibility p = Passed /\
    (artifact_kind c = NativeExecutable -> ev_execution p = Passed).
Proof.
  intros He Hr Hc Hcap Hn. pose proof (evaluate_ok_iff _ _ _ He) as [Hready _].
  apply Hready in Hr as [_ Hall]. specialize (Hall c Hc Hcap).
  assert (Hv : validate_component c = Ok tt).
  { unfold evaluate_android_arm64_readiness in He.
    destruct (Inventory_validate inv) as [[]|] eqn:Ev; [|done].
    apply inventory_components_valid in Ev as [Ev _]. rewrite Forall_forall in Ev. by apply Ev. }
  destruct (native_component_checks c Hv Hn) as (? & ? & H16 & Hexec). split_and!; try done.
  set (proof := find_evidence evidence (component_id c)) in *.
  assert (Hchk : forall needed state code,
    (needed, proven state, code) ∈ component_checks c proof -> needed = true -> state = Some Passed).
  { intros needed state code Hin Hneed. apply (unmet_nil_proven _ _ _ _ _ Hall Hin) in Hneed.
    by apply bool_decide_eq_true_1 in Hneed. }
  assert (exists p, proof = Some p) as [p Hp].
  { pose proof (Hchk true (ev_package_presence <$> proof) (u "runtime_package_presence_unproven")
      ltac:(do 1 right; left) eq_refl) as Hx. destruct proof; [by eexists|done]. }
  destruct (find_evidence_some _ _ _ Hp) as [Hin Hid]. exists p. rewrite Hp in Hchk.
  split_and!; try done.
  - by injection (Hchk true _ (u "runtime_package_presence_unproven") ltac:(do 1 right; left) eq_refl).
  - by injection (Hchk _ _ (u "runtime_arm64_identity_unproven") ltac:(do 2 right; left) Hn).
  - by injection (Hchk _ _ (u "runtime_16k_page_compatibility_unproven")
      ltac:(do 8 right; left) H16).
  - intros Hk. by injection (Hchk _ _ (u "runtime_execution_unproven")
      ltac:(do 3 right; left) (Hexec Hk)).
Qed.

(** ** Concrete cases *)

Definition ex_git : RuntimeComponentSpec :=
  {| component_id := u "git"; version_requirement := u ">=2.40 <3";
     version_requirement_pinned := true; artifact_kind := NativeExecutable;
     placement := ApkNativeExecutable; delivery_module := None; bundled_in_base := None;
     rc_relative_path := Some (Utf8Path (u "libgit.so")); required_for := [AgentRuntime];
     requires_exec_probe := true; requires_version_probe := true;
     requires_unix_socket_probe := false; requires_service_probe := false;
     requires_runtime_binding_probe := false; requires_16k_page_compatibility := true |}.
Definition ex_inventory : AndroidArm64RuntimeInventory :=
  {| schema := 1; target_os := u "android"; abi := u "arm64-v8a";
     rust_target := u "aarch64-linux-android";
     writable_app_home_exec_forbidden_from_target_api := 29; inv_components := [ex_git] |}.
Definition ex_proof (execution : ProbeState) : RuntimeComponentEvidence :=
  into_component_evidence (mkProbe Passed Passed execution execution Passed None) (u "git") None.

Example ex_not_run :
  (fun r => (agent_ready r, blocker_code <$> blockers r))
    <$> match evaluate_android_arm64_readiness ex_inventory [ex_proof NotRun] with
        | Ok r => Some r | Err _ => None end
  = Some (false, [u "runtime_execution_unproven"; u "runtime_version_unproven"]).
Proof. by vm_compute. Qed.

Lemma readiness_exact_witness :
  exists r, evaluate_android_arm64_readiness ex_inventory [ex_proof Passed] = Ok r /\
    capability_is_ready r AgentRuntime = true.
Proof.
  destruct (evaluate_android_arm64_readiness ex_inventory [ex_proof Passed]) as [r|e] eqn:E;
    [|vm_compute in E; discriminate E].
  exists r. split; [reflexivity|].
  destruct (readiness_exact ex_inventory [ex_proof Passed]) as [_ H].
  destruct (H r E) as [Hr _]. apply Hr. split.
  - exists ex_git. split; [left|left].
  - intros c Hc _. apply list_elem_of_singleton in Hc as ->. vm_compute. reflexivity.
Defined.

Lemma ready_native_code_is_proven_witness :
  exists p, p ∈ [ex_proof Passed] /\ ev_execution p = Passed.
Proof.
  destruct (evaluate_android_arm64_readiness ex_inventory [ex_proof Passed]) as [r|e] eqn:E;
    [|vm_compute in E; discriminate E].
  assert (Hr : capability_is_ready r AgentRuntime = true)
    by (vm_compute in E; injection E as <-; reflexivity).
  destruct (ready_native_code_is_proven ex_inventory [ex_proof Passed] r AgentRuntime ex_git E Hr
    (list_elem_of_here _ _) (list_elem_of_here _ _) eq_refl) as (_ & _ & p & Hp & _ & _ & _ & _ & Hx).
  exists p. split; [exact Hp|exact (Hx eq_refl)].
Defined.
