(* ===== verification/JcodeConfig.v ===== *)
(** * The Jcode adapter: configuration and errors ([vibecoder-agent-jcode])

    [config.rs] (what may be persisted and [validate]), [error.rs] (the classes of a
    failure and the text that may be shown) and the part of [lifecycle.rs] that turns
    a configuration into the request the SDK is opened with.  The error kinds are
    those of the SDK the adapter matches on; what the SDK puts in a message is not
    looked at, except for its code. *)
From S2P Require Import Prelude RustStr RustPath Domain.

(** ** The SDK's errors *)

Inductive SdkErrorCode :=
| UnsupportedVersion | UnknownRequest | UnknownSession | CodeInvalidRequest | Internal.

Inductive SdkErrorKind :=
| ConnectFailed | HandshakeFailed | Timeout | Disconnected | UnexpectedReply
| Harness (code : SdkErrorCode) | Transport | LaunchFailed | JcodeNotFound | StartupFailed
| StartupTimeout | InvalidInstanceHome | InvalidOption | UnsupportedTransport
| EventBufferOverflow.

Record SdkError := { se_kind : SdkErrorKind; se_message : str }.

Abbreviation SdkResult := (result SdkError).

(** [ErrorKind::code]. *)
Definition sdk_code (kind : SdkErrorKind) : str :=
  match kind with
  | ConnectFailed => u "connect_failed"
  | HandshakeFailed => u "handshake_failed"
  | Timeout => u "timeout"
  | Disconnected => u "disconnected"
  | UnexpectedReply => u "unexpected_reply"
  | Transport => u "transport"
  | LaunchFailed => u "launch_failed"
  | JcodeNotFound => u "jcode_not_found"
  | StartupFailed => u "startup_failed"
  | StartupTimeout => u "startup_timeout"
  | InvalidInstanceHome => u "invalid_instance_home"
  | InvalidOption => u "invalid_option"
  | UnsupportedTransport => u "unsupported_transport"
  | EventBufferOverflow => u "event_buffer_overflow"
  | Harness UnsupportedVersion => u "unsupported_version"
  | Harness UnknownRequest => u "unknown_request"
  | Harness UnknownSession => u "unknown_session"
  | Harness CodeInvalidRequest => u "invalid_request"
  | Harness Internal => u "internal"
  end.

(** ** [error.rs] *)

Inductive JcodeFailureClass :=
| RetryableTransport | RuntimeUnavailable | ProtocolMismatch | InvalidConfiguration
| RemoteFailure | FatalTransport.

Record JcodeConnectionFailure := {
  jf_code : str;
  jf_message : str;
  jf_class : JcodeFailureClass;
  jf_retryable : bool
}.

Definition classify (kind : SdkErrorKind) : JcodeFailureClass :=
  match kind with
  | ConnectFailed | Timeout | Disconnected | Transport => RetryableTransport
  | LaunchFailed | JcodeNotFound | StartupFailed | StartupTimeout => RuntimeUnavailable
  | HandshakeFailed | Harness UnsupportedVersion => ProtocolMismatch
  | InvalidInstanceHome | InvalidOption => InvalidConfiguration
  | Harness _ | UnexpectedReply => RemoteFailure
  | UnsupportedTransport | EventBufferOverflow => FatalTransport
  end.

Definition is_retryable (kind : SdkErrorKind) : bool :=
  match kind with
  | ConnectFailed | Timeout | Disconnected | Transport | LaunchFailed | StartupFailed
  | StartupTimeout => true
  | _ => false
  end.

Definition safe_message (kind : SdkErrorKind) : str :=
  match kind with
  | ConnectFailed => u "Could not connect to the Jcode harness"
  | HandshakeFailed => u "Jcode harness handshake failed"
  | Timeout => u "Jcode harness request timed out"
  | Disconnected => u "Jcode harness connection closed"
  | UnexpectedReply => u "Jcode harness returned an unexpected reply"
  | Transport => u "Jcode harness transport failed"
  | LaunchFailed => u "Jcode runtime could not be launched"
  | JcodeNotFound => u "Jcode runtime executable is unavailable"
  | StartupFailed => u "Jcode runtime exited during startup"
  | StartupTimeout => u "Jcode runtime did not become ready in time"
  | InvalidInstanceHome => u "Jcode runtime state directory is invalid"
  | InvalidOption => u "Jcode runtime configuration is invalid"
  | UnsupportedTransport => u "Jcode transport does not support this operation"
  | EventBufferOverflow => u "Jcode event consumer exceeded its buffer"
  | Harness UnsupportedVersion => u "Jcode harness protocol version is incompatible"
  | Harness _ => u "Jcode harness rejected the operation"
  end.

Definition from_sdk (error : SdkError) : JcodeConnectionFailure :=
  {| jf_code := sdk_code (se_kind error);
     jf_message := safe_message (se_kind error);
     jf_class := classify (se_kind error);
     jf_retryable := is_retryable (se_kind error) |}.

Definition into_domain_error (f : JcodeConnectionFailure) : VibeCoderError :=
  Agent (jf_code f ++ u ": " ++ jf_message f).

Definition map_operation_error (operation : str) (error : SdkError) : VibeCoderError :=
  let code := sdk_code (se_kind error) in
  match se_kind error with
  | Harness UnknownSession =>
    InvalidRequest (operation ++ u ": Jcode session does not exist (" ++ code ++ u ")")
  | Harness CodeInvalidRequest | InvalidOption =>
    InvalidRequest (operation ++ u ": Jcode rejected the request (" ++ code ++ u ")")
  | _ => Agent (operation ++ u ": " ++ safe_message (se_kind error) ++ u " (" ++ code ++ u ")")
  end.

(** ** [config.rs] *)

Definition VIBECODER_OMNIROUTE_JCODE_API_BASE : str := u "http://127.0.0.1:20128/v1".
Definition VIBECODER_OMNIROUTE_JCODE_GATEWAY_ID : str := u "omniroute".
Definition VIBECODER_OMNIROUTE_JCODE_TRANSPORT_PROVIDER : str := u "OpenAI-compatible".
Definition VIBECODER_BRIDGED_MAX_TOOL_CALLS_PER_TURN : N := 32.
Definition VIBECODER_BRIDGED_FILE_TOOLS : list str :=
  [u "read"; u "write"; u "edit"; u "multiedit"; u "apply_patch"; u "patch"; u "agentgrep";
   u "ls"].

Definition DEFAULT_REQUEST_TIMEOUT_MS : N := 30000.
Definition DEFAULT_STARTUP_TIMEOUT_MS : N := 30000.
Definition DEFAULT_CLEANUP_TIMEOUT_MS : N := 30000.
Definition MAX_TIMEOUT_MS : N := 10 * 60 * 1000.

Inductive JcodeConnectionMode :=
| Shared (socket_path : option os_path) (ensure_runtime : bool)
| Private (jcode_home binary : option os_path) (inherit_logins : bool)
    (startup_timeout_ms cleanup_timeout_ms : N).

Definition default_connection_mode : JcodeConnectionMode :=
  Private None None false DEFAULT_STARTUP_TIMEOUT_MS DEFAULT_CLEANUP_TIMEOUT_MS.

Inductive JcodeModelGatewayBridge := VibeCoderOmniRouteLoopbackV1.

Definition gateway_id (b : JcodeModelGatewayBridge) : str :=
  match b with VibeCoderOmniRouteLoopbackV1 => VIBECODER_OMNIROUTE_JCODE_GATEWAY_ID end.
Definition api_base (b : JcodeModelGatewayBridge) : str :=
  match b with VibeCoderOmniRouteLoopbackV1 => VIBECODER_OMNIROUTE_JCODE_API_BASE end.
Definition bridge_transport_provider (b : JcodeModelGatewayBridge) : str :=
  match b with
  | VibeCoderOmniRouteLoopbackV1 => VIBECODER_OMNIROUTE_JCODE_TRANSPORT_PROVIDER
  end.

Record JcodeConnectionConfig := {
  jc_client_name : str;
  jc_request_timeout_ms : N;
  jc_connection : JcodeConnectionMode;
  jc_model_gateway_bridge : option JcodeModelGatewayBridge
}.

(** [env!("CARGO_PKG_VERSION")] is the version of the workspace. *)
Definition default_client_name : str := u "vibecoder/0.1.0".

Definition default_connection_config : JcodeConnectionConfig :=
  {| jc_client_name := default_client_name;
     jc_request_timeout_ms := DEFAULT_REQUEST_TIMEOUT_MS;
     jc_connection := default_connection_mode;
     jc_model_gateway_bridge := None |}.

Definition validate_timeout (name : str) (value : N) : Result unit :=
  if value =? 0 then Err (InvalidRequest (name ++ u " must be greater than zero"))
  else if MAX_TIMEOUT_MS <? value then
    Err (InvalidRequest (name ++ u " cannot exceed 600000 ms"))
  else Ok tt.

Definition empty_path (p : os_path) : bool := bool_decide (path_text p = []).

Definition is_private (m : JcodeConnectionMode) : bool :=
  match m with Private _ _ _ _ _ => true | Shared _ _ => false end.

Definition validate_mode (m : JcodeConnectionMode) : Result unit :=
  match m with
  | Shared (Some path) ensure_runtime =>
    if empty_path path then Err (InvalidRequest (u "Jcode socket_path cannot be empty"))
    else if ensure_runtime then
      Err (InvalidRequest (u "custom Jcode socket_path requires ensure_runtime=false"))
    else Ok tt
  | Shared None _ => Ok tt
  | Private jcode_home binary _ startup_timeout_ms cleanup_timeout_ms =>
    if default false (empty_path <$> jcode_home) then
      Err (InvalidRequest (u "Jcode jcode_home cannot be empty"))
    else if default false (empty_path <$> binary) then
      Err (InvalidRequest (u "Jcode binary path cannot be empty"))
    else
      let? _ := validate_timeout (u "startup_timeout_ms") startup_timeout_ms in
      validate_timeout (u "cleanup_timeout_ms") cleanup_timeout_ms
  end.

Definition JcodeConnectionConfig_validate (c : JcodeConnectionConfig) : Result unit :=
  let client_name := trim (jc_client_name c) in
  if bool_decide (client_name = []) then
    Err (InvalidRequest (u "Jcode client_name cannot be empty"))
  else if 128 <? blen client_name then
    Err (InvalidRequest (u "Jcode client_name cannot exceed 128 bytes"))
  else
    let? _ := validate_timeout (u "request_timeout_ms") (jc_request_timeout_ms c) in
    if is_some (jc_model_gateway_bridge c) && negb (is_private (jc_connection c)) then
      Err (InvalidRequest (u "Jcode model gateway bridge requires a private runtime"))
    else validate_mode (jc_connection c).

Definition model_gateway_transport_provider (c : JcodeConnectionConfig) : option str :=
  bridge_transport_provider <$> jc_model_gateway_bridge c.

(** ** What the SDK is opened with ([lifecycle.rs]) *)

(** A [HashMap<OsString, OsString>]; later entries replace earlier ones. *)
Definition model_gateway_bridge_launch_env (c : JcodeConnectionConfig) : gmap str str :=
  match jc_model_gateway_bridge c with
  | None => ∅
  | Some bridge =>
    foldl (fun env kv => <[u (kv.1) := kv.2]> env) ∅
      [("JCODE_OPENAI_COMPAT_API_BASE"%string, api_base bridge);
       ("JCODE_OPENAI_COMPAT_LOCAL_ENABLED"%string, u "1");
       ("JCODE_OPENROUTER_ALLOW_NO_AUTH"%string, u "1");
       ("JCODE_RUNTIME_PROVIDER"%string, u "openai-compatible");
       ("JCODE_INITIAL_PROVIDER_EXPLICIT"%string, u "1");
       ("JCODE_OPENROUTER_NO_FALLBACK"%string, u "1");
       ("JCODE_AUTO_POKE"%string, u "off");
       ("JCODE_RUN_AUTO_POKE"%string, u "0");
       ("JCODE_AUTOREVIEW_ENABLED"%string, u "false");
       ("JCODE_AUTOJUDGE_ENABLED"%string, u "false");
       ("JCODE_TOOL_PROFILE"%string, u "minimal");
       ("JCODE_DISABLED_TOOLS"%string, u "bash");
       ("JCODE_NO_TELEMETRY"%string, u "1");
       ("NO_PROXY"%string, u "127.0.0.1,localhost");
       ("no_proxy"%string, u "127.0.0.1,localhost")]
  end.

(** The options the adapter sets; the others keep the SDK's defaults. *)
Inductive OpenRequest :=
| SdkConnect (socket_path : option os_path) (client_name : str) (request_timeout_ms : N)
    (ensure_runtime : bool)
| SdkLaunch (jcode_home binary : option os_path) (inherit_logins : bool) (env : gmap str str)
    (startup_timeout_ms cleanup_timeout_ms : N) (client_name : str) (request_timeout_ms : N).

Definition open_request (c : JcodeConnectionConfig) : OpenRequest :=
  match jc_connection c with
  | Shared socket_path ensure_runtime =>
    SdkConnect socket_path (jc_client_name c) (jc_request_timeout_ms c) ensure_runtime
  | Private jcode_home binary inherit_logins startup_timeout_ms cleanup_timeout_ms =>
    SdkLaunch jcode_home binary inherit_logins (model_gateway_bridge_launch_env c)
      startup_timeout_ms cleanup_timeout_ms (jc_client_name c) (jc_request_timeout_ms c)
  end.

(** The second connection of the model probes. *)
Definition sidecar_request (c : JcodeConnectionConfig) (socket_path : os_path) : OpenRequest :=
  SdkConnect (Some socket_path) (u "vibecoder-model-sidecar/0.1.0") (jc_request_timeout_ms c)
    false.
