(* ===== verification/JcodePermissions.v ===== *)
(** * The Jcode adapter: the permission broker ([permission.rs])

    The state behind the broker's mutex and its operations; each takes the mutex
    once, so it is one atomic step.  Requests are identified by session, request id
    and connection generation; an answer to a request that is not pending, is not of
    this session and generation, or is being answered already is refused. *)
From S2P Require Import Prelude RustStr Domain.

(** [vibecoder-domain]'s answer to a request. *)
Inductive PermissionDecision := AllowOnce | AllowSession | Deny.

#[export] Instance PermissionDecision_eq_dec : EqDecision PermissionDecision.
Proof. solve_decision. Defined.

Definition MAX_REQUEST_ID_BYTES : N := 256.
Definition MAX_ACTION_BYTES : N := 256.
Definition MAX_DESCRIPTION_BYTES : N := 16 * 1024.
Definition MAX_PERMISSION_REQUESTS_PER_TURN : N := 256.

Record PermissionIdentity := mkIdentity {
  id_session : str;
  id_request : str;
  id_generation : N
}.

Record SessionGrantKey := mkGrant {
  gr_session : str;
  gr_action : str;
  gr_description : str
}.

#[export] Instance PermissionIdentity_eq_dec : EqDecision PermissionIdentity.
Proof. solve_decision. Defined.
#[export] Instance PermissionIdentity_countable : Countable PermissionIdentity.
Proof.
  refine (inj_countable' (fun i => (id_session i, id_request i, id_generation i))
            (fun t => mkIdentity t.1.1 t.1.2 t.2) _).
  by intros [].
Defined.
#[export] Instance SessionGrantKey_eq_dec : EqDecision SessionGrantKey.
Proof. solve_decision. Defined.
#[export] Instance SessionGrantKey_countable : Countable SessionGrantKey.
Proof.
  refine (inj_countable' (fun k => (gr_session k, gr_action k, gr_description k))
            (fun t => mkGrant t.1.1 t.1.2 t.2) _).
  by intros [].
Defined.

Record PendingPermission := {
  pe_request : PermissionRequest;
  pe_generation : N;
  pe_scope : SessionGrantKey;
  pe_responding : bool
}.

Definition pe_identity (p : PendingPermission) : PermissionIdentity :=
  mkIdentity (session_id_0 (perm_session_id (pe_request p))) (perm_request_id (pe_request p))
    (pe_generation p).

Definition set_responding (b : bool) (p : PendingPermission) : PendingPermission :=
  {| pe_request := pe_request p; pe_generation := pe_generation p; pe_scope := pe_scope p;
     pe_responding := b |}.

Inductive PermissionObservation :=
| Prompt (request : PermissionRequest)
| AutoApprove (pending : PendingPermission).

Record PermissionState := mkPermissions {
  pending_by_request_id : gmap str PendingPermission;
  resolved_this_turn : gset PermissionIdentity;
  session_grants : gset SessionGrantKey
}.

Definition no_permissions : PermissionState := mkPermissions ∅ ∅ ∅.

(** ** Validation *)

Definition request_id_is_safe_for_response (value : str) : bool :=
  negb (bool_decide (trim value = [])) && (blen value <=? MAX_REQUEST_ID_BYTES) &&
  negb (existsb is_control value).

Definition validate_request_id (value : str) : Result unit :=
  if negb (request_id_is_safe_for_response value) then
    Err (InvalidRequest (u "permission request id has an invalid format"))
  else Ok tt.

Definition validate_action (value : str) : Result unit :=
  if bool_decide (trim value = []) || (MAX_ACTION_BYTES <? blen value) ||
     existsb is_control value
  then Err (Agent (u "Jcode permission request reported an invalid action"))
  else Ok tt.

Definition description_char_invalid (c : char) : bool :=
  is_control c && negb ((c =? 10) || (c =? 13) || (c =? 9)).

Definition validate_description (value : str) : Result unit :=
  if (MAX_DESCRIPTION_BYTES <? blen value) || existsb description_char_invalid value then
    Err (Agent (u "Jcode permission request description is invalid or too large"))
  else Ok tt.

(** ** The operations *)

(** What an event asks for; the three values [observe_request] builds first. *)
Definition asked_request (session_id : SessionId) (request_id action description : str) :
    PermissionRequest :=
  {| perm_request_id := request_id; perm_session_id := session_id; perm_action := action;
     perm_reason := if bool_decide (trim description = []) then None else Some description |}.

Definition asked_scope (session_id : SessionId) (action description : str) : SessionGrantKey :=
  mkGrant (session_id_0 session_id) action description.

Definition asked_pending (session_id : SessionId) (generation : N)
    (request_id action description : str) (responding : bool) : PendingPermission :=
  {| pe_request := asked_request session_id request_id action description;
     pe_generation := generation;
     pe_scope := asked_scope session_id action description;
     pe_responding := responding |}.

Definition requests_this_turn (s : PermissionState) : N :=
  N.of_nat (size (pending_by_request_id s)) + N.of_nat (size (resolved_this_turn s)).

Definition with_pending (s : PermissionState) (m : gmap str PendingPermission) :
    PermissionState :=
  mkPermissions m (resolved_this_turn s) (session_grants s).

Definition observe_request (session_id : SessionId) (generation : N)
    (request_id action description : str) (s : PermissionState) :
    Result PermissionObservation * PermissionState :=
  match (let? _ := validate_request_id request_id in
         let? _ := validate_action action in
         validate_description description) with
  | Err e => (Err e, s)
  | Ok _ =>
    if is_some (pending_by_request_id s !! request_id) ||
       bool_decide (mkIdentity (session_id_0 session_id) request_id generation
                      ∈ resolved_this_turn s)
    then
      (Err (Agent (u "Jcode repeated a permission request id within the active turn")), s)
    else if MAX_PERMISSION_REQUESTS_PER_TURN <=? requests_this_turn s then
      (Err (Agent (u "Jcode exceeded the permission-request budget for one turn")), s)
    else
      let granted := bool_decide (asked_scope session_id action description
                                    ∈ session_grants s) in
      let pending := asked_pending session_id generation request_id action description granted in
      (Ok (if granted then AutoApprove pending else Prompt (pe_request pending)),
       with_pending s (<[request_id := pending]> (pending_by_request_id s)))
  end.

Definition begin_response (session_id : SessionId) (request_id : str) (generation : N)
    (s : PermissionState) : Result PendingPermission * PermissionState :=
  match validate_request_id request_id with
  | Err e => (Err e, s)
  | Ok _ =>
    match pending_by_request_id s !! request_id with
    | None =>
      (Err (InvalidRequest
         (u "permission request is unknown, already resolved, or no longer active")), s)
    | Some pending =>
      if negb (bool_decide (perm_session_id (pe_request pending) = session_id)) ||
         negb (pe_generation pending =? generation)
      then
        (Err (InvalidRequest
           (u "permission request does not belong to this active session/connection")), s)
      else if pe_responding pending then
        (Err (InvalidRequest
           (u "permission request already has a response in progress")), s)
      else
        let pending := set_responding true pending in
        (Ok pending, with_pending s (<[request_id := pending]> (pending_by_request_id s)))
    end
  end.

Definition complete_response (pending : PendingPermission) (decision : PermissionDecision)
    (s : PermissionState) : Result unit * PermissionState :=
  let rid := perm_request_id (pe_request pending) in
  match pending_by_request_id s !! rid with
  | None =>
    (Err (Agent (u "permission response acknowledgement lost its pending request")), s)
  | Some current =>
    if negb (bool_decide (pe_identity current = pe_identity pending)) ||
       negb (pe_responding current)
    then
      (Err (Agent
         (u "permission response acknowledgement no longer matches the active request")), s)
    else
      (Ok tt,
       mkPermissions (delete rid (pending_by_request_id s))
         ({[pe_identity current]} ∪ resolved_this_turn s)
         (if decide (decision = AllowSession) then {[pe_scope current]} ∪ session_grants s
          else session_grants s))
  end.

Definition abort_response (pending : PendingPermission) (s : PermissionState) :
    PermissionState :=
  let rid := perm_request_id (pe_request pending) in
  match pending_by_request_id s !! rid with
  | Some current =>
    if bool_decide (pe_identity current = pe_identity pending) then
      with_pending s (<[rid := set_responding false current]> (pending_by_request_id s))
    else s
  | None => s
  end.

(** [retain] keeps what is not of this session and generation. *)
Definition of_turn (session_id : SessionId) (generation : N) (i : PermissionIdentity) : bool :=
  bool_decide (id_session i = session_id_0 session_id) && (id_generation i =? generation).

Definition finish_turn (session_id : SessionId) (generation : N) (s : PermissionState) :
    PermissionState :=
  mkPermissions
    (filter (fun kv => of_turn session_id generation (pe_identity kv.2) = false)
       (pending_by_request_id s))
    (filter (fun i => of_turn session_id generation i = false) (resolved_this_turn s))
    (session_grants s).
