(* ===== verification/JcodeConnection.v ===== *)
(** * The Jcode adapter: the connection ([lifecycle.rs])

    [JcodeConnectionManager] owns the SDK client.  Its operations hold the lifecycle
    gate from beginning to end, so each is one atomic step; what they learn from the
    SDK is an argument: [closed], whether the client's socket is closed, and [open],
    what the SDK answers to a request to open a client.  [with_client] holds the
    mutex of the client instead, see [JcodeCalls.v]. *)
From S2P Require Import Prelude RustStr RustPath OsCalls Domain JcodeConfig.

Record JcodeServerIdentity := {
  si_server : str;
  si_protocol_major : N;
  si_capabilities : list str
}.

Inductive JcodeConnectionState :=
| StDisconnected
| StConnecting
| StConnected (identity : JcodeServerIdentity)
| StFaulted (failure : JcodeConnectionFailure).

Record JcodeConnectionSnapshot := mkSnapshot {
  sn_generation : N;
  sn_state : JcodeConnectionState
}.

(** A handle to an SDK client, with what the adapter reads of it. *)
Record JcodeClient := {
  cl_handle : N;
  cl_server : str;
  cl_capabilities : list str;
  cl_socket_path : os_path
}.

Record JcodeConnectionManager := mkManager {
  cm_client : option JcodeClient;
  cm_generation : N;
  cm_state : JcodeConnectionState
}.

Definition JcodeConnectionManager_new (config : JcodeConnectionConfig) :
    Result JcodeConnectionManager :=
  let? _ := JcodeConnectionConfig_validate config in
  Ok (mkManager None 0 StDisconnected).

(** [jcode_sdk::api::API_VERSION_MAJOR] *)
Definition API_VERSION_MAJOR : N := 1.

(** [Vec::dedup]. *)
Fixpoint dedup (l : list str) : list str :=
  match l with
  | x :: ((y :: _) as l') => if bool_decide (x = y) then dedup l' else x :: dedup l'
  | l => l
  end.

Definition identity_from (client : JcodeClient) : JcodeServerIdentity :=
  {| si_server := cl_server client;
     si_protocol_major := API_VERSION_MAJOR;
     si_capabilities := dedup (sort_by id (cl_capabilities client)) |}.

Definition snapshot (m : JcodeConnectionManager) : JcodeConnectionSnapshot :=
  mkSnapshot (cm_generation m) (cm_state m).

Definition set_state (state : JcodeConnectionState) (increment_generation : bool)
    (m : JcodeConnectionManager) : JcodeConnectionManager :=
  mkManager (cm_client m)
    (if increment_generation then saturating_add u64_max (cm_generation m) 1
     else cm_generation m)
    state.

Definition set_client (client : option JcodeClient) (m : JcodeConnectionManager) :
    JcodeConnectionManager :=
  mkManager client (cm_generation m) (cm_state m).

Definition transport_closed : JcodeConnectionFailure :=
  {| jf_code := u "disconnected";
     jf_message := u "Jcode harness transport closed";
     jf_class := RetryableTransport;
     jf_retryable := true |}.

Definition refresh_closed_connection (closed : bool) (m : JcodeConnectionManager) :
    JcodeConnectionManager :=
  match cm_client m with
  | Some _ => if closed then set_state (StFaulted transport_closed) false (set_client None m) else m
  | None => m
  end.

Section open.
Context (config : JcodeConnectionConfig) (open : OpenRequest -> SdkResult JcodeClient).

Definition open_client : SdkResult JcodeClient := open (open_request config).

Definition connect_locked (closed : bool) (m : JcodeConnectionManager) :
    Result JcodeConnectionSnapshot * JcodeConnectionManager :=
  let m := refresh_closed_connection closed m in
  match cm_state m with
  | StConnected _ => (Ok (snapshot m), m)
  | StConnecting => (Err (Agent (u "Jcode connection attempt is already in progress")), m)
  | StDisconnected | StFaulted _ =>
    let m := set_state StConnecting false m in
    match open_client with
    | Ok client =>
      let m := set_state (StConnected (identity_from client)) true (set_client (Some client) m) in
      (Ok (snapshot m), m)
    | Err error =>
      let failure := from_sdk error in
      (Err (into_domain_error failure), set_state (StFaulted failure) false m)
    end
  end.

Definition disconnect_locked (m : JcodeConnectionManager) :
    JcodeConnectionSnapshot * JcodeConnectionManager :=
  let m := set_state StDisconnected false (set_client None m) in (snapshot m, m).

Definition connect := connect_locked.

Definition disconnect (m : JcodeConnectionManager) :
    Result JcodeConnectionSnapshot * JcodeConnectionManager :=
  let (s, m) := disconnect_locked m in (Ok s, m).

Definition reconnect (closed : bool) (m : JcodeConnectionManager) :
    Result JcodeConnectionSnapshot * JcodeConnectionManager :=
  connect_locked closed (disconnect_locked m).2.
End open.

Definition status (closed : bool) (m : JcodeConnectionManager) :
    JcodeConnectionSnapshot * JcodeConnectionManager :=
  let m := refresh_closed_connection closed m in (snapshot m, m).

Definition is_connected (s : JcodeConnectionState) : bool :=
  match s with StConnected _ => true | _ => false end.

(** ** Lemmas *)

(** There is a client exactly when the state is [Connected], and its identity is the
    one reported. *)
Definition coherent (m : JcodeConnectionManager) : Prop :=
  match cm_state m with
  | StConnected identity => exists client, cm_client m = Some client /\ identity = identity_from client
  | _ => cm_client m = None
  end /\ cm_generation m <= u64_max.

Lemma coherent_client m c : coherent m -> cm_client m = Some c -> cm_state m = StConnected (identity_from c).
Proof. intros [H _] Hc. destruct (cm_state m); try congruence. destruct H as (c' & ? & ->). congruence. Qed.

Lemma refresh_coherent closed m : coherent m -> coherent (refresh_closed_connection closed m).
Proof.
  intros H. unfold refresh_closed_connection. destruct (cm_client m), closed; try exact H.
  by destruct H.
Qed.

Lemma refresh_generation closed m :
  cm_generation (refresh_closed_connection closed m) = cm_generation m.
Proof. unfold refresh_closed_connection. by destruct (cm_client m), closed. Qed.

Lemma disconnect_coherent m : coherent m -> coherent (disconnect_locked m).2.
Proof. by intros [_ ?]. Qed.

Lemma connect_coherent config open closed m :
  coherent m -> coherent (connect_locked config open closed m).2.
Proof.
  intros H%(refresh_coherent closed). unfold connect_locked. cbn zeta.
  set (m' := refresh_closed_connection closed m) in *. pose proof H as [H' Hg].
  assert (Hs : forall client, coherent (set_state (StConnected (identity_from client)) true
                  (set_client (Some client) (set_state StConnecting false m')))).
  { intros client. split; [by exists client|]. apply saturating_add_le. }
  destruct (cm_state m') eqn:E; try exact H;
    (destruct (open_client config open); [by apply Hs|by split]).
Qed.

(** The generation changes, by one, exactly when a new client has been opened. *)
Lemma connect_generation config open closed m r m' :
  cm_generation m < u64_max -> connect_locked config open closed m = (r, m') ->
  (cm_generation m' = cm_generation m /\ (cm_client m' = None \/ cm_client m' = cm_client m)) \/
  (cm_generation m' = cm_generation m + 1 /\ exists c, open (open_request config) = Ok c /\
     cm_client m' = Some c).
Proof.
  intros Hg. unfold connect_locked. cbn zeta.
  pose proof (refresh_generation closed m) as Hgen.
  assert (Hcl : cm_client (refresh_closed_connection closed m) = None \/
                cm_client (refresh_closed_connection closed m) = cm_client m).
  { unfold refresh_closed_connection. destruct (cm_client m) eqn:E, closed; cbn; auto. }
  set (m1 := refresh_closed_connection closed m) in *.
  destruct (cm_state m1); [| |intros [= <- <-]; by left|];
    [|intros [= <- <-]; by left|];
    (unfold open_client; destruct (open (open_request config)) as [c|e]; intros [= <- <-]; cbn;
     [right; rewrite saturating_add_small by lia; rewrite Hgen; eauto|left; by rewrite Hgen]).
Qed.
