(* ===== verification/JcodeSessions.v ===== *)
(** * The Jcode adapter: sessions, the active turn, probed models

    The states behind the locks of [session.rs], [turn.rs] and [model.rs] and their
    operations, each one atomic step under its lock, and the checks of what the SDK
    reports about sessions. *)
From S2P Require Import Prelude RustStr RustPath Domain.

(** ** [SessionRegistry] *)

Record SessionBinding := mkBinding {
  sb_project_id : ProjectId;
  sb_project_root : os_path;
  sb_generation : N
}.

Record SessionRegistryState := mkSessions {
  bindings : gmap str SessionBinding;
  attached_session : option str
}.

Definition no_sessions : SessionRegistryState := mkSessions ∅ None.

Definition binding (session_id : SessionId) (s : SessionRegistryState) :
    option SessionBinding :=
  bindings s !! session_id_0 session_id.

Definition is_attached_on_generation (session_id : SessionId) (generation : N)
    (s : SessionRegistryState) : bool :=
  let active := bool_decide (attached_session s = Some (session_id_0 session_id)) in
  let current :=
    match bindings s !! session_id_0 session_id with
    | Some b => sb_generation b =? generation
    | None => false
    end in
  active && current.

Definition other_project (b : SessionBinding) (project : ProjectId) (root : os_path) : bool :=
  negb (bool_decide (sb_project_id b = project)) || negb (path_eqb (sb_project_root b) root).

Definition mark_attached (session_id : SessionId) (project : ProjectRef) (root : os_path)
    (generation : N) (s : SessionRegistryState) : Result unit * SessionRegistryState :=
  if match bindings s !! session_id_0 session_id with
     | Some existing => other_project existing (pr_id project) root
     | None => false
     end
  then (Err (InvalidRequest (u "session id is already bound to a different project")), s)
  else
    (Ok tt,
     mkSessions
       (<[session_id_0 session_id := mkBinding (pr_id project) root generation]> (bindings s))
       (Some (session_id_0 session_id))).

Definition clear_attachment (s : SessionRegistryState) : SessionRegistryState :=
  mkSessions (bindings s) None.

(** ** What the SDK reports about sessions *)

(** [jcode_sdk::SessionInfo], the fields the adapter reads. *)
Record SessionInfo := {
  in_session_id : str;
  in_working_dir : option str
}.

(** An ASCII letter or digit, [_] or [-]. *)
Definition session_id_char (c : char) : bool :=
  is_ascii_alphanumeric c || (c =? 95) || (c =? 45).

Definition validate_jcode_session_id (session_id : SessionId) : Result unit :=
  let value := session_id_0 session_id in
  if bool_decide (value = []) || (128 <? blen value) || negb (forallb session_id_char value)
  then Err (InvalidRequest (u "Jcode session id has an invalid format"))
  else Ok tt.

Definition verify_attached_session_id (attached : SessionInfo)
    (expected_session : option SessionId) : Result SessionId :=
  match SessionId_parse (in_session_id attached) with
  | Err _ => Err (Agent (u "Jcode returned an invalid session identifier"))
  | Ok actual_id =>
    match validate_jcode_session_id actual_id with
    | Err _ => Err (Agent (u "Jcode returned a malformed session identifier"))
    | Ok _ =>
      match expected_session with
      | Some expected =>
        if bool_decide (actual_id = expected) then Ok actual_id
        else Err (Agent (u "Jcode attached a different session than requested"))
      | None => Ok actual_id
      end
    end
  end.

Definition of_session (session_id : SessionId) (candidate : SessionInfo) : bool :=
  bool_decide (in_session_id candidate = session_id_0 session_id).

Definition duplicate_metadata : VibeCoderError :=
  Agent (u "Jcode returned duplicate metadata for one session").

Definition session_metadata (sessions : list SessionInfo) (session_id : SessionId) :
    Result SessionInfo :=
  match List.filter (of_session session_id) sessions with
  | [] =>
    Err (Agent
      (u "Jcode session metadata is unavailable, so project identity cannot be verified"))
  | [first] => Ok first
  | _ => Err duplicate_metadata
  end.

(** ** [TurnRegistry] *)

Record ActiveTurn := mkTurn {
  at_session : SessionId;
  at_generation : N;
  at_cancel_requested : bool;
  at_worker_finished : bool
}.

Definition turn_is (session_id : SessionId) (generation : N) (t : ActiveTurn) : bool :=
  bool_decide (at_session t = session_id) && (at_generation t =? generation).

Definition turns_begin (session_id : SessionId) (generation : N) (active : option ActiveTurn) :
    Result unit * option ActiveTurn :=
  match active with
  | Some existing =>
    (Err (InvalidRequest
       (u "a Jcode turn is already running for session " ++ session_id_0 (at_session existing))),
     active)
  | None => (Ok tt, Some (mkTurn session_id generation false false))
  end.

Definition active_generation (session_id : SessionId) (active : option ActiveTurn) : option N :=
  match active with
  | Some turn =>
    if bool_decide (at_session turn = session_id) && negb (at_worker_finished turn)
    then Some (at_generation turn) else None
  | None => None
  end.

Definition mark_worker_finished (session_id : SessionId) (generation : N)
    (active : option ActiveTurn) : Result unit * option ActiveTurn :=
  match active with
  | None => (Ok tt, active)
  | Some turn =>
    if negb (turn_is session_id generation turn) then
      (Err (Agent (u "Jcode worker completion did not match the active turn")), active)
    else
      (Ok tt, Some (mkTurn (at_session turn) (at_generation turn) (at_cancel_requested turn) true))
  end.

Definition mark_cancel_acknowledged (session_id : SessionId) (active : option ActiveTurn) :
    Result bool * option ActiveTurn :=
  match active with
  | None => (Ok false, active)
  | Some turn =>
    if bool_decide (at_session turn = session_id) then
      (Ok true, Some (mkTurn (at_session turn) (at_generation turn) true (at_worker_finished turn)))
    else
      (Err (InvalidRequest (u "the requested session does not own the active Jcode turn")), active)
  end.

(** [finish], between taking and releasing the control gate. *)
Definition turns_finish (session_id : SessionId) (generation : N) (active : option ActiveTurn) :
    Result bool * option ActiveTurn :=
  match active with
  | None => (Err (Agent (u "Jcode active-turn state disappeared before completion")), active)
  | Some turn =>
    if negb (turn_is session_id generation turn) then
      (Err (Agent (u "Jcode active-turn identity changed before completion")), active)
    else (Ok (at_cancel_requested turn), None)
  end.

Definition should_cancel_abandoned (session_id : SessionId) (generation : N)
    (active : option ActiveTurn) : bool :=
  match active with
  | Some turn => turn_is session_id generation turn && negb (at_worker_finished turn)
  | None => false
  end.

Definition force_clear (session_id : SessionId) (generation : N) (active : option ActiveTurn) :
    option ActiveTurn :=
  match active with
  | Some turn => if turn_is session_id generation turn then None else active
  | None => None
  end.

(** ** [ModelCapabilityRegistry]: the generation on which a catalog was read *)

Definition is_verified (generation : N) (verified : option N) : bool :=
  bool_decide (verified = Some generation).

Definition mark_verified (generation : N) (verified : option N) : option N := Some generation.

(** ** Lemmas *)

Lemma turn_is_true sid g t : turn_is sid g t = true <-> at_session t = sid /\ at_generation t = g.
Proof. unfold turn_is. rewrite andb_true_iff, bool_decide_eq_true, N.eqb_eq. done. Qed.

Lemma session_metadata_ok sessions sid info :
  session_metadata sessions sid = Ok info <->
  List.filter (of_session sid) sessions = [info].
Proof.
  unfold session_metadata. destruct (List.filter _ _) as [|x [|]]; naive_solver.
Qed.

Lemma verify_attached_ok info sid actual :
  verify_attached_session_id info (Some sid) = Ok actual ->
  actual = sid /\ in_session_id info = session_id_0 sid.
Proof.
  unfold verify_attached_session_id, SessionId_parse. destruct (bool_decide (trim _ = _)); [done|].
  destruct (validate_jcode_session_id _); [|done]. case_bool_decide; [|done]. intros [= <-].
  by subst sid.
Qed.

(** A binding, once made, stays with its project and root. *)
Definition same_binding (b b' : SessionBinding) : Prop :=
  sb_project_id b = sb_project_id b' /\ path_eqb (sb_project_root b) (sb_project_root b') = true.

Lemma path_eqb_refl p : path_eqb p p = true.
Proof. destruct p; by apply bool_decide_eq_true. Qed.

Lemma path_eqb_trans p q r : path_eqb p q = true -> path_eqb q r = true -> path_eqb p r = true.
Proof.
  destruct p, q, r; cbn; try done; rewrite !bool_decide_eq_true; congruence.
Qed.

#[export] Instance same_binding_preorder : PreOrder same_binding.
Proof.
  split; [by split; [|apply path_eqb_refl]|].
  intros a b c [? ?] [? ?]. split; [congruence|by eapply path_eqb_trans].
Qed.

Definition bindings_kept (s s' : SessionRegistryState) : Prop :=
  forall x b, bindings s !! x = Some b -> exists b', bindings s' !! x = Some b' /\ same_binding b b'.

#[export] Instance bindings_kept_preorder : PreOrder bindings_kept.
Proof.
  split; [intros s x b H; by exists b|].
  intros a b c Hab Hbc x p (q & Hq & Hpq)%Hab. destruct (Hbc _ _ Hq) as (r & Hr & Hqr).
  exists r. split; [done|]. by etransitivity.
Qed.

Lemma mark_attached_kept sid project root g s :
  bindings_kept s (mark_attached sid project root g s).2.
Proof.
  unfold mark_attached. destruct (bindings s !! session_id_0 sid) as [old|] eqn:E;
    [destruct (other_project _ _ _) eqn:Ho; [done|]|]; intros x b Hb; cbn.
  - destruct (decide (x = session_id_0 sid)) as [->|]; [|rewrite lookup_insert_ne by done; by exists b].
    rewrite lookup_insert_eq. eexists. split; [done|]. rewrite E in Hb. injection Hb as <-.
    unfold other_project in Ho. apply orb_false_iff in Ho as [Hp Hr].
    apply negb_false_iff, bool_decide_eq_true in Hp. apply negb_false_iff in Hr. by split.
  - rewrite lookup_insert_ne by congruence. by exists b.
Qed.

Lemma clear_attachment_kept s : bindings_kept s (clear_attachment s).
Proof. intros x b H. by exists b. Qed.
