(* ===== verification/JcodeCalls.v ===== *)
(** * The Jcode adapter: what its operations call

    The adapter is shared by threads: operations of the runtime, the worker of a
    turn and the event callback the SDK runs on it.  Each is a program
    ([Program.v]) over the calls below.  A call is one atomic step on the state the
    threads share, [JcodeState]: an operation of a registry under its lock, a
    lifecycle operation of the connection under its gate, taking or releasing a lock
    that is held for longer.  The calls of the SDK and of the file system are
    answered arbitrarily.  [shared_step] is the step relation; locks block, so a
    step that takes one is possible when it is free. *)
From S2P Require Import Prelude RustStr RustPath Program Domain JcodeConfig.
From S2P Require Import JcodePermissions JcodeConnection JcodeSessions.

(** ** Data of the SDK, the parts the adapter reads *)

(** The events the adapter looks at; it ignores every other. *)
Inductive ApiEvent :=
| ApiTextDelta (session_id text : str)
| ApiMessageAccepted (session_id : str)
| ApiToolStart (session_id call_id name : str)
| ApiToolDone (session_id call_id name output : str) (error : option str)
| ApiBackgroundProgress (session_id task_id label : str) (percent : option N) (summary : str)
    (done : bool)
| ApiSessionStatus (session_id status : str)
| ApiTokenUsage (session_id : str) (input output : N) (cache_read_input : option N)
| ApiTurnDone (session_id : str)
| ApiPermissionRequest (session_id request_id tool_name description : str)
| ApiModelInfo (session_id : str)
| ApiOther.

Record SdkToolCall := {
  sc_call_id : str;
  sc_name : str;
  sc_output : str;
  sc_error : option str
}.

Record SdkUsage := {
  su_input : N;
  su_output : N;
  su_cache_read_input : option N
}.

Record SdkTurnResult := {
  sr_text : str;
  sr_tool_calls : list SdkToolCall;
  sr_usage : option SdkUsage
}.

Inductive SdkPermissionDecision := SdkAllow | SdkDeny.

Record ModelRouteInfo := {
  ro_model : str;
  ro_provider : str;
  ro_available : bool
}.

Record RuntimeInfo := {
  ri_session_id : str;
  ri_provider : option str;
  ri_model : option str;
  ri_routes : list ModelRouteInfo
}.

(** One turn of the loop that waits for an event: the deadline has passed, or the
    stream has delivered an event, or it has ended or timed out. *)
Inductive ProbeStep := Expired | Delivered (event : ApiEvent) | Ended.

(** ** The worker of a turn *)

Record TurnSafetyState := mkSafety {
  permission_protocol_failure : bool;
  tool_limit_exceeded : bool;
  tool_policy_failure : bool
}.

(** What [run_options] captures. *)
Record TurnOptions := {
  to_session : SessionId;
  to_client : JcodeClient;
  to_permissions_supported : bool;
  to_generation : N;
  to_max_tool_calls : option N;
  to_allowed_tools : option (list str);
  to_has_handler : bool
}.

(** What the worker sends through the channel, with the flags of the turn as they
    are then. *)
Record WorkerMessage := mkMessage {
  wm_result : SdkResult SdkTurnResult;
  wm_completion : Result unit;
  wm_safety : TurnSafetyState
}.

(** [receiver.await]: the message, the channel closed without one, or the caller's
    future dropped while it waits. *)
Inductive Awaited := Received (m : WorkerMessage) | SenderDropped | CallerDropped.

(** ** Calls *)

Inductive jcode_call :=
(* std::fs *)
| FsCanonicalize (p : os_path)
| FsIsDir (p : os_path)
(* the SDK *)
| SdkOpenSidecar (request : OpenRequest)
| SdkSubscribe (c : JcodeClient) (session_id : str)
| SdkProbe (c : JcodeClient) (session_id : str) (timeout_ms : N)
| SdkAttach (c : JcodeClient) (session_id : str)
| SdkCreate (c : JcodeClient) (working_dir : str)
| SdkListSessions (c : JcodeClient)
| SdkListModels (c : JcodeClient) (session_id : str)
| SdkRuntimeInfo (c : JcodeClient) (session_id : str)
| SdkSetModel (c : JcodeClient) (session_id model : str)
| SdkRun (c : JcodeClient) (session_id prompt : str)
| SdkRespond (c : JcodeClient) (session_id request_id : str) (d : SdkPermissionDecision)
| SdkCancel (c : JcodeClient) (session_id : str)
(* the application's event handler; the answer is false when it panics *)
| HandlerCall (event : AgentEvent)
(* threads *)
| SpawnWorker (options : TurnOptions) (prompt : str)
| AwaitWorker (worker : nat)
(* the locks that are held across calls *)
| LockGate | UnlockGate
| LockControl | UnlockControl
| LockClient | UnlockClient
(* JcodeConnectionManager *)
| ConnConnect | ConnDisconnect | ConnReconnect | ConnStatus
| ConnRefresh
| ConnCurrent               (* refresh and read the client, under the gate *)
| ConnClone                 (* read the client *)
(* SessionRegistry *)
| SessBinding (session_id : SessionId)
| SessIsAttached (session_id : SessionId) (generation : N)
| SessMarkAttached (session_id : SessionId) (project : ProjectRef) (root : os_path)
    (generation : N)
| SessClear
(* TurnRegistry *)
| TurnsBegin (session_id : SessionId) (generation : N)
| TurnsHasActive
| TurnsActiveGeneration (session_id : SessionId)
| TurnsWorkerFinished (session_id : SessionId) (generation : N)
| TurnsCancelAcknowledged (session_id : SessionId)
| TurnsFinish (session_id : SessionId) (generation : N)
| TurnsShouldCancel (session_id : SessionId) (generation : N)
| TurnsForceClear (session_id : SessionId) (generation : N)
(* PermissionRegistry *)
| PermObserve (session_id : SessionId) (generation : N) (request_id action description : str)
| PermBegin (session_id : SessionId) (request_id : str) (generation : N)
| PermComplete (pending : PendingPermission) (d : PermissionDecision)
| PermAbort (pending : PendingPermission)
| PermFinishTurn (session_id : SessionId) (generation : N)
(* ModelCapabilityRegistry *)
| ModelsIsVerified (generation : N)
| ModelsMarkVerified (generation : N).

(** [SdkRun] answers with the events its callback is given and the result; the
    worker handles the events one by one afterwards, each with calls of its own
    that interleave with everyone else's. *)
Definition jcode_resp (c : jcode_call) : Type :=
  match c with
  | FsCanonicalize _ => option os_path
  | FsIsDir _ | HandlerCall _ | SessIsAttached _ _ | TurnsHasActive | TurnsShouldCancel _ _
  | ModelsIsVerified _ => bool
  | SdkOpenSidecar _ => SdkResult JcodeClient
  | SdkProbe _ _ _ => list ProbeStep
  | SdkAttach _ _ | SdkCreate _ _ => SdkResult SessionInfo
  | SdkListSessions _ => SdkResult (list SessionInfo)
  | SdkListModels _ _ => SdkResult (list str)
  | SdkRuntimeInfo _ _ => SdkResult RuntimeInfo
  | SdkSetModel _ _ _ | SdkRespond _ _ _ _ | SdkCancel _ _ => SdkResult unit
  | SdkRun _ _ _ => list ApiEvent * SdkResult SdkTurnResult
  | SpawnWorker _ _ => option nat
  | AwaitWorker _ => Awaited
  | LockClient | ConnCurrent | ConnClone => option JcodeClient
  | ConnConnect | ConnDisconnect | ConnReconnect => Result JcodeConnectionSnapshot
  | ConnStatus => JcodeConnectionSnapshot
  | SessBinding _ => option SessionBinding
  | SessMarkAttached _ _ _ _ | TurnsBegin _ _ | TurnsWorkerFinished _ _ | PermComplete _ _ =>
    Result unit
  | TurnsActiveGeneration _ => option N
  | TurnsCancelAcknowledged _ | TurnsFinish _ _ => Result bool
  | PermObserve _ _ _ _ _ => Result PermissionObservation
  | PermBegin _ _ _ => Result PendingPermission
  | SdkSubscribe _ _ | LockGate | UnlockGate | LockControl | UnlockControl | UnlockClient
  | ConnRefresh | SessClear | TurnsForceClear _ _ | PermAbort _ | PermFinishTurn _ _
  | ModelsMarkVerified _ => unit
  end.

Canonical Structure jcode_sig : signature := Sig jcode_call jcode_resp.
Abbreviation jcode := (Program.program jcode_sig).
Abbreviation jevent := (Program.event jcode_sig).

(** ** The shared state *)

Record JcodeState := mkJcode {
  js_connection : JcodeConnectionManager;
  js_client_locked : bool;
  js_gate : bool;
  js_control : bool;
  js_sessions : SessionRegistryState;
  js_turns : option ActiveTurn;
  js_permissions : PermissionState;
  js_models : option N
}.

Definition initial_state (m : JcodeConnectionManager) : JcodeState :=
  mkJcode m false false false no_sessions None no_permissions None.

Definition set_connection m (s : JcodeState) : JcodeState :=
  mkJcode m (js_client_locked s) (js_gate s) (js_control s) (js_sessions s) (js_turns s)
    (js_permissions s) (js_models s).
Definition set_client_locked b (s : JcodeState) : JcodeState :=
  mkJcode (js_connection s) b (js_gate s) (js_control s) (js_sessions s) (js_turns s)
    (js_permissions s) (js_models s).
Definition set_gate b (s : JcodeState) : JcodeState :=
  mkJcode (js_connection s) (js_client_locked s) b (js_control s) (js_sessions s) (js_turns s)
    (js_permissions s) (js_models s).
Definition set_control b (s : JcodeState) : JcodeState :=
  mkJcode (js_connection s) (js_client_locked s) (js_gate s) b (js_sessions s) (js_turns s)
    (js_permissions s) (js_models s).
Definition set_sessions x (s : JcodeState) : JcodeState :=
  mkJcode (js_connection s) (js_client_locked s) (js_gate s) (js_control s) x (js_turns s)
    (js_permissions s) (js_models s).
Definition set_turns x (s : JcodeState) : JcodeState :=
  mkJcode (js_connection s) (js_client_locked s) (js_gate s) (js_control s) (js_sessions s) x
    (js_permissions s) (js_models s).
Definition set_permissions x (s : JcodeState) : JcodeState :=
  mkJcode (js_connection s) (js_client_locked s) (js_gate s) (js_control s) (js_sessions s)
    (js_turns s) x (js_models s).
Definition set_models x (s : JcodeState) : JcodeState :=
  mkJcode (js_connection s) (js_client_locked s) (js_gate s) (js_control s) (js_sessions s)
    (js_turns s) (js_permissions s) x.

Section step.
Context (config : JcodeConnectionConfig).

(** A lifecycle operation of the connection; it waits for the client's mutex. *)
Definition conn_step {A} (op : bool -> (OpenRequest -> SdkResult JcodeClient) ->
    JcodeConnectionManager -> A * JcodeConnectionManager) (s : JcodeState) (r : A)
    (s' : JcodeState) : Prop :=
  js_client_locked s = false /\
  exists closed open m, op closed open (js_connection s) = (r, m) /\ s' = set_connection m s.

(** [shared_step s c r s']: in state [s] the call [c] can be answered by [r]. *)
Definition shared_step (s : JcodeState) (c : jcode_call) : jcode_resp c -> JcodeState -> Prop :=
  match c with
  | LockGate => fun _ s' => js_gate s = false /\ s' = set_gate true s
  | UnlockGate => fun _ s' => s' = set_gate false s
  | LockControl => fun _ s' => js_control s = false /\ s' = set_control true s
  | UnlockControl => fun _ s' => s' = set_control false s
  | LockClient => fun r s' =>
      js_client_locked s = false /\ r = cm_client (js_connection s) /\
      s' = set_client_locked true s
  | UnlockClient => fun _ s' => s' = set_client_locked false s
  | ConnConnect => conn_step (fun closed open => connect config open closed) s
  | ConnDisconnect => conn_step (fun _ _ => disconnect) s
  | ConnReconnect => conn_step (fun closed open => reconnect config open closed) s
  | ConnStatus => conn_step (fun closed _ => status closed) s
  | ConnRefresh => conn_step (fun closed _ m => (tt, refresh_closed_connection closed m)) s
  | ConnCurrent => conn_step (fun closed _ m =>
      let m := refresh_closed_connection closed m in (cm_client m, m)) s
  | ConnClone => fun r s' =>
      js_client_locked s = false /\ r = cm_client (js_connection s) /\ s' = s
  | SessBinding sid => fun r s' => r = binding sid (js_sessions s) /\ s' = s
  | SessIsAttached sid g => fun r s' =>
      r = is_attached_on_generation sid g (js_sessions s) /\ s' = s
  | SessMarkAttached sid project root g => fun r s' =>
      exists x, mark_attached sid project root g (js_sessions s) = (r, x) /\
        s' = set_sessions x s
  | SessClear => fun _ s' => s' = set_sessions (clear_attachment (js_sessions s)) s
  | TurnsBegin sid g => fun r s' =>
      exists x, turns_begin sid g (js_turns s) = (r, x) /\ s' = set_turns x s
  | TurnsHasActive => fun r s' => r = is_some (js_turns s) /\ s' = s
  | TurnsActiveGeneration sid => fun r s' => r = active_generation sid (js_turns s) /\ s' = s
  | TurnsWorkerFinished sid g => fun r s' =>
      exists x, mark_worker_finished sid g (js_turns s) = (r, x) /\ s' = set_turns x s
  | TurnsCancelAcknowledged sid => fun r s' =>
      exists x, mark_cancel_acknowledged sid (js_turns s) = (r, x) /\ s' = set_turns x s
  | TurnsFinish sid g => fun r s' =>
      exists x, turns_finish sid g (js_turns s) = (r, x) /\ s' = set_turns x s
  | TurnsShouldCancel sid g => fun r s' =>
      r = should_cancel_abandoned sid g (js_turns s) /\ s' = s
  | TurnsForceClear sid g => fun _ s' => s' = set_turns (force_clear sid g (js_turns s)) s
  | PermObserve sid g rid action description => fun r s' =>
      exists x, observe_request sid g rid action description (js_permissions s) = (r, x) /\
        s' = set_permissions x s
  | PermBegin sid rid g => fun r s' =>
      exists x, begin_response sid rid g (js_permissions s) = (r, x) /\ s' = set_permissions x s
  | PermComplete p d => fun r s' =>
      exists x, complete_response p d (js_permissions s) = (r, x) /\ s' = set_permissions x s
  | PermAbort p => fun _ s' => s' = set_permissions (abort_response p (js_permissions s)) s
  | PermFinishTurn sid g => fun _ s' =>
      s' = set_permissions (finish_turn sid g (js_permissions s)) s
  | ModelsIsVerified g => fun r s' => r = is_verified g (js_models s) /\ s' = s
  | ModelsMarkVerified g => fun _ s' => s' = set_models (mark_verified g (js_models s)) s
  | _ => fun _ s' => s' = s
  end.
End step.
