(* ===== verification/JcodeModels.v ===== *)
(** * The Jcode adapter: models ([model.rs])

    Reading a session's catalog, choosing a model from it, and reading back which
    model is active. *)
From S2P Require Import Prelude RustStr RustPath Program Domain JcodeConfig.
From S2P Require Import JcodePermissions JcodeConnection JcodeSessions JcodeCalls.

Definition MAX_MODEL_ID_BYTES : N := 512.
Definition MAX_PROVIDER_BYTES : N := 128.

Definition give {A} (r : Result A) : jcode (Result A) := Ret r.

(** [sdk.map_err(|error| map_operation_error(operation, error))]. *)
Definition sdk_call {A} (operation : str) (p : jcode (SdkResult A)) : jcode (Result A) :=
  do r <- p;
  Ret (match r with Ok a => Ok a | Err e => Err (map_operation_error operation e) end).

(** ** Validation *)

Definition validate_component (label value : str) (max_bytes : N) : Result unit :=
  if bool_decide (value = []) || negb (bool_decide (trim value = value)) ||
     (max_bytes <? blen value)
  then Err (InvalidRequest (label ++ u " is empty, padded, or too long"))
  else if existsb is_control value then
    Err (InvalidRequest (label ++ u " contains control characters"))
  else Ok tt.

Definition validate_model_ref (model : ModelRef) : Result unit :=
  let? _ := validate_component (u "model id") (mr_id model) MAX_MODEL_ID_BYTES in
  match mr_provider model with
  | Some provider => validate_component (u "model provider") provider MAX_PROVIDER_BYTES
  | None => Ok tt
  end.

(** ** The fresh probe *)

Definition is_model_info (session_id : SessionId) (event : ApiEvent) : bool :=
  match event with
  | ApiModelInfo observed => bool_decide (observed = session_id_0 session_id)
  | _ => false
  end.

Fixpoint probe_result (session_id : SessionId) (steps : list ProbeStep) : Result unit :=
  match steps with
  | Delivered event :: steps =>
    if is_model_info session_id event then Ok tt else probe_result session_id steps
  | Expired :: _ =>
    Err (Agent (u "Jcode did not publish fresh model metadata after session attachment"))
  | Ended :: _ | [] =>
    Err (Agent
      (u "Jcode model metadata stream ended or timed out after session attachment"))
  end.

Definition wait_for_fresh_model_probe (client : JcodeClient) (session_id : SessionId)
    (timeout_ms : N) : jcode (Result unit) :=
  do steps <- call_ (SdkProbe client (session_id_0 session_id) timeout_ms);
  Ret (probe_result session_id steps).

(** ** Discovery *)

Definition add_route (route : ModelRouteInfo) (by_model : gmap str (gset str)) :
    gmap str (gset str) :=
  <[ro_model route := {[ro_provider route]} ∪ default ∅ (by_model !! ro_model route)]> by_model.

Fixpoint providers_by_model (routes : list ModelRouteInfo) (by_model : gmap str (gset str)) :
    Result (gmap str (gset str)) :=
  match routes with
  | [] => Ok by_model
  | route :: routes =>
    if ro_available route then
      if is_err (validate_model_ref (mkModelRef (ro_model route) None (Some (ro_provider route))))
      then Err (Agent (u "Jcode returned malformed model-route metadata"))
      else providers_by_model routes (add_route route by_model)
    else providers_by_model routes by_model
  end.

(** [values.len() == 1]. *)
Definition sole_provider (providers : gmap str (gset str)) (id : str) : option str :=
  match providers !! id with
  | Some values => match elements values with [provider] => Some provider | _ => None end
  | None => None
  end.

Fixpoint catalog_of (providers : gmap str (gset str)) (models : list str) (seen : gset str) :
    Result (list ModelRef) :=
  match models with
  | [] => Ok []
  | id :: models =>
    if is_err (validate_model_ref (mkModelRef id None None)) then
      Err (Agent (u "Jcode returned a malformed model identifier"))
    else if bool_decide (id ∈ seen) then
      Err (Agent (u "Jcode returned duplicate model identifiers"))
    else
      let? catalog := catalog_of providers models ({[id]} ∪ seen) in
      Ok (mkModelRef id None (sole_provider providers id) :: catalog)
  end.

Definition discover_models (client : JcodeClient) (session_id : SessionId) :
    jcode (Result (list ModelRef)) :=
  let sid := session_id_0 session_id in
  try models <- sdk_call (u "list_models") (call_ (SdkListModels client sid));
  try runtime <- sdk_call (u "model_runtime_info") (call_ (SdkRuntimeInfo client sid));
  if negb (bool_decide (ri_session_id runtime = sid)) then
    give (Err (Agent (u "Jcode returned model metadata for a different session")))
  else
    try providers <- give (providers_by_model (ri_routes runtime) ∅);
    give (catalog_of providers models ∅).

(** ** Selection *)

Definition check_available (requested available : ModelRef)
    (bridge_transport_provider : option str) : Result unit :=
  match bridge_transport_provider with
  | Some transport_provider =>
    if negb (bool_decide (mr_provider available = Some transport_provider)) then
      Err (InvalidRequest
        (u "Jcode bridged model route does not report the expected transport provider"))
    else Ok tt
  | None =>
    match mr_provider requested with
    | Some expected_provider =>
      match mr_provider available with
      | Some actual_provider =>
        if bool_decide (actual_provider = expected_provider) then Ok tt
        else Err (InvalidRequest
          (u "requested model provider does not match Jcode runtime metadata"))
      | None =>
        Err (InvalidRequest
          (u "requested model provider cannot be unambiguously verified from Jcode routes"))
      end
    | None => Ok tt
    end
  end.

Definition select_model_from_catalog (client : JcodeClient) (session_id : SessionId)
    (requested : ModelRef) (catalog : list ModelRef) (bridge_transport_provider : option str) :
    jcode (Result unit) :=
  try _ <- give (validate_model_ref requested);
  match List.find (fun candidate => bool_decide (mr_id candidate = mr_id requested)) catalog with
  | None =>
    give (Err (InvalidRequest
      (u "requested model is not in this session's current Jcode catalog")))
  | Some available =>
    try _ <- give (check_available requested available bridge_transport_provider);
    sdk_call (u "set_model")
      (call_ (SdkSetModel client (session_id_0 session_id) (mr_id requested)))
  end.

(** What the checks after [get_runtime_info] return. *)
Definition active_model (session_id : SessionId) (requested : ModelRef)
    (bridge_transport_provider : option str) (runtime : RuntimeInfo) : Result ModelRef :=
  if negb (bool_decide (ri_session_id runtime = session_id_0 session_id)) then
    Err (Agent (u "Jcode verified a model change against a different session"))
  else
    match ri_model runtime with
    | None => Err (Agent (u "Jcode fresh active-model probe did not report a model identity"))
    | Some active_model =>
      if negb (bool_decide (active_model = mr_id requested)) then
        Err (Agent (u "Jcode acknowledged a model change but a fresh probe did not report the requested model active"))
      else
        match ri_provider runtime with
        | None =>
          Err (Agent (u "Jcode fresh active-provider probe did not report a provider identity"))
        | Some active_provider =>
          match bridge_transport_provider with
          | Some transport_provider =>
            if negb (bool_decide (active_provider = transport_provider)) then
              Err (Agent (u "Jcode fresh active-provider probe does not match the attested gateway transport provider"))
            else Ok (mkModelRef active_model (mr_display_name requested) (mr_provider requested))
          | None =>
            if negb (bool_decide (mr_provider requested = Some active_provider)) then
              Err (Agent (u "Jcode fresh active-provider probe does not match the requested model provider"))
            else Ok (mkModelRef active_model None (Some active_provider))
          end
        end
    end.

Definition verify_active_model (client : JcodeClient) (session_id : SessionId)
    (requested : ModelRef) (bridge_transport_provider : option str) : jcode (Result ModelRef) :=
  try _ <- give (validate_model_ref requested);
  try runtime <- sdk_call (u "set_model_verify")
                   (call_ (SdkRuntimeInfo client (session_id_0 session_id)));
  give (active_model session_id requested bridge_transport_provider runtime).
