(* ===== verification/JcodeTurn.v ===== *)
(** * The Jcode adapter: running a turn ([turn.rs])

    The event callback of a turn, the worker that runs the turn, and the lease of the
    caller.  The flags and the counter are [Arc]s of the callback and of the caller,
    who reads them after the worker's message: the callback's state is threaded
    through the worker and its flags are part of the message. *)
From S2P Require Import Prelude RustStr RustPath Program Domain JcodeConfig.
From S2P Require Import JcodePermissions JcodeConnection JcodeSessions JcodeCalls JcodeModels.

(** ** What the application is told *)

Definition mine (expected_session : SessionId) (session_id : str) : bool :=
  bool_decide (session_id = session_id_0 expected_session).

Definition map_stream_event (expected_session : SessionId) (event : ApiEvent) :
    option AgentEvent :=
  let when session_id mapped :=
    if mine expected_session session_id then Some mapped else None in
  match event with
  | ApiTextDelta session_id text => when session_id (TextDelta text)
  | ApiMessageAccepted session_id => when session_id MessageAccepted
  | ApiToolStart session_id call_id name => when session_id (ToolStarted name call_id)
  | ApiToolDone session_id call_id name output error =>
    when session_id (ToolFinished name call_id (is_none error) output error)
  | ApiBackgroundProgress session_id task_id label percent summary done =>
    when session_id (BackgroundProgress task_id label percent summary done)
  | ApiSessionStatus session_id status => when session_id (SessionStatus status)
  | ApiTokenUsage session_id input output cache_read_input =>
    when session_id (EvTokenUsage
      {| tu_input := input; tu_output := output; tu_cache_read_input := cache_read_input |})
  | ApiTurnDone session_id => when session_id TurnCompleted
  | ApiPermissionRequest _ _ _ _ | ApiModelInfo _ | ApiOther => None
  end.

Definition map_turn_result (turn : SdkTurnResult) (cancelled : bool) : TurnResult :=
  {| tr_text := sr_text turn; tr_cancelled := cancelled;
     tr_tool_calls :=
       map (fun call => {| tc_call_id := sc_call_id call; tc_tool := sc_name call;
                           tc_output := sc_output call; tc_error := sc_error call |})
         (sr_tool_calls turn);
     tr_usage :=
       (fun usage => {| tu_input := su_input usage; tu_output := su_output usage;
                        tu_cache_read_input := su_cache_read_input usage |}) <$> sr_usage turn |}.

(** ** The callback *)

(** The handler's slot is filled, the flags, and the tools started so far. *)
Record CallbackState := mkCallback {
  cb_handler : bool;
  cb_safety : TurnSafetyState;
  cb_tool_calls_seen : N
}.

Definition new_callback (has_handler : bool) : CallbackState :=
  mkCallback has_handler (mkSafety false false false) 0.

Definition set_handler (b : bool) (st : CallbackState) : CallbackState :=
  mkCallback b (cb_safety st) (cb_tool_calls_seen st).
Definition flag_permission (st : CallbackState) : CallbackState :=
  mkCallback (cb_handler st)
    (mkSafety true (tool_limit_exceeded (cb_safety st)) (tool_policy_failure (cb_safety st)))
    (cb_tool_calls_seen st).
Definition flag_tool_limit (st : CallbackState) : CallbackState :=
  mkCallback (cb_handler st)
    (mkSafety (permission_protocol_failure (cb_safety st)) true
       (tool_policy_failure (cb_safety st)))
    (cb_tool_calls_seen st).
Definition flag_tool_policy (st : CallbackState) : CallbackState :=
  mkCallback (cb_handler st)
    (mkSafety (permission_protocol_failure (cb_safety st))
       (tool_limit_exceeded (cb_safety st)) true)
    (cb_tool_calls_seen st).
(** [fetch_add] wraps. *)
Definition count_tool (st : CallbackState) : CallbackState :=
  mkCallback (cb_handler st) (cb_safety st) ((cb_tool_calls_seen st + 1) mod 2 ^ 32).

Definition dispatch_event (event : AgentEvent) (st : CallbackState) :
    jcode (bool * CallbackState) :=
  if cb_handler st then
    do returned <- call_ (HandlerCall event);
    if returned : bool then Ret (true, st) else Ret (false, set_handler false st)
  else Ret (false, st).

Definition cancel_turn (o : TurnOptions) (st : CallbackState) : jcode CallbackState :=
  do _ <- call_ (SdkCancel (to_client o) (session_id_0 (to_session o)));
  Ret st.

Definition fail_permission_protocol (o : TurnOptions) (request_id : str) (st : CallbackState) :
    jcode CallbackState :=
  let st := flag_permission st in
  if request_id_is_safe_for_response request_id then
    do _ <- call_ (SdkRespond (to_client o) (session_id_0 (to_session o)) request_id SdkDeny);
    cancel_turn o st
  else cancel_turn o st.

Definition auto_approve (o : TurnOptions) (request_id : str) (pending : PendingPermission)
    (st : CallbackState) : jcode CallbackState :=
  do r <- call_ (SdkRespond (to_client o) (session_id_0 (to_session o)) request_id SdkAllow);
  match r with
  | Ok _ =>
    do c <- call_ (PermComplete pending AllowOnce);
    match c with
    | Ok _ => Ret st
    | Err _ => fail_permission_protocol o request_id st
    end
  | Err _ =>
    do _ <- call_ (PermAbort pending);
    fail_permission_protocol o request_id st
  end.

Definition on_permission_request (o : TurnOptions)
    (session_id request_id tool_name description : str) (st : CallbackState) :
    jcode CallbackState :=
  if negb (mine (to_session o) session_id) then Ret st
  else if negb (to_permissions_supported o) then fail_permission_protocol o request_id st
  else
    do observed <- call_ (PermObserve (to_session o) (to_generation o) request_id tool_name
                            description);
    match observed with
    | Ok (Prompt request) =>
      do d <- dispatch_event (PermissionRequired request) st;
      if d.1 : bool then Ret d.2 else fail_permission_protocol o request_id d.2
    | Ok (AutoApprove pending) => auto_approve o request_id pending st
    | Err _ => fail_permission_protocol o request_id st
    end.

(** The checks of a tool that starts: what is left of the callback runs when it is
    allowed. *)
Definition tool_refused (o : TurnOptions) (name : str) : bool :=
  match to_allowed_tools o with
  | Some allowed => negb (existsb (fun candidate => bool_decide (candidate = name)) allowed)
  | None => false
  end.

Definition deliver (o : TurnOptions) (event : ApiEvent) (st : CallbackState) :
    jcode CallbackState :=
  match map_stream_event (to_session o) event with
  | None => Ret st
  | Some mapped => do d <- dispatch_event mapped st; Ret d.2
  end.

Definition on_tool_start (o : TurnOptions) (session_id name : str) (event : ApiEvent)
    (st : CallbackState) : jcode CallbackState :=
  if mine (to_session o) session_id then
    if tool_refused o name then cancel_turn o (flag_tool_policy st)
    else
      match to_max_tool_calls o with
      | Some limit =>
        let st := count_tool st in
        if limit <? cb_tool_calls_seen st then cancel_turn o (flag_tool_limit st)
        else deliver o event st
      | None => deliver o event st
      end
  else deliver o event st.

Definition on_event (o : TurnOptions) (event : ApiEvent) (st : CallbackState) :
    jcode CallbackState :=
  match event with
  | ApiPermissionRequest session_id request_id tool_name description =>
    on_permission_request o session_id request_id tool_name description st
  | ApiToolStart session_id _ name => on_tool_start o session_id name event st
  | _ => deliver o event st
  end.

Fixpoint on_events (o : TurnOptions) (events : list ApiEvent) (st : CallbackState) :
    jcode CallbackState :=
  match events with
  | [] => Ret st
  | event :: events => do st <- on_event o event st; on_events o events st
  end.

(** The thread [run_turn] spawns. *)
Definition turn_worker (o : TurnOptions) (prompt : str) : jcode WorkerMessage :=
  do run <- call_ (SdkRun (to_client o) (session_id_0 (to_session o)) prompt);
  do st <- on_events o run.1 (new_callback (to_has_handler o));
  do completion <- call_ (TurnsWorkerFinished (to_session o) (to_generation o));
  Ret (mkMessage run.2 completion (cb_safety st)).

(** ** The lease *)

Record ActiveTurnLease := mkLease {
  ls_session : SessionId;
  ls_generation : N;
  ls_client : JcodeClient
}.

(** [TurnRegistry::finish]. *)
Definition finish (session_id : SessionId) (generation : N) : jcode (Result bool) :=
  do _ <- call_ LockControl;
  do r <- call_ (TurnsFinish session_id generation);
  do _ <- call_ UnlockControl;
  Ret r.

(** [Drop for ActiveTurnLease], when the turn is not completed. *)
Definition drop_lease (lease : ActiveTurnLease) : jcode unit :=
  let sid := ls_session lease in
  let generation := ls_generation lease in
  do _ <- call_ LockControl;
  do abandoned <- call_ (TurnsShouldCancel sid generation);
  do _ <- (if abandoned : bool then
             do _ <- call_ (SdkCancel (ls_client lease) (session_id_0 sid)); Ret tt
           else Ret tt);
  do _ <- call_ (TurnsForceClear sid generation);
  do _ <- call_ UnlockControl;
  call_ (PermFinishTurn sid generation).

(** [complete]; an error drops the lease. *)
Definition complete (lease : ActiveTurnLease) : jcode (Result bool) :=
  do r <- finish (ls_session lease) (ls_generation lease);
  match r with
  | Ok cancelled =>
    do _ <- call_ (PermFinishTurn (ls_session lease) (ls_generation lease));
    Ret (Ok cancelled)
  | Err e => do _ <- drop_lease lease; Ret (Err e)
  end.
