(* ===== verification/JcodeRuntime.v ===== *)
(** * The Jcode adapter: the operations ([runtime.rs], [session.rs])

    Every method of [JcodeAgentRuntime] under its own name, as a program.  [config]
    is the configuration of its connection.  A future that is dropped is dropped at
    its only await point, in [run_turn], which then has no result. *)
From S2P Require Import Prelude RustStr RustPath Conversation Program Domain JcodeConfig.
From S2P Require Import JcodePermissions JcodeConnection JcodeSessions JcodeCalls JcodeModels.
From S2P Require Import JcodeTurn.

Definition refuse {A} (message : str) : jcode (Result A) := give (Err (InvalidRequest message)).
Definition agent_error {A} (message : str) : jcode (Result A) := give (Err (Agent message)).

(** The scope of [let _gate = self.sessions.lock_gate()?]. *)
Definition gated {A} (body : jcode (Result A)) : jcode (Result A) :=
  do _ <- call_ LockGate;
  do r <- body;
  do _ <- call_ UnlockGate;
  Ret r.

(** [if self.turns.has_active()? { return Err(..) }]. *)
Definition when_idle {A} (message : str) (body : jcode (Result A)) : jcode (Result A) :=
  do active <- call_ TurnsHasActive;
  if active : bool then refuse message else body.

Definition with_client {A} (operation : JcodeClient -> jcode (Result A)) : jcode (Result A) :=
  do _ <- call_ ConnRefresh;
  do slot <- call_ LockClient;
  do r <- match slot with
          | Some client => operation client
          | None => agent_error (u "Jcode operation requires an active connection")
          end;
  do _ <- call_ UnlockClient;
  Ret r.

Definition clone_client_for_inflight : jcode (Result JcodeClient) :=
  do _ <- call_ ConnRefresh;
  do slot <- call_ ConnClone;
  Ret (ok_or slot (Agent (u "Jcode operation requires an active connection"))).

Definition has_capability (ident : JcodeServerIdentity) (name : str) : bool :=
  existsb (fun value => bool_decide (value = name)) (si_capabilities ident).

(** ** Project roots ([session.rs]) *)

Definition canonical_project_root (project : ProjectRef) : jcode (Result os_path) :=
  if negb (is_absolute (Utf8Path (pr_root project))) then
    refuse (u "project root must be an absolute path before creating an agent session")
  else
    do c <- call_ (FsCanonicalize (Utf8Path (pr_root project)));
    match c with
    | None =>
      refuse (u "project root must exist and be accessible before creating an agent session")
    | Some canonical =>
      do is_dir <- call_ (FsIsDir canonical);
      if negb is_dir then refuse (u "project root must point to a directory")
      else if is_none (path_to_str canonical) then
        refuse (u "project root must be valid UTF-8 for the Jcode harness")
      else give (Ok canonical)
    end.

Definition verify_session_project (metadata : SessionInfo) (expected_root : os_path) :
    jcode (Result unit) :=
  match in_working_dir metadata with
  | None => agent_error (u "Jcode session did not report a working directory")
  | Some working_dir =>
    if bool_decide (trim working_dir = []) then
      agent_error (u "Jcode session reported an empty working directory")
    else if negb (is_absolute (Utf8Path working_dir)) then
      agent_error (u "Jcode session reported a relative working directory; project identity is ambiguous")
    else
      do c <- call_ (FsCanonicalize (Utf8Path working_dir));
      match c with
      | None => agent_error (u "Jcode session working directory could not be verified")
      | Some actual_root =>
        if negb (path_eqb actual_root expected_root) then
          agent_error (u "Jcode session working directory does not match the expected project")
        else give (Ok tt)
      end
  end.

Definition corroborate_new_session_project (sessions : list SessionInfo)
    (session_id : SessionId) (expected_root : os_path) : jcode (Result unit) :=
  match List.filter (of_session session_id) sessions with
  | [] => give (Ok tt)
  | [metadata] =>
    if is_none (in_working_dir metadata) then give (Ok tt)
    else verify_session_project metadata expected_root
  | _ => give (Err duplicate_metadata)
  end.

Section runtime.
Context (config : JcodeConnectionConfig).

(** ** Connection *)

Definition op_connect : jcode (Result JcodeConnectionSnapshot) :=
  gated (when_idle
    (u "cannot connect/recover Jcode while a turn is active; cancel the turn first")
    (call_ ConnConnect)).

Definition op_disconnect : jcode (Result JcodeConnectionSnapshot) :=
  gated (when_idle (u "cannot disconnect Jcode while a turn is active; cancel the turn first")
    (try snapshot <- call_ ConnDisconnect;
     do _ <- call_ SessClear;
     give (Ok snapshot))).

Definition op_reconnect : jcode (Result JcodeConnectionSnapshot) :=
  gated (when_idle (u "cannot reconnect Jcode while a turn is active; cancel the turn first")
    (try snapshot <- call_ ConnReconnect;
     do _ <- call_ SessClear;
     give (Ok snapshot))).

Definition connection_status : jcode JcodeConnectionSnapshot := call_ ConnStatus.

Definition no_capabilities : RuntimeCapabilities :=
  Build_RuntimeCapabilities false false false false false false.

Definition capabilities_from_snapshot (snapshot : JcodeConnectionSnapshot) :
    jcode RuntimeCapabilities :=
  match sn_state snapshot with
  | StConnected ident =>
    do verified <- call_ (ModelsIsVerified (sn_generation snapshot));
    Ret (Build_RuntimeCapabilities
           (has_capability ident (u "sessions"))
           (has_capability ident (u "streaming"))
           (has_capability ident (u "permissions"))
           verified
           (is_some (jc_model_gateway_bridge config) &&
            has_capability ident (u "session_files"))
           false)
  | _ => Ret no_capabilities
  end.

Definition capabilities : jcode RuntimeCapabilities :=
  do snapshot <- connection_status; capabilities_from_snapshot snapshot.

Definition model_gateway_bridge_identity : option ModelGatewayBridgeIdentity :=
  (fun bridge =>
     {| bridge_gateway_id := gateway_id bridge;
        transport_provider := bridge_transport_provider bridge;
        exact_model_id_passthrough := true |}) <$> jc_model_gateway_bridge config.

Definition missing_capability {A} (name : str) : jcode (Result A) :=
  give (Err (MissingCapability (u "Jcode harness") name)).

Definition ensure_ready : jcode (Result RuntimeCapabilities) :=
  try snapshot <- op_connect;
  do c <- capabilities_from_snapshot snapshot;
  if negb (Conversation.sessions c) then missing_capability (u "sessions") else give (Ok c).

Definition ensure_session_transport : jcode (Result N) :=
  try snapshot <- call_ ConnConnect;
  match sn_state snapshot with
  | StConnected ident =>
    if negb (has_capability ident (u "sessions")) then missing_capability (u "sessions")
    else give (Ok (sn_generation snapshot))
  | _ => agent_error (u "Jcode session operation requires a healthy connected harness")
  end.

Definition reset_unverified_attachment : jcode unit :=
  do _ <- call_ ConnDisconnect; call_ SessClear.

Definition verify_transport_generation (expected : N) : jcode (Result unit) :=
  do snapshot <- call_ ConnStatus;
  if is_connected (sn_state snapshot) && (sn_generation snapshot =? expected) then give (Ok tt)
  else agent_error (u "Jcode owner transport changed during model discovery").

(** ** Attachment *)

(** The closures of [attach_verified], of [ensure_bound_session_attached] and of
    [open_fresh_model_client], which differ in the names of the operations. *)
Definition attach_and_verify (attach metadata : str) (client : JcodeClient)
    (session_id : SessionId) (expected_root : os_path) : jcode (Result SessionId) :=
  try attached <- sdk_call attach (call_ (SdkAttach client (session_id_0 session_id)));
  try actual_id <- give (verify_attached_session_id attached (Some session_id));
  try sessions <- sdk_call metadata (call_ (SdkListSessions client));
  try found <- give (session_metadata sessions actual_id);
  try _ <- verify_session_project found expected_root;
  give (Ok actual_id).

(** What follows [with_client] in both: register the session or drop the
    connection. *)
Definition register_attached (verification : Result SessionId) (project : ProjectRef)
    (root : os_path) (generation : N) : jcode (Result SessionId) :=
  match verification with
  | Ok actual_id =>
    try _ <- call_ (SessMarkAttached actual_id project root generation);
    give (Ok actual_id)
  | Err error => do _ <- reset_unverified_attachment; give (Err error)
  end.

Definition attach_verified (project : ProjectRef) (session_id : SessionId)
    (expected_root : os_path) (generation : N) : jcode (Result unit) :=
  do verification <- with_client (fun client =>
    attach_and_verify (u "resume_session") (u "resume_session_metadata") client session_id
      expected_root);
  try _ <- register_attached verification project expected_root generation;
  give (Ok tt).

(** The check of a bound root, and its two callers. *)
Definition bound_root_unchanged (b : SessionBinding) : jcode (Result unit) :=
  do c <- call_ (FsCanonicalize (sb_project_root b));
  match c with
  | None =>
    refuse (u "bound project root is no longer accessible; resume the session explicitly")
  | Some root =>
    if negb (path_eqb root (sb_project_root b)) then
      refuse (u "bound project root identity changed; resume the session explicitly")
    else give (Ok tt)
  end.

Definition synthetic_project (b : SessionBinding) : ProjectRef :=
  {| pr_id := sb_project_id b; pr_root := path_text (sb_project_root b) |}.

Definition ensure_bound_session_attached (session_id : SessionId) (b : SessionBinding)
    (generation : N) : jcode (Result unit) :=
  do attached <- call_ (SessIsAttached session_id generation);
  if attached : bool then give (Ok tt)
  else
    try _ <- bound_root_unchanged b;
    do verification <- with_client (fun client =>
      attach_and_verify (u "session_reattach") (u "session_reattach_metadata") client session_id
        (sb_project_root b));
    try _ <- register_attached verification (synthetic_project b) (sb_project_root b) generation;
    give (Ok tt).

Definition open_clean_model_client : jcode (Result JcodeClient) :=
  do slot <- call_ ConnCurrent;
  match slot with
  | None => agent_error (u "Jcode model probe requires an active connection")
  | Some client =>
    do r <- call_ (SdkOpenSidecar (sidecar_request config (cl_socket_path client)));
    Ret (match r with Ok c => Ok c | Err e => Err (into_domain_error (from_sdk e)) end)
  end.

Definition open_fresh_model_client (session_id : SessionId) (b : SessionBinding) :
    jcode (Result JcodeClient) :=
  try _ <- bound_root_unchanged b;
  try client <- open_clean_model_client;
  do _ <- call_ (SdkSubscribe client (session_id_0 session_id));
  try actual_id <- attach_and_verify (u "model_session_refresh")
                     (u "model_session_refresh_metadata") client session_id (sb_project_root b);
  try _ <- wait_for_fresh_model_probe client actual_id (jc_request_timeout_ms config);
  give (Ok client).

(** ** Sessions *)

Definition create_session (project : ProjectRef) (model : option ModelRef) :
    jcode (Result SessionId) :=
  if is_some model then
    refuse (u "Jcode model selection is session-scoped and not atomic with session creation; create the session, then select its model")
  else gated (when_idle (u "cannot create a Jcode session while a turn is active")
    (try expected_root <- canonical_project_root project;
     try generation <- ensure_session_transport;
     match path_to_str expected_root with
     | None => refuse (u "project root must be valid UTF-8 for the Jcode harness")
     | Some working_dir =>
       do verification <- with_client (fun client =>
         try attached <- sdk_call (u "create_session") (call_ (SdkCreate client working_dir));
         try session_id <- give (verify_attached_session_id attached None);
         try sessions <- sdk_call (u "create_session_metadata") (call_ (SdkListSessions client));
         try _ <- corroborate_new_session_project sessions session_id expected_root;
         give (Ok session_id));
       register_attached verification project expected_root generation
     end)).

Definition resume_session (project : ProjectRef) (session_id : SessionId) :
    jcode (Result unit) :=
  try _ <- give (validate_jcode_session_id session_id);
  gated (when_idle (u "cannot resume a Jcode session while a turn is active")
    (try expected_root <- canonical_project_root project;
     try generation <- ensure_session_transport;
     do bound <- call_ (SessBinding session_id);
     match bound with
     | Some b =>
       if other_project b (pr_id project) expected_root then
         refuse (u "session is already bound to a different project")
       else
         do attached <- call_ (SessIsAttached session_id generation);
         if attached : bool then give (Ok tt)
         else attach_verified project session_id expected_root generation
     | None => attach_verified project session_id expected_root generation
     end)).

Definition verify_session_project_binding (project : ProjectRef) (session_id : SessionId) :
    jcode (Result unit) :=
  try _ <- give (validate_jcode_session_id session_id);
  try expected_root <- canonical_project_root project;
  do bound <- call_ (SessBinding session_id);
  match bound with
  | None =>
    refuse (u "Jcode session has no verified project binding in this app process")
  | Some b =>
    if other_project b (pr_id project) expected_root then
      refuse (u "Jcode session is bound to a different project")
    else
      do snapshot <- call_ ConnStatus;
      if negb (is_connected (sn_state snapshot)) then
        agent_error (u "Jcode session project binding cannot be authorized without an active connection")
      else
        let stale :=
          agent_error (u "Jcode session project binding is stale on the current connection generation") in
        if negb (sb_generation b =? sn_generation snapshot) then stale
        else
          do attached <- call_ (SessIsAttached session_id (sn_generation snapshot));
          if negb attached then stale else give (Ok tt)
  end.

Definition ensure_workspace_quiescent (project : ProjectRef) : jcode (Result unit) :=
  gated (when_idle (u "workspace checkpoint/rollback requires Jcode to have no active turn")
    (try _ <- canonical_project_root project; give (Ok tt))).

Definition refresh_session_after_workspace_replacement (project : ProjectRef)
    (session_id : SessionId) : jcode (Result unit) :=
  try _ <- give (validate_jcode_session_id session_id);
  try expected_root <- canonical_project_root project;
  gated (when_idle (u "cannot refresh Jcode workspace identity while a turn is active")
    (try generation <- ensure_session_transport;
     do _ <- call_ SessClear;
     attach_verified project session_id expected_root generation)).

(** ** Models *)

Definition unbound {A} (purpose : str) : jcode (Result A) :=
  refuse (u "session must be created or resumed before " ++ purpose).

(** Reading a session's catalog over a fresh connection, on the transport of
    [generation]. *)
Definition read_catalog (session_id : SessionId) (b : SessionBinding) (generation : N) :
    jcode (Result (list ModelRef)) :=
  try model_client <- open_fresh_model_client session_id b;
  try catalog <- discover_models model_client session_id;
  try _ <- verify_transport_generation generation;
  do _ <- call_ (ModelsMarkVerified generation);
  give (Ok catalog).

(** Choosing the model on the owner's connection, and reading it back over a fresh
    one. *)
Definition switch_model (session_id : SessionId) (b : SessionBinding) (model : ModelRef)
    (catalog : list ModelRef) (generation : N) : jcode (Result ModelRef) :=
  try _ <- with_client (fun client =>
    select_model_from_catalog client session_id model catalog
      (model_gateway_transport_provider config));
  try verification_client <- open_fresh_model_client session_id b;
  try active <- verify_active_model verification_client session_id model
                  (model_gateway_transport_provider config);
  try _ <- verify_transport_generation generation;
  give (Ok active).

Definition list_models (session_id : SessionId) : jcode (Result (list ModelRef)) :=
  try _ <- give (validate_jcode_session_id session_id);
  gated (when_idle (u "cannot inspect the Jcode model catalog while a turn is active")
    (try generation <- ensure_session_transport;
     do bound <- call_ (SessBinding session_id);
     match bound with
     | None => unbound (u "discovering its models")
     | Some b => read_catalog session_id b generation
     end)).

Definition corroborate_model_identity (session_id : SessionId) (model : ModelRef) :
    jcode (Result ModelRef) :=
  try _ <- give (validate_jcode_session_id session_id);
  try _ <- give (validate_model_ref model);
  gated (when_idle (u "cannot change the Jcode model while a turn is active")
    (try generation <- ensure_session_transport;
     do bound <- call_ (SessBinding session_id);
     match bound with
     | None => unbound (u "selecting its model")
     | Some b =>
       try catalog <- read_catalog session_id b generation;
       try _ <- ensure_bound_session_attached session_id b generation;
       switch_model session_id b model catalog generation
     end)).

Definition set_model (session_id : SessionId) (model : ModelRef) : jcode (Result unit) :=
  try _ <- corroborate_model_identity session_id model; give (Ok tt).

(** ** Turns *)

(** [run_turn] from the check that no turn is active to [turns.begin], under the
    session gate. *)
Definition turn_options (session_id : SessionId) (client : JcodeClient)
    (permissions_supported : bool) (generation : N) (has_handler : bool) : TurnOptions :=
  {| to_session := session_id;
     to_client := client;
     to_permissions_supported := permissions_supported;
     to_generation := generation;
     to_max_tool_calls :=
       (fun _ => VIBECODER_BRIDGED_MAX_TOOL_CALLS_PER_TURN) <$> jc_model_gateway_bridge config;
     to_allowed_tools :=
       (fun _ => VIBECODER_BRIDGED_FILE_TOOLS) <$> jc_model_gateway_bridge config;
     to_has_handler := has_handler |}.

Definition select_turn_model (session_id : SessionId) (b : SessionBinding)
    (model : option ModelRef) (generation : N) : jcode (Result unit) :=
  try model_catalog <-
    match model with
    | Some _ => try catalog <- read_catalog session_id b generation; give (Ok (Some catalog))
    | None => give (Ok None)
    end;
  try _ <- ensure_bound_session_attached session_id b generation;
  match model, model_catalog with
  | Some model, Some catalog =>
    try _ <- switch_model session_id b model catalog generation; give (Ok tt)
  | _, _ => give (Ok tt)
  end.

Definition prepare_turn (session_id : SessionId) (model : option ModelRef) (has_handler : bool) :
    jcode (Result TurnOptions) :=
  when_idle (u "a Jcode turn is already active on this connection")
    (try generation <- ensure_session_transport;
     do connection <- call_ ConnStatus;
     match sn_state connection with
     | StConnected ident =>
       if negb (sn_generation connection =? generation) then
         agent_error (u "Jcode transport changed while preparing the turn")
       else if negb (has_capability ident (u "streaming")) then
         missing_capability (u "streaming")
       else
         do bound <- call_ (SessBinding session_id);
         match bound with
         | None => unbound (u "running a turn")
         | Some b =>
           try _ <- select_turn_model session_id b model generation;
           try client <- clone_client_for_inflight;
           try _ <- call_ (TurnsBegin session_id generation);
           give (Ok (turn_options session_id client
                       (has_capability ident (u "permissions")) generation has_handler))
         end
     | _ => agent_error (u "Jcode transport changed while preparing the turn")
     end).

(** What the caller makes of the worker's message once the turn is over. *)
Definition turn_outcome (m : WorkerMessage) (cancelled : bool) : Result TurnResult :=
  if permission_protocol_failure (wm_safety m) then
    Err (Agent (u "Jcode permission protocol failed closed for this turn"))
  else if tool_limit_exceeded (wm_safety m) then
    Err (Agent (u "Jcode bridged tool-call limit exceeded for this turn"))
  else if tool_policy_failure (wm_safety m) then
    Err (Agent (u "Jcode bridged tool policy failed closed for this turn"))
  else
    match wm_result m with
    | Ok turn => Ok (map_turn_result turn cancelled)
    | Err error => if cancelled then Err Cancelled else Err (map_operation_error (u "run_turn") error)
    end.

Definition lease_of (o : TurnOptions) : ActiveTurnLease :=
  mkLease (to_session o) (to_generation o) (to_client o).

Definition abandon {A} (o : TurnOptions) (r : A) : jcode A :=
  do _ <- drop_lease (lease_of o); Ret r.

(** From the spawning of the worker on; no result when the future is dropped. *)
Definition supervise_turn (o : TurnOptions) (prompt : str) :
    jcode (option (Result TurnResult)) :=
  do spawned <- call_ (SpawnWorker o prompt);
  match spawned with
  | None =>
    abandon o (Some (Err (Agent (u "could not start the isolated Jcode turn worker"))))
  | Some worker =>
    do awaited <- call_ (AwaitWorker worker);
    match awaited with
    | CallerDropped => abandon o None
    | SenderDropped =>
      abandon o (Some (Err (Agent (u "Jcode turn worker exited without returning a result"))))
    | Received m =>
      match wm_completion m with
      | Err e => abandon o (Some (Err e))
      | Ok _ =>
        do completed <- complete (lease_of o);
        Ret (Some (match completed with
                   | Err e => Err e
                   | Ok cancelled => turn_outcome m cancelled
                   end))
      end
    end
  end.

Definition run_turn (session_id : SessionId) (prompt : str) (model : option ModelRef)
    (has_handler : bool) : jcode (option (Result TurnResult)) :=
  match (let? _ := validate_jcode_session_id session_id in
         let? _ := (if bool_decide (trim prompt = []) then
                      Err (InvalidRequest (u "agent turn prompt cannot be empty"))
                    else Ok tt) in
         match model with Some model => validate_model_ref model | None => Ok tt end) with
  | Err e => Ret (Some (Err e))
  | Ok _ =>
    do prepared <- gated (prepare_turn session_id model has_handler);
    match prepared with
    | Err e => Ret (Some (Err e))
    | Ok o => supervise_turn o prompt
    end
  end.

Definition cancel (session_id : SessionId) : jcode (Result unit) :=
  try _ <- give (validate_jcode_session_id session_id);
  gated
    (do _ <- call_ LockControl;
     do active <- call_ (TurnsActiveGeneration session_id);
     do r <- match active with
             | None => refuse (u "there is no active turn for this session to cancel")
             | Some generation =>
               do connection <- call_ ConnStatus;
               if negb (is_connected (sn_state connection)) ||
                  negb (sn_generation connection =? generation)
               then agent_error
                 (u "active Jcode turn transport is no longer the original connection")
               else
                 do bound <- call_ (SessBinding session_id);
                 if is_none bound then
                   refuse (u "active turn lost its session/project binding")
                 else
                   do attached <- call_ (SessIsAttached session_id generation);
                   if negb attached then
                     agent_error (u "active Jcode turn lost its verified session attachment")
                   else
                     try _ <- with_client (fun client =>
                       sdk_call (u "cancel") (call_ (SdkCancel client (session_id_0 session_id))));
                     try _ <- call_ (TurnsCancelAcknowledged session_id);
                     give (Ok tt)
             end;
     do _ <- call_ UnlockControl;
     Ret r).

(** [respond_to_permission] until the gate is dropped. *)
Definition reserve_response (session_id : SessionId) (request_id : str) :
    jcode (Result (JcodeClient * PendingPermission)) :=
  do active <- call_ (TurnsActiveGeneration session_id);
  match active with
  | None => refuse (u "permission response requires an active turn for this session")
  | Some generation =>
    do connection <- call_ ConnStatus;
    let stale := agent_error
      (u "permission request transport is no longer the connection that emitted it") in
    match sn_state connection with
    | StConnected ident =>
      if negb (sn_generation connection =? generation) then stale
      else if negb (has_capability ident (u "permissions")) then
        missing_capability (u "permissions")
      else
        do bound <- call_ (SessBinding session_id);
        let lost := refuse
          (u "permission request lost its verified session/project binding") in
        if is_none bound then lost
        else
          do attached <- call_ (SessIsAttached session_id generation);
          if negb attached then lost
          else
            try client <- clone_client_for_inflight;
            try pending <- call_ (PermBegin session_id request_id generation);
            give (Ok (client, pending))
    | _ => stale
    end
  end.

Definition upstream (decision : PermissionDecision) : SdkPermissionDecision :=
  match decision with AllowOnce | AllowSession => SdkAllow | Deny => SdkDeny end.

Definition respond_to_permission (session_id : SessionId) (request_id : str)
    (decision : PermissionDecision) : jcode (Result unit) :=
  try _ <- give (validate_jcode_session_id session_id);
  try reserved <- gated (reserve_response session_id request_id);
  do result <- sdk_call (u "respond_to_permission")
                 (call_ (SdkRespond reserved.1 (session_id_0 session_id) request_id
                           (upstream decision)));
  match result with
  | Ok _ => call_ (PermComplete reserved.2 decision)
  | Err error => do _ <- call_ (PermAbort reserved.2); give (Err error)
  end.

End runtime.
