(* ===== verification/JcodePool.v ===== *)
(** * The Jcode adapter: its threads

    Operations run concurrently with each other and with the workers of turns.  A
    pool is the shared state, the threads with what is left of their programs, and
    the log of all calls in the order they were served.  Any thread may make the
    next step; the SDK, the file system and the application's handler answer
    arbitrarily, a future may be dropped whenever it waits. *)
From S2P Require Import Prelude RustStr RustPath Conversation Program Domain JcodeConfig.
From S2P Require Import JcodePermissions JcodeConnection JcodeSessions JcodeCalls JcodeModels.
From S2P Require Import JcodeTurn JcodeRuntime.

(** ** Operations *)

Inductive jcode_op :=
| OpConnect | OpDisconnect | OpReconnect | OpStatus | OpCapabilities | OpEnsureReady
| OpCreateSession (project : ProjectRef) (model : option ModelRef)
| OpResumeSession (project : ProjectRef) (s : SessionId)
| OpVerifyBinding (project : ProjectRef) (s : SessionId)
| OpQuiescent (project : ProjectRef)
| OpRefresh (project : ProjectRef) (s : SessionId)
| OpRunTurn (s : SessionId) (prompt : str) (model : option ModelRef) (has_handler : bool)
| OpCancel (s : SessionId)
| OpRespond (s : SessionId) (request_id : str) (d : PermissionDecision)
| OpListModels (s : SessionId)
| OpCorroborate (s : SessionId) (model : ModelRef)
| OpSetModel (s : SessionId) (model : ModelRef).

Inductive outcome :=
| OSnapshot (r : Result JcodeConnectionSnapshot)
| OStatus (s : JcodeConnectionSnapshot)
| OReady (r : Result RuntimeCapabilities)
| OCapabilities (c : RuntimeCapabilities)
| OSession (r : Result SessionId)
| OUnit (r : Result unit)
| OModels (r : Result (list ModelRef))
| OModel (r : Result ModelRef)
| OTurn (r : option (Result TurnResult))
| OWorker (m : WorkerMessage).

Definition returning {A} (f : A -> outcome) (p : jcode A) : jcode outcome := do a <- p; Ret (f a).

(** What a thread was started as. *)
Inductive start := Op (op : jcode_op) | Worker (o : TurnOptions) (prompt : str).

(** A monitor that remembers how the thread was started and all its calls. *)
Definition remember (s : start * list jevent) (e : jevent) : start * list jevent :=
  (s.1, s.2 ++ [e]).

Abbreviation traced ok := (wp (fun _ : jevent => True) ok remember).

Section pool.
Context (config : JcodeConnectionConfig).

Definition op_program (op : jcode_op) : jcode outcome :=
  match op with
  | OpConnect => returning OSnapshot op_connect
  | OpDisconnect => returning OSnapshot op_disconnect
  | OpReconnect => returning OSnapshot op_reconnect
  | OpStatus => returning OStatus connection_status
  | OpCapabilities => returning OCapabilities (capabilities config)
  | OpEnsureReady => returning OReady (ensure_ready config)
  | OpCreateSession project model => returning OSession (create_session project model)
  | OpResumeSession project s => returning OUnit (resume_session project s)
  | OpVerifyBinding project s => returning OUnit (verify_session_project_binding project s)
  | OpQuiescent project => returning OUnit (ensure_workspace_quiescent project)
  | OpRefresh project s => returning OUnit (refresh_session_after_workspace_replacement project s)
  | OpRunTurn s prompt model has_handler =>
    returning OTurn (run_turn config s prompt model has_handler)
  | OpCancel s => returning OUnit (cancel s)
  | OpRespond s request_id d => returning OUnit (respond_to_permission s request_id d)
  | OpListModels s => returning OModels (list_models config s)
  | OpCorroborate s model => returning OModel (corroborate_model_identity config s model)
  | OpSetModel s model => returning OUnit (set_model config s model)
  end.

Definition start_program (st : start) : jcode outcome :=
  match st with
  | Op op => op_program op
  | Worker o prompt => returning OWorker (turn_worker o prompt)
  end.

(** ** Pools *)

Record pool := mkPool {
  threads : list (start * jcode outcome);
  shared : JcodeState;
  log : list (nat * jevent)
}.

Definition is_thread_call (c : jcode_call) : bool :=
  match c with SpawnWorker _ _ | AwaitWorker _ => true | _ => false end.

Definition serve_thread (i : nat) (st : start) (e : jevent) (p : jcode outcome)
    (new : list (start * jcode outcome)) (s : JcodeState) (P : pool) : pool :=
  mkPool (<[i := (st, p)]> (threads P) ++ new) s (log P ++ [(i, e)]).

Inductive pool_step (P : pool) : pool -> Prop :=
| serve i st c k r s' :
    threads P !! i = Some (st, Call c k) -> is_thread_call c = false ->
    shared_step config (shared P) c r s' ->
    pool_step P (serve_thread i st (Ev c r) (k r) [] s' P)
| spawn i st o prompt k :
    threads P !! i = Some (st, Call (SpawnWorker o prompt) k) ->
    let r := Some (length (threads P)) in
    pool_step P (serve_thread i st (Ev (SpawnWorker o prompt) r) (k r)
                   [(Worker o prompt, start_program (Worker o prompt))] (shared P) P)
| spawn_fails i st o prompt k :
    threads P !! i = Some (st, Call (SpawnWorker o prompt) k) ->
    pool_step P (serve_thread i st (Ev (SpawnWorker o prompt) None) (k None) [] (shared P) P)
| receive i st n k w m :
    threads P !! i = Some (st, Call (AwaitWorker n) k) ->
    threads P !! n = Some (w, Ret (OWorker m)) ->
    pool_step P (serve_thread i st (Ev (AwaitWorker n) (Received m)) (k (Received m)) []
                   (shared P) P)
| interrupted i st n k r :
    threads P !! i = Some (st, Call (AwaitWorker n) k) ->
    r = SenderDropped \/ r = CallerDropped ->
    pool_step P (serve_thread i st (Ev (AwaitWorker n) r) (k r) [] (shared P) P).

Definition start_pool (m : JcodeConnectionManager) (ops : list jcode_op) : pool :=
  mkPool ((fun op => (Op op, op_program op)) <$> ops) (initial_state m) [].

(** ** A scheduler, to run pools

    [sdk] answers the calls that are answered arbitrarily, and the SDK opens clients
    by [open]; sockets stay open. *)
Section scheduler.
Context (sdk : forall c : jcode_call, jcode_resp c) (open : OpenRequest -> SdkResult JcodeClient).

Definition conn_exec {A} (op : bool -> (OpenRequest -> SdkResult JcodeClient) ->
    JcodeConnectionManager -> A * JcodeConnectionManager) (s : JcodeState) :
    option (A * JcodeState) :=
  if js_client_locked s then None
  else let (r, m) := op false open (js_connection s) in Some (r, set_connection m s).

Definition updating {A X} (set : X -> JcodeState -> JcodeState) (ax : A * X) (s : JcodeState) :
    option (A * JcodeState) := Some (ax.1, set ax.2 s).

Definition shared_exec (s : JcodeState) (c : jcode_call) : option (jcode_resp c * JcodeState) :=
  match c with
  | LockGate => if js_gate s then None else Some (tt, set_gate true s)
  | UnlockGate => Some (tt, set_gate false s)
  | LockControl => if js_control s then None else Some (tt, set_control true s)
  | UnlockControl => Some (tt, set_control false s)
  | LockClient =>
    if js_client_locked s then None
    else Some (cm_client (js_connection s), set_client_locked true s)
  | UnlockClient => Some (tt, set_client_locked false s)
  | ConnConnect => conn_exec (fun closed open => connect config open closed) s
  | ConnDisconnect => conn_exec (fun _ _ => disconnect) s
  | ConnReconnect => conn_exec (fun closed open => reconnect config open closed) s
  | ConnStatus => conn_exec (fun closed _ => status closed) s
  | ConnRefresh => conn_exec (fun closed _ m => (tt, refresh_closed_connection closed m)) s
  | ConnCurrent => conn_exec (fun closed _ m =>
      let m := refresh_closed_connection closed m in (cm_client m, m)) s
  | ConnClone =>
    if js_client_locked s then None else Some (cm_client (js_connection s), s)
  | SessBinding sid => Some (binding sid (js_sessions s), s)
  | SessIsAttached sid g => Some (is_attached_on_generation sid g (js_sessions s), s)
  | SessMarkAttached sid project root g =>
    updating set_sessions (mark_attached sid project root g (js_sessions s)) s
  | SessClear => Some (tt, set_sessions (clear_attachment (js_sessions s)) s)
  | TurnsBegin sid g => updating set_turns (turns_begin sid g (js_turns s)) s
  | TurnsHasActive => Some (is_some (js_turns s), s)
  | TurnsActiveGeneration sid => Some (active_generation sid (js_turns s), s)
  | TurnsWorkerFinished sid g => updating set_turns (mark_worker_finished sid g (js_turns s)) s
  | TurnsCancelAcknowledged sid =>
    updating set_turns (mark_cancel_acknowledged sid (js_turns s)) s
  | TurnsFinish sid g => updating set_turns (turns_finish sid g (js_turns s)) s
  | TurnsShouldCancel sid g => Some (should_cancel_abandoned sid g (js_turns s), s)
  | TurnsForceClear sid g => Some (tt, set_turns (force_clear sid g (js_turns s)) s)
  | PermObserve sid g rid action description =>
    updating set_permissions (observe_request sid g rid action description (js_permissions s)) s
  | PermBegin sid rid g =>
    updating set_permissions (begin_response sid rid g (js_permissions s)) s
  | PermComplete p d => updating set_permissions (complete_response p d (js_permissions s)) s
  | PermAbort p => Some (tt, set_permissions (abort_response p (js_permissions s)) s)
  | PermFinishTurn sid g => Some (tt, set_permissions (finish_turn sid g (js_permissions s)) s)
  | ModelsIsVerified g => Some (is_verified g (js_models s), s)
  | ModelsMarkVerified g => Some (tt, set_models (mark_verified g (js_models s)) s)
  | c => Some (sdk c, s)
  end.

Lemma shared_exec_sound s c r s' : shared_exec s c = Some (r, s') -> shared_step config s c r s'.
Proof.
  assert (Hconn : forall A op (r : A) s', conn_exec op s = Some (r, s') -> conn_step op s r s').
  { intros A op r0 s0. unfold conn_exec, conn_step. destruct (js_client_locked s); [done|].
    destruct (op false open (js_connection s)) as [x m] eqn:E. intros [= <- <-]. eauto 10. }
  destruct c; cbn -[conn_exec]; try apply Hconn; unfold updating;
    try (destruct (js_gate s); [done|]); try (destruct (js_control s); [done|]);
    try (destruct (js_client_locked s); [done|]);
    try (by intros [= <- <-]); intros [= <- <-]; eexists; (split; [apply surjective_pairing|done]).
Qed.

(** The next step of thread [i]; a future that waits is dropped if [drop]. *)
Definition pool_exec (i : nat) (drop : bool) (P : pool) : option pool :=
  match threads P !! i with
  | Some (st, Call c k) =>
    match c as c return (jcode_resp c -> jcode outcome) -> option pool with
    | SpawnWorker o prompt => fun k =>
      let r := Some (length (threads P)) in
      Some (serve_thread i st (Ev (SpawnWorker o prompt) r) (k r)
              [(Worker o prompt, start_program (Worker o prompt))] (shared P) P)
    | AwaitWorker n => fun k =>
      if drop then
        Some (serve_thread i st (Ev (AwaitWorker n) CallerDropped) (k CallerDropped) []
                (shared P) P)
      else
        match threads P !! n with
        | Some (_, Ret (OWorker m)) =>
          Some (serve_thread i st (Ev (AwaitWorker n) (Received m)) (k (Received m)) []
                  (shared P) P)
        | _ => None
        end
    | c => fun k =>
      match shared_exec (shared P) c with
      | Some (r, s') => Some (serve_thread i st (Ev c r) (k r) [] s' P)
      | None => None
      end
    end k
  | _ => None
  end.

Lemma pool_exec_sound i drop P P' : pool_exec i drop P = Some P' -> pool_step P P'.
Proof.
  unfold pool_exec. destruct (threads P !! i) as [[st [a|c k]]|] eqn:E; [done| |done].
  destruct c; try (destruct (shared_exec (shared P) _) as [[r s']|] eqn:Ex; [|done];
    intros [= <-]; eapply serve; [exact E|done|by eapply shared_exec_sound]).
  - intros [= <-]. by eapply spawn.
  - destruct drop; [intros [= <-]; eapply interrupted; by auto|].
    destruct (threads P !! worker) as [[w [m|]]|] eqn:En; [|done..].
    destruct m; try done. intros [= <-]. by eapply receive.
Qed.

(** Thread [i] runs until it is over, blocked or about to make a call [until] names;
    [fuel] bounds its steps. *)
Fixpoint run_thread (fuel : nat) (until : jcode_call -> bool) (i : nat) (P : pool) : pool :=
  match fuel with
  | O => P
  | S fuel =>
    match threads P !! i with
    | Some (_, Call c _) =>
      if until c then P
      else match pool_exec i false P with Some P' => run_thread fuel until i P' | None => P end
    | _ => P
    end
  end.

Lemma run_thread_sound fuel until i P : rtc pool_step P (run_thread fuel until i P).
Proof.
  revert P. induction fuel as [|fuel IH]; intros P; cbn; [done|].
  destruct (threads P !! i) as [[st [a|c k]]|]; [done| |done]. destruct (until c); [done|].
  destruct (pool_exec i false P) eqn:E; [|done].
  eapply rtc_l; [by eapply pool_exec_sound|apply IH].
Qed.

Definition drop_caller (i : nat) (P : pool) : pool := default P (pool_exec i true P).

Lemma drop_caller_sound i P : rtc pool_step P (drop_caller i P).
Proof.
  unfold drop_caller. destruct (pool_exec i true P) eqn:E; [|done].
  by eapply rtc_once, pool_exec_sound.
Qed.
End scheduler.

(** The callback over all events makes the calls it makes for each. *)
Lemma on_events_calls test o events st :
  (forall event st, calls_only test (on_event o event st)) ->
  calls_only test (on_events o events st).
Proof.
  intros H. revert st. induction events as [|e events IH]; intros st; cbn [on_events]; [done|].
  apply calls_only_bind; [apply H|intros st'; apply IH].
Qed.

(** ** Threads and their logs *)

(** The calls of thread [i], in order. *)
Definition own (i : nat) (l : list (nat * jevent)) : list jevent :=
  omap (fun x => if decide (x.1 = i) then Some x.2 else None) l.

Lemma own_app i l l' : own i (l ++ l') = own i l ++ own i l'.
Proof. apply omap_app. Qed.

Lemma own_snoc i j e l : own i (l ++ [(j, e)]) = own i l ++ (if decide (j = i) then [e] else []).
Proof. rewrite own_app. cbn. by case_decide. Qed.

Lemma elem_of_own i e l : e ∈ own i l <-> (i, e) ∈ l.
Proof.
  unfold own. rewrite list_elem_of_omap. split.
  - intros ([j e'] & Hin & Hd). cbn in Hd. case_decide; naive_solver.
  - intros H. eexists. split; [exact H|]. cbn. by rewrite decide_True.
Qed.

(** [after p tr q]: [p] has made the calls [tr] and has [q] left. *)
Fixpoint after {A} (p : jcode A) (tr : list jevent) (q : jcode A) {struct tr} : Prop :=
  match tr with
  | [] => q = p
  | e :: tr =>
    match p with
    | Ret _ => False
    | Call c k => exists r, e = Ev c r /\ after (k r) tr q
    end
  end.

Lemma after_snoc {A} (p q : jcode A) tr c k r :
  after p tr (Call c k) -> q = k r -> after p (tr ++ [Ev c r]) q.
Proof.
  intros H ->. revert p H. induction tr as [|e tr IH]; intros p; cbn.
  - intros <-. eauto.
  - destruct p; [done|]. intros (r' & -> & H). eauto.
Qed.

Lemma after_ret {A} (p : jcode A) tr a : after p tr (Ret a) -> runs p tr a.
Proof.
  revert p. induction tr as [|e tr IH]; intros p; cbn; [by intros <-|].
  destruct p; [done|]. intros (r & -> & H). cbn. eauto.
Qed.

Lemma after_wp {A S} (ok : S -> jevent -> Prop) next (p q : jcode A) Q s tr :
  wp (fun _ => True) ok next p Q s -> after p tr q ->
  wp (fun _ => True) ok next q Q (foldl next s tr) /\ accepted ok next s tr.
Proof.
  revert p s. induction tr as [|e tr IH]; intros p s Hw; cbn; [by intros ->|].
  destruct p as [a|c k]; [done|]. intros (r & -> & Hk). destruct (Hw r I) as [Hok Hw'].
  by destruct (IH _ _ Hw' Hk).
Qed.

(** Every thread has run its program from the start, on the calls the log has of it. *)
Definition faithful (P : pool) : Prop :=
  (forall i st p, threads P !! i = Some (st, p) -> after (start_program st) (own i (log P)) p) /\
  (forall i e, (i, e) ∈ log P -> (i < length (threads P))%nat).

(** What a step does to the threads and the log. *)
Definition extends (P P' : pool) : Prop :=
  exists i e, log P' = log P ++ [(i, e)] /\
    (forall j st p, threads P !! j = Some (st, p) ->
       exists p', threads P' !! j = Some (st, p') /\ (j <> i -> p' = p)).

Lemma serve_lookup i j st e p new s P st0 p0 :
  threads P !! i = Some (st0, p0) ->
  threads (serve_thread i st e p new s P) !! j =
    if decide (j = i) then Some (st, p)
    else if decide (j < length (threads P))%nat then threads P !! j
    else new !! (j - length (threads P))%nat.
Proof.
  intros Hi%lookup_lt_Some. cbn. destruct (decide (j = i)) as [->|Hn].
  - rewrite lookup_app_l by (by rewrite length_insert). by rewrite list_lookup_insert_eq.
  - case_decide as Hl.
    + rewrite lookup_app_l by (by rewrite length_insert). by rewrite list_lookup_insert_ne.
    + rewrite lookup_app_r by (rewrite length_insert; lia). by rewrite length_insert.
Qed.

(** The three things a proof by induction on steps needs of a step. *)
Lemma pool_step_view P P' :
  pool_step P P' ->
  exists i st c k r new, threads P !! i = Some (st, Call c k) /\
    P' = serve_thread i st (Ev c r) (k r) new (shared P') P /\
    (new = [] \/ exists o prompt, new = [(Worker o prompt, start_program (Worker o prompt))]) /\
    (if is_thread_call c then shared P' = shared P
     else shared_step config (shared P) c r (shared P')).
Proof.
  intros [i st c k r s' Hi Hn Hs|i st o prompt k Hi|i st o prompt k Hi|i st n k w m Hi Hw
         |i st n k r Hi Hr]; do 6 eexists; split_and!; try done; try (by left);
    [by rewrite Hn|right; by do 2 eexists].
Qed.

Lemma step_faithful P P' : pool_step P P' -> faithful P -> faithful P'.
Proof.
  intros (i & st & c & k & r & new & Hi & -> & Hnew & _)%pool_step_view [Hf Hl].
  pose proof (lookup_lt_Some _ _ _ Hi) as Hlt. split.
  - intros j st' p Hj. rewrite (serve_lookup _ _ _ _ _ _ _ _ _ _ Hi) in Hj.
    cbn [log serve_thread]. rewrite own_snoc. destruct (decide (j = i)) as [->|Hne].
    + injection Hj as <- <-. rewrite decide_True by done. eapply after_snoc; [by apply Hf|done].
    + rewrite decide_False by done. rewrite app_nil_r. case_decide as Hj'; [by apply Hf|].
      assert (own j (log P) = []) as ->.
      { destruct (own j (log P)) as [|e tr] eqn:E; [done|]. exfalso.
        assert (e ∈ own j (log P)) as He by (rewrite E; left). apply elem_of_own, Hl in He. lia. }
      destruct Hnew as [->|(o & prompt & ->)]; [done|].
      destruct (j - length (threads P))%nat; [|done]. by injection Hj as <- <-.
  - intros j e. cbn. rewrite elem_of_app, list_elem_of_singleton, length_app, length_insert.
    intros [?%Hl|[= -> _]]; lia.
Qed.

Lemma start_faithful m ops : faithful (start_pool m ops).
Proof.
  split; [|by intros i e ?%elem_of_nil]. intros i st p H. cbn in H.
  apply list_lookup_fmap_Some in H as (op & [= -> ->] & _). done.
Qed.

Definition reachable (m : JcodeConnectionManager) (ops : list jcode_op) (P : pool) : Prop :=
  rtc pool_step (start_pool m ops) P.

(** Induction along the steps, each from a faithful pool. *)
Lemma reachable_ind m ops (I : pool -> Prop) :
  I (start_pool m ops) ->
  (forall P P', reachable m ops P -> faithful P -> pool_step P P' -> I P -> I P') ->
  forall P, reachable m ops P -> I P.
Proof.
  intros H0 Hs P HP. assert (faithful P /\ I P) as [_ ?]; [|done].
  revert P HP. apply (rtc_ind_r (fun P => faithful P /\ I P) (start_pool m ops)).
  - split; [apply start_faithful|done].
  - intros P1 P2 Hr Hstep [Hf HI]. split; [by eapply step_faithful|by eapply Hs].
Qed.

Lemma reachable_faithful m ops P : reachable m ops P -> faithful P.
Proof. apply (reachable_ind m ops); [apply start_faithful|]. intros. by eapply step_faithful. Qed.

(** What holds of every thread's program holds of every thread of the pool. *)
Lemma thread_wp {S} (ok : S -> jevent -> Prop) next Q s0 m ops P i st p :
  (forall st, wp (fun _ => True) ok next (start_program st) (Q st) (s0 st)) ->
  reachable m ops P -> threads P !! i = Some (st, p) ->
  wp (fun _ => True) ok next p (Q st) (foldl next (s0 st) (own i (log P))) /\
  accepted ok next (s0 st) (own i (log P)).
Proof.
  intros Hw HP Hi. eapply after_wp; [apply Hw|]. by apply (reachable_faithful m ops).
Qed.

Lemma remember_foldl st tr tr' : foldl remember (st, tr) tr' = (st, tr ++ tr').
Proof.
  revert tr. induction tr' as [|e tr' IH]; intros tr; cbn; [by rewrite app_nil_r|].
  unfold remember at 2. rewrite IH. by rewrite <-app_assoc.
Qed.

Lemma thread_traced ok Q m ops P i st p :
  (forall st, traced ok (start_program st) (Q st) (st, [])) ->
  reachable m ops P -> threads P !! i = Some (st, p) ->
  traced ok p (Q st) (st, own i (log P)) /\ accepted ok remember (st, []) (own i (log P)).
Proof.
  intros Hw HP Hi. destruct (thread_wp ok remember Q (fun st => (st, [])) m ops P i st p Hw HP Hi)
    as [H ?]. by rewrite remember_foldl in H.
Qed.

Lemma accepted_elem {S} (ok : S -> jevent -> Prop) next s tr e :
  accepted ok next s tr -> e ∈ tr -> exists tr1 tr2, tr = tr1 ++ e :: tr2 /\ ok (foldl next s tr1) e.
Proof.
  revert s. induction tr as [|e' tr IH]; intros s; cbn; [by intros _ ?%elem_of_nil|].
  intros [Hok Ha] [->|He]%elem_of_cons; [by exists [], tr|].
  destruct (IH _ Ha He) as (tr1 & tr2 & -> & H). by exists (e' :: tr1), tr2.
Qed.

Lemma accepted_snoc {S} (ok : S -> jevent -> Prop) next s tr e :
  accepted ok next s (tr ++ [e]) -> accepted ok next s tr /\ ok (foldl next s tr) e.
Proof.
  revert s. induction tr as [|e' tr IH]; intros s; cbn; [naive_solver|].
  intros [Hok [? ?]%IH]. auto.
Qed.

(** Started operations keep their number. *)
Lemma started_op m ops P i op p :
  reachable m ops P -> threads P !! i = Some (Op op, p) -> ops !! i = Some op.
Proof.
  intros HP. revert i op p.
  refine (reachable_ind m ops (fun P => forall i op p, _ -> ops !! i = Some op) _ _ P HP).
  - intros i op p. cbn. by intros (op' & [= -> ->] & H)%list_lookup_fmap_Some.
  - intros P1 P2 _ _ (j & st & c & k & r & new & Hj & -> & Hnew & _)%pool_step_view IH i op p.
    rewrite (serve_lookup _ _ _ _ _ _ _ _ _ _ Hj). case_decide as Hd; [|case_decide].
    + subst. intros [= -> <-]. by eapply IH.
    + by apply IH.
    + destruct Hnew as [->|(o & prompt & ->)]; [done|].
      by destruct (i - length (threads P1))%nat.
Qed.
End pool.
