(* ===== verification/JcodeTurnSafety.v ===== *)
(** * The Jcode adapter: one turn at a time

    A thread that has begun a turn holds the lease of it until it finishes or clears
    it.  [lease_ok] says when a thread may make the calls that deal with turns;
    together with the registry it makes the holder of the lease unique.  [wait_ok]
    follows the worker a thread has started until it stops waiting for it: a worker that
    nobody has given up is the worker of the turn of the registry.  One that was given
    up may still run, beside that of the next turn. *)
From S2P Require Import Prelude RustStr RustPath Conversation Program Domain JcodeConfig.
From S2P Require Import JcodePermissions JcodeConnection JcodeSessions JcodeCalls JcodeModels.
From S2P Require Import JcodeTurn JcodeRuntime JcodePool.

Abbreviation lease := (option (SessionId * N)).

Definition lease_next (s : lease) (e : jevent) : lease :=
  match ev_call e as c return jcode_resp c -> lease with
  | TurnsBegin sid g => fun r => if is_ok r then Some (sid, g) else s
  | TurnsFinish _ _ => fun r => if is_ok r then None else s
  | TurnsForceClear _ _ => fun _ => None
  | _ => fun _ => s
  end (ev_resp e).

Definition lease_ok (s : lease) (e : jevent) : Prop :=
  match ev_call e with
  | TurnsBegin _ _ => s = None
  | TurnsFinish sid g | TurnsForceClear sid g => s = Some (sid, g)
  | SpawnWorker o _ => s = Some (to_session o, to_generation o)
  | _ => True
  end.

Abbreviation leased := (wp (fun _ : jevent => True) lease_ok lease_next).

(** The calls that have nothing to do with the lease. *)
Definition lease_free (c : jcode_call) : bool :=
  match c with
  | TurnsBegin _ _ | TurnsFinish _ _ | TurnsForceClear _ _ | SpawnWorker _ _ => false
  | _ => true
  end.

Lemma leased_free {A} (p : jcode A) Q s :
  calls_only lease_free p -> (forall a, Q s a) -> leased p Q s.
Proof. intros Hp HQ. eapply wp_calls_only; [exact Hp| |done]. by intros s' [[] r]. Qed.

Lemma leased_call c (Q : lease -> jcode_resp c -> Prop) s :
  lease_free c = true -> (forall r, Q s r) -> leased (call_ c) Q s.
Proof. intros Hc HQ. apply leased_free; [by apply calls_only_call_|done]. Qed.

Ltac lease_step :=
  lazymatch goal with
  | |- leased (Ret _) _ _ => cbn [wp]
  | |- leased (bind _ _) _ _ => apply wp_bind
  | |- leased (refuse _) _ _ => cbn [wp refuse give]
  | |- leased (agent_error _) _ _ => cbn [wp agent_error give]
  | |- leased (missing_capability _) _ _ => cbn [wp missing_capability give]
  | |- leased (unbound _) _ _ => cbn [wp unbound refuse give]
  | |- leased (give _) _ _ => cbn [wp give]
  | |- leased (call_ _) _ _ => apply leased_call; [reflexivity|intros ?]
  | |- leased (match ?x with _ => _ end) _ _ => destruct x eqn:?
  | |- leased ?p _ _ =>
    first [apply leased_free; [solve [calls_solve]|intros ?]|unfold_head p]
  end.
Ltac lease_steps := repeat lease_step.

Section lease.
Context (config : JcodeConnectionConfig).

Definition prepared (s : lease) (r : Result TurnOptions) : Prop :=
  match r with Ok o => s = Some (to_session o, to_generation o) | Err _ => s = None end.

Lemma leased_prepare sid model h :
  leased (gated (prepare_turn config sid model h)) prepared None.
Proof.
  unfold gated, prepare_turn, when_idle. lease_steps; try done.
  apply wp_call_. intros [[]|e] _; (split; [done|]); by lease_steps.
Qed.

(** A lease is given up by dropping it, whatever the calls answer. *)
Lemma leased_drop {A} (a : A) l s Q :
  s = Some (ls_session l, ls_generation l) -> Q None a ->
  leased (do _ <- drop_lease l; Ret a) Q s.
Proof.
  intros -> HQ. unfold drop_lease. do 8 lease_step; lease_steps;
    (apply wp_call_; intros [] _; split; [done|]); by lease_steps.
Qed.

Lemma leased_complete l s Q :
  s = Some (ls_session l, ls_generation l) -> (forall r, Q None r) -> leased (complete l) Q s.
Proof.
  intros -> HQ. unfold complete, finish. lease_step. lease_step. lease_step. lease_step.
  apply wp_call_. intros r0 _. split; [done|]. lease_step. lease_step. cbn [wp].
  destruct r0 as [b|e]; cbn [is_ok lease_next ev_call ev_resp]; [|by apply leased_drop].
  lease_steps. apply HQ.
Qed.

Lemma leased_run_turn sid prompt model h :
  leased (run_turn config sid prompt model h) (fun s _ => s = None) None.
Proof.
  unfold run_turn. destruct (let? _ := _ in _); [|done]. apply wp_bind.
  eapply wp_mono; [apply leased_prepare|]. intros s [o|e]; cbn [prepared]; [|by intros ->].
  intros ->. unfold supervise_turn, abandon. apply wp_bind, wp_call_. intros [n|] _; (split; [done|]);
    cbn [lease_next ev_call ev_resp]; [|by apply leased_drop].
  lease_step. lease_step. lease_step; [|by apply leased_drop..].
  lease_step; [|by apply leased_drop]. lease_step. by apply leased_complete.
Qed.

Lemma leased_start st : leased (start_program config st) (fun s _ => s = None) None.
Proof.
  destruct st as [op|o prompt].
  - destruct op; cbn [start_program op_program]; unfold returning;
      try (apply leased_free; [solve [calls_solve]|done]).
    apply wp_bind. eapply wp_mono; [apply leased_run_turn|]. by intros s' r ->.
  - apply leased_free; [|done]. unfold start_program, returning, turn_worker.
    apply calls_only_bind; [|done]. calls_step; [calls_step|]. calls_step; [|calls_solve].
    apply on_events_calls. intros e st'. calls_solve.
Qed.
End lease.

(** ** The workers *)

(** The worker a thread has started and still has to wait for. *)
Definition wait_next (s : option nat) (e : jevent) : option nat :=
  match ev_call e as c return jcode_resp c -> option nat with
  | SpawnWorker _ _ => fun r => r
  | AwaitWorker _ => fun _ => None
  | _ => fun _ => s
  end (ev_resp e).

(** A thread that has started a worker waits for it before it touches the turn. *)
Definition wait_ok (s : option nat) (e : jevent) : Prop :=
  match ev_call e with
  | AwaitWorker n => s = Some n
  | SpawnWorker _ _ | TurnsBegin _ _ | TurnsFinish _ _ | TurnsForceClear _ _ => s = None
  | _ => True
  end.

Abbreviation waits := (wp (fun _ : jevent => True) wait_ok wait_next).

Definition spawn_free (c : jcode_call) : bool :=
  match c with SpawnWorker _ _ | AwaitWorker _ => false | _ => true end.

Lemma waits_free {A} (p : jcode A) (Q : option nat -> A -> Prop) :
  calls_only spawn_free p -> (forall a, Q None a) -> waits p Q None.
Proof.
  intros Hp HQ. induction p as [a|c k IH]; cbn in *; [apply HQ|].
  destruct Hp as [Hc Hk]. intros r _. destruct c; try done; (split; [done|]); by apply IH, Hk.
Qed.

Section waits.
Context (config : JcodeConnectionConfig).

Lemma waits_run_turn sid prompt model h :
  waits (run_turn config sid prompt model h) (fun s _ => s = None) None.
Proof.
  unfold run_turn. destruct (let? _ := _ in _); [|done]. apply wp_bind.
  apply waits_free; [calls_solve|]. intros [o|e]; [|done].
  unfold supervise_turn. apply wp_bind, wp_call_. intros [n|] _; (split; [done|]).
  2:{ apply waits_free; [calls_solve|done]. }
  apply wp_bind. apply (wp_call_ _ _ _ (AwaitWorker n)). intros r _. split; [done|].
  apply waits_free; [|done]. destruct r; calls_solve.
Qed.

Lemma waits_start st : waits (start_program config st) (fun s _ => s = None) None.
Proof.
  destruct st as [op|o prompt].
  - destruct op; cbn [start_program op_program]; unfold returning;
      try (apply waits_free; [solve [calls_solve]|done]).
    apply wp_bind. eapply wp_mono; [apply waits_run_turn|]. by intros s' r ->.
  - apply waits_free; [|done]. unfold start_program, returning, turn_worker.
    apply calls_only_bind; [|done]. calls_step; [calls_step|]. calls_step; [|calls_solve].
    apply on_events_calls. intros e st'. calls_solve.
Qed.
End waits.

(** A thread that waits for a worker has started it for the turn it holds. *)
Lemma waiting_lease tr n :
  accepted lease_ok lease_next None tr -> accepted wait_ok wait_next None tr ->
  foldl wait_next None tr = Some n ->
  exists o prompt, Ev (SpawnWorker o prompt) (Some n) ∈ tr /\
    foldl lease_next None tr = Some (to_session o, to_generation o).
Proof.
  induction tr as [|e tr IH] using rev_ind; [done|].
  intros [Hl Hlo]%accepted_snoc [Hw Hwo]%accepted_snoc. rewrite !foldl_snoc. intros Hn.
  specialize (IH Hl Hw). destruct e as [c r].
  assert (Hkeep : foldl wait_next None tr = Some n -> lease_next (foldl lease_next None tr) (Ev c r) =
    foldl lease_next None tr -> exists o prompt, Ev (SpawnWorker o prompt) (Some n) ∈ tr ++ [Ev c r] /\
      lease_next (foldl lease_next None tr) (Ev c r) = Some (to_session o, to_generation o)).
  { intros (o & prompt & Hin & Ho)%IH ->. exists o, prompt. rewrite elem_of_app. auto. }
  destruct c; try (by apply Hkeep); cbn in Hwo, Hlo, Hn; try congruence.
  subst r. do 2 eexists. split; [apply elem_of_app; right; by left|exact Hlo].
Qed.

(** ** The pool *)

Section pool.
Context (config : JcodeConnectionConfig) (m : JcodeConnectionManager) (ops : list jcode_op).

(** The lease thread [i] holds. *)
Definition lease_of_thread (P : pool) (i : nat) : lease := foldl lease_next None (own i (log P)).

Definition turn_key (t : option ActiveTurn) : lease :=
  (fun t => (at_session t, at_generation t)) <$> t.

(** The registry's turn is the lease of some thread, and no two threads hold one. *)
Definition one_holder (key : lease) (held : nat -> lease) : Prop :=
  match key with
  | None => forall i, held i = None
  | Some l => exists i, held i = Some l /\ forall j, j <> i -> held j = None
  end.

Lemma one_holder_ext key f g : (forall i, f i = g i) -> one_holder key f -> one_holder key g.
Proof.
  intros H. destruct key as [l|]; cbn; [|intros Hf i; by rewrite <-H].
  intros (i & Hi & Hu). exists i. split; [by rewrite <-H|]. intros j Hj. rewrite <-H. auto.
Qed.

Lemma one_holder_key key held i l : one_holder key held -> held i = Some l -> key = Some l.
Proof.
  destruct key as [l'|]; cbn; [intros (j & Hj & Hu) Hi|intros Hn Hi; by rewrite Hn in Hi].
  destruct (decide (i = j)) as [->|Hne]; [congruence|]. by rewrite Hu in Hi.
Qed.

Lemma one_holder_unique key held i j l l' :
  one_holder key held -> held i = Some l -> held j = Some l' -> i = j.
Proof.
  intros Hk Hi Hj. pose proof (one_holder_key _ _ _ _ Hk Hi) as ->. destruct Hk as (x & _ & Hu).
  destruct (decide (i = x)) as [->|Hix]; [|by rewrite (Hu i Hix) in Hi].
  destruct (decide (j = x)) as [->|Hjx]; [done|]. by rewrite (Hu j Hjx) in Hj.
Qed.

Lemma one_holder_update key held i l :
  one_holder key held -> key = None \/ key = held i ->
  one_holder l (fun j => if decide (j = i) then l else held j).
Proof.
  intros Hk Hi. assert (Hother : forall j, j <> i -> held j = None).
  { destruct key as [l'|]; cbn in Hk; [|intros j _; apply Hk]. destruct Hk as (j' & Hj' & Hu).
    destruct Hi as [?|Hi]; [done|]. intros j Hj. apply Hu. intros ->.
    destruct (decide (i = j')) as [->|Hne]; [done|]. by rewrite (Hu i) in Hi. }
  destruct l as [l|]; cbn.
  - exists i. rewrite decide_True by done. split; [done|]. intros j Hj. rewrite decide_False by done. auto.
  - intros j. destruct (decide _); auto.
Qed.

(** What a call does to the registry, seen through [turn_key]. *)
Lemma turn_key_step s c r s' l :
  lease_ok l (Ev c r) -> (l = None \/ turn_key (js_turns s) = l) ->
  is_thread_call c = false -> shared_step config s c r s' ->
  (lease_next l (Ev c r) = l /\ turn_key (js_turns s') = turn_key (js_turns s)) \/
  (lease_next l (Ev c r) = turn_key (js_turns s') /\ turn_key (js_turns s) = l).
Proof.
  intros Hok Hl Hc Hs.
  assert (Hsame : forall s'', js_turns s'' = js_turns s -> lease_next l (Ev c r) = l -> s' = s'' ->
    (lease_next l (Ev c r) = l /\ turn_key (js_turns s') = turn_key (js_turns s)) \/
    (lease_next l (Ev c r) = turn_key (js_turns s') /\ turn_key (js_turns s) = l)).
  { intros s'' Ht Hn ->. left. by rewrite Ht. }
  destruct c; cbn in Hs; try done;
    try (by eapply Hsame; [| |exact Hs]);
    try (destruct Hs as [? Hs]; by eapply Hsame; [| |exact Hs]);
    try (destruct Hs as (_ & _ & Hs); by eapply Hsame; [| |exact Hs]);
    try (destruct Hs as (_ & ? & ? & ? & _ & Hs); by eapply Hsame; [| |exact Hs]);
    try (destruct Hs as (x & _ & Hs); by eapply Hsame; [| |exact Hs]).
  all: cbn [lease_ok ev_call] in Hok; cbn [lease_next ev_call ev_resp];
    try destruct Hs as (x & Hx & ->); cbn [js_turns set_turns].
  - subst l. unfold turns_begin in Hx. by destruct (js_turns s); injection Hx as <- <-; [left|right].
  - left. split; [done|]. unfold mark_worker_finished in Hx.
    destruct (js_turns s) as [t|]; [destruct (negb _)|]; by injection Hx as <- <-.
  - left. split; [done|]. unfold mark_cancel_acknowledged in Hx.
    destruct (js_turns s) as [t|]; [destruct (bool_decide _)|]; by injection Hx as <- <-.
  - subst l. destruct Hl as [?|Hl]; [done|]. right. split; [|done]. unfold turns_finish in Hx.
    destruct (js_turns s) as [t|]; [|done]. injection Hl as <- <-.
    rewrite (proj2 (turn_is_true _ _ t)) in Hx by done. by injection Hx as <- <-.
  - subst l s'. destruct Hl as [?|Hl]; [done|]. right. split; [|done]. cbn. unfold force_clear.
    destruct (js_turns s) as [t|]; [|done]. injection Hl as <- <-.
    by rewrite (proj2 (turn_is_true _ _ t)).
Qed.

Lemma turns_held P :
  reachable config m ops P -> one_holder (turn_key (js_turns (shared P))) (lease_of_thread P).
Proof.
  apply (reachable_ind config m ops
    (fun P => one_holder (turn_key (js_turns (shared P))) (lease_of_thread P))); [done|].
  intros P1 P2 HP _ Hstep IH.
  apply pool_step_view in Hstep as (i & st & c & k & r & new & Hi & HP2 & Hnew & Hs).
  destruct (thread_wp config lease_ok lease_next (fun _ s _ => s = None) (fun _ => None) m ops P1 i st _
              (leased_start config) HP Hi) as [Hwp _].
  destruct (Hwp r I) as [Hok _].
  assert (Hown : forall j, lease_of_thread P2 j =
            if decide (j = i) then lease_next (lease_of_thread P1 i) (Ev c r)
            else lease_of_thread P1 j).
  { intros j. rewrite HP2. unfold lease_of_thread. cbn [log serve_thread]. rewrite own_snoc.
    destruct (decide (j = i)) as [->|Hne].
    - rewrite decide_True by done. by rewrite foldl_snoc.
    - by rewrite decide_False, app_nil_r by done. }
  fold (lease_of_thread P1 i) in Hok. set (l := lease_of_thread P1 i) in *.
  assert (Hl : l = None \/ turn_key (js_turns (shared P1)) = l).
  { destruct l as [l'|] eqn:El; [right|by left]. by eapply one_holder_key. }
  assert (Hcases : (lease_next l (Ev c r) = l /\
                     turn_key (js_turns (shared P2)) = turn_key (js_turns (shared P1))) \/
                   (lease_next l (Ev c r) = turn_key (js_turns (shared P2)) /\
                     turn_key (js_turns (shared P1)) = l)).
  { destruct (is_thread_call c) eqn:Hc; [|by eapply turn_key_step].
    left. rewrite Hs. by destruct c. }
  destruct Hcases as [[Hn ->]|[Hn Hk]].
  - eapply one_holder_ext; [|exact IH]. intros j. rewrite Hown, Hn. by case_decide; subst.
  - eapply one_holder_ext; [|eapply (one_holder_update _ _ i); [exact IH|right; exact Hk]].
    intros j. by rewrite Hown, Hn.
Qed.

(** ** Workers of the pool *)

(** The worker [n] of a turn has calls left. *)
Definition running (P : pool) (n : nat) (o : TurnOptions) : Prop :=
  exists prompt c k, threads P !! n = Some (Worker o prompt, Call c k).

(** The thread that started it has stopped waiting for it without a message of it. *)
Definition given_up (P : pool) (n : nat) : Prop :=
  exists i r, (i, Ev (AwaitWorker n) r) ∈ log P /\ (r = CallerDropped \/ r = SenderDropped).

Definition waiting_of (P : pool) (i : nat) : option nat := foldl wait_next None (own i (log P)).

(** Every worker is the one its starter was answered; while it runs it is waited for or
    has been given up. *)
Definition workers_known (P : pool) : Prop :=
  (forall i o prompt n, (i, Ev (SpawnWorker o prompt) (Some n)) ∈ log P ->
     exists p, threads P !! n = Some (Worker o prompt, p)) /\
  (forall n o, running P n o -> given_up P n \/ exists i, waiting_of P i = Some n).

Definition await_answer (e : jevent) : option Awaited :=
  match ev_call e as c return jcode_resp c -> option Awaited with
  | AwaitWorker _ => Some
  | _ => fun _ => None
  end (ev_resp e).

(** What an answer to a call of a thread says of the threads. *)
Lemma pool_step_workers P P' :
  pool_step config P P' ->
  exists i st c k r new, threads P !! i = Some (st, Call c k) /\
    P' = serve_thread i st (Ev c r) (k r) new (shared P') P /\
    ((new = [] /\ (forall o prompt n, Ev c r <> Ev (SpawnWorker o prompt) (Some n)) /\
      (forall n m', Ev c r = Ev (AwaitWorker n) (Received m') ->
         exists w a, threads P !! n = Some (w, Ret a))) \/
     exists o prompt, Ev c r = Ev (SpawnWorker o prompt) (Some (length (threads P))) /\
       new = [(Worker o prompt, start_program config (Worker o prompt))]).
Proof.
  intros [i st c k r s' Hi Hn Hs|i st o prompt k Hi|i st o prompt k Hi|i st n k w m' Hi Hw
         |i st n k r Hi Hr]; do 6 eexists; (split_and!; [exact Hi|done|]).
  - left. split_and!; [done|..]; intros * He; apply (f_equal ev_call) in He; cbn in He; by subst c.
  - right. by do 2 eexists.
  - left. split_and!; [done|..]; intros * He; [|by apply (f_equal ev_call) in He].
    by apply (f_equal (wait_next None)) in He.
  - left. split_and!; [done|intros * He; by apply (f_equal ev_call) in He|].
    intros n' m1 He. apply (f_equal ev_call) in He. injection He as <-. by do 2 eexists.
  - left. split_and!; [done|intros * He; by apply (f_equal ev_call) in He|].
    intros n' m1 He. apply (f_equal await_answer) in He. injection He as ->. by destruct Hr.
Qed.

Lemma workers_known_step P P' :
  reachable config m ops P -> pool_step config P P' -> workers_known P -> workers_known P'.
Proof.
  intros HP Hstep [Hspawned Hrunning].
  destruct (pool_step_workers _ _ Hstep) as (i & st & c & k & r & new & Hi & HP' & Hnew).
  destruct (thread_wp config wait_ok wait_next (fun _ s _ => s = None) (fun _ => None) m ops P i st _
              (waits_start config) HP Hi) as [Hwp _].
  destruct (Hwp r I) as [Hok _]. fold (waiting_of P i) in Hok.
  assert (Hlog : log P' = log P ++ [(i, Ev c r)]) by by rewrite HP'.
  assert (Hlook : forall j, threads P' !! j = if decide (j = i) then Some (st, k r)
            else if decide (j < length (threads P))%nat then threads P !! j
            else new !! (j - length (threads P))%nat).
  { intros j. rewrite HP'. by eapply serve_lookup. }
  assert (Hold : forall j w p, threads P !! j = Some (w, p) -> exists p', threads P' !! j = Some (w, p')).
  { intros j w p Hj. rewrite Hlook. pose proof (lookup_lt_Some _ _ _ Hj).
    destruct (decide (j = i)) as [->|]; [rewrite Hi in Hj; injection Hj as -> _; eauto|].
    rewrite decide_True by done. eauto. }
  assert (Hwait : forall j, waiting_of P' j =
            if decide (j = i) then wait_next (waiting_of P i) (Ev c r) else waiting_of P j).
  { intros j. unfold waiting_of. rewrite Hlog, own_snoc.
    destruct (decide (j = i)) as [->|Hne]; [by rewrite decide_True, foldl_snoc by done|].
    by rewrite decide_False, app_nil_r by done. }
  pose proof (lookup_lt_Some _ _ _ Hi) as Hlt. split.
  - intros j o prompt n. rewrite Hlog, elem_of_app, list_elem_of_singleton. intros [Hin|He].
    + apply Hspawned in Hin as [p Hp]. by eapply Hold.
    + destruct Hnew as [(_ & Hno & _)|(o' & prompt' & He' & ->)].
      { exfalso. apply (Hno o prompt n). congruence. }
      exists (start_program config (Worker o prompt)). rewrite Hlook.
      assert (Heq : Ev (SpawnWorker o prompt) (Some n) =
                    Ev (SpawnWorker o' prompt') (Some (length (threads P)))) by congruence.
      pose proof (f_equal ev_call Heq) as Hc. pose proof (f_equal (wait_next None) Heq) as Hr.
      injection Hc as -> ->. injection Hr as ->. rewrite decide_False, decide_False by lia. by rewrite Nat.sub_diag.
  - intros n o (prompt & cn & kn & Hn).
    assert (Hgiven : given_up P n -> given_up P' n).
    { intros (j & r' & Hin & Hr'). exists j, r'. rewrite Hlog, elem_of_app. auto. }
    rewrite Hlook in Hn. destruct (decide (n < length (threads P))%nat) as [Hnl|Hnl].
    + assert (Hrun : exists o', running P n o').
      { destruct (decide (n = i)) as [->|]; [|by exists o, prompt, cn, kn].
        injection Hn as -> _. by exists o, prompt, c, k. }
      destruct Hrun as (o' & Hrun).
      destruct (Hrunning n o' Hrun) as [?|[j Hj]]; [by left; apply Hgiven|].
      destruct (decide (j = i)) as [->|Hne].
      2:{ right. exists j. by rewrite Hwait, decide_False. }
      rewrite Hj in Hok. destruct Hrun as (prompt' & c' & k' & Hn').
      destruct c; try done;
        try (right; exists i; by rewrite Hwait, decide_True, Hj by done).
      cbn in Hok. injection Hok as ->. left.
      destruct r as [m'| |]; [|by exists i, SenderDropped; rewrite Hlog, elem_of_app; split;
        [right; left|right]|by exists i, CallerDropped; rewrite Hlog, elem_of_app; split;
        [right; left|left]].
      destruct Hnew as [(_ & _ & Hrec)|(? & ? & ? & _)]; [|done].
      destruct (Hrec _ _ eq_refl) as (w & a & Hw). congruence.
    + assert (Hne : n <> i) by lia. rewrite decide_False in Hn by done.
      destruct Hnew as [(-> & _ & _)|(o' & prompt' & He' & ->)]; [done|].
      right. exists i. rewrite Hwait, decide_True, He' by done. cbn.
      apply lookup_lt_Some in Hn. cbn in Hn. f_equal. lia.
Qed.

Lemma workers_known_reachable P : reachable config m ops P -> workers_known P.
Proof.
  apply (reachable_ind config m ops workers_known).
  - split; [by intros i o prompt n ?%elem_of_nil|]. intros n o (prompt & c & k & Hn).
    cbn in Hn. by apply list_lookup_fmap_Some in Hn as (op & [=] & _).
  - intros P1 P2 HP _ Hstep. by apply workers_known_step.
Qed.

(** A running worker that has not been given up is that of the turn of the registry,
    whose holder waits for it. *)
Lemma running_holder P n o :
  reachable config m ops P -> running P n o ->
  given_up P n \/ exists i, waiting_of P i = Some n /\
    lease_of_thread P i = Some (to_session o, to_generation o).
Proof.
  intros HP Hrun. destruct (workers_known_reachable P HP) as [Hspawned Hrunning].
  destruct (Hrunning n o Hrun) as [?|[i Hi]]; [by left|right]. exists i. split; [done|].
  destruct (decide (i < length (threads P))%nat) as [Hlt|Hge].
  - apply lookup_lt_is_Some_2 in Hlt as [[st p] Hp].
    destruct (thread_wp config wait_ok wait_next (fun _ s _ => s = None) (fun _ => None) m ops P i st p
                (waits_start config) HP Hp) as [_ Hw].
    destruct (thread_wp config lease_ok lease_next (fun _ s _ => s = None) (fun _ => None) m ops P i st p
                (leased_start config) HP Hp) as [_ Hl].
    destruct (waiting_lease _ n Hl Hw Hi) as (o' & prompt' & Hin%elem_of_own & Hlease).
    destruct (Hspawned _ _ _ _ Hin) as [q Hq]. destruct Hrun as (prompt & c & k & Hn).
    rewrite Hn in Hq. by injection Hq as <- _ _.
  - exfalso. unfold waiting_of in Hi. destruct (own i (log P)) as [|e tr] eqn:E; [done|].
    assert (Hin : (i, e) ∈ log P) by (apply elem_of_own; rewrite E; by left).
    pose proof (reachable_faithful _ _ _ _ HP) as [_ Hlen]. by apply Hlen in Hin.
Qed.

(** C8. At most one turn is active.  Whatever operations run concurrently, however
    their calls interleave and whatever they are answered, and whichever futures are
    dropped: the turn of the registry is the one some thread holds the lease of, no
    other thread holds one, a worker is only started for the turn its starter holds,
    finishing the turn one holds always succeeds, and a thread that is over, whichever
    way it ended, holds none.  Of the workers, those whose starter has given them up
    ([run_turn] dropped, or told that the worker is gone) aside, at most one runs, and
    it is the worker of the turn of the registry.  A worker that was given up may still
    run beside it ([abandoned_worker_runs_beside_next]). *)
Theorem one_turn_at_a_time P :
  reachable config m ops P ->
  (forall i sid g, lease_of_thread P i = Some (sid, g) ->
     (exists t, js_turns (shared P) = Some t /\ at_session t = sid /\ at_generation t = g) /\
     forall j, j <> i -> lease_of_thread P j = None) /\
  (forall t, js_turns (shared P) = Some t ->
     exists i, lease_of_thread P i = Some (at_session t, at_generation t)) /\
  (forall i st o prompt k, threads P !! i = Some (st, Call (SpawnWorker o prompt) k) ->
     lease_of_thread P i = Some (to_session o, to_generation o)) /\
  (forall i st sid g k r s', threads P !! i = Some (st, Call (TurnsFinish sid g) k) ->
     shared_step config (shared P) (TurnsFinish sid g) r s' -> is_ok r = true) /\
  (forall i st a, threads P !! i = Some (st, Ret a) -> lease_of_thread P i = None) /\
  (forall n o, running P n o -> ~ given_up P n ->
     (exists t, js_turns (shared P) = Some t /\ at_session t = to_session o /\
        at_generation t = to_generation o) /\
     forall n' o', running P n' o' -> ~ given_up P n' -> n' = n).
Proof.
  intros HP. pose proof (turns_held P HP) as Ht.
  assert (Hwp : forall i st p, threads P !! i = Some (st, p) ->
            leased p (fun s _ => s = None) (lease_of_thread P i)).
  { intros i st p Hi. by destruct (thread_wp config lease_ok lease_next (fun _ s _ => s = None)
      (fun _ => None) m ops P i st p (leased_start config) HP Hi). }
  split_and!.
  - intros i sid g Hi. pose proof (one_holder_key _ _ _ _ Ht Hi) as Hk.
    destruct (js_turns (shared P)) as [t|]; [|done]. injection Hk as <- <-. split; [by exists t|].
    destruct Ht as (i' & _ & Hu). intros j Hj. apply Hu. intros ->.
    destruct (decide (i = i')) as [->|Hne]; [done|]. by rewrite (Hu i Hne) in Hi.
  - intros t Hturn. rewrite Hturn in Ht. destruct Ht as (i & Hi & _). by exists i.
  - intros i st o prompt k Hi. by destruct (Hwp _ _ _ Hi None I).
  - intros i st sid g k r s' Hi (x & Hx & _). destruct (Hwp _ _ _ Hi (Ok true) I) as [Hok _].
    cbn in Hok. pose proof (one_holder_key _ _ _ _ Ht Hok) as Hk. unfold turns_finish in Hx.
    destruct (js_turns (shared P)) as [t|]; [|done]. injection Hk as <- <-.
    rewrite (proj2 (turn_is_true _ _ t)) in Hx by done. by injection Hx as <- _.
  - intros i st a Hi. exact (Hwp _ _ _ Hi).
  - intros n o Hn Hng. destruct (running_holder P n o HP Hn) as [?|(i & Hi & Hl)]; [done|]. split.
    + pose proof (one_holder_key _ _ _ _ Ht Hl) as Hk.
      destruct (js_turns (shared P)) as [t|]; [|done]. injection Hk as <- <-. by exists t.
    + intros n' o' Hn' Hng'. destruct (running_holder P n' o' HP Hn') as [?|(j & Hj & Hl')]; [done|].
      assert (i = j) as <- by by eapply one_holder_unique. congruence.
Qed.
End pool.
