(* ===== verification/JcodePermissionSafety.v ===== *)
(** * The Jcode adapter: whose approval an approval is

    What the broker's state says of the log: a pending request has been reported, a
    grant comes from an answer the application gave, a request is resolved at most
    once for each time it is reported.  [asked_by] is the discipline of the threads:
    an approval is only sent for an answer of the application or for a grant. *)
From S2P Require Import Prelude RustStr RustPath Conversation Program Domain JcodeConfig.
From S2P Require Import JcodePermissions JcodeConnection JcodeSessions JcodeCalls JcodeModels.
From S2P Require Import JcodeTurn JcodeRuntime JcodePool.

Abbreviation jlog := (list (nat * jevent)).

(** ** The broker and the log *)

(** The request has been reported and was accepted by the broker. *)
Definition reported (l : jlog) (sid : SessionId) (g : N) (rid action description : str) : Prop :=
  exists i o, (i, Ev (PermObserve sid g rid action description) (Ok o)) ∈ l.

(** The application's [AllowSession] to this request has been acknowledged. *)
Definition allowed_for_session (l : jlog) (x : PermissionIdentity) : Prop :=
  exists i p, (i, Ev (PermComplete p AllowSession) (Ok tt)) ∈ l /\ pe_identity p = x.

(** A grant stands for a request answered with [AllowSession]. *)
Definition grant_justified (l : jlog) (key : SessionGrantKey) : Prop :=
  exists sid g rid action description, key = asked_scope sid action description /\
    reported l sid g rid action description /\
    allowed_for_session l (mkIdentity (session_id_0 sid) rid g).

Definition pending_justified (l : jlog) (rid : str) (p : PendingPermission) : Prop :=
  exists sid g action description b, p = asked_pending sid g rid action description b /\
    reported l sid g rid action description.

Record broker_inv (l : jlog) (s : PermissionState) : Prop := {
  bi_pending : forall rid p, pending_by_request_id s !! rid = Some p -> pending_justified l rid p;
  bi_grants : forall key, key ∈ session_grants s -> grant_justified l key;
  bi_budget : requests_this_turn s <= MAX_PERMISSION_REQUESTS_PER_TURN;
  bi_begun : forall i sid rid g p, (i, Ev (PermBegin sid rid g) (Ok p)) ∈ l ->
    exists action description, p = asked_pending sid g rid action description true /\
      reported l sid g rid action description;
  bi_auto : forall i sid g rid action description p,
    (i, Ev (PermObserve sid g rid action description) (Ok (AutoApprove p))) ∈ l ->
    p = asked_pending sid g rid action description true /\
    grant_justified l (asked_scope sid action description)
}.

Lemma reported_app l l' sid g rid action description :
  reported l sid g rid action description -> reported (l ++ l') sid g rid action description.
Proof. intros (i & o & H). exists i, o. rewrite elem_of_app. auto. Qed.

Lemma grant_justified_app l l' key : grant_justified l key -> grant_justified (l ++ l') key.
Proof.
  intros (sid & g & rid & action & description & -> & Hr & i & p & Hin & Hp).
  exists sid, g, rid, action, description. split; [done|]. split; [by apply reported_app|].
  exists i, p. rewrite elem_of_app. auto.
Qed.

Lemma pending_justified_app l l' rid p : pending_justified l rid p -> pending_justified (l ++ l') rid p.
Proof.
  intros (sid & g & action & description & b & -> & Hr). exists sid, g, action, description, b.
  split; [done|by apply reported_app].
Qed.

(** One more event: what it changes is justified by the log with it. *)
Lemma broker_extend l i e s s' :
  broker_inv l s ->
  (forall rid p, pending_by_request_id s' !! rid = Some p -> pending_justified (l ++ [(i, e)]) rid p) ->
  (forall key, key ∈ session_grants s' -> grant_justified (l ++ [(i, e)]) key) ->
  requests_this_turn s' <= MAX_PERMISSION_REQUESTS_PER_TURN ->
  match ev_call e as c return jcode_resp c -> Prop with
  | PermBegin sid rid g => fun r => forall p, r = Ok p -> exists action description,
      p = asked_pending sid g rid action description true /\
      reported (l ++ [(i, e)]) sid g rid action description
  | PermObserve sid g rid action description => fun r => forall p, r = Ok (AutoApprove p) ->
      p = asked_pending sid g rid action description true /\
      grant_justified (l ++ [(i, e)]) (asked_scope sid action description)
  | _ => fun _ => True
  end (ev_resp e) ->
  broker_inv (l ++ [(i, e)]) s'.
Proof.
  intros [_ _ _ Hbeg Ha] Hp Hg Hb He. split; [done..| |].
  - intros j sid rid g p [Hin|Hin%list_elem_of_singleton]%elem_of_app.
    + destruct (Hbeg _ _ _ _ _ Hin) as (a & d & ? & ?). exists a, d. split; [done|by apply reported_app].
    + injection Hin as -> <-. by apply He.
  - intros j sid g rid a d p [Hin|Hin%list_elem_of_singleton]%elem_of_app.
    + destruct (Ha _ _ _ _ _ _ _ Hin). split; [done|by apply grant_justified_app].
    + injection Hin as -> <-. by apply He.
Qed.

(** An event that does not change the broker. *)
Lemma broker_same l i e s :
  broker_inv l s ->
  match ev_call e as c return jcode_resp c -> Prop with
  | PermBegin _ _ _ | PermObserve _ _ _ _ _ => fun r => is_ok r = false
  | _ => fun _ => True
  end (ev_resp e) ->
  broker_inv (l ++ [(i, e)]) s.
Proof.
  intros Hinv He. eapply broker_extend; [done| | |apply Hinv|].
  - intros. by apply pending_justified_app, Hinv.
  - intros. by apply grant_justified_app, Hinv.
  - destruct e as [[] r]; try done; cbn in He |- *; by intros p ->.
Qed.

(** Replacing an entry by the same request keeps the entries justified. *)
Lemma insert_justified (l : jlog) (m : gmap str PendingPermission) rid p b :
  (forall rid p, m !! rid = Some p -> pending_justified l rid p) ->
  m !! rid = Some p ->
  forall rid' p', <[rid := set_responding b p]> m !! rid' = Some p' -> pending_justified l rid' p'.
Proof.
  intros Hp Hm rid' p' [[<- <-]|[_ H]]%lookup_insert_Some; [|by apply Hp].
  destruct (Hp _ _ Hm) as (sid & g & a & d & b' & -> & Hr). by exists sid, g, a, d, b.
Qed.

Lemma replace_budget s rid p p' :
  pending_by_request_id s !! rid = Some p ->
  requests_this_turn (with_pending s (<[rid := p']> (pending_by_request_id s))) =
    requests_this_turn s.
Proof. intros H. unfold requests_this_turn. cbn. by rewrite map_size_insert, H. Qed.

Lemma broker_observe l i sid g rid action description s r s' :
  broker_inv l s -> observe_request sid g rid action description s = (r, s') ->
  broker_inv (l ++ [(i, Ev (PermObserve sid g rid action description) r)]) s'.
Proof.
  intros Hinv Hx. unfold observe_request in Hx.
  destruct (let? _ := _ in _) as [[]|e]; [|injection Hx as <- <-; by apply broker_same].
  destruct (is_some _ || _) eqn:Hnew; [injection Hx as <- <-; by apply broker_same|].
  destruct (N.leb_spec MAX_PERMISSION_REQUESTS_PER_TURN (requests_this_turn s)) as [|Hbudget];
    [injection Hx as <- <-; by apply broker_same|].
  apply orb_false_iff in Hnew as [Hnone _]. unfold is_some in Hnone. apply negb_false_iff in Hnone.
  destruct (pending_by_request_id s !! rid) eqn:Hpend; [done|].
  cbn zeta in Hx. set (granted := bool_decide _) in Hx. injection Hx as <- <-.
  set (o := if granted then _ else _).
  assert (Hrep : reported (l ++ [(i, Ev (PermObserve sid g rid action description) (Ok o))])
                   sid g rid action description).
  { exists i, o. apply elem_of_app. right. by apply list_elem_of_singleton. }
  eapply broker_extend; [exact Hinv| | | |].
  - intros rid' p. cbn [pending_by_request_id with_pending].
    intros [[<- <-]|[_ H]]%lookup_insert_Some; [|by apply pending_justified_app, Hinv].
    by exists sid, g, action, description, granted.
  - intros. by apply grant_justified_app, Hinv.
  - unfold requests_this_turn in *. cbn [pending_by_request_id resolved_this_turn with_pending].
    rewrite map_size_insert_None by done. lia.
  - intros p Ho. injection Ho as Ho. subst o granted. case_bool_decide as Hgr; [|done].
    injection Ho as <-. split; [done|]. by apply grant_justified_app, Hinv.
Qed.

Lemma broker_begin l i sid rid g s r s' :
  broker_inv l s -> begin_response sid rid g s = (r, s') ->
  broker_inv (l ++ [(i, Ev (PermBegin sid rid g) r)]) s'.
Proof.
  intros Hinv Hx. unfold begin_response in Hx.
  destruct (validate_request_id rid) as [[]|e]; [|injection Hx as <- <-; by apply broker_same].
  destruct (pending_by_request_id s !! rid) as [p|] eqn:Hpend;
    [|injection Hx as <- <-; by apply broker_same].
  destruct (_ || _) eqn:Hmatch; [injection Hx as <- <-; by apply broker_same|].
  destruct (pe_responding p); injection Hx as <- <-; [by apply broker_same|].
  destruct (bi_pending _ _ Hinv _ _ Hpend) as (sid' & g' & a & d & b & -> & Hr).
  apply orb_false_iff in Hmatch as [Hs Hgen]. apply negb_false_iff, bool_decide_eq_true in Hs.
  apply negb_false_iff, N.eqb_eq in Hgen. cbn in Hs, Hgen. subst sid' g'.
  eapply broker_extend; [exact Hinv| | | |].
  - intros rid' p' H. apply pending_justified_app. eapply insert_justified; [apply Hinv|exact Hpend|exact H].
  - intros. by apply grant_justified_app, Hinv.
  - erewrite replace_budget by done. apply Hinv.
  - intros p [= <-]. exists a, d. split; [done|by apply reported_app].
Qed.

Lemma broker_complete l i p d s r s' :
  broker_inv l s -> complete_response p d s = (r, s') ->
  broker_inv (l ++ [(i, Ev (PermComplete p d) r)]) s'.
Proof.
  intros Hinv Hx. unfold complete_response in Hx.
  destruct (pending_by_request_id s !! _) as [cur|] eqn:Hpend;
    [|injection Hx as <- <-; by apply broker_same].
  destruct (_ || _) eqn:Hmatch; injection Hx as <- <-; [by apply broker_same|].
  apply orb_false_iff in Hmatch as [Hid _]. apply negb_false_iff, bool_decide_eq_true in Hid.
  eapply broker_extend; [exact Hinv| | | |done].
  - intros rid' p'. cbn [pending_by_request_id]. intros [_ H]%lookup_delete_Some. by apply pending_justified_app, Hinv.
  - intros key. cbn [session_grants].
    destruct (decide _) as [->|]; [|by intros; apply grant_justified_app, Hinv].
    intros [->%elem_of_singleton|H]%elem_of_union; [|by apply grant_justified_app, Hinv].
    destruct (bi_pending _ _ Hinv _ _ Hpend) as (sid & g & a & de & b & -> & Hr).
    exists sid, g, (perm_request_id (pe_request p)), a, de. split; [done|].
    split; [by apply reported_app|]. exists i, p. split; [|by rewrite <-Hid].
    apply elem_of_app. right. by apply list_elem_of_singleton.
  - pose proof (bi_budget _ _ Hinv) as Hb. unfold requests_this_turn in *.
    cbn [pending_by_request_id resolved_this_turn] in *. rewrite map_size_delete, Hpend.
    assert (size ({[pe_identity cur]} ∪ resolved_this_turn s) <= 1 + size (resolved_this_turn s))%nat.
    { rewrite size_union_alt, size_singleton.
      pose proof (subseteq_size (resolved_this_turn s ∖ {[pe_identity cur]}) (resolved_this_turn s)
                    ltac:(set_solver)). lia. }
    assert (size (pending_by_request_id s) <> 0%nat).
    { intros E%map_size_empty_iff. by rewrite E in Hpend. }
    cbn in *. lia.
Qed.

Lemma broker_abort l i p s :
  broker_inv l s -> broker_inv (l ++ [(i, Ev (PermAbort p) tt)]) (abort_response p s).
Proof.
  intros Hinv. unfold abort_response.
  destruct (pending_by_request_id s !! _) as [cur|] eqn:Hpend; [|by apply broker_same].
  destruct (bool_decide _); [|by apply broker_same]. eapply broker_extend; [exact Hinv| | | |done].
  - intros rid' p' H. apply pending_justified_app. eapply insert_justified; [apply Hinv|exact Hpend|exact H].
  - intros. by apply grant_justified_app, Hinv.
  - erewrite replace_budget by done. apply Hinv.
Qed.

Lemma broker_finish l i sid g s :
  broker_inv l s -> broker_inv (l ++ [(i, Ev (PermFinishTurn sid g) tt)]) (finish_turn sid g s).
Proof.
  intros Hinv. eapply broker_extend; [exact Hinv| | | |done].
  - intros rid p. cbn [pending_by_request_id finish_turn]. intros [H _]%map_lookup_filter_Some. by apply pending_justified_app, Hinv.
  - intros. by apply grant_justified_app, Hinv.
  - pose proof (bi_budget _ _ Hinv) as Hb. unfold requests_this_turn in *.
    cbn [pending_by_request_id resolved_this_turn finish_turn].
    pose proof (map_subseteq_size _ _ (map_filter_subseteq
      (fun kv => of_turn sid g (pe_identity kv.2) = false) (pending_by_request_id s))).
    pose proof (subseteq_size (filter (fun i => of_turn sid g i = false) (resolved_this_turn s))
      (resolved_this_turn s) ltac:(set_solver)). lia.
Qed.

Lemma broker_start s : s = no_permissions -> broker_inv [] s.
Proof.
  intros ->. split; [done| |done|by intros ? ? ? ? ? ?%elem_of_nil|by intros ? ? ? ? ? ? ? ?%elem_of_nil].
  intros key H. by apply not_elem_of_empty in H.
Qed.

Lemma broker_step config l i s c r s' :
  is_thread_call c = false -> shared_step config s c r s' ->
  broker_inv l (js_permissions s) -> broker_inv (l ++ [(i, Ev c r)]) (js_permissions s').
Proof.
  intros Hc Hs Hinv. destruct c; try done; cbn in Hs;
    try (subst s'; by apply broker_same);
    try (destruct Hs as [? ->]; by apply broker_same);
    try (destruct Hs as (? & ? & ->); by apply broker_same);
    try (destruct Hs as (? & ? & ? & ? & ? & ->); by apply broker_same).
  - destruct Hs as (x & Hx & ->). by eapply broker_observe.
  - destruct Hs as (x & Hx & ->). by eapply broker_begin.
  - destruct Hs as (x & Hx & ->). by eapply broker_complete.
  - subst s'. destruct r. by apply broker_abort.
  - subst s'. destruct r. by apply broker_finish.
Qed.

(** ** The threads *)

(** When a thread may send an approval, or have an [AllowSession] recorded. *)
Definition asked_by (s : start * list jevent) (e : jevent) : Prop :=
  match ev_call e with
  | SdkRespond _ session rid SdkAllow =>
    (exists sid g p d, s.1 = Op (OpRespond sid rid d) /\ d <> Deny /\ session = session_id_0 sid /\
       Ev (PermBegin sid rid g) (Ok p) ∈ s.2) \/
    (exists sid g action description p, session = session_id_0 sid /\
       Ev (PermObserve sid g rid action description) (Ok (AutoApprove p)) ∈ s.2)
  | PermComplete p AllowSession =>
    exists sid rid g c, s.1 = Op (OpRespond sid rid AllowSession) /\
      Ev (PermBegin sid rid g) (Ok p) ∈ s.2 /\
      Ev (SdkRespond c (session_id_0 sid) rid SdkAllow) (Ok tt) ∈ s.2
  | _ => True
  end.

Definition approval_free (c : jcode_call) : bool :=
  match c with SdkRespond _ _ _ SdkAllow | PermComplete _ AllowSession => false | _ => true end.

Lemma traced_free {A} (p : jcode A) Q s :
  calls_only approval_free p -> (forall tr a, runs p tr a -> Q (s.1, s.2 ++ tr) a) ->
  traced asked_by p Q s.
Proof.
  revert s. induction p as [a|c k IH]; cbn; intros s Hp HQ.
  - specialize (HQ [] a). rewrite app_nil_r in HQ. destruct s. by apply HQ.
  - destruct Hp as [Hc Hk]. intros r _. split.
    + destruct c; try done; [by destruct d|by destruct d].
    + apply IH; [apply Hk|]. intros tr a Hr. cbn. rewrite <-app_assoc. apply HQ. eauto.
Qed.

Lemma traced_call c (Q : start * list jevent -> jcode_resp c -> Prop) s :
  (forall r, asked_by s (Ev c r)) -> (forall r, Q (remember s (Ev c r)) r) ->
  traced asked_by (call_ c) Q s.
Proof. intros H HQ r _. split; [apply H|apply HQ]. Qed.

Lemma elem_of_snoc_l {A} (x y : A) l : x ∈ l -> x ∈ l ++ [y].
Proof. intros. apply elem_of_app. by left. Qed.
Lemma elem_of_snoc_r {A} (x : A) l : x ∈ l ++ [x].
Proof. apply elem_of_app. right. by apply list_elem_of_singleton. Qed.
#[local] Hint Resolve elem_of_snoc_l elem_of_snoc_r : core.

(** What a reserved response has reserved. *)
Definition reserved_by (sid : SessionId) (rid : str) (tr : list jevent)
    (r : Result (JcodeClient * PendingPermission)) : Prop :=
  match r with
  | Ok (_, p) => exists g, Ev (PermBegin sid rid g) (Ok p) ∈ tr
  | Err _ => True
  end.

Ltac trace_step :=
  lazymatch goal with
  | |- traced _ (Ret _) _ _ => cbn [wp remember fst snd]
  | |- traced _ (bind _ _) _ _ => apply wp_bind
  | |- traced _ (call_ _) _ _ =>
    apply traced_call; [intros ?; exact I|intros ?; cbn [remember fst snd]]
  | |- traced _ (match ?x with _ => _ end) _ _ => destruct x eqn:?
  | |- traced _ ?p _ _ => unfold_head p
  end.

Lemma traced_reserve sid rid st tr :
  traced asked_by (gated (reserve_response sid rid))
    (fun s r => s.1 = st /\ reserved_by sid rid s.2 r) (st, tr).
Proof.
  repeat trace_step; (split; [done|]); cbn [reserved_by]; try done.
  subst. eexists. apply elem_of_snoc_l, elem_of_snoc_r.
Qed.

Lemma traced_respond sid rid d :
  traced asked_by (respond_to_permission sid rid d) (fun _ _ => True)
    (Op (OpRespond sid rid d), []).
Proof.
  unfold respond_to_permission. apply wp_bind. destruct (validate_jcode_session_id sid); [|done].
  cbn [wp give]. apply wp_bind. eapply wp_mono; [apply traced_reserve|].
  intros [st tr] [[c p]|e] [Hst Hr]; [|done]. cbn [fst snd] in *. subst st.
  destruct Hr as [g Hg]. apply wp_bind. unfold sdk_call. apply wp_bind.
  assert (Hup : d <> Deny -> upstream d = SdkAllow) by by destruct d.
  intros r _. split.
  { cbn. destruct (decide (d = Deny)) as [->|Hd]; [done|]. rewrite Hup by done. left.
    by exists sid, g, p, d. }
  cbn [wp remember fst snd]. destruct r as [[]|e].
  - intros r _. split; [|done]. cbn. destruct d; try done.
    exists sid, rid, g, c. auto.
  - by repeat trace_step.
Qed.

Lemma traced_on_event o e st s : traced asked_by (on_event o e st) (fun s' _ => s'.1 = s.1) s.
Proof.
  destruct e; try (apply traced_free; [solve [calls_solve]|done]). cbn [on_event].
  unfold on_permission_request. destruct (negb (mine (to_session o) session_id)); [by cbn|].
  destruct (negb (to_permissions_supported o)); [apply traced_free; [solve [calls_solve]|done]|].
  apply wp_bind, traced_call; [done|]. intros [[req|p]|err];
    try (apply traced_free; [solve [calls_solve]|done]).
  unfold auto_approve. apply wp_bind. intros r _. split.
  { right. exists (to_session o), (to_generation o), tool_name, description, p.
    split; [done|]. apply elem_of_snoc_r. }
  cbn [wp]. destruct r as [[]|]; (apply traced_free; [solve [calls_solve]|done]).
Qed.

Lemma traced_on_events o es st s : traced asked_by (on_events o es st) (fun s' _ => s'.1 = s.1) s.
Proof.
  revert st s. induction es as [|e es IH]; intros st s; cbn [on_events]; [done|].
  apply wp_bind. eapply wp_mono; [apply traced_on_event|]. intros s' st' Hs.
  eapply wp_mono; [apply IH|]. intros s2 st2 H2. cbn in *. congruence.
Qed.

Lemma traced_start config st :
  traced asked_by (start_program config st) (fun _ _ => True) (st, []).
Proof.
  destruct st as [op|o prompt].
  - destruct op; cbn [start_program op_program]; unfold returning;
      try (apply traced_free; [solve [calls_solve]|done]).
    apply wp_bind. eapply wp_mono; [apply traced_respond|done].
  - unfold start_program, returning, turn_worker. apply wp_bind, wp_bind, traced_call; [done|].
    intros [es r]. apply wp_bind. eapply wp_mono; [apply traced_on_events|].
    intros s st' _. apply wp_bind, traced_call; done.
Qed.

(** ** How often a request is resolved *)

Definition reports (x : PermissionIdentity) (ie : nat * jevent) : bool :=
  match ev_call ie.2 as c return jcode_resp c -> bool with
  | PermObserve sid g rid _ _ => fun r =>
      is_ok r && bool_decide (mkIdentity (session_id_0 sid) rid g = x)
  | _ => fun _ => false
  end (ev_resp ie.2).

Definition resolves (x : PermissionIdentity) (ie : nat * jevent) : bool :=
  match ev_call ie.2 as c return jcode_resp c -> bool with
  | PermComplete p _ => fun r => is_ok r && bool_decide (pe_identity p = x)
  | _ => fun _ => false
  end (ev_resp ie.2).

Definition is_pending (s : PermissionState) (x : PermissionIdentity) : bool :=
  match pending_by_request_id s !! id_request x with
  | Some p => bool_decide (pe_identity p = x)
  | None => false
  end.

Definition resolved_once (l : jlog) (s : PermissionState) : Prop :=
  forall x, count (resolves x) l + (if is_pending s x then 1 else 0) <= count (reports x) l.

Lemma is_pending_insert s rid p x :
  perm_request_id (pe_request p) = rid ->
  is_pending (with_pending s (<[rid := p]> (pending_by_request_id s))) x =
    if decide (pe_identity p = x) then true
    else if decide (id_request x = rid) then false else is_pending s x.
Proof.
  intros <-. unfold is_pending. cbn [pending_by_request_id with_pending].
  destruct (decide (pe_identity p = x)) as [<-|Hne].
  - cbn [id_request pe_identity]. rewrite lookup_insert_eq. by apply bool_decide_eq_true.
  - destruct (decide (id_request x = _)) as [->|Hn].
    + rewrite lookup_insert_eq. by apply bool_decide_eq_false.
    + by rewrite lookup_insert_ne.
Qed.

Lemma resolved_once_same l i e s s' :
  resolved_once l s -> (forall x, is_pending s' x = true -> is_pending s x = true) ->
  (forall x, resolves x (i, e) = false) -> resolved_once (l ++ [(i, e)]) s'.
Proof.
  intros H Hp Hr x. specialize (H x). rewrite !count_app. cbn [count]. rewrite Hr.
  destruct (is_pending s' x) eqn:E; [rewrite (Hp _ E) in H; lia|].
  destruct (is_pending s x); lia.
Qed.

(** Answering again or aborting does not change who is pending. *)
Lemma is_pending_replace l s rid p b x :
  broker_inv l s -> pending_by_request_id s !! rid = Some p ->
  is_pending (with_pending s (<[rid := set_responding b p]> (pending_by_request_id s))) x =
    is_pending s x.
Proof.
  intros Hinv Hp. destruct (bi_pending _ _ Hinv _ _ Hp) as (sid & g & a & d & b' & -> & _).
  rewrite is_pending_insert by done. unfold is_pending.
  destruct (decide (_ = x)) as [<-|Hne].
  - cbn [id_request pe_identity asked_pending pe_request set_responding asked_request perm_request_id].
    rewrite Hp. symmetry. by apply bool_decide_eq_true.
  - destruct (decide _) as [->|]; [|done]. rewrite Hp. symmetry. by apply bool_decide_eq_false.
Qed.

Lemma resolved_once_step config l i s c r s' :
  is_thread_call c = false -> shared_step config s c r s' ->
  broker_inv l (js_permissions s) -> resolved_once l (js_permissions s) ->
  resolved_once (l ++ [(i, Ev c r)]) (js_permissions s').
Proof.
  intros Hc Hs Hinv H.
  assert (Hsame : js_permissions s' = js_permissions s -> (forall x, resolves x (i, Ev c r) = false) ->
            resolved_once (l ++ [(i, Ev c r)]) (js_permissions s')).
  { intros -> Hr. by eapply resolved_once_same. }
  destruct c; try done; cbn in Hs;
    try (subst s'; by apply Hsame);
    try (destruct Hs as [? ->]; by apply Hsame);
    try (destruct Hs as (? & ? & ->); by apply Hsame);
    try (destruct Hs as (? & ? & ? & ? & ? & ->); by apply Hsame).
  - (* observe *) destruct Hs as (x & Hx & ->). cbn [js_permissions set_permissions] in *.
    unfold observe_request in Hx. destruct (let? _ := _ in _) as [[]|e]; [|injection Hx as <- <-; by apply Hsame].
    destruct (is_some _ || _) eqn:Hnew; [injection Hx as <- <-; by apply Hsame|].
    destruct (_ <=? _); [injection Hx as <- <-; by apply Hsame|].
    apply orb_false_iff in Hnew as [Hnone _]. apply negb_false_iff in Hnone.
    destruct (pending_by_request_id (js_permissions s) !! request_id) eqn:Hpend; [done|].
    cbn zeta in Hx. set (granted := bool_decide _) in Hx. clearbody granted.
    injection Hx as <- <-. intros y. specialize (H y).
    rewrite is_pending_insert, !count_app by done. cbn [count resolves reports ev_call ev_resp snd is_ok andb].
    destruct (decide (_ = y)) as [<-|Hne].
    + rewrite bool_decide_true by done. destruct (is_pending _ _); lia.
    + rewrite bool_decide_false by done. destruct (decide _); [|lia].
      destruct (is_pending _ _); lia.
  - (* begin *) destruct Hs as (x & Hx & ->). cbn [js_permissions set_permissions] in *.
    unfold begin_response in Hx. destruct (validate_request_id request_id) as [[]|e]; [|injection Hx as <- <-; by apply Hsame].
    destruct (pending_by_request_id (js_permissions s) !! request_id) as [p|] eqn:Hpend;
      [|injection Hx as <- <-; by apply Hsame].
    destruct (_ || _); [injection Hx as <- <-; by apply Hsame|].
    destruct (pe_responding p); injection Hx as <- <-; [by apply Hsame|].
    eapply resolved_once_same; [exact H| |done]. intros y. by erewrite is_pending_replace.
  - (* complete *) destruct Hs as (x & Hx & ->). cbn [js_permissions set_permissions] in *.
    unfold complete_response in Hx.
    destruct (pending_by_request_id (js_permissions s) !! _) as [cur|] eqn:Hpend;
      [|injection Hx as <- <-; by apply Hsame].
    destruct (_ || _) eqn:Hm; injection Hx as <- <-; [by apply Hsame|].
    apply orb_false_iff in Hm as [Hid _]. apply negb_false_iff, bool_decide_eq_true in Hid.
    intros y. specialize (H y). rewrite !count_app. cbn [count resolves reports ev_call ev_resp snd is_ok andb].
    unfold is_pending in *. cbn [pending_by_request_id].
    destruct (decide (pe_identity pending = y)) as [<-|Hne].
    + rewrite bool_decide_true by done. cbn [id_request pe_identity] in *.
      rewrite lookup_delete_eq. rewrite Hpend, Hid, bool_decide_true in H by done. lia.
    + rewrite bool_decide_false by done.
      destruct (decide (id_request y = perm_request_id (pe_request pending))) as [E|E].
      * rewrite E, lookup_delete_eq. lia.
      * rewrite lookup_delete_ne by done. lia.
  - (* abort *) subst s'. cbn [js_permissions set_permissions] in *. unfold abort_response in *.
    destruct (pending_by_request_id (js_permissions s) !! _) as [cur|] eqn:Hpend; [|by apply Hsame].
    destruct (bool_decide _); [|by apply Hsame].
    eapply resolved_once_same; [exact H| |done]. intros y. by erewrite is_pending_replace.
  - (* finish *) subst s'. eapply resolved_once_same; [exact H| |done]. intros y. cbn.
    unfold is_pending. cbn [pending_by_request_id finish_turn].
    destruct (filter _ _ !! _) as [p|] eqn:E; [|done].
    apply map_lookup_filter_Some in E as [E _]. by rewrite E.
Qed.

(** ** The pool *)

Section pool.
Context (config : JcodeConnectionConfig) (m : JcodeConnectionManager) (ops : list jcode_op).

Lemma pool_broker P :
  reachable config m ops P ->
  broker_inv (log P) (js_permissions (shared P)) /\ resolved_once (log P) (js_permissions (shared P)).
Proof.
  apply (reachable_ind config m ops (fun P => broker_inv (log P) (js_permissions (shared P)) /\
    resolved_once (log P) (js_permissions (shared P)))).
  - split; [by apply broker_start|]. intros x. unfold is_pending. cbn. by rewrite lookup_empty.
  - intros P1 P2 _ _ (i & st & c & k & r & new & _ & HP & _ & Hs)%pool_step_view [H1 H2].
    assert (log P2 = log P1 ++ [(i, Ev c r)]) as -> by (by rewrite HP).
    destruct (is_thread_call c) eqn:Hc.
    + rewrite Hs. split; [by apply broker_same; [|destruct c]|].
      eapply resolved_once_same; [done..|]. by destruct c.
    + split; [by eapply broker_step|by eapply resolved_once_step].
Qed.

(** A request id stands for one request per session and connection. *)
Definition distinct_requests (l : jlog) : Prop :=
  forall sid g rid a d a' d', reported l sid g rid a d -> reported l sid g rid a' d' ->
    a = a' /\ d = d'.

(** The answer [AllowSession] of thread [j] to the request [rid]: the operation the
    application called, the request it was for, the approval sent and acknowledged. *)
Definition answered_for_session (P : pool) (j : nat) (sid : SessionId) (g : N) (rid : str)
    (p : PendingPermission) : Prop :=
  ops !! j = Some (OpRespond sid rid AllowSession) /\
  (j, Ev (PermBegin sid rid g) (Ok p)) ∈ log P /\
  (exists c, (j, Ev (SdkRespond c (session_id_0 sid) rid SdkAllow) (Ok tt)) ∈ log P) /\
  (j, Ev (PermComplete p AllowSession) (Ok tt)) ∈ log P.

Lemma allowed_answered P x :
  reachable config m ops P -> allowed_for_session (log P) x ->
  exists j sid g rid p, answered_for_session P j sid g rid p /\ x = mkIdentity (session_id_0 sid) rid g.
Proof.
  intros HP (j & p & Hin & Hx). pose proof (reachable_faithful _ _ _ _ HP) as [_ Hl].
  destruct (lookup_lt_is_Some_2 (threads P) j (Hl _ _ Hin)) as [[st q] Hj].
  destruct (thread_traced config asked_by (fun _ _ _ => True) m ops P j st q
              (traced_start config) HP Hj) as [_ Ha].
  destruct (accepted_elem _ _ _ _ (Ev (PermComplete p AllowSession) (Ok tt)) Ha) as (tr1 & tr2 & Htr & Hok).
  { by apply elem_of_own. }
  rewrite remember_foldl in Hok. destruct Hok as (sid & rid & g & c & Hst & Hbeg & Hresp).
  cbn [fst snd app] in *. subst st. exists j, sid, g, rid, p.
  assert (Hown : forall e, e ∈ tr1 -> (j, e) ∈ log P).
  { intros e He. apply elem_of_own. rewrite Htr. apply elem_of_app. by left. }
  split.
  - split; [by eapply started_op|]. split; [by apply Hown|]. split; [exists c; by apply Hown|done].
  - destruct (pool_broker P HP) as [Hinv _].
    destruct (bi_begun _ _ Hinv _ _ _ _ _ (Hown _ Hbeg)) as (a & d & -> & _). by subst x.
Qed.

(** C9. Nothing is approved but by the application.  Whatever runs concurrently and
    whatever the SDK does: an approval sent to the agent answers a request the agent
    has reported in this session, and it is sent either because the application
    answered this request with [AllowOnce] or [AllowSession], or because it answered
    with [AllowSession], acknowledged by the agent, a request id under which the agent
    has reported the same action with the same description in the same session.  On the
    condition that the agent does not use a request id for two requests
    ([distinct_requests]), the request so answered is that one; with a reused id it can
    be another, see [reused_id_grants_another]. *)
Theorem approvals_are_the_users P i st c session rid k :
  reachable config m ops P ->
  threads P !! i = Some (st, Call (SdkRespond c session rid SdkAllow) k) ->
  exists sid g action description, session = session_id_0 sid /\
    reported (log P) sid g rid action description /\
    ((exists d, ops !! i = Some (OpRespond sid rid d) /\ (d = AllowOnce \/ d = AllowSession)) \/
     (exists j g' rid' p, answered_for_session P j sid g' rid' p /\
        reported (log P) sid g' rid' action description /\
        (distinct_requests (log P) ->
         p = asked_pending sid g' rid' action description true))).
Proof.
  intros HP Hi. destruct (pool_broker P HP) as [Hinv _].
  destruct (thread_traced config asked_by (fun _ _ _ => True) m ops P i st _
              (traced_start config) HP Hi) as [Hw _].
  destruct (Hw (Ok tt) I) as [Hok _]. cbn [asked_by ev_call fst snd] in Hok.
  destruct Hok as [(sid & g & p & d & -> & Hd & -> & Hbeg%elem_of_own)
                  |(sid & g & a & d & p & -> & Hobs%elem_of_own)].
  - destruct (bi_begun _ _ Hinv _ _ _ _ _ Hbeg) as (a & de & _ & Hr).
    exists sid, g, a, de. split; [done|]. split; [done|]. left. exists d.
    split; [by eapply started_op|]. destruct d; by auto.
  - destruct (bi_auto _ _ Hinv _ _ _ _ _ _ _ Hobs) as [_ (sid' & g' & rid' & a' & d' & Hkey & Hr & Hall)].
    assert (sid' = sid /\ a' = a /\ d' = d) as (-> & -> & ->).
    { destruct sid, sid'. injection Hkey as -> -> ->. done. }
    exists sid, g, a, d. split; [done|]. split; [by exists i, (AutoApprove p)|]. right.
    destruct (allowed_answered P _ HP Hall) as (j & sid2 & g2 & rid2 & p2 & Hans & Hid).
    assert (sid2 = sid /\ rid2 = rid' /\ g2 = g') as (-> & -> & ->).
    { destruct sid, sid2. injection Hid as -> -> ->. done. }
    exists j, g', rid', p2. split; [done|]. split; [done|]. intros Hdist.
    destruct Hans as (_ & Hbeg & _). destruct (bi_begun _ _ Hinv _ _ _ _ _ Hbeg) as (a2 & d2 & -> & Hr2).
    by destruct (Hdist _ _ _ _ _ _ _ Hr Hr2) as [-> ->].
Qed.

(** A request is resolved at most once.  In every interleaving, a request id of a
    session and connection has been resolved at most as often as it was reported, less
    one while it is pending; what is pending has been reported, under its own id; and
    the requests of the turn never exceed their budget. *)
Theorem requests_resolved_once P :
  reachable config m ops P ->
  (forall x, count (resolves x) (log P) + (if is_pending (js_permissions (shared P)) x then 1 else 0)
             <= count (reports x) (log P)) /\
  (forall rid p, pending_by_request_id (js_permissions (shared P)) !! rid = Some p ->
     pending_justified (log P) rid p) /\
  requests_this_turn (js_permissions (shared P)) <= MAX_PERMISSION_REQUESTS_PER_TURN.
Proof. intros [[] Hr]%pool_broker. by split_and!. Qed.
End pool.

(** ** Request ids that are used again *)

(** Without distinct request ids an answer can land on another request: while an
    [AllowSession] to "npm test" is on its way the turn ends, the next turn of the same
    session asks for "npm publish" under the same id, and someone has begun to answer
    that; the acknowledgement of the first answer then resolves the second request and
    grants "npm publish" for the session, which nobody approved. *)
Definition reused_id_trace : Result unit * PermissionState :=
  let sid := MkSessionId (u "s1") in
  let s1 := (observe_request sid 1 (u "r1") (u "bash") (u "npm test") no_permissions).2 in
  let b1 := begin_response sid (u "r1") 1 s1 in
  let s2 := finish_turn sid 1 b1.2 in
  let s3 := (observe_request sid 1 (u "r1") (u "bash") (u "npm publish") s2).2 in
  let b2 := begin_response sid (u "r1") 1 s3 in
  match b1.1 with
  | Ok p => complete_response p AllowSession b2.2
  | Err e => (Err e, no_permissions)
  end.

Lemma reused_id_grants_another :
  reused_id_trace.1 = Ok tt /\
  elements (session_grants reused_id_trace.2) = [mkGrant (u "s1") (u "bash") (u "npm publish")].
Proof. by vm_compute. Qed.
