(* ===== verification/JcodeTurnFacts.v ===== *)
(** * The Jcode adapter: what a turn has seen when it succeeds

    The worker's flags are never cleared, and the caller refuses the result of a turn
    with one of them set.  So a turn that succeeds over the model bridge has started
    only file tools, and not too many; and a permission request the agent waits for
    has been handed to the application, approved, or the turn has been cancelled. *)
From S2P Require Import Prelude RustStr RustPath Conversation Program Domain JcodeConfig.
From S2P Require Import JcodePermissions JcodeConnection JcodeSessions JcodeCalls JcodeModels.
From S2P Require Import JcodeTurn JcodeRuntime JcodePool.

(** What every run of a program returns. *)
Definition returns {A} (p : jcode A) (Q : A -> Prop) : Prop := forall tr a, runs p tr a -> Q a.

Lemma returns_ret {A} (a : A) (Q : A -> Prop) : Q a -> returns (Ret a) Q.
Proof. by intros H tr b [_ ->]. Qed.
Lemma returns_call c (Q : jcode_resp c -> Prop) : (forall r, Q r) -> returns (call_ c) Q.
Proof. by intros H tr b _. Qed.
Lemma returns_bind {A B} (p : jcode A) (f : A -> jcode B) Q :
  returns p (fun a => returns (f a) Q) -> returns (bind p f) Q.
Proof. intros H tr b (tr1 & a & tr2 & -> & H1 & H2)%runs_bind. by eapply H. Qed.

Ltac returns_step :=
  lazymatch goal with
  | |- returns (Ret _) _ => apply returns_ret
  | |- returns (bind _ _) _ => apply returns_bind
  | |- returns (call_ _) _ => apply returns_call; intros ?
  | |- returns (match ?x with _ => _ end) _ => destruct x eqn:?
  | |- returns ?p _ => unfold_head p
  end.

(** ** The flags *)

Definition flags_le (a b : TurnSafetyState) : Prop :=
  (permission_protocol_failure a = true -> permission_protocol_failure b = true) /\
  (tool_limit_exceeded a = true -> tool_limit_exceeded b = true) /\
  (tool_policy_failure a = true -> tool_policy_failure b = true).

#[export] Instance flags_le_preorder : PreOrder flags_le.
Proof. split; unfold flags_le; [done|]. intros a b c (?&?&?) (?&?&?). auto. Qed.

Lemma on_event_flags o e st : returns (on_event o e st) (fun st' => flags_le (cb_safety st) (cb_safety st')).
Proof. repeat returns_step; by destruct st as [? [? ? ?] ?]. Qed.

Lemma on_events_flags o es st :
  returns (on_events o es st) (fun st' => flags_le (cb_safety st) (cb_safety st')).
Proof.
  revert st. induction es as [|e es IH]; intros st; cbn [on_events]; [by apply returns_ret|].
  apply returns_bind. intros tr st1 H1%on_event_flags tr' st2 H2%IH. by etransitivity.
Qed.

(** Where in the run of the callback an event was handled. *)
Lemma on_events_split o es st tr st' e :
  runs (on_events o es st) tr st' -> e ∈ es ->
  exists st1 tr1 st2, runs (on_event o e st1) tr1 st2 /\ (forall x, x ∈ tr1 -> x ∈ tr) /\
    flags_le (cb_safety st2) (cb_safety st').
Proof.
  revert st tr. induction es as [|e' es IH]; intros st tr; [by intros _ ?%elem_of_nil|].
  cbn [on_events]. intros (tr1 & st1 & tr2 & -> & H1 & H2)%runs_bind He.
  pose proof (on_events_flags _ _ _ _ _ H2) as Hle.
  apply elem_of_cons in He as [->|He].
  - exists st, tr1, st1. split; [done|]. split; [|done]. intros x ?. apply elem_of_app. by left.
  - destruct (IH _ _ H2 He) as (st2 & tr3 & st3 & ? & Hin & ?). exists st2, tr3, st3.
    split; [done|]. split; [|done]. intros x ?%Hin. apply elem_of_app. by right.
Qed.

Lemma outcome_flagged m cancelled :
  permission_protocol_failure (wm_safety m) = true \/ tool_limit_exceeded (wm_safety m) = true \/
  tool_policy_failure (wm_safety m) = true ->
  exists e, turn_outcome m cancelled = Err e.
Proof.
  unfold turn_outcome. destruct (wm_safety m) as [[] [] []]; cbn; eauto; naive_solver.
Qed.

(** ** Permission requests *)

(** How a request is disposed of in a run: handed to the application's handler, which
    returns; approved and recorded; or the turn cancelled, with its flag set. *)
Definition disposed (o : TurnOptions) (rid tool description : str) (tr : list jevent)
    (flag : bool) : Prop :=
  (exists request,
     Ev (PermObserve (to_session o) (to_generation o) rid tool description) (Ok (Prompt request)) ∈ tr /\
     Ev (HandlerCall (PermissionRequired request)) true ∈ tr) \/
  (exists p, Ev (SdkRespond (to_client o) (session_id_0 (to_session o)) rid SdkAllow) (Ok tt) ∈ tr /\
     Ev (PermComplete p AllowOnce) (Ok tt) ∈ tr) \/
  ((exists r, Ev (SdkCancel (to_client o) (session_id_0 (to_session o))) r ∈ tr) /\ flag = true).

Lemma disposed_mono o rid tool description tr tr' flag flag' :
  disposed o rid tool description tr flag -> (forall e, e ∈ tr -> e ∈ tr') ->
  (flag = true -> flag' = true) -> disposed o rid tool description tr' flag'.
Proof.
  intros [(request & H1 & H2)|[(p & H1 & H2)|[(r & H1) H2]]] Htr Hf; [left|right; left|right; right].
  - exists request. auto.
  - exists p. auto.
  - split; [exists r|]; auto.
Qed.

(** Failing closed always cancels. *)
Lemma fail_closed o rid st tr st' :
  runs (fail_permission_protocol o rid st) tr st' ->
  (exists r, Ev (SdkCancel (to_client o) (session_id_0 (to_session o))) r ∈ tr) /\
  permission_protocol_failure (cb_safety st') = true.
Proof.
  unfold fail_permission_protocol. destruct (request_id_is_safe_for_response rid).
  - intros (r1 & tr1 & -> & r2 & tr2 & -> & -> & ->)%runs_call. split; [|done].
    exists r2. apply elem_of_cons. right. by left.
  - intros (r2 & tr2 & -> & -> & ->)%runs_call. split; [|done]. exists r2. by left.
Qed.

Lemma request_disposed o rid tool description st tr st' :
  runs (on_permission_request o (session_id_0 (to_session o)) rid tool description st) tr st' ->
  disposed o rid tool description tr (permission_protocol_failure (cb_safety st')).
Proof.
  unfold on_permission_request, mine. rewrite bool_decide_true by done. cbn [negb].
  assert (Hfail : forall tr0 tr1 st1, runs (fail_permission_protocol o rid st1) tr1 st' ->
            tr = tr0 ++ tr1 -> disposed o rid tool description tr (permission_protocol_failure (cb_safety st'))).
  { intros tr0 tr1 st1 [[r Hr] Hf]%fail_closed ->. right. right. split; [|done]. exists r.
    apply elem_of_app. by right. }
  destruct (to_permissions_supported o); cbn [negb]; [|intros H; by apply (Hfail [] _ _ H)].
  intros (r & tr1 & -> & H)%runs_call. set (e1 := Ev _ r) in *.
  destruct r as [[request|p]|err]; [| |by apply (Hfail [e1] _ _ H)].
  - apply runs_bind in H as (tr2 & [b st1] & tr3 & -> & Hd & H). unfold dispatch_event in Hd.
    assert (b = false -> disposed o rid tool description (e1 :: tr2 ++ tr3)
              (permission_protocol_failure (cb_safety st'))) as Hno.
    { intros ->. by apply (Hfail (e1 :: tr2) _ _ H). }
    destruct (cb_handler st); [|destruct Hd as [_ Hd]; apply Hno; congruence].
    destruct Hd as (r & tr4 & -> & Hd). destruct r; destruct Hd as [-> Hd]; [|apply Hno; congruence].
    left. exists request. split; [by left|]. right. by left.
  - unfold auto_approve in H. apply runs_call in H as (r & tr2 & -> & H).
    set (e2 := Ev (SdkRespond _ _ _ _) r) in *. destruct r as [[]|err].
    + apply runs_call in H as (r & tr3 & -> & H). set (e3 := Ev _ r) in *. destruct r as [[]|err].
      * right. left. exists p. split; [right; by left|]. right. right. by left.
      * by apply (Hfail [e1; e2; e3] _ _ H).
    + apply runs_call in H as (r & tr3 & -> & H). by apply (Hfail [e1; e2; Ev (PermAbort p) r] _ _ H).
Qed.

(** The events a turn was answered with. *)
Definition events_of (e : jevent) : option (list ApiEvent) :=
  match ev_call e as c return jcode_resp c -> option (list ApiEvent) with
  | SdkRun _ _ _ => fun r => Some r.1
  | _ => fun _ => None
  end (ev_resp e).

(** C27. No request is left waiting.  Whatever the broker, the application's handler and the
    SDK answer: for every permission request that is reported while a turn runs, the
    worker hands it to the application's handler, or approves it upstream and records
    that, or has cancelled the turn, which then fails whatever it returns. *)
Theorem no_request_is_parked o prompt tr m events result rid tool description :
  runs (turn_worker o prompt) tr m ->
  Ev (SdkRun (to_client o) (session_id_0 (to_session o)) prompt) (events, result) ∈ tr ->
  ApiPermissionRequest (session_id_0 (to_session o)) rid tool description ∈ events ->
  disposed o rid tool description tr (permission_protocol_failure (wm_safety m)) /\
  (permission_protocol_failure (wm_safety m) = true ->
   forall cancelled, exists e, turn_outcome m cancelled = Err e).
Proof.
  unfold turn_worker. intros ([es res] & tr1 & -> & H)%runs_call Hrun Hreq. cbn [fst snd] in H.
  apply runs_bind in H as (tr2 & st & tr3 & -> & Hes & (r & tr4 & -> & -> & ->)).
  assert (es = events) as ->.
  { apply elem_of_cons in Hrun as [Hrun%(f_equal events_of)|Hrun]; [by injection Hrun|]. exfalso.
    apply elem_of_app in Hrun as [Hrun|[Hrun|?%elem_of_nil]%elem_of_cons]; [|done..].
    assert (Hc : calls_only (fun c => match c with SdkRun _ _ _ => false | _ => true end)
              (on_events o es (new_callback (to_has_handler o)))).
    { apply on_events_calls. intros [] st'; calls_solve. }
    apply (calls_only_runs _ _ _ _ Hc) in Hes. rewrite Forall_forall in Hes. by apply Hes in Hrun. }
  split; [|intros Hf c; apply outcome_flagged; by left].
  destruct (on_events_split _ _ _ _ _ _ Hes Hreq) as (st1 & tr1 & st2 & Hone & Hin & Hle).
  eapply disposed_mono; [by eapply request_disposed|..].
  - intros x ?%Hin. apply elem_of_cons. right. apply elem_of_app. by left.
  - apply Hle.
Qed.

(** ** Tools *)

(** The tools that started in the session. *)
Definition tools_started (sid : SessionId) (events : list ApiEvent) : list str :=
  omap (fun e => match e with
                 | ApiToolStart session_id _ name => if mine sid session_id then Some name else None
                 | _ => None
                 end) events.

Definition unflagged (s : TurnSafetyState) : Prop :=
  tool_limit_exceeded s = false /\ tool_policy_failure s = false.

Lemma unflagged_le a b : flags_le a b -> unflagged b -> unflagged a.
Proof.
  intros (_ & Hl & Hp) [? ?]. split; [destruct (tool_limit_exceeded a)|destruct (tool_policy_failure a)];
    try done; [by rewrite Hl in *|by rewrite Hp in *].
Qed.

(** What the callback knows when no flag is set: every tool was allowed, and the
    counter says how many there were. *)
Definition tools_ok (o : TurnOptions) (names : list str) (st st' : CallbackState) : Prop :=
  Forall (fun name => tool_refused o name = false) names /\
  forall limit, to_max_tool_calls o = Some limit -> limit + 1 < 2 ^ 32 ->
    cb_tool_calls_seen st <= limit ->
    cb_tool_calls_seen st' = cb_tool_calls_seen st + len names /\ cb_tool_calls_seen st' <= limit.

Lemma tools_ok_none o st st' : cb_tool_calls_seen st' = cb_tool_calls_seen st -> tools_ok o [] st st'.
Proof. intros E. split; [done|]. intros limit _ _ ?. rewrite len_nil. lia. Qed.

Lemma deliver_seen o e st : returns (deliver o e st) (fun st' => cb_tool_calls_seen st' = cb_tool_calls_seen st).
Proof. by repeat returns_step. Qed.

Lemma permission_seen o s rid tool d st :
  returns (on_permission_request o s rid tool d st)
    (fun st' => cb_tool_calls_seen st' = cb_tool_calls_seen st).
Proof. by repeat returns_step. Qed.

Lemma on_event_tools o e st tr st' :
  runs (on_event o e st) tr st' -> unflagged (cb_safety st') ->
  tools_ok o (tools_started (to_session o) [e]) st st'.
Proof.
  intros Hrun Hf. destruct e; try (apply tools_ok_none; by apply deliver_seen in Hrun).
  - cbn [on_event tools_started omap list_omap] in *. unfold on_tool_start in Hrun.
    destruct (mine (to_session o) session_id); [|apply tools_ok_none; by apply deliver_seen in Hrun].
    destruct (tool_refused o name) eqn:Hr.
    { destruct Hrun as (r & tr' & -> & -> & ->). by destruct Hf. }
    split; [by repeat constructor|]. intros limit Hlim Hw Hseen. rewrite Hlim in Hrun.
    rewrite len_cons, len_nil.
    assert (Hc : cb_tool_calls_seen (count_tool st) = cb_tool_calls_seen st + 1).
    { cbn. apply N.mod_small. lia. }
    destruct (N.ltb_spec limit (cb_tool_calls_seen (count_tool st))) as [Hlt|Hge].
    { destruct Hrun as (r & tr' & -> & -> & ->). by destruct Hf. }
    apply deliver_seen in Hrun. cbn beta in Hrun. lia.
  - apply tools_ok_none. by apply permission_seen in Hrun.
Qed.

Lemma on_events_tools o es st tr st' :
  runs (on_events o es st) tr st' -> unflagged (cb_safety st') ->
  tools_ok o (tools_started (to_session o) es) st st'.
Proof.
  revert st tr. induction es as [|e es IH]; intros st tr.
  - intros [_ ->] _. by apply tools_ok_none.
  - cbn [on_events]. intros (tr1 & st1 & tr2 & -> & H1 & H2)%runs_bind Hf.
    specialize (IH _ _ H2 Hf) as [Hall Hcount].
    pose proof (on_events_flags _ _ _ _ _ H2) as Hle.
    destruct (on_event_tools _ _ _ _ _ H1 (unflagged_le _ _ Hle Hf)) as [Hall1 Hcount1].
    assert (tools_started (to_session o) (e :: es) =
            tools_started (to_session o) [e] ++ tools_started (to_session o) es) as ->.
    { unfold tools_started. change (e :: es) with ([e] ++ es). apply omap_app. }
    split; [by apply Forall_app|]. intros limit Hl Hw Hs.
    destruct (Hcount1 _ Hl Hw Hs) as [E1 B1]. destruct (Hcount _ Hl Hw B1) as [E2 B2].
    rewrite len_app. lia.
Qed.

(** ** The caller *)

Lemma returns_skip {A B} (p : jcode A) (f : A -> jcode B) Q :
  (forall a, returns (f a) Q) -> returns (bind p f) Q.
Proof. intros H. apply returns_bind. intros tr a _. apply H. Qed.

Section caller.
Context (config : JcodeConnectionConfig).

Definition options_for (sid : SessionId) (h : bool) (r : Result TurnOptions) : Prop :=
  match r with
  | Ok o => exists client ps g, o = turn_options config sid client ps g h
  | Err _ => True
  end.

Lemma prepared_options sid model h :
  returns (gated (prepare_turn config sid model h)) (options_for sid h).
Proof.
  unfold gated. apply returns_skip. intros _. apply returns_bind. unfold prepare_turn, when_idle.
  assert (Hend : forall r, options_for sid h r ->
            returns (do _ <- call_ UnlockGate; Ret r) (options_for sid h)).
  { intros r Hr. apply returns_skip. intros a. by apply returns_ret. }
  apply returns_skip. intros []; [by apply (returns_ret (Err _)), Hend|].
  apply returns_skip. intros [g|e]; [|by apply (returns_ret (Err _)), Hend].
  apply returns_skip. intros c. destruct (sn_state c) as [| |ident|]; try by apply (returns_ret (Err _)), Hend.
  destruct (negb _); [by apply (returns_ret (Err _)), Hend|]. destruct (negb _); [by apply (returns_ret (Err _)), Hend|].
  apply returns_skip. intros [b|]; [|by apply (returns_ret (Err _)), Hend].
  apply returns_skip. intros [[]|e]; [|by apply (returns_ret (Err _)), Hend].
  apply returns_skip. intros [client|e]; [|by apply (returns_ret (Err _)), Hend].
  apply returns_skip. intros [[]|e]; [|by apply (returns_ret (Err _)), Hend].
  apply returns_ret, Hend. by do 3 eexists.
Qed.

Lemma abandoned {A} o (r a : A) tr : runs (abandon o r) tr a -> a = r.
Proof. by intros (tr1 & b & tr2 & -> & _ & _ & ->)%runs_bind. Qed.

Lemma run_turn_ok sid prompt model h tr r :
  runs (run_turn config sid prompt model h) tr (Some (Ok r)) ->
  exists client ps g n m cancelled, let o := turn_options config sid client ps g h in
    Ev (SpawnWorker o prompt) (Some n) ∈ tr /\ Ev (AwaitWorker n) (Received m) ∈ tr /\
    turn_outcome m cancelled = Ok r.
Proof.
  unfold run_turn. destruct (let? _ := _ in _) as [[]|]; [|by intros [_ [=]]].
  intros (tr1 & [o|e] & tr2 & -> & Hprep & H)%runs_bind; [|by destruct H as [_ [=]]].
  apply prepared_options in Hprep as (client & ps & g & ->).
  destruct H as ([n|] & tr3 & -> & H); cbn [bind] in H; [|by apply abandoned in H].
  destruct H as (a & tr4 & -> & H). cbn [bind] in H.
  destruct a as [m| |]; [|by apply abandoned in H|by apply abandoned in H].
  destruct (wm_completion m) as [[]|e]; [|by apply abandoned in H].
  apply runs_bind in H as (tr5 & [cancelled|e] & tr6 & -> & _ & _ & [= Ho]).
  exists client, ps, g, n, m, cancelled. cbn zeta. rewrite !elem_of_app, !elem_of_cons. auto 10.
Qed.
End caller.

(** ** The pool *)

Section pool.
Context (config : JcodeConnectionConfig) (m0 : JcodeConnectionManager) (ops : list jcode_op).

(** A thread keeps what it was started as, and stays over once it is. *)
Lemma thread_kept P P' n st p :
  pool_step config P P' -> threads P !! n = Some (st, p) ->
  exists p', threads P' !! n = Some (st, p') /\ (forall a, p = Ret a -> p' = Ret a).
Proof.
  intros (i & st' & c & k & r & new & Hi & -> & _)%pool_step_view Hn.
  rewrite (serve_lookup _ _ _ _ _ _ _ _ _ _ Hi). destruct (decide (n = i)) as [->|].
  - rewrite Hi in Hn. injection Hn as <- <-. by eexists.
  - rewrite decide_True by (by eapply lookup_lt_Some). exists p. split; [done|]. by intros a ->.
Qed.

(** What the answers of [SpawnWorker] and [AwaitWorker] say of the threads. *)
Definition thread_answer (P : pool) (e : jevent) : Prop :=
  match ev_call e as c return jcode_resp c -> Prop with
  | SpawnWorker o prompt => fun r => forall n, r = Some n ->
      exists p, threads P !! n = Some (Worker o prompt, p)
  | AwaitWorker n => fun r => forall m, r = Received m ->
      exists st, threads P !! n = Some (st, Ret (OWorker m))
  | _ => fun _ => True
  end (ev_resp e).

Lemma thread_answer_kept P P' e : pool_step config P P' -> thread_answer P e -> thread_answer P' e.
Proof.
  intros Hstep. destruct e as [[] r]; cbn; try done.
  - intros H n Hn. destruct (H n Hn) as [p Hp].
    destruct (thread_kept _ _ _ _ _ Hstep Hp) as (p' & ? & _). by exists p'.
  - intros H m Hm. destruct (H m Hm) as [st Hp].
    destruct (thread_kept _ _ _ _ _ Hstep Hp) as (p' & Hp' & Hk). rewrite (Hk _ eq_refl) in Hp'.
    by exists st.
Qed.

Lemma thread_answers P i e : reachable config m0 ops P -> (i, e) ∈ log P -> thread_answer P e.
Proof.
  intros HP. revert i e.
  refine (reachable_ind config m0 ops (fun P => forall i e, (i, e) ∈ log P -> thread_answer P e) _ _ P HP).
  { by intros i e ?%elem_of_nil. }
  intros P1 P2 _ _ Hstep IH i e Hin.
  assert (Hold : (i, e) ∈ log P1 -> thread_answer P2 e).
  { intros He%IH. by eapply thread_answer_kept. }
  destruct Hstep as [j st c k r s' Hj Hc _|j st o prompt k Hj|j st o prompt k Hj
    |j st n k w m Hj Hw|j st n k r Hj Hr]; cbn [log serve_thread] in Hin;
    (apply elem_of_app in Hin as [?|[= -> ->]%list_elem_of_singleton]; [by apply Hold|]).
  - by destruct c.
  - intros n [= <-]. eexists. rewrite (serve_lookup _ _ _ _ _ _ _ _ _ _ Hj).
    apply lookup_lt_Some in Hj. rewrite decide_False, decide_False by lia.
    by rewrite Nat.sub_diag.
  - done.
  - intros m' [= <-]. exists w. rewrite (serve_lookup _ _ _ _ _ _ _ _ _ _ Hj).
    rewrite decide_False, decide_True; [done|by eapply lookup_lt_Some|].
    intros ->. rewrite Hj in Hw. done.
  - intros m Hm. cbn in Hm. subst r. by destruct Hr.
Qed.

(** A turn over the model bridge that succeeds was one prompt to the agent, in the
    session it was asked for, in which only the reviewed file tools were started, at
    most 32 of them; its text and tool calls are what the agent returned.  So no shell
    command and no unbounded tool use hides in a successful turn, whatever runs
    concurrently. *)
Theorem bridged_turn_uses_file_tools P i sid prompt model h r :
  jc_model_gateway_bridge config <> None ->
  reachable config m0 ops P ->
  threads P !! i = Some (Op (OpRunTurn sid prompt model h), Ret (OTurn (Some (Ok r)))) ->
  exists n client events turn cancelled,
    (n, Ev (SdkRun client (session_id_0 sid) prompt) (events, Ok turn)) ∈ log P /\
    Forall (fun name => name ∈ VIBECODER_BRIDGED_FILE_TOOLS) (tools_started sid events) /\
    len (tools_started sid events) <= VIBECODER_BRIDGED_MAX_TOOL_CALLS_PER_TURN /\
    r = map_turn_result turn cancelled.
Proof.
  intros Hbridge HP Hi. pose proof (reachable_faithful _ _ _ _ HP) as [Hf _].
  pose proof (after_ret _ _ _ (Hf _ _ _ Hi)) as Hrun. cbn [start_program op_program] in Hrun.
  apply runs_bind in Hrun as (tr & a & tr' & Htr & Hrun & [-> [= <-]]).
  apply run_turn_ok in Hrun as (client & ps & g & n & m & cancelled & Hspawn & Hawait & Hout).
  set (o := turn_options config sid client ps g h) in *.
  rewrite app_nil_r in Htr. subst tr. apply elem_of_own in Hspawn, Hawait.
  pose proof (thread_answers _ _ _ HP Hspawn n eq_refl) as [p Hp].
  destruct (thread_answers _ _ _ HP Hawait m eq_refl) as [st Hp']. rewrite Hp in Hp'.
  injection Hp' as <- ->. pose proof (after_ret _ _ _ (Hf _ _ _ Hp)) as Hw.
  cbn [start_program] in Hw. apply runs_bind in Hw as (tr & m' & tr' & Htr & Hw & [-> [= <-]]).
  rewrite app_nil_r in Htr. subst tr.
  destruct Hw as ([events res] & tr1 & Hlog & Hw). cbn [bind fst snd] in Hw.
  apply runs_bind in Hw as (tr2 & cb & tr3 & -> & Hes & (rc & tr4 & -> & -> & ->)).
  unfold turn_outcome in Hout. cbn [wm_safety wm_result] in Hout.
  destruct (permission_protocol_failure _); [done|].
  destruct (tool_limit_exceeded (cb_safety cb)) eqn:Hl; [done|].
  destruct (tool_policy_failure (cb_safety cb)) eqn:Hpo; [done|].
  destruct res as [turn|err]; [|by destruct cancelled]. injection Hout as <-.
  destruct (on_events_tools _ _ _ _ _ Hes (conj Hl Hpo)) as [Hall Hcount].
  exists n, client, events, turn, cancelled. split.
  { apply elem_of_own. rewrite Hlog. by left. }
  destruct (jc_model_gateway_bridge config) as [b|] eqn:Hb; [|done].
  assert (Hmax : to_max_tool_calls o = Some VIBECODER_BRIDGED_MAX_TOOL_CALLS_PER_TURN).
  { unfold o, turn_options. cbn [to_max_tool_calls]. by rewrite Hb. }
  assert (Hallowed : to_allowed_tools o = Some VIBECODER_BRIDGED_FILE_TOOLS).
  { unfold o, turn_options. cbn [to_allowed_tools]. by rewrite Hb. }
  split_and!; [| |done].
  - eapply Forall_impl; [exact Hall|]. intros name Hname. unfold tool_refused in Hname.
    rewrite Hallowed in Hname. apply negb_false_iff, existsb_exists in Hname as (x & Hx & Heq).
    apply bool_decide_eq_true in Heq as ->. by apply list_elem_of_In.
  - destruct (Hcount _ Hmax ltac:(done) ltac:(done)) as [E B]. cbn in E. rewrite E in B. exact B.
Qed.
End pool.
