(* ===== verification/JcodeSessionSafety.v ===== *)
(** * The Jcode adapter: sessions and models are what was verified

    [vouched] is the discipline of the threads: a session is only registered for a
    project root the agent itself has reported, and a turn with a chosen model is only
    started after the model was set and read back over a fresh connection.  The root
    is the one an operation's own project resolved to, or that of the binding found. *)
From S2P Require Import Prelude RustStr RustPath Conversation Program Domain JcodeConfig.
From S2P Require Import JcodePermissions JcodeConnection JcodeSessions JcodeCalls JcodeModels.
From S2P Require Import JcodeTurn JcodeRuntime JcodePool.

(** ** Evidence *)

(** The agent's own list of sessions puts the session in a directory that is the
    root. *)
Definition reported_root (tr : list jevent) (c : JcodeClient) (sid : SessionId) (root : os_path) :
    Prop :=
  exists infos info dir actual,
    Ev (SdkListSessions c) (Ok infos) ∈ tr /\
    session_metadata infos sid = Ok info /\ in_working_dir info = Some dir /\
    Ev (FsCanonicalize (Utf8Path dir)) (Some actual) ∈ tr /\ path_eqb actual root = true.

(** It was attached under its own id, and lives in the root. *)
Definition attached_in (tr : list jevent) (c : JcodeClient) (sid : SessionId) (root : os_path) :
    Prop :=
  (exists info, Ev (SdkAttach c (session_id_0 sid)) (Ok info) ∈ tr /\
     in_session_id info = session_id_0 sid) /\
  reported_root tr c sid root.

(** It was created in the root just now; the list does not contradict that. *)
Definition created_in (tr : list jevent) (sid : SessionId) (root : os_path) : Prop :=
  exists c dir info infos,
    path_to_str root = Some dir /\ Ev (SdkCreate c dir) (Ok info) ∈ tr /\
    in_session_id info = session_id_0 sid /\
    Ev (SdkListSessions c) (Ok infos) ∈ tr /\
    (reported_root tr c sid root \/
     forall other, other ∈ infos -> in_session_id other = session_id_0 sid ->
       in_working_dir other = None).

(** The project an operation asks a session of, where it may bind [sid]. *)
Definition asks_session (op : jcode_op) (sid : SessionId) : option ProjectRef :=
  match op with
  | OpCreateSession project _ => Some project
  | OpResumeSession project s | OpRefresh project s =>
    if bool_decide (s = sid) then Some project else None
  | _ => None
  end.

(** What the root of [project] resolved to. *)
Definition resolved_root (tr : list jevent) (project : ProjectRef) (root : os_path) : Prop :=
  Ev (FsCanonicalize (Utf8Path (pr_root project))) (Some root) ∈ tr.

(** The thread binds the session for the project it was asked for, or again as it has
    found it bound. *)
Definition root_known (s : start * list jevent) (sid : SessionId) (project : ProjectRef)
    (root : os_path) : Prop :=
  (exists op, s.1 = Op op /\ asks_session op sid = Some project /\
     resolved_root s.2 project root) \/
  (exists b, Ev (SessBinding sid) (Some b) ∈ s.2 /\ sb_project_id b = pr_id project /\
     sb_project_root b = root).

(** The agent's runtime information is of that session, and shows the requested model,
    and as its provider the gateway's where the configuration names one, and
    otherwise that of the model. *)
Definition shows_model (config : JcodeConnectionConfig) (sid : SessionId) (model : ModelRef)
    (info : RuntimeInfo) : Prop :=
  ri_session_id info = session_id_0 sid /\ ri_model info = Some (mr_id model) /\
  exists provider, ri_provider info = Some provider /\
    match model_gateway_transport_provider config with
    | Some transport => provider = transport
    | None => mr_provider model = Some provider
    end.

(** The model was set, and read back on a connection opened after that. *)
Definition model_read_back (config : JcodeConnectionConfig) (tr : list jevent)
    (sid : SessionId) (model : ModelRef) : Prop :=
  exists tr1 tr2 owner request fresh info,
    tr = tr1 ++ Ev (SdkSetModel owner (session_id_0 sid) (mr_id model)) (Ok tt) :: tr2 /\
    Ev (SdkOpenSidecar request) (Ok fresh) ∈ tr2 /\
    Ev (SdkRuntimeInfo fresh (session_id_0 sid)) (Ok info) ∈ tr2 /\
    shows_model config sid model info.

Lemma reported_root_mono tr tr' c sid root :
  reported_root tr c sid root -> (forall e, e ∈ tr -> e ∈ tr') -> reported_root tr' c sid root.
Proof. intros (infos & info & dir & actual & ? & ? & ? & ? & ?) Hsub. exists infos, info, dir, actual. auto 10. Qed.

Lemma attached_in_mono tr tr' c sid root :
  attached_in tr c sid root -> (forall e, e ∈ tr -> e ∈ tr') -> attached_in tr' c sid root.
Proof.
  intros [(info & ? & ?) ?] Hsub. split; [exists info; auto|by eapply reported_root_mono].
Qed.

Lemma model_read_back_app config tr tr' sid model :
  model_read_back config tr sid model -> model_read_back config (tr ++ tr') sid model.
Proof.
  intros (tr1 & tr2 & owner & request & fresh & info & -> & H1 & H2 & H3).
  exists tr1, (tr2 ++ tr'), owner, request, fresh, info.
  rewrite <-app_assoc, !elem_of_app. auto.
Qed.

Lemma root_known_mono st tr tr' sid project root :
  root_known (st, tr) sid project root -> (forall e, e ∈ tr -> e ∈ tr') ->
  root_known (st, tr') sid project root.
Proof.
  unfold root_known, resolved_root. cbn [fst snd].
  intros [(op & ? & ? & ?)|(b & ? & ?)] Hsub; [left; exists op|right; exists b]; auto.
Qed.

Lemma root_known_app s tr sid project root :
  root_known s sid project root -> root_known (s.1, s.2 ++ tr) sid project root.
Proof. destruct s. intros H. eapply root_known_mono; [exact H|]. intros e. rewrite elem_of_app. auto. Qed.

Lemma active_model_shows config sid model info active :
  active_model sid model (model_gateway_transport_provider config) info = Ok active ->
  shows_model config sid model info.
Proof.
  unfold active_model, shows_model. case_bool_decide; [|done]. cbn [negb].
  destruct (ri_model info); [|done]. case_bool_decide; [|done]. cbn [negb].
  destruct (ri_provider info) as [provider|]; [|done]. subst. intros Ha.
  split_and!; [done..|]. exists provider. split; [done|].
  destruct (model_gateway_transport_provider config); case_bool_decide; done.
Qed.

(** ** The discipline *)

Definition vouched (config : JcodeConnectionConfig) (s : start * list jevent) (e : jevent) : Prop :=
  match ev_call e with
  | SessMarkAttached sid project root _ =>
    ((exists c, attached_in s.2 c sid root) \/ created_in s.2 sid root) /\
    root_known s sid project root
  | SpawnWorker o prompt =>
    exists sid model h, s.1 = Op (OpRunTurn sid prompt model h) /\ to_session o = sid /\
      forall m, model = Some m -> model_read_back config s.2 sid m
  | _ => True
  end.

Definition vouch_free (c : jcode_call) : bool :=
  match c with SessMarkAttached _ _ _ _ | SpawnWorker _ _ => false | _ => true end.

Section vouched.
Context (config : JcodeConnectionConfig).
Abbreviation vouching := (traced (vouched config)).

(** What a run of the program says is known where the next one starts. *)
Lemma vouching_bind {A B} (p : jcode A) (f : A -> jcode B) s :
  vouching p (fun _ _ => True) s ->
  (forall tr a, runs p tr a -> vouching (f a) (fun _ _ => True) (s.1, s.2 ++ tr)) ->
  vouching (bind p f) (fun _ _ => True) s.
Proof.
  revert s. induction p as [a|c k IH]; intros s Hp Hf; cbn in *.
  - specialize (Hf [] a). rewrite app_nil_r in Hf. destruct s. by apply Hf.
  - intros r _. destruct (Hp r I) as [? Hk]. split; [done|]. apply IH; [done|].
    intros tr a Hr. cbn. rewrite <-app_assoc. apply Hf. eauto.
Qed.

Lemma vouching_free {A} (p : jcode A) s : calls_only vouch_free p -> vouching p (fun _ _ => True) s.
Proof.
  revert s. induction p as [a|c k IH]; intros s Hp; cbn in *; [done|].
  destruct Hp as [Hc Hk]. intros r _. split; [by destruct c|apply IH, Hk].
Qed.

Lemma vouching_skip {A B} (p : jcode A) (f : A -> jcode B) s :
  calls_only vouch_free p ->
  (forall tr a, runs p tr a -> vouching (f a) (fun _ _ => True) (s.1, s.2 ++ tr)) ->
  vouching (bind p f) (fun _ _ => True) s.
Proof. intros Hp. by apply vouching_bind, vouching_free. Qed.
End vouched.

(** ** Runs of the verifying programs *)

Lemma sdk_call_runs {A} op (p : jcode (SdkResult A)) tr a :
  runs (sdk_call op p) tr (Ok a) -> runs p tr (Ok a).
Proof.
  intros (tr1 & r & tr2 & -> & H & -> & Hr)%runs_bind. rewrite app_nil_r.
  destruct r; [|done]. by injection Hr as ->.
Qed.

Lemma canonical_root_runs project tr root :
  runs (canonical_project_root project) tr (Ok root) -> resolved_root tr project root.
Proof.
  unfold canonical_project_root, resolved_root. destruct (negb _); [by intros [_ [=]]|].
  intros ([canonical|] & tr1 & -> & H)%runs_call; cbn [bind] in H; [|by destruct H as [_ [=]]].
  destruct H as (dir & tr2 & -> & H). cbn [bind] in H. destruct dir; [|by destruct H as [_ [=]]].
  cbn [negb] in H. destruct (is_none _); destruct H as [_ [= ->]]. by left.
Qed.

Lemma give_runs {A} (r : Result A) tr a : runs (give r) tr a -> tr = [] /\ r = a.
Proof. by intros [-> ->]. Qed.

Lemma verify_root_runs info root tr :
  runs (verify_session_project info root) tr (Ok tt) ->
  exists dir actual, in_working_dir info = Some dir /\
    Ev (FsCanonicalize (Utf8Path dir)) (Some actual) ∈ tr /\ path_eqb actual root = true.
Proof.
  unfold verify_session_project. destruct (in_working_dir info) as [dir|]; [|by intros [_ [=]]].
  destruct (bool_decide _); [by intros [_ [=]]|]. destruct (negb _); [by intros [_ [=]]|].
  intros ([actual|] & tr' & -> & H)%runs_call; cbn [bind] in H; [|by destruct H as [_ [=]]].
  destruct (path_eqb actual root) eqn:E; cbn [negb] in H; [|by destruct H as [_ [=]]].
  exists dir, actual. split; [done|]. split; [by left|done].
Qed.

Lemma attach_runs a meta c sid root tr x :
  runs (attach_and_verify a meta c sid root) tr (Ok x) -> x = sid /\ attached_in tr c sid root.
Proof.
  intros (tr1 & info & tr2 & -> & H1%sdk_call_runs%(runs_call_ (SdkAttach c (session_id_0 sid))) & H)%try_runs.
  apply try_runs in H as (tr3 & actual & tr4 & -> & [-> Hid]%give_runs & H).
  apply verify_attached_ok in Hid as [-> Hid].
  apply try_runs in H as (tr5 & infos & tr6 & -> & H2%sdk_call_runs%(runs_call_ (SdkListSessions c)) & H).
  apply try_runs in H as (tr7 & found & tr8 & -> & [-> Hfound]%give_runs & H).
  apply try_runs in H as (tr9 & [] & tr10 & -> & H3%verify_root_runs & [-> [= ->]]%give_runs).
  destruct H3 as (dir & act & Hdir & Hcan & Heq). split; [done|]. subst tr1 tr5.
  split; [exists info; split; [by left|done]|].
  exists infos, found, dir, act. rewrite !elem_of_app, !list_elem_of_singleton. auto 10.
Qed.

Lemma with_client_runs {A} (op : JcodeClient -> jcode (Result A)) tr a :
  runs (with_client op) tr (Ok a) ->
  exists client tr1 tr2 tr3, tr = tr1 ++ tr2 ++ tr3 /\ runs (op client) tr2 (Ok a).
Proof.
  unfold with_client. intros ([] & tr1 & -> & H)%runs_call. cbn [bind] in H.
  destruct H as (slot & tr2 & -> & H). cbn [bind] in H.
  apply runs_bind in H as (tr3 & r & tr4 & -> & H & ([] & tr5 & -> & -> & <-)).
  destruct slot as [client|]; [|by destruct H as [_ [=]]].
  by exists client, [Ev ConnRefresh tt; Ev LockClient (Some client)], tr3, [Ev UnlockClient tt].
Qed.

Lemma in_middle {A} (x : A) l1 l2 l3 : x ∈ l2 -> x ∈ l1 ++ l2 ++ l3.
Proof. rewrite !elem_of_app. auto. Qed.

Lemma verify_created_ok info sid :
  verify_attached_session_id info None = Ok sid -> in_session_id info = session_id_0 sid.
Proof.
  unfold verify_attached_session_id, SessionId_parse. destruct (bool_decide _); [done|].
  destruct (validate_jcode_session_id _); [|done]. by intros [= <-].
Qed.

Lemma elem_of_filter_session sid infos info :
  info ∈ infos -> in_session_id info = session_id_0 sid -> info ∈ List.filter (of_session sid) infos.
Proof.
  intros Hin Hid. apply list_elem_of_In, filter_In. split; [by apply list_elem_of_In|].
  by apply bool_decide_eq_true.
Qed.

Lemma corroborate_runs infos sid root tr :
  runs (corroborate_new_session_project infos sid root) tr (Ok tt) ->
  (exists info dir actual, session_metadata infos sid = Ok info /\ in_working_dir info = Some dir /\
     Ev (FsCanonicalize (Utf8Path dir)) (Some actual) ∈ tr /\ path_eqb actual root = true) \/
  (forall other, other ∈ infos -> in_session_id other = session_id_0 sid -> in_working_dir other = None).
Proof.
  unfold corroborate_new_session_project. intros H.
  destruct (List.filter (of_session sid) infos) as [|info [|]] eqn:E; [| |by destruct H as [_ [=]]].
  - right. intros other Hin Hid. pose proof (elem_of_filter_session _ _ _ Hin Hid) as Hf.
    rewrite E in Hf. by apply elem_of_nil in Hf.
  - destruct (in_working_dir info) as [dir|] eqn:Hd; cbn in H.
    + left. apply verify_root_runs in H as (dir' & actual & Hd' & ? & ?).
      exists info, dir', actual. split; [by apply session_metadata_ok|done].
    + right. intros other Hin Hid. pose proof (elem_of_filter_session _ _ _ Hin Hid) as Hf.
      rewrite E in Hf. apply list_elem_of_singleton in Hf as ->. done.
Qed.

Lemma create_runs c dir root tr sid :
  path_to_str root = Some dir ->
  runs (try attached <- sdk_call (u "create_session") (call_ (SdkCreate c dir));
        try session_id <- give (verify_attached_session_id attached None);
        try sessions <- sdk_call (u "create_session_metadata") (call_ (SdkListSessions c));
        try _ <- corroborate_new_session_project sessions session_id root;
        give (Ok session_id)) tr (Ok sid) ->
  created_in tr sid root.
Proof.
  intros Hdir (tr1 & info & tr2 & -> & H1%sdk_call_runs%(runs_call_ (SdkCreate c dir)) & H)%try_runs.
  apply try_runs in H as (tr3 & actual & tr4 & -> & [-> Hid%verify_created_ok]%give_runs & H).
  apply try_runs in H as (tr5 & infos & tr6 & -> & H2%sdk_call_runs%(runs_call_ (SdkListSessions c)) & H).
  apply try_runs in H as (tr7 & [] & tr8 & -> & H3%corroborate_runs & [-> [= ->]]%give_runs).
  subst tr1 tr5. exists c, dir, info, infos. rewrite !elem_of_app, !list_elem_of_singleton.
  split_and!; [done|by left|done|auto 10|].
  destruct H3 as [(found & d & actual & ? & ? & ? & ?)|]; [left|by right].
  exists infos, found, d, actual. rewrite !elem_of_app, !list_elem_of_singleton. auto 10.
Qed.

(** ** The threads *)

Section threads.
Context (config : JcodeConnectionConfig).
Abbreviation vouches p s := (traced (vouched config) p (fun _ _ => True) s).

Lemma vouches_register v project root g s :
  (forall sid, v = Ok sid ->
     ((exists c, attached_in s.2 c sid root) \/ created_in s.2 sid root) /\
     root_known s sid project root) ->
  vouches (register_attached v project root g) s.
Proof.
  intros H. destruct v as [sid|e]; [|apply vouching_free; calls_solve].
  apply wp_bind. intros r _. split; [by apply H|]. by destruct r.
Qed.

Lemma vouches_attach a meta project root g sid s {B} (f : Result SessionId -> jcode B) :
  (forall v, calls_only vouch_free (f v)) -> root_known s sid project root ->
  vouches (do verification <- with_client (fun client => attach_and_verify a meta client sid root);
           do r <- register_attached verification project root g; f r) s.
Proof.
  intros Hf Hroot. apply vouching_skip; [calls_solve|]. intros tr v Hv.
  apply vouching_bind; [|intros; by apply vouching_free]. apply vouches_register.
  intros x ->. apply with_client_runs in Hv as (c & tr1 & tr2 & tr3 & -> & [-> Ha]%attach_runs).
  split; [|by apply root_known_app].
  left. exists c. eapply attached_in_mono; [exact Ha|]. intros e He. cbn [snd].
  apply elem_of_app. right. by apply in_middle.
Qed.

Lemma vouches_attach_verified project sid root g s :
  root_known s sid project root -> vouches (attach_verified project sid root g) s.
Proof. apply vouches_attach. intros v. calls_solve. Qed.

Lemma vouches_ensure_bound sid b g s :
  Ev (SessBinding sid) (Some b) ∈ s.2 -> vouches (ensure_bound_session_attached sid b g) s.
Proof.
  intros Hb. assert (Hroot : root_known s sid (synthetic_project b) (sb_project_root b)).
  { right. exists b. by destruct b. }
  unfold ensure_bound_session_attached. apply vouching_skip; [calls_solve|]. intros tr [] _; [done|].
  apply vouching_skip; [calls_solve|]. intros tr2 [[]|e] _; [|done].
  apply vouches_attach; [intros v; calls_solve|]. by apply root_known_app, root_known_app.
Qed.

Lemma vouches_scope {A} (body : jcode (Result A)) message s :
  (forall s', s'.1 = s.1 -> (forall e, e ∈ s.2 -> e ∈ s'.2) -> vouches body s') -> vouches (gated (when_idle message body)) s.
Proof.
  intros H. apply vouching_skip; [calls_solve|]. intros tr [] _.
  apply vouching_bind; [|intros; apply vouching_free; calls_solve].
  apply vouching_skip; [calls_solve|]. intros tr2 [] _; [done|]. apply H; [done|].
  intros e. cbn [snd]. rewrite !elem_of_app. auto.
Qed.

Lemma vouches_create project model s :
  s.1 = Op (OpCreateSession project model) -> vouches (create_session project model) s.
Proof.
  intros Hs. unfold create_session. destruct (is_some model); [done|].
  apply vouches_scope. intros s' Hs' _.
  apply vouching_skip; [calls_solve|]. intros tr1 [root|e] Hroot; [|done].
  apply canonical_root_runs in Hroot.
  apply vouching_skip; [calls_solve|]. intros tr2 [g|e] _; [|done].
  destruct (path_to_str root) as [dir|] eqn:Hdir; [|done].
  apply vouching_skip; [calls_solve|]. intros tr3 v Hv. apply vouches_register.
  intros sid ->. split.
  2:{ do 2 apply (root_known_app (_, _)). left. exists (OpCreateSession project model).
      split_and!; [cbn [fst]; congruence|done|]. apply elem_of_app. by right. }
  right. apply with_client_runs in Hv as (c & tr4 & tr5 & tr6 & -> & Hc).
  apply (create_runs _ _ _ _ _ Hdir) in Hc.
  destruct Hc as (c' & dir' & info & infos & ? & H1 & ? & H2 & H3).
  assert (Hsub : forall e, e ∈ tr5 -> e ∈ ((s'.2 ++ tr1) ++ tr2) ++ tr4 ++ tr5 ++ tr6).
  { intros e He. apply elem_of_app. right. by apply in_middle. }
  exists c', dir', info, infos. cbn [snd]. split_and!; auto.
  destruct H3 as [Hr|]; [left|by right]. by eapply reported_root_mono.
Qed.

Lemma vouches_resume project sid s :
  s.1 = Op (OpResumeSession project sid) -> vouches (resume_session project sid) s.
Proof.
  intros Hs. unfold resume_session.
  destruct (validate_jcode_session_id sid) as [[]|]; [|done]. cbn [bind give].
  apply vouches_scope. intros s' Hs' _.
  apply vouching_skip; [calls_solve|]. intros tr1 [root|e] Hroot; [|done].
  apply canonical_root_runs in Hroot.
  assert (Hk : root_known (s'.1, s'.2 ++ tr1) sid project root).
  { left. exists (OpResumeSession project sid). cbn [asks_session fst]. rewrite bool_decide_true by done.
    split_and!; [congruence|done|]. apply elem_of_app. by right. }
  apply vouching_skip; [calls_solve|]. intros tr2 [g|e] _; [|done].
  apply vouching_skip; [calls_solve|].
  intros tr3 [b|] _; [|by apply vouches_attach_verified, (root_known_app (_, _)), (root_known_app (_, _))].
  destruct (other_project _ _ _); [done|].
  apply vouching_skip; [calls_solve|]. intros tr4 [] _; [done|].
  by apply vouches_attach_verified, (root_known_app (_, _)), (root_known_app (_, _)), (root_known_app (_, _)).
Qed.

Lemma vouches_refresh project sid s :
  s.1 = Op (OpRefresh project sid) ->
  vouches (refresh_session_after_workspace_replacement project sid) s.
Proof.
  intros Hs. unfold refresh_session_after_workspace_replacement.
  destruct (validate_jcode_session_id sid) as [[]|]; [|done]. cbn [bind give].
  apply vouching_skip; [calls_solve|]. intros tr1 [root|e] Hroot; [|done].
  apply canonical_root_runs in Hroot.
  assert (Hk : root_known (s.1, s.2 ++ tr1) sid project root).
  { left. exists (OpRefresh project sid). cbn [asks_session fst]. rewrite bool_decide_true by done.
    split_and!; [congruence|done|]. apply elem_of_app. by right. }
  apply vouches_scope. intros s' Hs' Hsub.
  apply vouching_skip; [calls_solve|]. intros tr2 [g|e] _; [|done].
  apply vouching_skip; [calls_solve|]. intros tr3 [] _.
  apply vouches_attach_verified. do 2 apply (root_known_app (_, _)). destruct s' as [st' t'].
  cbn in Hs'. subst st'. by eapply root_known_mono.
Qed.

Lemma vouches_corroborate sid model s : vouches (corroborate_model_identity config sid model) s.
Proof.
  unfold corroborate_model_identity. destruct (validate_jcode_session_id sid) as [[]|]; [|done].
  cbn [bind give]. destruct (validate_model_ref model) as [[]|]; [|done]. cbn [bind give].
  apply vouches_scope. intros s' _ _.
  apply vouching_skip; [calls_solve|]. intros tr1 [g|e] _; [|done].
  apply vouching_skip; [calls_solve|].
  intros tr2 [b|] Hb%(runs_call_ (SessBinding sid)); [|done].
  apply vouching_skip; [calls_solve|]. intros tr3 [catalog|e] _; [|done].
  apply vouching_bind; [apply vouches_ensure_bound; subst; cbn; set_solver|]. intros tr4 [[]|e] _; [|done].
  apply vouching_free. calls_solve.
Qed.
(** ** Turns *)

Lemma select_runs c sid model catalog provider tr :
  runs (select_model_from_catalog c sid model catalog provider) tr (Ok tt) ->
  tr = [Ev (SdkSetModel c (session_id_0 sid) (mr_id model)) (Ok tt)].
Proof.
  intros (tr1 & [] & tr2 & -> & [-> _]%give_runs & H)%try_runs.
  destruct (List.find _ catalog) as [available|]; [|by destruct H as [_ [=]]].
  apply try_runs in H as (tr3 & [] & tr4 & -> & [-> _]%give_runs & H).
  by apply sdk_call_runs, (runs_call_ (SdkSetModel c (session_id_0 sid) (mr_id model))) in H.
Qed.

Lemma open_fresh_runs sid b tr fresh :
  runs (open_fresh_model_client config sid b) tr (Ok fresh) ->
  exists request, Ev (SdkOpenSidecar request) (Ok fresh) ∈ tr.
Proof.
  intros (tr1 & [] & tr2 & -> & _ & H)%try_runs.
  apply try_runs in H as (tr3 & client & tr4 & -> & Hopen & H).
  assert (client = fresh) as ->.
  { destruct H as ([] & tr5 & -> & H). cbn [bind] in H.
    apply try_runs in H as (? & ? & ? & _ & _ & H). apply try_runs in H as (? & [] & ? & _ & _ & H).
    by apply give_runs in H as [_ [=]]. }
  destruct Hopen as (slot & tr5 & -> & Hopen). cbn [bind] in Hopen.
  destruct slot as [owner|]; [|by destruct Hopen as [_ [=]]].
  destruct Hopen as (r & tr6 & -> & Hopen). cbn [bind] in Hopen. destruct Hopen as [-> Hr].
  destruct r as [c|e]; [|done]. injection Hr as ->.
  eexists. apply elem_of_app. right. apply elem_of_app. left. right. by left.
Qed.

Lemma verify_active_runs c sid model provider tr active :
  runs (verify_active_model c sid model provider) tr (Ok active) ->
  exists info, Ev (SdkRuntimeInfo c (session_id_0 sid)) (Ok info) ∈ tr /\
    active_model sid model provider info = Ok active.
Proof.
  intros (tr1 & [] & tr2 & -> & [-> _]%give_runs & H)%try_runs.
  apply try_runs in H as (tr3 & info & tr4 & -> &
    ->%sdk_call_runs%(runs_call_ (SdkRuntimeInfo c (session_id_0 sid))) & [-> H]%give_runs).
  exists info. split; [by left|done].
Qed.

Lemma switch_runs sid b model catalog g tr active :
  runs (switch_model config sid b model catalog g) tr (Ok active) ->
  model_read_back config tr sid model.
Proof.
  intros (tr1 & [] & tr2 & -> & Hset & H)%try_runs.
  apply with_client_runs in Hset as (c & tr3 & tr4 & tr5 & -> & ->%select_runs).
  apply try_runs in H as (tr6 & fresh & tr7 & -> & [request Hopen]%open_fresh_runs & H).
  apply try_runs in H as (tr8 & active' & tr9 & -> & (info & Hinfo & Ha)%verify_active_runs & _).
  apply active_model_shows in Ha.
  exists tr3, (tr5 ++ tr6 ++ tr8 ++ tr9), c, request, fresh, info.
  split; [by rewrite <-!app_assoc|]. rewrite !elem_of_app. auto 10.
Qed.

Lemma select_turn_runs sid b model g tr :
  runs (select_turn_model config sid b (Some model) g) tr (Ok tt) ->
  exists tr1 tr2, tr = tr1 ++ tr2 /\ model_read_back config tr2 sid model.
Proof.
  intros (tr1 & catalog & tr2 & -> & Hc & H)%try_runs.
  apply try_runs in Hc as (tr3 & cat & tr4 & -> & _ & [-> [= <-]]%give_runs).
  apply try_runs in H as (tr5 & [] & tr6 & -> & _ & H).
  apply try_runs in H as (tr7 & active & tr8 & -> & H%switch_runs & _).
  exists ((tr3 ++ []) ++ tr5), (tr7 ++ tr8). split; [by rewrite <-!app_assoc|].
  by apply model_read_back_app.
Qed.

Lemma model_read_back_suffix tr tr' sid model :
  model_read_back config tr sid model -> model_read_back config (tr' ++ tr) sid model.
Proof.
  intros (tr1 & tr2 & owner & request & fresh & info & -> & H).
  exists (tr' ++ tr1), tr2, owner, request, fresh, info. by rewrite <-app_assoc.
Qed.

Lemma model_read_back_cons e tr sid model :
  model_read_back config tr sid model -> model_read_back config (e :: tr) sid model.
Proof. apply (model_read_back_suffix tr [e]). Qed.

Lemma prepare_runs sid model h tr o :
  runs (gated (prepare_turn config sid model h)) tr (Ok o) ->
  to_session o = sid /\ forall m, model = Some m -> model_read_back config tr sid m.
Proof.
  intros ([] & tr1 & -> & H). cbn [bind] in H.
  apply runs_bind in H as (tr2 & r & tr3 & -> & H & ([] & tr4 & -> & -> & <-)).
  destruct H as (b & tr5 & -> & H). cbn [bind] in H. destruct b; [by destruct H as [_ [=]]|].
  apply try_runs in H as (tr6 & g & tr7 & -> & _ & H).
  destruct H as (conn & tr8 & -> & H). cbn [bind] in H.
  destruct (sn_state conn) as [| |ident|]; try by destruct H as [_ [=]].
  destruct (negb _); [by destruct H as [_ [=]]|]. destruct (negb _); [by destruct H as [_ [=]]|].
  destruct H as (bound & tr9 & -> & H). cbn [bind] in H.
  destruct bound as [b|]; [|by destruct H as [_ [=]]].
  apply try_runs in H as (tr10 & [] & tr11 & -> & Hsel & H).
  apply try_runs in H as (tr12 & client & tr13 & -> & _ & H).
  apply try_runs in H as (tr14 & [] & tr15 & -> & _ & [-> [= <-]]%give_runs).
  split; [done|]. intros m ->. apply select_turn_runs in Hsel as (t1 & t2 & -> & Hm).
  auto 20 using model_read_back_suffix, model_read_back_app, model_read_back_cons.
Qed.

Lemma vouches_select sid b model g s :
  Ev (SessBinding sid) (Some b) ∈ s.2 -> vouches (select_turn_model config sid b model g) s.
Proof.
  intros Hb. unfold select_turn_model. apply vouching_skip; [calls_solve|]. intros tr [catalog|e] _; [|done].
  apply vouching_bind; [apply vouches_ensure_bound; apply elem_of_app; by left|].
  intros tr2 [[]|e] _; [|done]. apply vouching_free. calls_solve.
Qed.

Lemma vouches_prepare sid model h s : vouches (gated (prepare_turn config sid model h)) s.
Proof.
  apply vouches_scope. intros s' _ _.
  apply vouching_skip; [calls_solve|]. intros tr1 [g|e] _; [|done].
  apply vouching_skip; [calls_solve|]. intros tr2 conn _.
  destruct (sn_state conn) as [| |ident|]; try done. destruct (negb _); [done|].
  destruct (negb _); [done|]. apply vouching_skip; [calls_solve|].
  intros tr3 [b|] Hb%(runs_call_ (SessBinding sid)); [|done].
  apply vouching_bind; [apply vouches_select; subst; cbn; set_solver|]. intros tr4 [[]|e] _; [|done].
  apply vouching_free. calls_solve.
Qed.

Lemma vouches_run_turn sid prompt model h :
  vouches (run_turn config sid prompt model h) (Op (OpRunTurn sid prompt model h), []).
Proof.
  unfold run_turn. destruct (let? _ := _ in _) as [[]|]; [|done].
  apply vouching_bind; [apply vouches_prepare|]. intros tr [o|e] Hrun; [|done].
  apply prepare_runs in Hrun as [Hs Hm]. apply wp_bind. intros r _. split.
  - by exists sid, model, h.
  - apply vouching_free. destruct r; cbn [bind]; calls_solve.
Qed.

Lemma vouches_start st : vouches (start_program config st) (st, []).
Proof.
  destruct st as [op|o prompt].
  - destruct op; cbn [start_program op_program]; unfold returning;
      try (apply vouching_free; solve [calls_solve]);
      (apply vouching_bind; [|done]).
    + by apply vouches_create.
    + by apply vouches_resume.
    + by apply vouches_refresh.
    + apply vouches_run_turn.
    + apply vouches_corroborate.
    + unfold set_model. apply vouching_bind; [apply vouches_corroborate|].
      intros tr r _. apply vouching_free. calls_solve.
  - apply vouching_free. unfold start_program, returning, turn_worker.
    apply calls_only_bind; [|done]. calls_step; [calls_step|]. calls_step; [|calls_solve].
    apply on_events_calls. intros e st. calls_solve.
Qed.
End threads.

(** ** The pool *)

(** A call changes the bindings by registering a session, or it keeps them. *)
Lemma bindings_step config s c r s' :
  shared_step config s c r s' ->
  (exists sid project root g, Ev c r = Ev (SessMarkAttached sid project root g) (Ok tt) /\
     js_sessions s' = (mark_attached sid project root g (js_sessions s)).2 /\
     bindings (js_sessions s') = <[session_id_0 sid := mkBinding (pr_id project) root g]>
                                   (bindings (js_sessions s))) \/
  bindings (js_sessions s') = bindings (js_sessions s).
Proof.
  intros Hs. destruct c; cbn in Hs;
    try (right; first
      [ by rewrite Hs
      | by destruct Hs as [? ->]
      | by destruct Hs as (? & ? & ->)
      | by destruct Hs as (? & ? & ? & ? & ? & ->) ]).
  destruct Hs as (x & Hx & ->). destruct (mark_attached _ _ _ _ _) as [r0 x0] eqn:E.
  injection Hx as -> ->. cbn. pose proof (f_equal snd E) as Hk. unfold mark_attached in E.
  destruct (match _ with Some _ => _ | None => _ end); injection E as <- <-; [by right|].
  left. do 4 eexists. split; [done|]. by rewrite Hk.
Qed.

Section pool.
Context (config : JcodeConnectionConfig) (m : JcodeConnectionManager) (ops : list jcode_op).

(** Every binding was registered by a call of the log. *)
Definition bindings_registered (P : pool) : Prop :=
  forall x b, bindings (js_sessions (shared P)) !! x = Some b ->
    exists i sid project root g, (i, Ev (SessMarkAttached sid project root g) (Ok tt)) ∈ log P /\
      x = session_id_0 sid /\ b = mkBinding (pr_id project) root g.

Lemma step_sessions P P' :
  pool_step config P P' ->
  bindings_kept (js_sessions (shared P)) (js_sessions (shared P')) /\
  (bindings_registered P -> bindings_registered P').
Proof.
  intros (i & st & c & k & r & new & Hi & HP' & _ & Hs)%pool_step_view.
  assert (Hlog : log P' = log P ++ [(i, Ev c r)]) by by rewrite HP'.
  assert (Hold : bindings_registered P -> forall x b,
            bindings (js_sessions (shared P)) !! x = Some b ->
            exists i sid project root g,
              (i, Ev (SessMarkAttached sid project root g) (Ok tt)) ∈ log P' /\
              x = session_id_0 sid /\ b = mkBinding (pr_id project) root g).
  { intros IH x b (j & sid & project & root & g & Hin & H)%IH.
    exists j, sid, project, root, g. rewrite Hlog, elem_of_app. auto. }
  destruct (is_thread_call c) eqn:Hc.
  - unfold bindings_registered. rewrite Hs. split; [reflexivity|exact Hold].
  - apply bindings_step in Hs as [(sid & project & root & g & He & Hm & Hb)|Hb].
    + split; [rewrite Hm; apply mark_attached_kept|]. intros IH x b. rewrite Hb.
      intros [[<- <-]|[_ ?]]%lookup_insert_Some; [|by apply Hold].
      exists i, sid, project, root, g. rewrite Hlog, He, elem_of_app. split; [right; left|done].
    + split; [intros x b Hx; exists b; by rewrite Hb|].
      intros IH x b. rewrite Hb. by apply Hold.
Qed.

Lemma registered P : reachable config m ops P -> bindings_registered P.
Proof.
  apply (reachable_ind config m ops bindings_registered); [by intros x b|].
  intros P1 P2 _ _ Hstep. apply (step_sessions _ _ Hstep).
Qed.

Lemma kept P P' :
  rtc (pool_step config) P P' ->
  bindings_kept (js_sessions (shared P)) (js_sessions (shared P')).
Proof.
  induction 1 as [|P1 P2 P3 Hstep _ IH]; [reflexivity|]. etransitivity; [|exact IH].
  apply (step_sessions _ _ Hstep).
Qed.

(** What a thread did obeys the discipline, and what it is about to do. *)
Lemma vouched_before P i e :
  reachable config m ops P -> (i, e) ∈ log P ->
  exists st tr tr', (forall op, st = Op op -> ops !! i = Some op) /\
    own i (log P) = tr ++ e :: tr' /\ vouched config (st, tr) e.
Proof.
  intros HP He. pose proof (reachable_faithful _ _ _ _ HP) as [_ Hlen].
  destruct (lookup_lt_is_Some_2 (threads P) i (Hlen _ _ He)) as [[st p] Hi].
  destruct (thread_traced config (vouched config) (fun _ _ _ => True) m ops P i st p
              (vouches_start config) HP Hi) as [_ Hacc].
  apply elem_of_own in He. destruct (accepted_elem _ _ _ _ _ Hacc He) as (tr1 & tr2 & Htr & H).
  rewrite remember_foldl in H. exists st, tr1, tr2.
  split; [intros op ->; by eapply started_op|]. by rewrite Htr.
Qed.

(** A thread has registered the session for that project and root, and before it did
    so the agent had attached the session, or created it, in the root. *)
Definition registered_on_evidence (lg : list (nat * jevent)) (sid : SessionId)
    (b : SessionBinding) : Prop :=
  exists i project g tr tr',
    own i lg = tr ++ Ev (SessMarkAttached sid project (sb_project_root b) g) (Ok tt) :: tr' /\
    pr_id project = sb_project_id b /\
    ((exists c, attached_in tr c sid (sb_project_root b)) \/
     created_in tr sid (sb_project_root b)).

(** An operation named the project, and its root resolved to [root]. *)
Definition root_of_project (lg : list (nat * jevent)) (sid : SessionId) (id : ProjectId)
    (root : os_path) : Prop :=
  exists i op given, ops !! i = Some op /\ asks_session op sid = Some given /\ pr_id given = id /\
    resolved_root (own i lg) given root.

Lemma root_of_project_app lg lg' sid id root :
  root_of_project lg sid id root -> root_of_project (lg ++ lg') sid id root.
Proof.
  intros (i & op & given & ? & ? & ? & H%elem_of_own). exists i, op, given.
  split_and!; [done..|]. apply elem_of_own, elem_of_app. by left.
Qed.

(** Every binding is of a root so resolved, and so is every binding a thread was told. *)
Definition roots_resolved (P : pool) : Prop :=
  (forall sid b, binding sid (js_sessions (shared P)) = Some b ->
     root_of_project (log P) sid (sb_project_id b) (sb_project_root b)) /\
  (forall i sid b, (i, Ev (SessBinding sid) (Some b)) ∈ log P ->
     root_of_project (log P) sid (sb_project_id b) (sb_project_root b)).

Lemma roots_resolved_step P P' :
  reachable config m ops P -> pool_step config P P' -> roots_resolved P -> roots_resolved P'.
Proof.
  intros HP Hstep [Hbound Htold].
  pose proof (pool_step_view _ _ _ Hstep) as (i & st & c & k & r & new & Hi & HP' & _ & Hs).
  assert (Hlog : log P' = log P ++ [(i, Ev c r)]) by by rewrite HP'.
  assert (HP2 : reachable config m ops P') by by eapply rtc_r.
  assert (Hold : forall sid b, binding sid (js_sessions (shared P)) = Some b ->
            root_of_project (log P') sid (sb_project_id b) (sb_project_root b)).
  { intros sid b Hb. rewrite Hlog. by apply root_of_project_app, Hbound. }
  assert (Htold' : forall j sid b, (j, Ev (SessBinding sid) (Some b)) ∈ log P' ->
            root_of_project (log P') sid (sb_project_id b) (sb_project_root b)).
  { intros j sid b Hj. pose proof Hj as Hj'. rewrite Hlog, elem_of_app, list_elem_of_singleton in Hj'.
    destruct Hj' as [Hin|[_ Hev]%pair_equal_spec]; [rewrite Hlog; by eapply root_of_project_app, Htold|].
    apply Hold. assert (Hse : forall e, Ev c r = e -> is_thread_call (ev_call e) = false ->
      shared_step config (shared P) (ev_call e) (ev_resp e) (shared P')).
    { intros e <- Hc. cbn [ev_call ev_resp] in *. by rewrite Hc in Hs. }
    destruct (Hse _ (eq_sym Hev) eq_refl) as [Hb _]. exact (eq_sym Hb). }
  split; [|exact Htold'].
  destruct (is_thread_call c) eqn:Hc; [by rewrite Hs|].
  apply bindings_step in Hs as [(sid & project & root & g & He & _ & Hb)|Hb].
  2:{ intros sid b. unfold binding. rewrite Hb. apply Hold. }
  intros sid' b. unfold binding. rewrite Hb. intros [[Heq <-]|[_ ?]]%lookup_insert_Some; [|by apply Hold].
  assert (sid' = sid) as -> by (destruct sid, sid'; by cbn in Heq; subst). cbn.
  assert (Hin : (i, Ev (SessMarkAttached sid project root g) (Ok tt)) ∈ log P')
    by (rewrite Hlog, <-He; apply elem_of_app; right; by left).
  destruct (vouched_before P' i _ HP2 Hin) as (st' & tr & tr' & Hst & Htr & _ & Hv).
  assert (Hsub : forall e, e ∈ tr -> e ∈ own i (log P')).
  { intros e ?. rewrite Htr. apply elem_of_app. by left. }
  destruct Hv as [(op & Hop & Hask & Hres)|(b' & Hb' & <- & <-)].
  - exists i, op, project. split_and!; [by apply Hst|done..|by apply Hsub].
  - apply (Htold' i). apply elem_of_own, Hsub, Hb'.
Qed.

Lemma roots_resolved_reachable P : reachable config m ops P -> roots_resolved P.
Proof.
  apply (reachable_ind config m ops roots_resolved).
  - split; [by intros sid b|by intros i sid b ?%elem_of_nil].
  - intros P1 P2 HP _ Hstep. by apply roots_resolved_step.
Qed.

(** C10. A session stays with its project.  In every reachable pool a session that is
    bound to a project and a root was registered by a thread for which, before that, the
    agent had either attached it under its own id and listed it in that root, or
    created it under its own id for a call that named that root, its list then giving
    no other directory for it (the list may give none, or not have the session).  The
    root is what the root of that project resolved to, for an operation of the
    application that asked for a new session of the project or for this session in
    it.  From then on, whatever any thread does, the session is bound to that project
    and that root. *)
Theorem sessions_stay_with_their_project P P' sid b :
  reachable config m ops P ->
  rtc (pool_step config) P P' ->
  binding sid (js_sessions (shared P)) = Some b ->
  (exists b', binding sid (js_sessions (shared P')) = Some b' /\ same_binding b b') /\
  registered_on_evidence (log P) sid b /\
  root_of_project (log P) sid (sb_project_id b) (sb_project_root b).
Proof.
  intros HP Hsteps Hb. split; [by apply (kept _ _ Hsteps)|].
  split; [|by apply (roots_resolved_reachable P HP)].
  destruct (registered P HP _ _ Hb) as (i & [id'] & project & root & g & Hin & Hx & ->).
  destruct sid as [id]. cbn in Hx. subst id'.
  destruct (vouched_before P i _ HP Hin) as (st & tr & tr' & _ & Htr & Hv & _).
  by exists i, project, g, tr, tr'.
Qed.

(** C12. A turn that names a model runs on that model.  Whenever a thread is about to start
    the worker of a turn, it runs the operation the turn was asked by, with that
    session and that prompt; and if a model was asked for, the thread has set it on
    the session and, over a connection it opened after that, was told by the agent
    that this session's model is the one asked for and that its provider is the
    gateway's, where the configuration names one, and otherwise the provider the model
    was asked for with. *)
Theorem turn_runs_on_verified_model P i st o prompt k :
  reachable config m ops P ->
  threads P !! i = Some (st, Call (SpawnWorker o prompt) k) ->
  exists model has_handler,
    ops !! i = Some (OpRunTurn (to_session o) prompt model has_handler) /\
    forall asked, model = Some asked ->
      model_read_back config (own i (log P)) (to_session o) asked.
Proof.
  intros HP Hi. destruct (thread_traced config (vouched config) (fun _ _ _ => True) m ops P i st _
              (vouches_start config) HP Hi) as [Hw _].
  destruct (Hw None I) as [(sid & model & h & Hst & <- & Hm) _]. cbn in Hst. subst st.
  exists model, h. split; [by eapply started_op|]. exact Hm.
Qed.
End pool.
