(* ===== verification/JcodeGate.v ===== *)
(** * The Jcode adapter: a turn is not disturbed

    The session gate together with the check for an active turn keeps everything that
    changes the connection, the attachment or the model away from a running turn.
    [gate_ok] is the discipline of the threads: such calls and the beginning of a turn
    are only made inside the gate, after no turn was found active there. *)
From S2P Require Import Prelude RustStr RustPath Conversation Program Domain JcodeConfig.
From S2P Require Import JcodePermissions JcodeConnection JcodeSessions JcodeCalls JcodeModels.
From S2P Require Import JcodeTurn JcodeRuntime JcodePool.

(** Outside the gate, inside it, and inside it having found no active turn since. *)
Inductive gate_state := Outside | Inside | Idle.

#[export] Instance gate_state_eq_dec : EqDecision gate_state.
Proof. solve_decision. Defined.

(** The calls that open or close connections, attach or register sessions, or look at
    or change models and sessions: every call to the agent but running the turn,
    answering its requests and cancelling it. *)
Definition disturbing (c : jcode_call) : bool :=
  match c with
  | ConnConnect | ConnDisconnect | ConnReconnect | SessMarkAttached _ _ _ _ | SessClear
  | SdkOpenSidecar _ | SdkSubscribe _ _ | SdkProbe _ _ _ | SdkAttach _ _ | SdkCreate _ _
  | SdkListSessions _ | SdkListModels _ _ | SdkRuntimeInfo _ _ | SdkSetModel _ _ _
  | ModelsMarkVerified _ => true
  | _ => false
  end.

Definition gate_next (s : gate_state) (e : jevent) : gate_state :=
  match ev_call e as c return jcode_resp c -> gate_state with
  | LockGate => fun _ => Inside
  | UnlockGate => fun _ => Outside
  | TurnsHasActive => fun active =>
      match s, active with Inside, false => Idle | _, _ => s end
  | TurnsBegin _ _ => fun r => if is_ok r then Inside else s
  | _ => fun _ => s
  end (ev_resp e).

Definition gate_ok (s : gate_state) (e : jevent) : Prop :=
  match ev_call e with
  | LockGate => s = Outside
  | UnlockGate => s <> Outside
  | TurnsBegin _ _ => s = Idle
  | c => disturbing c = true -> s = Idle
  end.

Abbreviation guarded := (wp (fun _ : jevent => True) gate_ok gate_next).

(** Calls that leave the state alone, and among them the ones that are always allowed. *)
Definition inner (c : jcode_call) : bool :=
  match c with LockGate | UnlockGate | TurnsHasActive | TurnsBegin _ _ => false | _ => true end.
Definition quiet (c : jcode_call) : bool := inner c && negb (disturbing c).

Lemma guarded_quiet {A} (p : jcode A) (Q : gate_state -> A -> Prop) s :
  calls_only quiet p -> (forall a, Q s a) -> guarded p Q s.
Proof.
  intros Hp HQ. eapply wp_calls_only; [exact Hp| |done]. by intros s' [[] r].
Qed.

Lemma guarded_inner {A} (p : jcode A) (Q : gate_state -> A -> Prop) :
  calls_only inner p -> (forall a, Q Idle a) -> guarded p Q Idle.
Proof.
  intros Hp HQ. induction p as [a|c k IH]; cbn in *; [apply HQ|]. destruct Hp as [Hc Hk].
  intros r _. split; [by destruct c|]. replace (gate_next Idle (Ev c r)) with Idle by by destruct c.
  by apply IH.
Qed.

(** The scope of the gate, with a body that keeps inside it. *)
Lemma guarded_gated {A} (body : jcode (Result A)) :
  guarded body (fun s _ => s <> Outside) Inside ->
  guarded (gated body) (fun s _ => s = Outside) Outside.
Proof.
  intros H. unfold gated. apply wp_bind, wp_call_. intros [] _. split; [done|].
  apply wp_bind. eapply wp_mono; [exact H|]. intros s r Hs. cbn beta.
  apply wp_bind, wp_call_. intros [] _. by split.
Qed.

Lemma guarded_when_idle {A} message (body : jcode (Result A)) :
  guarded body (fun s _ => s <> Outside) Idle ->
  guarded (when_idle message body) (fun s _ => s <> Outside) Inside.
Proof.
  intros H. unfold when_idle. apply wp_bind, wp_call_. intros [] _; (split; [done|]); [done|exact H].
Qed.

Abbreviation outside p := (guarded p (fun s _ => s = Outside) Outside).

Lemma outside_quiet {A} (p : jcode A) : calls_only quiet p -> outside p.
Proof. intros. by apply guarded_quiet. Qed.

(** Most operations do all they do in one scope, after the check. *)
Lemma outside_idle {A} message (body : jcode (Result A)) :
  calls_only inner body -> outside (gated (when_idle message body)).
Proof. intros Hb. by apply guarded_gated, guarded_when_idle, guarded_inner. Qed.

Lemma outside_gated {A} (body : jcode (Result A)) : calls_only quiet body -> outside (gated body).
Proof. intros Hb. by apply guarded_gated, guarded_quiet. Qed.

Lemma outside_bind {A B} (p : jcode A) (f : A -> jcode B) :
  outside p -> (forall a, outside (f a)) -> outside (bind p f).
Proof. intros Hp Hf. apply wp_bind. eapply wp_mono; [exact Hp|]. by intros s a ->. Qed.

Section operations.
Context (config : JcodeConnectionConfig).

Lemma prepare_split sid model h :
  guarded (prepare_turn config sid model h) (fun s _ => s <> Outside) Inside.
Proof.
  unfold prepare_turn. apply guarded_when_idle.
  assert (Hin : forall A B (p : jcode A) (f : A -> jcode B),
            calls_only inner p -> (forall a, guarded (f a) (fun s _ => s <> Outside) Idle) ->
            guarded (bind p f) (fun s _ => s <> Outside) Idle).
  { intros A B p f Hp Hf. by apply wp_bind, guarded_inner. }
  apply Hin; [calls_solve|]. intros [g|e]; [|done].
  apply Hin; [calls_solve|]. intros conn.
  destruct (sn_state conn) as [| |ident|]; try done. destruct (negb _); [done|].
  destruct (negb _); [done|]. apply Hin; [calls_solve|]. intros [b|]; [|done].
  apply Hin; [calls_solve|]. intros [[]|e]; [|done].
  apply Hin; [calls_solve|]. intros [client|e]; [|done].
  apply wp_bind, wp_call_. intros [[]|e] _; by split.
Qed.

Lemma outside_run_turn sid prompt model h : outside (run_turn config sid prompt model h).
Proof.
  unfold run_turn. destruct (let? _ := _ in _); [|done].
  apply outside_bind; [apply guarded_gated, prepare_split|]. intros [o|e]; [|done].
  apply outside_quiet. calls_solve.
Qed.

Lemma outside_corroborate sid model : outside (corroborate_model_identity config sid model).
Proof.
  unfold corroborate_model_identity. destruct (validate_jcode_session_id sid) as [[]|]; [|done].
  cbn [bind give]. destruct (validate_model_ref model) as [[]|]; [|done]. cbn [bind give].
  apply outside_idle. calls_solve.
Qed.

Lemma outside_start st : outside (start_program config st).
Proof.
  destruct st as [op|o prompt].
  - destruct op; cbn [start_program op_program]; unfold returning;
      try (apply outside_quiet; solve [calls_solve]); (apply outside_bind; [|done]).
    + apply outside_idle. calls_solve.
    + apply outside_idle. calls_solve.
    + apply outside_idle. calls_solve.
    + apply outside_bind; [apply outside_idle; calls_solve|].
      intros [sn|e]; [|done]. apply outside_quiet. calls_solve.
    + unfold create_session. destruct (is_some model); [done|]. apply outside_idle. calls_solve.
    + unfold resume_session. destruct (validate_jcode_session_id s) as [[]|]; [|done].
      apply outside_idle. calls_solve.
    + apply outside_idle. calls_solve.
    + unfold refresh_session_after_workspace_replacement.
      destruct (validate_jcode_session_id s) as [[]|]; [|done]. cbn [bind give].
      apply outside_bind; [apply outside_quiet; calls_solve|]. intros [root|e]; [|done].
      apply outside_idle. calls_solve.
    + apply outside_run_turn.
    + unfold cancel. destruct (validate_jcode_session_id s) as [[]|]; [|done].
      apply outside_gated. calls_solve.
    + unfold respond_to_permission. destruct (validate_jcode_session_id s) as [[]|]; [|done].
      cbn [bind give]. apply outside_bind; [apply outside_gated; calls_solve|].
      intros [[client pending]|e]; [|done]. apply outside_quiet. calls_solve.
    + unfold list_models. destruct (validate_jcode_session_id s) as [[]|]; [|done].
      apply outside_idle. calls_solve.
    + apply outside_corroborate.
    + apply outside_bind; [apply outside_corroborate|]. by intros [].
  - apply outside_quiet. unfold start_program, returning, turn_worker.
    apply calls_only_bind; [|done]. calls_step; [calls_step|]. calls_step; [|calls_solve].
    apply on_events_calls. intros e st. calls_solve.
Qed.
End operations.

(** ** The pool *)

(** What the calls do to the gate and to the turn of the registry. *)
Lemma gate_step config s c r s' :
  shared_step config s c r s' ->
  match c with
  | LockGate => js_gate s = false /\ js_gate s' = true /\ js_turns s' = js_turns s
  | UnlockGate => js_gate s' = false /\ js_turns s' = js_turns s
  | TurnsBegin _ _ => js_gate s' = js_gate s
  | _ => js_gate s' = js_gate s /\ (js_turns s = None -> js_turns s' = None)
  end.
Proof.
  intros Hs. destruct c; cbn in Hs;
    try (first [ by rewrite Hs | by destruct Hs as [? ->] | by destruct Hs as (? & ? & ->)
               | by destruct Hs as (? & ? & ? & ? & ? & ->) ]).
  all: first [destruct Hs as (x & Hx & ->)|subst s']; cbn; (split; [done|]); intros Hn;
    rewrite Hn in *; by try injection Hx as <- <-.
Qed.

Section pool.
Context (config : JcodeConnectionConfig) (m : JcodeConnectionManager) (ops : list jcode_op).

Definition gate_of_thread (P : pool) (i : nat) : gate_state :=
  foldl gate_next Outside (own i (log P)).

Record gate_inv (gate : bool) (turns : option ActiveTurn) (held : nat -> gate_state) : Prop := {
  gate_free : gate = false -> forall i, held i = Outside;
  gate_one : forall i j, held i <> Outside -> held j <> Outside -> i = j;
  gate_idle : forall i, held i = Idle -> turns = None
}.

Definition update (held : nat -> gate_state) (i : nat) (x : gate_state) (j : nat) : gate_state :=
  if decide (j = i) then x else held j.

Lemma gate_inv_ext gate turns f g :
  (forall i, f i = g i) -> gate_inv gate turns f -> gate_inv gate turns g.
Proof.
  intros H [H1 H2 H3]. split.
  - intros Hg i. rewrite <-H. auto.
  - intros i j. rewrite <-!H. apply H2.
  - intros i. rewrite <-H. apply H3.
Qed.

(** The holder of the gate moves to another state while it stays inside, goes out, or
    the gate is taken. *)
Lemma gate_inv_update gate gate' turns turns' held i x :
  gate_inv gate turns held ->
  (gate = false \/ held i <> Outside) ->
  (gate' = false -> x = Outside) -> (x = Idle -> turns' = None) ->
  gate_inv gate' turns' (update held i x).
Proof.
  intros [H1 H2 H3] Hi Hx Hidle.
  assert (Hout : forall j, j <> i -> held j = Outside).
  { intros j Hj. destruct Hi as [?|Hi]; [by apply H1|].
    destruct (decide (held j = Outside)) as [|Hj']; [done|]. by destruct Hj; apply H2. }
  unfold update. split.
  - intros Hg j. case_decide; [by apply Hx|by apply Hout].
  - intros j k. case_decide; case_decide; intros Hj Hk; subst; try done;
      first [by destruct Hk; apply Hout|by destruct Hj; apply Hout].
  - intros j. case_decide; [done|]. by rewrite Hout.
Qed.

Lemma gate_inv_same gate turns turns' held :
  (turns = None -> turns' = None) -> gate_inv gate turns held -> gate_inv gate turns' held.
Proof. intros Ht [H1 H2 H3]. split; auto. intros i Hi. by eapply Ht, H3. Qed.

Lemma update_same held i x j : held i = x -> held j = update held i x j.
Proof. intros <-. unfold update. by case_decide; subst. Qed.

Lemma gate_inv_call s c r s' held i :
  gate_inv (js_gate s) (js_turns s) held -> gate_ok (held i) (Ev c r) ->
  shared_step config s c r s' ->
  gate_inv (js_gate s') (js_turns s') (update held i (gate_next (held i) (Ev c r))).
Proof.
  intros Hinv Hok Hs. pose proof (gate_step _ _ _ _ _ Hs) as Hg.
  assert (Hsame : gate_next (held i) (Ev c r) = held i -> js_gate s' = js_gate s ->
            (js_turns s = None -> js_turns s' = None) ->
            gate_inv (js_gate s') (js_turns s') (update held i (gate_next (held i) (Ev c r)))).
  { intros -> -> Ht. eapply gate_inv_ext; [|by eapply gate_inv_same].
    intros j. by apply update_same. }
  destruct c; try (by apply Hsame; [|apply Hg..]); cbn [gate_ok ev_call] in Hok;
    cbn [gate_next ev_call ev_resp].
  - destruct Hg as (Hf & -> & ->). eapply gate_inv_update; [exact Hinv|by left|done..].
  - destruct Hg as (-> & ->). eapply gate_inv_update; [exact Hinv|by right|done..].
  - assert (Hnot : held i <> Outside) by by rewrite Hok.
    cbn in Hs. destruct Hs as (x & Hx & ->). cbn in Hg |- *.
    eapply gate_inv_update; [exact Hinv|by right| |].
    + intros Hf. by rewrite (gate_free _ _ _ Hinv Hf) in Hok.
    + rewrite Hok. unfold turns_begin in Hx. rewrite (gate_idle _ _ _ Hinv i Hok) in Hx.
      by injection Hx as <- <-.
  - cbn in Hs. destruct Hs as [-> ->]. destruct (held i) eqn:Hi; cbn;
      [by eapply gate_inv_ext; [|exact Hinv]; intros j; apply update_same
      | |by eapply gate_inv_ext; [|exact Hinv]; intros j; apply update_same].
    eapply gate_inv_update; [exact Hinv|right; by rewrite Hi| |].
    + intros Hf. by rewrite (gate_free _ _ _ Hinv Hf) in Hi.
    + by destruct (js_turns s).
Qed.

Lemma gate_held P :
  reachable config m ops P ->
  gate_inv (js_gate (shared P)) (js_turns (shared P)) (gate_of_thread P).
Proof.
  apply (reachable_ind config m ops
    (fun P => gate_inv (js_gate (shared P)) (js_turns (shared P)) (gate_of_thread P))); [done|].
  intros P1 P2 HP _ Hstep IH.
  apply pool_step_view in Hstep as (i & st & c & k & r & new & Hi & HP2 & Hnew & Hs).
  destruct (thread_wp config gate_ok gate_next (fun _ s _ => s = Outside) (fun _ => Outside) m ops
              P1 i st _ (outside_start config) HP Hi) as [Hwp _].
  destruct (Hwp r I) as [Hok _].
  assert (Hown : forall j, update (gate_of_thread P1) i (gate_next (gate_of_thread P1 i) (Ev c r)) j
            = gate_of_thread P2 j).
  { intros j. rewrite HP2. unfold gate_of_thread, update. cbn [log serve_thread]. rewrite own_snoc.
    destruct (decide (j = i)) as [->|Hne].
    - rewrite decide_True by done. by rewrite foldl_snoc.
    - by rewrite decide_False, app_nil_r by done. }
  eapply gate_inv_ext; [exact Hown|]. destruct (is_thread_call c) eqn:Hc.
  - rewrite Hs. eapply gate_inv_ext; [|exact IH]. intros j. apply update_same. by destruct c.
  - by eapply gate_inv_call.
Qed.

(** C11. A running turn is not disturbed.  Whatever threads there are and however they
    interleave: while the registry has a turn, no thread is about to open, close or
    reopen the connection, to attach, create or register a session or forget the
    attachment, to open a second connection, or to read or set a model; and no two
    threads are ever inside the session gate. *)
Theorem turns_are_undisturbed P :
  reachable config m ops P ->
  (forall i st c k t, threads P !! i = Some (st, Call c k) -> js_turns (shared P) = Some t ->
     disturbing c = false) /\
  (forall i j, gate_of_thread P i <> Outside -> gate_of_thread P j <> Outside -> i = j).
Proof.
  intros HP. destruct (gate_held P HP) as [_ H2 H3]. split; [|exact H2].
  intros i st c k t Hi Ht.
  destruct (thread_wp config gate_ok gate_next (fun _ s _ => s = Outside) (fun _ => Outside) m ops
              P i st _ (outside_start config) HP Hi) as [Hwp _].
  destruct (disturbing c) eqn:Hd; [|done].
  enough (gate_of_thread P i = Idle) as Hidle by by rewrite (H3 i Hidle) in Ht.
  (* Some answer to the call exists. *)
  assert (Hr : exists r : jcode_resp c, True).
  { destruct c; cbn in Hd |- *; try done; repeat first [by exists tt|by exists (Ok tt)|by exists []
      |by exists (Err (Agent [])) | by exists (Err (Build_SdkError Timeout [])) | by exists false]. }
  destruct Hr as [r _]. destruct (Hwp r I) as [Hok _]. by destruct c; try done; apply Hok.
Qed.
End pool.
