(* ===== verification/JcodeExample.v ===== *)
(** * The Jcode adapter: concrete pools

    Answers of an agent that behaves, and schedules of a few operations on it, for the
    witnesses; and two schedules of abandoned turns: in one the worker of the abandoned
    turn marks the next turn of its session as finished, in the other both workers are
    about to run their prompts. *)
From S2P Require Import Prelude RustStr RustPath Conversation Program Domain JcodeConfig.
From S2P Require Import JcodePermissions JcodeConnection JcodeSessions JcodeCalls JcodeModels.
From S2P Require Import JcodeTurn JcodeRuntime JcodePool JcodeTurnSafety JcodePermissionSafety.
From S2P Require Import JcodeTurnFacts JcodeSessionSafety JcodeGate.

(** ** The agent *)

Definition ex_root : str := u "/work/app".
Definition ex_project : ProjectRef := {| pr_id := MkProjectId 7; pr_root := ex_root |}.
Definition ex_session : SessionId := MkSessionId (u "s1").
Definition ex_provider : str := u "OpenAI-compatible".
Definition ex_model : ModelRef := mkModelRef (u "gpt-x") None (Some ex_provider).

Definition ex_client (handle : N) : JcodeClient :=
  {| cl_handle := handle; cl_server := u "jcode";
     cl_capabilities := [u "sessions"; u "streaming"; u "permissions"; u "session_files"];
     cl_socket_path := Utf8Path (u "/run/jcode.sock") |}.

Definition ex_info : SessionInfo := {| in_session_id := u "s1"; in_working_dir := Some ex_root |}.

(** A turn asks once to edit and then uses two tools. *)
Definition ex_events : list ApiEvent :=
  [ApiMessageAccepted (u "s1");
   ApiPermissionRequest (u "s1") (u "r1") (u "edit") (u "src/main.rs");
   ApiToolStart (u "s1") (u "c1") (u "read");
   ApiToolStart (u "s1") (u "c2") (u "edit");
   ApiTurnDone (u "s1")].

Definition ex_turn : SdkTurnResult :=
  {| sr_text := u "done"; sr_tool_calls := []; sr_usage := None |}.

(** The answers to the calls on the shared state are not looked at. *)
Definition ex_sdk (c : jcode_call) : jcode_resp c :=
  match c return jcode_resp c with
  | FsCanonicalize p => Some p
  | FsIsDir _ | HandlerCall _ => true
  | SdkOpenSidecar _ => Ok (ex_client 2)
  | SdkProbe _ sid _ => [Delivered (ApiModelInfo sid)]
  | SdkAttach _ _ | SdkCreate _ _ => Ok ex_info
  | SdkListSessions _ => Ok [ex_info]
  | SdkListModels _ _ => Ok [u "gpt-x"]
  | SdkRuntimeInfo _ sid =>
    Ok {| ri_session_id := sid; ri_provider := Some ex_provider; ri_model := Some (u "gpt-x");
          ri_routes := [{| ro_model := u "gpt-x"; ro_provider := ex_provider;
                           ro_available := true |}] |}
  | SdkSetModel _ _ _ | SdkRespond _ _ _ _ | SdkCancel _ _ => Ok tt
  | SdkRun _ _ _ => (ex_events, Ok ex_turn)
  | SessIsAttached _ _ | TurnsHasActive | TurnsShouldCancel _ _ | ModelsIsVerified _ => false
  | SpawnWorker _ _ => None
  | AwaitWorker _ => SenderDropped
  | LockClient | ConnCurrent | ConnClone => None
  | ConnConnect | ConnDisconnect | ConnReconnect => Err Cancelled
  | ConnStatus => mkSnapshot 0 StDisconnected
  | SessBinding _ => None
  | SessMarkAttached _ _ _ _ | TurnsBegin _ _ | TurnsWorkerFinished _ _ | PermComplete _ _ =>
    Err Cancelled
  | TurnsActiveGeneration _ => None
  | TurnsCancelAcknowledged _ | TurnsFinish _ _ => Err Cancelled
  | PermObserve _ _ _ _ _ => Err Cancelled
  | PermBegin _ _ _ => Err Cancelled
  | SdkSubscribe _ _ | LockGate | UnlockGate | LockControl | UnlockControl | UnlockClient
  | ConnRefresh | SessClear | TurnsForceClear _ _ | PermAbort _ | PermFinishTurn _ _
  | ModelsMarkVerified _ => tt
  end.

Definition ex_open (r : OpenRequest) : SdkResult JcodeClient := Ok (ex_client 1).

Definition ex_config : JcodeConnectionConfig :=
  {| jc_client_name := default_client_name;
     jc_request_timeout_ms := DEFAULT_REQUEST_TIMEOUT_MS;
     jc_connection := default_connection_mode;
     jc_model_gateway_bridge := Some VibeCoderOmniRouteLoopbackV1 |}.

Definition ex_manager : JcodeConnectionManager := mkManager None 0 StDisconnected.

Definition ex_ops : list jcode_op :=
  [OpCreateSession ex_project None;
   OpRunTurn ex_session (u "fix it") (Some ex_model) true;
   OpRespond ex_session (u "r1") AllowSession;
   OpRunTurn ex_session (u "go on") None true;
   OpCancel ex_session].

(** ** Schedules *)

(** A thread runs to its end, or up to a call. *)
Definition go (until : jcode_call -> bool) (i : nat) (P : pool) : pool :=
  run_thread ex_config ex_sdk ex_open 200 until i P.
Definition to_end (i : nat) (P : pool) : pool := go (fun _ => false) i P.

Definition spawns (c : jcode_call) : bool :=
  match c with SpawnWorker _ _ => true | _ => false end.
Definition awaits (c : jcode_call) : bool :=
  match c with AwaitWorker _ => true | _ => false end.
Definition responds (c : jcode_call) : bool :=
  match c with SdkRespond _ _ _ _ => true | _ => false end.
Definition ends_turn (c : jcode_call) : bool :=
  match c with TurnsWorkerFinished _ _ => true | _ => false end.

Definition ex_start : pool := start_pool ex_config ex_manager ex_ops.
(** The session is there; the turn is prepared; its worker has handled the events; the
    response to the request is about to be sent, is recorded; the turn is over. *)
Definition ex_created : pool := to_end 0 ex_start.
Definition ex_prepared : pool := go spawns 1 ex_created.
Definition ex_asking : pool := go ends_turn 5 (go awaits 1 ex_prepared).
Definition ex_responding : pool := go responds 2 ex_asking.
Definition ex_responded : pool := to_end 2 ex_responding.
Definition ex_over : pool := to_end 1 (to_end 5 ex_responded).

Lemma go_sound until i P P' :
  rtc (pool_step ex_config) P P' -> rtc (pool_step ex_config) P (go until i P').
Proof. intros H. etransitivity; [exact H|apply run_thread_sound]. Qed.

Abbreviation ex_reachable := (reachable ex_config ex_manager ex_ops).

Lemma ex_created_ok : ex_reachable ex_created.
Proof. by apply go_sound. Qed.
Lemma ex_prepared_ok : ex_reachable ex_prepared.
Proof. apply go_sound, ex_created_ok. Qed.
Lemma ex_asking_ok : ex_reachable ex_asking.
Proof. apply go_sound, go_sound, ex_prepared_ok. Qed.
Lemma ex_responding_ok : ex_reachable ex_responding.
Proof. apply go_sound, ex_asking_ok. Qed.
Lemma ex_responded_ok : ex_reachable ex_responded.
Proof. apply go_sound, ex_responding_ok. Qed.
Lemma ex_over_ok : ex_reachable ex_over.
Proof. apply go_sound, go_sound, ex_responded_ok. Qed.

(** What a thread is about to call, and what it has returned. *)
Definition next_call (P : pool) (i : nat) : option jcode_call :=
  match threads P !! i with Some (_, Call c _) => Some c | _ => None end.
Definition returned (P : pool) (i : nat) : option (start * outcome) :=
  match threads P !! i with Some (st, Ret a) => Some (st, a) | _ => None end.

Lemma next_call_inv P i c :
  next_call P i = Some c -> exists st k, threads P !! i = Some (st, Call c k).
Proof.
  unfold next_call. destruct (threads P !! i) as [[st [a|c' k]]|]; [done| |done].
  intros [= <-]. by exists st, k.
Qed.

Lemma returned_inv P i st a : returned P i = Some (st, a) -> threads P !! i = Some (st, Ret a).
Proof.
  unfold returned. destruct (threads P !! i) as [[st' [a'|]]|]; [|done..]. by intros [= <- <-].
Qed.

(** ** The worker of an abandoned turn *)

(** [run_turn]'s future is dropped while its worker is about to report; the next turn
    of the session begins; the old worker reports, and [mark_worker_finished], which
    knows turns by session and generation, takes the new turn for its own.  The new
    turn's worker has yet to start, and the turn cannot be cancelled any more. *)
Definition ex_abandoned : pool := to_end 1 (drop_caller ex_config ex_sdk ex_open 1 ex_asking).
Definition ex_next : pool := go awaits 3 ex_abandoned.
Definition ex_stale : pool := to_end 4 (to_end 5 ex_next).

Lemma stale_worker_ends_next_turn :
  ex_reachable ex_stale /\
  js_turns (shared ex_next) = Some (mkTurn ex_session 1 false false) /\
  js_turns (shared ex_stale) = Some (mkTurn ex_session 1 false true) /\
  next_call ex_stale 6 = Some (SdkRun (ex_client 1) (u "s1") (u "go on")) /\
  returned ex_stale 4 =
    Some (Op (OpCancel ex_session),
          OUnit (Err (InvalidRequest (u "there is no active turn for this session to cancel")))).
Proof.
  split; [|split_and!; by vm_compute]. do 4 apply go_sound.
  etransitivity; [exact ex_asking_ok|apply drop_caller_sound].
Qed.

(** [run_turn]'s future is dropped before its worker has called the SDK: the
    cancellation the lease sends finds no turn to cancel, and after it the next turn
    begins.  Then both workers are about to run their prompts on the same client and
    session. *)
Definition ex_early : pool :=
  go awaits 3 (to_end 1 (drop_caller ex_config ex_sdk ex_open 1 (go awaits 1 ex_prepared))).

Lemma ex_early_ok : ex_reachable ex_early.
Proof.
  do 2 apply go_sound. etransitivity; [|apply drop_caller_sound]. apply go_sound, ex_prepared_ok.
Qed.

Definition cancels_sent (tr : list jevent) : list (JcodeClient * str) :=
  omap (fun e => match ev_call e with SdkCancel c s => Some (c, s) | _ => None end) tr.

Lemma abandoned_worker_runs_beside_next :
  ex_reachable ex_early /\
  js_turns (shared ex_early) = Some (mkTurn ex_session 1 false false) /\
  cancels_sent (own 1 (log ex_early)) = [(ex_client 1, u "s1")] /\
  next_call ex_early 5 = Some (SdkRun (ex_client 1) (u "s1") (u "fix it")) /\
  next_call ex_early 6 = Some (SdkRun (ex_client 1) (u "s1") (u "go on")).
Proof.
  split; [exact ex_early_ok|]. split_and!; by vm_compute.
Qed.

(** ** Witnesses *)

(** The worker of the second turn runs and is waited for. *)
Definition ex_second_options : TurnOptions :=
  turn_options ex_config ex_session (ex_client 1) true 1 true.

Lemma ex_second_running : running ex_early 6 ex_second_options.
Proof.
  assert (Hn : next_call ex_early 6 = Some (SdkRun (ex_client 1) (u "s1") (u "go on"))) by by vm_compute.
  apply next_call_inv in Hn as (st & k & Hi).
  assert (Hst : fst <$> threads ex_early !! 6%nat = Some (Worker ex_second_options (u "go on")))
    by by vm_compute.
  rewrite Hi in Hst. injection Hst as ->. by exists (u "go on"), (SdkRun (ex_client 1) (u "s1") (u "go on")), k.
Qed.

Lemma ex_second_awaited : ~ given_up ex_early 6.
Proof.
  intros (i & r & Hin & _).
  assert (H : Forall (fun x => match ev_call x.2 with AwaitWorker n => n <> 6%nat | _ => True end)
                (log ex_early)) by (vm_compute; repeat constructor; discriminate).
  rewrite Forall_forall in H. by apply (H _ Hin).
Qed.

Lemma one_turn_at_a_time_witness :
  ex_reachable ex_asking /\ lease_of_thread ex_asking 1 = Some (ex_session, 1) /\
  (exists t, js_turns (shared ex_asking) = Some t /\ at_session t = ex_session) /\
  lease_of_thread ex_asking 3 = None /\
  (exists t, js_turns (shared ex_early) = Some t /\ at_session t = ex_session) /\
  (forall n, running ex_early n ex_second_options -> ~ given_up ex_early n -> n = 6%nat).
Proof.
  assert (Hl : lease_of_thread ex_asking 1 = Some (ex_session, 1)) by by vm_compute.
  split; [exact ex_asking_ok|]. split; [exact Hl|].
  destruct (one_turn_at_a_time ex_config ex_manager ex_ops ex_asking ex_asking_ok) as (H & _).
  destruct (H _ _ _ Hl) as [(t & Ht & Hs & _) Ho]. split; [exists t; exact (conj Ht Hs)|].
  split; [exact (Ho 3%nat ltac:(lia))|].
  destruct (one_turn_at_a_time ex_config ex_manager ex_ops ex_early ex_early_ok)
    as (_ & _ & _ & _ & _ & H6).
  destruct (H6 6%nat ex_second_options ex_second_running ex_second_awaited)
    as [(t' & Ht' & Hs' & _) Hu].
  split; [exists t'; exact (conj Ht' Hs')|]. intros n. exact (Hu n ex_second_options).
Defined.

Lemma turns_are_undisturbed_witness :
  ex_reachable ex_asking /\ is_some (js_turns (shared ex_asking)) = true /\
  (forall i st c k t, threads ex_asking !! i = Some (st, Call c k) ->
     js_turns (shared ex_asking) = Some t -> disturbing c = false).
Proof.
  split; [exact ex_asking_ok|]. split; [by vm_compute|].
  apply (turns_are_undisturbed ex_config ex_manager ex_ops ex_asking ex_asking_ok).
Defined.

Lemma approvals_are_the_users_witness :
  ex_reachable ex_responding /\
  exists sid g action description, u "s1" = session_id_0 sid /\
    reported (log ex_responding) sid g (u "r1") action description.
Proof.
  split; [exact ex_responding_ok|].
  destruct (next_call_inv ex_responding 2 (SdkRespond (ex_client 1) (u "s1") (u "r1") SdkAllow)
              ltac:(by vm_compute)) as (st & k & Hi).
  destruct (approvals_are_the_users ex_config ex_manager ex_ops ex_responding 2 st (ex_client 1)
              (u "s1") (u "r1") k ex_responding_ok Hi) as (sid & g & a & d & Hs & Hr & _).
  exists sid, g, a, d. exact (conj Hs Hr).
Defined.

Lemma requests_resolved_once_witness :
  ex_reachable ex_responded /\
  requests_this_turn (js_permissions (shared ex_responded)) = 1 /\
  requests_this_turn (js_permissions (shared ex_responded)) <= MAX_PERMISSION_REQUESTS_PER_TURN.
Proof.
  split; [exact ex_responded_ok|]. split; [by vm_compute|].
  apply (requests_resolved_once ex_config ex_manager ex_ops ex_responded ex_responded_ok).
Defined.

Lemma bridged_turn_uses_file_tools_witness :
  exists i n client events turn cancelled,
    returned ex_over i =
      Some (Op (OpRunTurn ex_session (u "fix it") (Some ex_model) true),
            OTurn (Some (Ok (map_turn_result ex_turn false)))) /\
    (n, Ev (SdkRun client (u "s1") (u "fix it")) (events, Ok turn)) ∈ log ex_over /\
    Forall (fun name => name ∈ VIBECODER_BRIDGED_FILE_TOOLS) (tools_started ex_session events) /\
    map_turn_result ex_turn false = map_turn_result turn cancelled.
Proof.
  assert (Hr : returned ex_over 1 =
      Some (Op (OpRunTurn ex_session (u "fix it") (Some ex_model) true),
            OTurn (Some (Ok (map_turn_result ex_turn false))))) by by vm_compute.
  destruct (bridged_turn_uses_file_tools ex_config ex_manager ex_ops ex_over 1 ex_session
              (u "fix it") (Some ex_model) true (map_turn_result ex_turn false) ltac:(done)
              ex_over_ok (returned_inv _ _ _ _ Hr))
    as (n & client & events & turn & cancelled & Hn & Hall & _ & Heq).
  exists 1%nat, n, client, events, turn, cancelled. exact (conj Hr (conj Hn (conj Hall Heq))).
Defined.

Lemma sessions_stay_with_their_project_witness :
  exists b, binding ex_session (js_sessions (shared ex_created)) = Some b /\
    (exists b', binding ex_session (js_sessions (shared ex_over)) = Some b' /\ same_binding b b') /\
    registered_on_evidence (log ex_created) ex_session b /\
    root_of_project ex_ops (log ex_created) ex_session (sb_project_id b) (sb_project_root b).
Proof.
  assert (Hb : binding ex_session (js_sessions (shared ex_created)) =
            Some (mkBinding (MkProjectId 7) (Utf8Path ex_root) 1)) by by vm_compute.
  assert (Hsteps : rtc (pool_step ex_config) ex_created ex_over).
  { unfold ex_over, to_end, ex_responded, ex_responding, ex_asking, ex_prepared.
    do 7 apply go_sound. reflexivity. }
  eexists. split; [exact Hb|].
  exact (sessions_stay_with_their_project ex_config ex_manager ex_ops ex_created ex_over ex_session
           _ ex_created_ok Hsteps Hb).
Defined.

Definition ex_options : TurnOptions := turn_options ex_config ex_session (ex_client 1) true 1 true.

Lemma turn_runs_on_verified_model_witness :
  next_call ex_prepared 1 = Some (SpawnWorker ex_options (u "fix it")) /\
  model_read_back ex_config (own 1 (log ex_prepared)) ex_session ex_model.
Proof.
  assert (Hn : next_call ex_prepared 1 = Some (SpawnWorker ex_options (u "fix it")))
    by by vm_compute.
  split; [exact Hn|]. apply next_call_inv in Hn as (st & k & Hi).
  destruct (turn_runs_on_verified_model ex_config ex_manager ex_ops ex_prepared 1 st ex_options
              (u "fix it") k ex_prepared_ok Hi) as (model & h & Hop & Hm).
  injection Hop as <- <-. by apply Hm.
Defined.

(** The run of the worker, out of the pool's log. *)
Lemma ex_worker_runs :
  exists m, runs (turn_worker ex_options (u "fix it")) (own 5 (log ex_over)) m.
Proof.
  pose proof (reachable_faithful _ _ _ _ ex_over_ok) as [Hf _].
  destruct (returned ex_over 5) as [[st a]|] eqn:E; [|by vm_compute in E].
  pose proof (Hf _ _ _ (returned_inv _ _ _ _ E)) as Ha. apply after_ret in Ha.
  assert (st = Worker ex_options (u "fix it")) as ->.
  { vm_compute in E. injection E as <- _. by vm_compute. }
  apply runs_bind in Ha as (tr & m & tr' & -> & Hm & [-> _]). exists m. by rewrite app_nil_r.
Qed.

Lemma no_request_is_parked_witness :
  exists flag, disposed ex_options (u "r1") (u "edit") (u "src/main.rs") (own 5 (log ex_over)) flag.
Proof.
  destruct ex_worker_runs as [m Hm]. exists (permission_protocol_failure (wm_safety m)).
  apply (no_request_is_parked ex_options (u "fix it") (own 5 (log ex_over)) m ex_events (Ok ex_turn)
           (u "r1") (u "edit") (u "src/main.rs") Hm).
  - assert (H : head (own 5 (log ex_over)) = Some (Ev (SdkRun (ex_client 1) (u "s1") (u "fix it"))
                  (ex_events, Ok ex_turn))) by by vm_compute.
    destruct (own 5 (log ex_over)) as [|e tr]; [done|]. injection H as ->. left.
  - right. left.
Defined.
