(* ===== verification/ProcessLocal.v ===== *)
(** * The local process runtime: data, validation, the registry
    ([vibecoder-process-local])

    What can be checked without asking the operating system: runtime tools, service
    ids, arguments and environments, relative paths, the limits of an execution; and
    the table of active processes behind the runtime's mutex, whose operations are
    each one atomic step.  [cancel_requested] is an [Arc] shared with the supervisor
    while the entry is in the table.  Then, what the runtime calls. *)
From S2P Require Import Prelude RustStr RustPath OsCalls Domain ProcessContract Program.

Definition PRODUCT_ROOT_NAME : str := u "vibecoder".
Definition PROJECTS_ROOT_NAME : str := u "projects".
Definition RUNTIME_ROOT_NAME : str := u "runtime".
Definition PROCESS_HOME_NAME : str := u "process-home".
Definition PROCESS_TMP_NAME : str := u "process-tmp".
Definition RUNTIME_SERVICES_NAME : str := u "services".
Definition INTERNAL_TEMP_PREFIX : str := u ".vibecoder-tmp-".
Definition MAX_RELATIVE_PATH_BYTES : N := 4096.
Definition MAX_PATH_COMPONENT_BYTES : N := 255.
Definition MAX_RUNTIME_TOOL_ID_BYTES : N := 64.
Definition MAX_RUNTIME_TOOLS : N := 64.
Definition MAX_RUNTIME_FIXED_ARGS : N := 32.
Definition MAX_RUNTIME_FIXED_ARG_BYTES : N := 4096.
Definition MAX_RUNTIME_SERVICE_ID_BYTES : N := 64.
Definition MAX_RUNTIME_SERVICE_ARGS : N := 128.
Definition MAX_RUNTIME_SERVICE_ARG_BYTES : N := 4096.
Definition MAX_RUNTIME_SERVICE_ENV_VARS : N := 64.
Definition MAX_RUNTIME_SERVICE_ENV_KEY_BYTES : N := 64.
Definition MAX_RUNTIME_SERVICE_ENV_VALUE_BYTES : N := 4096.
Definition MAX_ACTIVE_PROCESSES : N := 4.
Definition MAX_ACTIVE_PER_PROJECT : N := 2.
Definition MAX_PIPE_CHUNKS_PER_POLL : nat := 8.
Definition SUPERVISOR_POLL_MS : N := 10.
Definition EXIT_PIPE_DRAIN_GRACE_MS : N := 250.
(** Of the contract. *)
Definition PROCESS_TERMINATION_GRACE_MS : N := 250.

Definition process_error (code : string) : VibeCoderError := Process (u code).
Definition fails {A} (code : string) : Result A := Err (process_error code).
Arguments process_error code%_string.
Arguments fails {A} code%_string.

(** ** Text *)

Definition is_forbidden_display_char (c : char) : bool :=
  is_control c ||
  ((c =? 0x61c) || (c =? 0x200e) || (c =? 0x200f) || in_range 0x202a 0x202e c ||
   in_range 0x2066 0x2069 c).

Definition shell_names : list str :=
  [u "sh"; u "bash"; u "dash"; u "zsh"; u "fish"; u "cmd"; u "cmd.exe"; u "powershell";
   u "powershell.exe"; u "pwsh"; u "pwsh.exe"].

Definition tool_id_byte (b : N) : bool :=
  is_ascii_alphanumeric b || ((b =? 46) || (b =? 95) || (b =? 45)).

Definition validate_runtime_tool_id (tool_id : str) : Result str :=
  if bool_decide (tool_id = []) || (MAX_RUNTIME_TOOL_ID_BYTES <? blen tool_id) ||
     negb (forallb tool_id_byte (as_bytes tool_id))
  then fails "process_runtime_tool_id_invalid"
  else if bool_decide (to_ascii_lowercase tool_id ∈ shell_names) then
    fails "process_runtime_shell_tool_forbidden"
  else Ok tool_id.

Definition validate_runtime_fixed_arg (value : str) : Result unit :=
  if bool_decide (value = []) || (MAX_RUNTIME_FIXED_ARG_BYTES <? blen value) ||
     existsb is_forbidden_display_char value
  then fails "process_runtime_fixed_arg_invalid"
  else Ok tt.

Definition env_key_first (b : N) : bool := is_ascii_uppercase b || (b =? 95).
Definition env_key_rest (b : N) : bool :=
  is_ascii_uppercase b || is_ascii_digit b || (b =? 95).

(** The bytes with their index. *)
Definition env_key_bytes (bs : bytes) : bool :=
  match bs with [] => true | b :: bs => env_key_first b && forallb env_key_rest bs end.

Definition managed_env_keys : list str :=
  [u "HOME"; u "TMPDIR"; u "PATH"; u "LD_PRELOAD"; u "LD_LIBRARY_PATH"; u "NODE_OPTIONS";
   u "NODE_PATH"].

(** [u8::is_ascii_control]. *)
Definition is_ascii_control (b : N) : bool := in_range 0 31 b || (b =? 127).

Definition validate_runtime_service_env (key value : str) : Result unit :=
  if bool_decide (key = []) || (MAX_RUNTIME_SERVICE_ENV_KEY_BYTES <? blen key) ||
     negb (env_key_bytes (as_bytes key))
  then fails "process_runtime_service_env_key_invalid"
  else if bool_decide (key ∈ managed_env_keys) then
    fails "process_runtime_service_env_key_forbidden"
  else if (MAX_RUNTIME_SERVICE_ENV_VALUE_BYTES <? blen value) ||
          existsb (fun b => (b =? 0) || is_ascii_control b) (as_bytes value)
  then fails "process_runtime_service_env_value_invalid"
  else Ok tt.

Definition service_id_byte (b : N) : bool :=
  is_ascii_lowercase b || is_ascii_digit b || (b =? 45).

Definition ends_with_dash (s : str) : bool := bool_decide (last s = Some 45).

Definition validate_runtime_service_id (service_id : str) : Result str :=
  if bool_decide (service_id = []) || (MAX_RUNTIME_SERVICE_ID_BYTES <? blen service_id) ||
     negb (forallb service_id_byte (as_bytes service_id)) ||
     starts_with (u "-") service_id || ends_with_dash service_id
  then fails "process_runtime_service_id_invalid"
  else Ok service_id.

Definition validate_runtime_service_arg (value : str) : Result unit :=
  if (MAX_RUNTIME_SERVICE_ARG_BYTES <? blen value) || contains_char 0 value ||
     existsb is_control value
  then fails "process_runtime_service_arg_invalid"
  else Ok tt.

(** ** Relative paths *)

(** The component loop; [normalized] is the [PathBuf] built so far.  The text of the
    path is UTF-8, so that of a component is too. *)
Fixpoint normalize_components (normalized : str) (cs : list component) : Result str :=
  match cs with
  | [] => Ok normalized
  | CurDir :: cs => normalize_components normalized cs
  | Normal value :: cs =>
    if bool_decide (value = []) || (MAX_PATH_COMPONENT_BYTES <? blen value) ||
       starts_with INTERNAL_TEMP_PREFIX value
    then fails "process_path_component_invalid"
    else normalize_components (push_str normalized value) cs
  | ParentDir :: _ => fails "process_path_parent_forbidden"
  | RootDir :: _ => fails "process_path_absolute_forbidden"
  end.

Definition normalize_relative_path (path : os_path) (allow_root : bool) : Result os_path :=
  if is_absolute path then fails "process_path_absolute_forbidden"
  else
    let? text := ok_or (path_to_str path) (process_error "process_path_non_utf8") in
    if (MAX_RELATIVE_PATH_BYTES <? blen text) || contains_char 92 text ||
       existsb is_forbidden_display_char text
    then fails "process_path_invalid"
    else
      let? normalized := normalize_components [] (components path) in
      if bool_decide (normalized = []) && negb allow_root then fails "process_path_empty"
      else Ok (Utf8Path normalized).

(** ** Tools *)

Record RuntimeToolSpec := {
  ts_tool_id : str;
  ts_relative_path : os_path;
  ts_fixed_args : list str
}.

Fixpoint trusted_fixed_args (trusted_args fixed_args : list str) : Result (list str) :=
  match fixed_args with
  | [] => Ok trusted_args
  | value :: fixed_args =>
    if MAX_RUNTIME_FIXED_ARGS <=? len trusted_args then fails "process_runtime_fixed_arg_limit"
    else
      let? _ := validate_runtime_fixed_arg value in
      trusted_fixed_args (trusted_args ++ [value]) fixed_args
  end.

Definition with_fixed_args (tool_id : str) (relative_path : os_path) (fixed_args : list str) :
    Result RuntimeToolSpec :=
  let? tool_id := validate_runtime_tool_id tool_id in
  let? relative_path := normalize_relative_path relative_path false in
  let? fixed_args := trusted_fixed_args [] fixed_args in
  Ok {| ts_tool_id := tool_id; ts_relative_path := relative_path; ts_fixed_args := fixed_args |}.

Definition RuntimeToolSpec_new (tool_id : str) (relative_path : os_path) :
    Result RuntimeToolSpec := with_fixed_args tool_id relative_path [].

(** ** Limits of an execution; durations are milliseconds *)

Record LocalExecutionLimits := {
  el_timeout : option N;
  el_max_stdout_bytes : N;
  el_max_stderr_bytes : N
}.

Definition limits_command (options : ProcessExecutionOptions) : Result LocalExecutionLimits :=
  let? options := ProcessExecutionOptions_validate options in
  Ok {| el_timeout := Some (timeout_ms options);
        el_max_stdout_bytes := max_stdout_bytes options;
        el_max_stderr_bytes := max_stderr_bytes options |}.

Definition limits_persistent_service (max_stdout_bytes max_stderr_bytes : N) :
    Result LocalExecutionLimits :=
  if (MAX_STREAM_CAPTURE_BYTES <? max_stdout_bytes) ||
     (MAX_STREAM_CAPTURE_BYTES <? max_stderr_bytes)
  then fails "process_capture_limit_out_of_range"
  else Ok {| el_timeout := None; el_max_stdout_bytes := max_stdout_bytes;
             el_max_stderr_bytes := max_stderr_bytes |}.

(** ** The registry *)

Inductive ActiveProcessScope :=
| ScopeProject (project_id : ProjectId)
| ScopeService (service_id : str).

#[export] Instance ActiveProcessScope_eq_dec : EqDecision ActiveProcessScope.
Proof. solve_decision. Defined.

Record ActiveProcess := mkActive {
  ac_scope : ActiveProcessScope;
  ac_cancel_requested : bool
}.

#[export] Instance ProcessId_countable : Countable ProcessId.
Proof. refine (inj_countable' process_uuid MkProcessId _). by intros []. Defined.

Abbreviation ProcessRegistry := (gmap ProcessId ActiveProcess).

Definition in_scope (scope : ActiveProcessScope) (registry : ProcessRegistry) : N :=
  N.of_nat (size (filter (fun kv => ac_scope kv.2 = scope) registry)).

Definition active_count (registry : ProcessRegistry) : N := N.of_nat (size registry).

(** The check of the limits, before an id is drawn. *)
Definition scope_limit (scope : ActiveProcessScope) (registry : ProcessRegistry) :
    Result unit :=
  match scope with
  | ScopeProject _ =>
    if MAX_ACTIVE_PER_PROJECT <=? in_scope scope registry then
      fails "process_project_active_limit"
    else Ok tt
  | ScopeService _ =>
    if 0 <? in_scope scope registry then fails "process_runtime_service_already_active"
    else Ok tt
  end.

(** The loop over fresh ids; [draws] are the ids [ProcessId::new] gives. *)
Fixpoint insert_fresh (draws : list ProcessId) (scope : ActiveProcessScope)
    (registry : ProcessRegistry) : Result ProcessId * ProcessRegistry :=
  match draws with
  | [] => (fails "process_id_collision", registry)
  | process_id :: draws =>
    match registry !! process_id with
    | None => (Ok process_id, <[process_id := mkActive scope false]> registry)
    | Some _ => insert_fresh draws scope registry
    end
  end.

(** [draws] is as long as the code tries, eight. *)
Definition reserve_process (draws : list ProcessId) (scope : ActiveProcessScope)
    (registry : ProcessRegistry) : Result ProcessId * ProcessRegistry :=
  if MAX_ACTIVE_PROCESSES <=? active_count registry then
    (fails "process_active_limit", registry)
  else
    match scope_limit scope registry with
    | Err e => (Err e, registry)
    | Ok _ => insert_fresh draws scope registry
    end.

Definition release_process (process_id : ProcessId) (registry : ProcessRegistry) :
    ProcessRegistry := delete process_id registry.

Definition active_for_project (project_id : ProjectId) (registry : ProcessRegistry) : N :=
  in_scope (ScopeProject project_id) registry.

Definition active_runtime_service (service_id : str) (registry : ProcessRegistry) : Result N :=
  let? service_id := validate_runtime_service_id service_id in
  Ok (in_scope (ScopeService service_id) registry).

Definition cancel_process (process_id : ProcessId) (registry : ProcessRegistry) :
    Result unit * ProcessRegistry :=
  match registry !! process_id with
  | None => (fails "process_not_active", registry)
  | Some active => (Ok tt, <[process_id := mkActive (ac_scope active) true]> registry)
  end.

Definition cancel_requested (process_id : ProcessId) (registry : ProcessRegistry) : bool :=
  match registry !! process_id with Some active => ac_cancel_requested active | None => false end.

(** ** What the runtime calls

    Starting and supervising a process is a program ([Program.v]) over the calls
    below: the file system, the operating system's processes, signals, pipes and
    clock, the table of active processes, and the two channels of a
    [RunningProcess].  The answers are arbitrary; [registry_step] says what those of
    the table can be.  Instants are nanoseconds.

    [android] says for which platform the code is compiled; on both the branches for
    other systems are left out. *)

(** ** Processes *)

(** [std::process::Command] as the runtime fills it: program, arguments, directory and
    environment (stdin is empty, stdout and stderr are pipes), and what it does between
    [fork] and [exec]. *)
Record Command := mkCommand {
  cmd_program : str;
  cmd_args : list str;
  cmd_current_dir : str;
  cmd_env : list (str * str);
  cmd_own_group : bool;       (* setpgid(0, 0) *)
  cmd_dies_with_parent : bool (* PR_SET_PDEATHSIG, and ECHILD when the parent is gone *)
}.

(** A child that was spawned, and which of its pipes [take] finds. *)
Record Child := mkChild {
  child_pid : N;
  child_stdout : bool;
  child_stderr : bool
}.

Record ExitStatus := { es_code : option Z; es_signal : option Z }.

Inductive WaitAnswer := WaitExited (status : ExitStatus) | WaitRunning | WaitFailed.

(** [read] on a pipe that does not block; a read of no bytes is the end. *)
Inductive ReadAnswer := ReadBytes (chunk : bytes) | WouldBlock | Interrupted | ReadFailed.

Inductive SendAnswer := Sent | QueueFull | Disconnected.

Inductive Stream := Stdout | Stderr.
Inductive Signal := SIGTERM | SIGKILL.

Inductive proc_call :=
(* std::fs, and access(W_OK) == 0 *)
| FsSymlinkMetadata (path : str)
| FsCanonicalize (path : str)
| FsCreateDir (path : str) (mode : N)
| FsWritable (path : str)
(* the registry *)
| RegReserve (scope : ActiveProcessScope)
| RegRelease (process_id : ProcessId)
| RegCancelRequested (process_id : ProcessId)
(* processes *)
| CmdSpawn (command : Command)
| SetNonblocking (child : Child) (stream : Stream)
| KillGroup (pid : N) (signal : Signal)       (* kill(-pid, signal) == 0 *)
| ChildKill (child : Child)
| ChildWait (child : Child)
| ChildTryWait (child : Child)
| PipeRead (child : Child) (stream : Stream)
(* time *)
| InstantNow
| Sleep (ms : N)
(* the channels of the running process, and the thread of its supervisor *)
| TrySend (process_id : ProcessId) (event : ProcessEvent)
| SendCompletion (process_id : ProcessId) (result : Result ProcessResult)
| SpawnSupervisor (process_id : ProcessId) (child : Child) (started : N)
    (limits : LocalExecutionLimits).

Definition proc_resp (c : proc_call) : Type :=
  match c with
  | FsSymlinkMetadata _ => IoResult stat
  | FsCanonicalize _ => IoResult str
  | FsCreateDir _ _ => IoResult unit
  | FsWritable _ | RegCancelRequested _ | SetNonblocking _ _ | KillGroup _ _
  | SpawnSupervisor _ _ _ _ => bool
  | RegReserve _ => Result ProcessId
  | RegRelease _ | ChildKill _ | ChildWait _ | Sleep _ | SendCompletion _ _ => unit
  | CmdSpawn _ => option Child
  | ChildTryWait _ => WaitAnswer
  | PipeRead _ _ => ReadAnswer
  | InstantNow => N
  | TrySend _ _ => SendAnswer
  end.

Canonical Structure proc_sig : signature := Sig proc_call proc_resp.
Abbreviation pprog := (Program.program proc_sig).
Abbreviation pevent := (Program.event proc_sig).

Definition finished {A} (r : Result A) : pprog (Result A) := Ret r.
Definition failed {A} (code : string) : pprog (Result A) := Ret (fails code).
Arguments failed {A} code%_string.

(** [map_err(|_| process_error(code))]. *)
Definition or_fail {A} (code : string) (p : pprog (IoResult A)) : pprog (Result A) :=
  do r <- p; Ret (match r with Ok a => Ok a | Err _ => fails code end).
Arguments or_fail {A} code%_string p.

(** ** The registry, shared by all threads *)

Definition registry_step (s : ProcessRegistry) (c : proc_call) :
    proc_resp c -> ProcessRegistry -> Prop :=
  match c with
  | RegReserve scope => fun r s' =>
      exists draws, length draws = 8%nat /\ reserve_process draws scope s = (r, s')
  | RegRelease process_id => fun _ s' => s' = release_process process_id s
  | RegCancelRequested process_id => fun r s' => r = cancel_requested process_id s /\ s' = s
  | _ => fun _ s' => s' = s
  end.
