(* ===== verification/ProcessPrepare.v ===== *)
(** * The local process runtime: before a process is spawned

    The directories of the runtime, the resolution of tools, executables and working
    directories, and the command that is built from an authorized one or for a service
    of the application. *)
From S2P Require Import Prelude RustStr RustPath Program OsCalls Domain ProcessContract.
From S2P Require Import CommandPolicy ProcessLocal.

Definition S_IRWXU : N := 0x1C0.   (* 0o700 *)

(** ** Directories *)

Definition not_a_directory (metadata : stat) : bool := is_symlink metadata || negb (is_dir metadata).

Definition verify_no_symlink_directory (path : str) : pprog (Result unit) :=
  try metadata <- or_fail "process_directory_missing" (call_ (FsSymlinkMetadata path));
  if not_a_directory metadata then failed "process_directory_invalid" else finished (Ok tt).

Definition canonical_existing_directory (path : str) : pprog (Result str) :=
  try metadata <- or_fail "process_directory_missing" (call_ (FsSymlinkMetadata path));
  if not_a_directory metadata then failed "process_directory_invalid"
  else or_fail "process_directory_canonicalize_failed" (call_ (FsCanonicalize path)).

Definition ensure_fixed_private_directory (parent child : str) : pprog (Result str) :=
  let path := push_str parent child in
  do created <- call_ (FsCreateDir path S_IRWXU);
  match created with
  | Ok _ | Err AlreadyExists =>
    try _ <- verify_no_symlink_directory path;
    try canonical <- or_fail "process_directory_canonicalize_failed"
                       (call_ (FsCanonicalize path));
    if negb (same_path canonical path) then failed "process_fixed_directory_alias_rejected"
    else finished (Ok canonical)
  | Err _ => failed "process_directory_create_failed"
  end.

Definition verify_exact_child_directory (parent expected child : str) : pprog (Result unit) :=
  let candidate := push_str parent child in
  if negb (same_path candidate expected) then failed "process_fixed_directory_mismatch"
  else verify_no_symlink_directory expected.

Definition ensure_execution_root_separate_from_writable_home
    (app_private_root packaged_executable_root : str) : Result unit :=
  if same_path packaged_executable_root app_private_root ||
     path_starts_with packaged_executable_root app_private_root ||
     path_starts_with app_private_root packaged_executable_root
  then fails "process_executable_root_overlaps_writable_home"
  else Ok tt.

Definition is_file (s : stat) : bool := file_kind s =? S_IFREG.

(** [CString::new] fails on a path with a NUL. *)
Definition verify_android_packaged_code_directory (path : str) : pprog (Result unit) :=
  try metadata <- or_fail "process_packaged_code_root_missing" (call_ (FsSymlinkMetadata path));
  if not_a_directory metadata || contains_char 0 path then
    failed "process_packaged_code_root_invalid"
  else
    do writable <- call_ (FsWritable path);
    if writable : bool then failed "process_packaged_code_root_writable" else finished (Ok tt).

Definition verify_android_packaged_code_file (path : str) : pprog (Result unit) :=
  try metadata <- or_fail "process_packaged_code_file_missing" (call_ (FsSymlinkMetadata path));
  if is_symlink metadata || negb (is_file metadata) || contains_char 0 path then
    failed "process_packaged_code_file_invalid"
  else
    do writable <- call_ (FsWritable path);
    if writable : bool then failed "process_packaged_code_file_writable" else finished (Ok tt).

(** ** Executables *)

Definition executable_denial (metadata : stat) : option string :=
  if is_symlink metadata || negb (is_file metadata) then
    Some "process_executable_not_regular"%string
  else if negb (st_nlink metadata =? 1) then Some "process_executable_hardlink_rejected"%string
  else if N.land (st_mode metadata) 0x40 =? 0 then
    Some "process_executable_owner_execute_required"%string
  else if negb (N.land (st_mode metadata) 0x12 =? 0) then
    Some "process_executable_insecure_mode"%string
  else None.

Definition verify_executable_file (path : str) : pprog (Result unit) :=
  try metadata <- or_fail "process_executable_missing" (call_ (FsSymlinkMetadata path));
  match executable_denial metadata with
  | Some code => failed code
  | None => finished (Ok tt)
  end.

(** The loop over the components: each but the last is a directory. *)
Fixpoint descend_to_executable (invalid_code : string) (candidate : str) (cs : list component) :
    pprog (Result str) :=
  match cs with
  | [] => finished (Ok candidate)
  | Normal value :: cs =>
    let candidate := push_str candidate value in
    try _ <- match cs with
             | [] => finished (Ok tt)
             | _ => verify_no_symlink_directory candidate
             end;
    descend_to_executable invalid_code candidate cs
  | _ :: _ => failed invalid_code
  end.
Arguments descend_to_executable invalid_code%_string candidate cs.

Definition resolve_executable_beneath (root : str) (relative : os_path) (invalid_code : string) :
    pprog (Result str) :=
  try normalized <- finished (normalize_relative_path relative false);
  try candidate <- descend_to_executable invalid_code root (components normalized);
  try _ <- verify_executable_file candidate;
  finished (Ok candidate).
Arguments resolve_executable_beneath root relative invalid_code%_string.

(** The loop of [resolve_working_directory] and of the one for services. *)
Fixpoint descend_directories (current : str) (cs : list component) : pprog (Result str) :=
  match cs with
  | [] => finished (Ok current)
  | Normal name :: cs =>
    let current := push_str current name in
    try _ <- verify_no_symlink_directory current;
    descend_directories current cs
  | _ :: cs => descend_directories current cs
  end.

Definition resolve_working_directory (project_root : str) (relative : os_path) :
    pprog (Result str) :=
  try normalized <- finished (normalize_relative_path relative true);
  descend_directories project_root (components normalized).

(** ** The runtime *)

(** Its registry is the calls'. *)
Record LocalProcessRuntime := {
  app_private_root : str;
  product_root : str;
  projects_root : str;
  runtime_root : str;
  packaged_executable_root : str;
  process_home : str;
  process_tmp : str;
  runtime_services_root : str;
  runtime_tools : gmap str RuntimeToolSpec
}.

Section platform.
Context (android : bool).

Definition on_android (p : pprog (Result unit)) : pprog (Result unit) :=
  if android then p else finished (Ok tt).

Fixpoint register_tools (tools : gmap str RuntimeToolSpec) (specs : list RuntimeToolSpec) :
    Result (gmap str RuntimeToolSpec) :=
  match specs with
  | [] => Ok tools
  | spec :: specs =>
    if MAX_RUNTIME_TOOLS <=? N.of_nat (size tools) then fails "process_runtime_tool_limit"
    else
      match tools !! ts_tool_id spec with
      | None => register_tools (<[ts_tool_id spec := spec]> tools) specs
      | Some _ => fails "process_runtime_tool_duplicate"
      end
  end.

Definition initialize (app_private_dir packaged_executable_dir : str)
    (tools : list RuntimeToolSpec) : pprog (Result LocalProcessRuntime) :=
  if negb (has_root app_private_dir) then failed "process_app_private_root_not_absolute"
  else if negb (has_root packaged_executable_dir) then
    failed "process_packaged_code_root_not_absolute"
  else
    try app_private_root <- canonical_existing_directory app_private_dir;
    try packaged_executable_root <- canonical_existing_directory packaged_executable_dir;
    try _ <- finished (ensure_execution_root_separate_from_writable_home app_private_root
                         packaged_executable_root);
    try _ <- on_android (verify_android_packaged_code_directory packaged_executable_root);
    try product_root <- ensure_fixed_private_directory app_private_root PRODUCT_ROOT_NAME;
    try projects_root <- ensure_fixed_private_directory product_root PROJECTS_ROOT_NAME;
    try runtime_root <- ensure_fixed_private_directory product_root RUNTIME_ROOT_NAME;
    try process_home <- ensure_fixed_private_directory runtime_root PROCESS_HOME_NAME;
    try process_tmp <- ensure_fixed_private_directory runtime_root PROCESS_TMP_NAME;
    try runtime_services_root <-
      ensure_fixed_private_directory runtime_root RUNTIME_SERVICES_NAME;
    try tools <- finished (register_tools ∅ tools);
    finished (Ok {| app_private_root := app_private_root; product_root := product_root;
                    projects_root := projects_root; runtime_root := runtime_root;
                    packaged_executable_root := packaged_executable_root;
                    process_home := process_home; process_tmp := process_tmp;
                    runtime_services_root := runtime_services_root; runtime_tools := tools |}).

Section operations.
Context `{UuidLib} (self : LocalProcessRuntime).

Definition expected_root (id : ProjectId) : str :=
  push_str (projects_root self) (uuid_hyphenated (project_uuid id)).

Definition verify_project_root (project : ProjectRef) : pprog (Result str) :=
  try _ <- verify_no_symlink_directory (app_private_root self);
  try _ <- verify_exact_child_directory (app_private_root self) (product_root self)
             PRODUCT_ROOT_NAME;
  try _ <- verify_exact_child_directory (product_root self) (projects_root self)
             PROJECTS_ROOT_NAME;
  let expected := expected_root (pr_id project) in
  try canonical <- canonical_existing_directory expected;
  if negb (same_path canonical expected) || negb (same_path (pr_root project) canonical) then
    failed "process_project_reference_mismatch"
  else
    try _ <- verify_no_symlink_directory canonical;
    finished (Ok canonical).

Definition resolve_runtime_tool (tool_id : str) : pprog (Result (str * list str)) :=
  match runtime_tools self !! tool_id with
  | None => failed "process_runtime_tool_unregistered"
  | Some spec =>
    try _ <- verify_no_symlink_directory (packaged_executable_root self);
    try _ <- on_android (verify_android_packaged_code_directory (packaged_executable_root self));
    try executable <- resolve_executable_beneath (packaged_executable_root self)
                        (ts_relative_path spec) "process_runtime_tool_invalid";
    try _ <- on_android (verify_android_packaged_code_file executable);
    finished (Ok (executable, ts_fixed_args spec))
  end.

Definition resolve_workspace_executable (project_root : str) (relative : os_path) :
    pprog (Result str) :=
  if android then failed "process_workspace_executable_android_wx_forbidden"
  else
    try normalized <- finished (normalize_relative_path relative false);
    resolve_executable_beneath project_root normalized "process_workspace_executable_invalid".

Definition runtime_service_directory (service_id : str) : pprog (Result str) :=
  try service_id <- finished (validate_runtime_service_id service_id);
  try _ <- verify_no_symlink_directory (runtime_root self);
  try _ <- verify_exact_child_directory (runtime_root self) (runtime_services_root self)
             RUNTIME_SERVICES_NAME;
  ensure_fixed_private_directory (runtime_services_root self) service_id.

Definition runtime_service_private_directory (service_id : str) : pprog (Result str) :=
  runtime_service_directory service_id.

Definition resolve_runtime_working_directory (relative : os_path) : pprog (Result str) :=
  try normalized <- finished (normalize_relative_path relative false);
  try _ <- verify_no_symlink_directory (runtime_root self);
  try current <- descend_directories (runtime_root self) (components normalized);
  try canonical <- canonical_existing_directory current;
  if negb (same_path canonical current) || negb (path_starts_with canonical (runtime_root self))
  then failed "process_runtime_service_working_dir_invalid"
  else finished (Ok canonical).

(** ** Commands *)

Definition base_env : list (str * str) :=
  [(u "HOME", process_home self); (u "TMPDIR", process_tmp self)].

(** What is checked again right before the command is made. *)
Definition recheck (working_dir executable : str) : pprog (Result unit) :=
  try _ <- verify_no_symlink_directory working_dir;
  try _ <- verify_executable_file executable;
  try _ <- verify_no_symlink_directory (process_home self);
  verify_no_symlink_directory (process_tmp self).

Definition clean_command (executable : str) (args : list str) (working_dir : str)
    (environment : list (str * str)) : Command :=
  mkCommand executable args working_dir (base_env ++ environment) true android.

Fixpoint check_service_args (args : list str) : Result unit :=
  match args with
  | [] => Ok tt
  | arg :: args => let? _ := validate_runtime_service_arg arg in check_service_args args
  end.

Fixpoint check_service_env (seen : gset str) (environment : list (str * str)) : Result unit :=
  match environment with
  | [] => Ok tt
  | (key, value) :: environment =>
    let? _ := validate_runtime_service_env key value in
    if bool_decide (key ∈ seen) then fails "process_runtime_service_env_duplicate"
    else check_service_env ({[key]} ∪ seen) environment
  end.

Definition prepare_runtime_service_command (service_id tool_id : str) (args : list str)
    (runtime_working_dir : option os_path) (environment : list (str * str)) :
    pprog (Result Command) :=
  try service_private_dir <- runtime_service_directory service_id;
  try working_dir <- match runtime_working_dir with
                     | Some relative => resolve_runtime_working_directory relative
                     | None => finished (Ok service_private_dir)
                     end;
  try tool <- resolve_runtime_tool tool_id;
  if MAX_RUNTIME_SERVICE_ARGS <? len args then failed "process_runtime_service_arg_limit"
  else
    try _ <- finished (check_service_args args);
    if MAX_RUNTIME_SERVICE_ENV_VARS <? len environment then
      failed "process_runtime_service_env_limit"
    else
      try _ <- finished (check_service_env ∅ environment);
      try _ <- recheck working_dir tool.1;
      finished (Ok (clean_command tool.1 (tool.2 ++ args) working_dir environment)).

(** [AuthorizedCommand] is the envelope, consumed; its environment policy has one
    value. *)
Definition prepare_command (project : ProjectRef) (authorized : CommandExecutionEnvelope) :
    pprog (Result Command) :=
  if negb (bool_decide (env_project_id authorized = pr_id project)) then
    failed "process_authorization_project_mismatch"
  else
    let command := env_command authorized in
    try project_root <- verify_project_root project;
    try working_dir <- resolve_working_directory project_root (working_dir command);
    try executable <-
      match CommandPolicy.program command with
      | RuntimeTool tool_id => resolve_runtime_tool tool_id
      | WorkspaceExecutable relative_path =>
        try executable <- resolve_workspace_executable project_root relative_path;
        finished (Ok (executable, []))
      end;
    try _ <- recheck working_dir executable.1;
    finished (Ok (clean_command executable.1 (executable.2 ++ args command) working_dir [])).
End operations.
End platform.
