(* ===== verification/ProcessSupervise.v ===== *)
(** * The local process runtime: spawning and supervising

    [spawn_supervised_command] reserves a slot, spawns the child and hands it to a
    supervisor thread; [supervise_process] drains the pipes, watches for exit, cancels
    and times out.  The supervisor's loop is bounded by [fuel] polls, and is without a
    result when they are used up; [ProcessEnds.v] shows how many are enough. *)
From S2P Require Import Prelude RustStr RustPath Program OsCalls Domain ProcessContract.
From S2P Require Import CommandPolicy ProcessLocal ProcessPrepare.

Definition NS_PER_MS : N := 1000000.

(** ** Signals *)

(** [KillGroup] is [kill(-pid, signal)]. *)
Definition signal_process_group (pid : N) (signal : Signal) : pprog bool :=
  if (pid =? 0) || (0x7FFFFFFF <? pid) then Ret false else call_ (KillGroup pid signal).

Definition signal_or_kill (child : Child) (signal : Signal) : pprog unit :=
  do delivered <- signal_process_group (child_pid child) signal;
  if delivered : bool then Ret tt else call_ (ChildKill child).

Definition terminate_process_group_immediately (child : Child) : pprog unit :=
  do _ <- signal_process_group (child_pid child) SIGKILL;
  do _ <- call_ (ChildKill child);
  call_ (ChildWait child).

(** ** Capture and events *)

Record Capture := mkCapture {
  cap_bytes : bytes;
  cap_truncated : bool;
  cap_closed : bool
}.

Definition no_capture : Capture := mkCapture [] false false.

Definition append_bounded (destination : bytes) (chunk : bytes) (limit : N) (truncated : bool) :
    bytes * bool :=
  let remaining := limit - len destination in
  let keep := N.min remaining (len chunk) in
  (destination ++ take (N.to_nat keep) chunk, truncated || (keep <? len chunk)).

Definition capture_chunk (limit : N) (chunk : bytes) (cap : Capture) : Capture :=
  let (bytes, truncated) := append_bounded (cap_bytes cap) chunk limit (cap_truncated cap) in
  mkCapture bytes truncated (cap_closed cap).

Definition close (cap : Capture) : Capture :=
  mkCapture (cap_bytes cap) (cap_truncated cap) true.

Definition stream_event (stream : Stream) (chunk : bytes) : ProcessEvent :=
  match stream with Stdout => PeStdout chunk | Stderr => PeStderr chunk end.

Section supervisor.
Context (process_id : ProcessId) (child : Child) (limits : LocalExecutionLimits) (started : N).

Definition emit_event (event : ProcessEvent) (overflowed : bool) : pprog bool :=
  do sent <- call_ (TrySend process_id event);
  Ret (match sent with QueueFull => true | Sent | Disconnected => overflowed end).

(** The loop of [drain_pipe]: [chunks] turns are left. *)
Fixpoint drain_chunks (chunks : nat) (stream : Stream) (limit : N) (cap : Capture)
    (overflowed : bool) : pprog (Result (Capture * bool)) :=
  match chunks with
  | O => finished (Ok (cap, overflowed))
  | S chunks =>
    do read <- call_ (PipeRead child stream);
    match read with
    | ReadBytes [] => finished (Ok (close cap, overflowed))
    | ReadBytes chunk =>
      let cap := capture_chunk limit chunk cap in
      do overflowed <- emit_event (stream_event stream chunk) overflowed;
      drain_chunks chunks stream limit cap overflowed
    | WouldBlock => finished (Ok (cap, overflowed))
    | Interrupted => drain_chunks chunks stream limit cap overflowed
    | ReadFailed => failed "process_output_read_failed"
    end
  end.

Definition drain_pipe (stream : Stream) (limit : N) (cap : Capture) (overflowed : bool) :
    pprog (Result (Capture * bool)) :=
  if cap_closed cap then finished (Ok (cap, overflowed))
  else drain_chunks MAX_PIPE_CHUNKS_PER_POLL stream limit cap overflowed.

(** [sv_exit] is [exit_status] and [exit_seen_at], which are set together. *)
Record Supervision := mkSupervision {
  sv_stdout : Capture;
  sv_stderr : Capture;
  sv_overflowed : bool;
  sv_requested : option (ProcessTermination * N);
  sv_killed : bool;
  sv_exit : option (ExitStatus * N)
}.

Definition new_supervision : Supervision :=
  mkSupervision no_capture no_capture false None false None.

Definition with_output (out err : Capture) (overflowed : bool) (s : Supervision) : Supervision :=
  mkSupervision out err overflowed (sv_requested s) (sv_killed s) (sv_exit s).
Definition with_exit (status : ExitStatus) (now : N) (s : Supervision) : Supervision :=
  mkSupervision (sv_stdout s) (sv_stderr s) (sv_overflowed s) (sv_requested s) (sv_killed s)
    (Some (status, now)).
Definition with_request (kind : ProcessTermination) (now : N) (s : Supervision) : Supervision :=
  mkSupervision (sv_stdout s) (sv_stderr s) (sv_overflowed s) (Some (kind, now)) (sv_killed s)
    (sv_exit s).
Definition with_kill (s : Supervision) : Supervision :=
  mkSupervision (sv_stdout s) (sv_stderr s) (sv_overflowed s) (sv_requested s) true (sv_exit s).

(** Both pipes; an error terminates the group. *)
Definition terminating {A} (p : pprog (Result A)) : pprog (Result A) :=
  do r <- p;
  match r with
  | Ok a => finished (Ok a)
  | Err e => do _ <- terminate_process_group_immediately child; finished (Err e)
  end.

Definition drain_both (s : Supervision) : pprog (Result Supervision) :=
  try out <- terminating (drain_pipe Stdout (el_max_stdout_bytes limits) (sv_stdout s)
                            (sv_overflowed s));
  try err <- terminating (drain_pipe Stderr (el_max_stderr_bytes limits) (sv_stderr s) out.2);
  finished (Ok (with_output out.1 err.1 err.2 s)).

Definition observe_exit (now : N) (s : Supervision) : pprog (Result Supervision) :=
  if is_none (sv_exit s) && (is_none (sv_requested s) || sv_killed s) then
    terminating
      (do waited <- call_ (ChildTryWait child);
       match waited with
       | WaitExited status => finished (Ok (with_exit status now s))
       | WaitRunning => finished (Ok s)
       | WaitFailed => failed "process_wait_failed"
       end)
  else finished (Ok s).

Definition deadline : option N := (fun timeout => started + timeout * NS_PER_MS) <$> el_timeout limits.

Definition past_deadline (now : N) : bool :=
  match deadline with Some deadline => deadline <=? now | None => false end.

Definition request_termination (now : N) (s : Supervision) : pprog Supervision :=
  if is_none (sv_exit s) && is_none (sv_requested s) then
    do cancelled <- call_ (RegCancelRequested process_id);
    let requested :=
      if cancelled : bool then Some TermCancelled
      else if past_deadline now then Some TimedOut else None in
    match requested with
    | Some kind => do _ <- signal_or_kill child SIGTERM; Ret (with_request kind now s)
    | None => Ret s
    end
  else Ret s.

Definition escalate (now : N) (s : Supervision) : pprog Supervision :=
  match sv_requested s with
  | Some (_, requested_at) =>
    if negb (sv_killed s) && (PROCESS_TERMINATION_GRACE_MS * NS_PER_MS <=? now - requested_at) then
      do _ <- signal_or_kill child SIGKILL; Ret (with_kill s)
    else Ret s
  | None => Ret s
  end.

Definition is_over (now : N) (s : Supervision) : bool :=
  match sv_exit s with
  | Some (_, seen) =>
    (cap_closed (sv_stdout s) && cap_closed (sv_stderr s)) ||
    (EXIT_PIPE_DRAIN_GRACE_MS * NS_PER_MS <=? now - seen)
  | None => false
  end.

(** One turn of the loop; the flag is whether it breaks. *)
Definition poll (s : Supervision) : pprog (Result (Supervision * bool)) :=
  try s <- drain_both s;
  do now <- call_ InstantNow;
  try s <- observe_exit now s;
  do s <- request_termination now s;
  do s <- escalate now s;
  if is_over now s then finished (Ok (s, true))
  else
    do _ <- call_ (Sleep SUPERVISOR_POLL_MS);
    finished (Ok (s, false)).

Fixpoint supervise_loop (fuel : nat) (s : Supervision) : pprog (option (Result Supervision)) :=
  match fuel with
  | O => Ret None
  | S fuel =>
    do polled <- poll s;
    match polled with
    | Err e => Ret (Some (Err e))
    | Ok (s, true) => Ret (Some (Ok s))
    | Ok (s, false) => supervise_loop fuel s
    end
  end.

Definition classify_exit (status : ExitStatus) : ProcessTermination :=
  if is_some (es_signal status) then Signaled else Exited.

(** From the final drain on. *)
Definition conclude (s : Supervision) : pprog (Result ProcessResult) :=
  try s <- drain_both s;
  match sv_exit s with
  | None => failed "process_exit_status_missing"
  | Some (status, _) =>
    let termination :=
      match sv_requested s with Some (kind, _) => kind | None => classify_exit status end in
    let exit_code := es_code status in
    do _ <- (if sv_overflowed s then
               do _ <- call_ (TrySend process_id PeEventQueueOverflow); Ret tt
             else Ret tt);
    do overflowed <- emit_event (PeFinished process_id termination exit_code) (sv_overflowed s);
    do now <- call_ InstantNow;
    finished (Ok {| res_process_id := process_id; termination := termination;
                    exit_code := exit_code; stdout := cap_bytes (sv_stdout s);
                    stderr := cap_bytes (sv_stderr s);
                    res_stdout_truncated := cap_truncated (sv_stdout s);
                    res_stderr_truncated := cap_truncated (sv_stderr s);
                    event_queue_overflowed := overflowed;
                    duration_ms := N.min ((now - started) / NS_PER_MS) u64_max |})
  end.

Definition supervise_process (fuel : nat) : pprog (option (Result ProcessResult)) :=
  do supervised <- supervise_loop fuel new_supervision;
  match supervised with
  | None => Ret None
  | Some (Err e) => Ret (Some (Err e))
  | Some (Ok s) => do result <- conclude s; Ret (Some result)
  end.

(** The supervisor's thread. *)
Definition supervisor_thread (fuel : nat) : pprog (option unit) :=
  do result <- supervise_process fuel;
  match result with
  | None => Ret None
  | Some result =>
    do _ <- call_ (RegRelease process_id);
    do _ <- call_ (SendCompletion process_id result);
    Ret (Some tt)
  end.
End supervisor.

(** ** Spawning *)

(** What the caller gets: the channels are those of the calls. *)
Definition Running := ProcessId.

Definition abandon_child {A} (process_id : ProcessId) (child : Child) (code : string) :
    pprog (Result A) :=
  do _ <- terminate_process_group_immediately child;
  do _ <- call_ (RegRelease process_id);
  failed code.
Arguments abandon_child {A} process_id child code%_string.

Definition spawn_supervised_command (command : Command) (scope : ActiveProcessScope)
    (limits : LocalExecutionLimits) : pprog (Result Running) :=
  try process_id <- call_ (RegReserve scope);
  do spawned <- call_ (CmdSpawn command);
  match spawned with
  | None => do _ <- call_ (RegRelease process_id); failed "process_spawn_failed"
  | Some child =>
    do process_started <- call_ InstantNow;
    if negb (child_stdout child) then abandon_child process_id child "process_stdout_pipe_missing"
    else if negb (child_stderr child) then
      abandon_child process_id child "process_stderr_pipe_missing"
    else
      do out <- call_ (SetNonblocking child Stdout);
      do ready <- (if out : bool then call_ (SetNonblocking child Stderr) else Ret false);
      if negb ready then abandon_child process_id child "process_pipe_nonblocking_failed"
      else
        do _ <- call_ (TrySend process_id (PeStarted process_id));
        do supervisor <- call_ (SpawnSupervisor process_id child process_started limits);
        if negb supervisor then abandon_child process_id child "process_supervisor_start_failed"
        else finished (Ok process_id)
  end.

Section operations.
Context (android : bool) `{UuidLib} (self : LocalProcessRuntime).

Definition start (project : ProjectRef) (envelope : CommandExecutionEnvelope)
    (options : ProcessExecutionOptions) : pprog (Result Running) :=
  try limits <- finished (limits_command options);
  try command <- prepare_command android self project envelope;
  spawn_supervised_command command (ScopeProject (pr_id project)) limits.

Definition start_runtime_service (service_id tool_id : str) (args : list str)
    (options : ProcessExecutionOptions) : pprog (Result Running) :=
  try limits <- finished (limits_command options);
  try service_id <- finished (validate_runtime_service_id service_id);
  try command <- prepare_runtime_service_command android self service_id tool_id args None [];
  spawn_supervised_command command (ScopeService service_id) limits.

Definition start_persistent_runtime_service (service_id tool_id : str)
    (runtime_working_dir : os_path) (args : list str) (environment : list (str * str))
    (max_stdout_bytes max_stderr_bytes : N) : pprog (Result Running) :=
  try limits <- finished (limits_persistent_service max_stdout_bytes max_stderr_bytes);
  try service_id <- finished (validate_runtime_service_id service_id);
  try command <- prepare_runtime_service_command android self service_id tool_id args
                   (Some runtime_working_dir) environment;
  spawn_supervised_command command (ScopeService service_id) limits.
End operations.
