(* ===== verification/ProcessEnds.v ===== *)
(** * The local process runtime: supervision ends

    A command with a timeout is over in bounded time, whatever the process does, as
    long as the clock goes on and a killed process can be reaped: [clock_ok] is the
    automaton of that assumption on the answers of a run. *)
From S2P Require Import Prelude RustStr RustPath Program OsCalls Domain ProcessContract.
From S2P Require Import ProcessLocal ProcessPrepare ProcessSupervise.

(** The last instant and the time slept since, whether the child has been killed, and
    how often it may still be found running after that. *)
Record clock := mkClock {
  ck_now : N;
  ck_slept : N;
  ck_killed : bool;
  ck_left : nat
}.

(** The clock goes on by at least the time slept; a killed process is found running at
    most [ck_left] times. *)
Definition clock_ok (c : clock) (e : pevent) : bool :=
  match ev_call e as x return proc_resp x -> bool with
  | InstantNow => fun now => ck_now c + ck_slept c <=? now
  | ChildTryWait _ => fun answer =>
      match answer with
      | WaitRunning => negb (ck_killed c) || negb (ck_left c =? 0)%nat
      | _ => true
      end
  | _ => fun _ => true
  end (ev_resp e).

Definition killed (c : clock) : clock := mkClock (ck_now c) (ck_slept c) true (ck_left c).

Definition clock_next (c : clock) (e : pevent) : clock :=
  match ev_call e as x return proc_resp x -> clock with
  | InstantNow => fun now => mkClock now 0 (ck_killed c) (ck_left c)
  | Sleep ms => fun _ => mkClock (ck_now c) (ck_slept c + ms * NS_PER_MS) (ck_killed c) (ck_left c)
  | KillGroup _ SIGKILL => fun delivered => if delivered : bool then killed c else c
  | ChildKill _ => fun _ => killed c
  | ChildTryWait _ => fun answer =>
      match answer with
      | WaitRunning =>
        if ck_killed c then mkClock (ck_now c) (ck_slept c) true (pred (ck_left c)) else c
      | _ => c
      end
  | _ => fun _ => c
  end (ev_resp e).

(** From an instant on the clock goes on, and after a kill the process is found running
    at most [k] times. *)
Definition timely (from : N) (k : nat) (tr : list pevent) : Prop :=
  accepted (fun c e => clock_ok c e = true) clock_next (mkClock from 0 false k) tr.

(** ** The monitor: no state once the assumption is broken *)

Definition clock_step (c : option clock) (e : pevent) : option clock :=
  match c with
  | Some c => if clock_ok c e then Some (clock_next c e) else None
  | None => None
  end.

Lemma clock_step_timely c tr :
  accepted (fun c e => clock_ok c e = true) clock_next c tr ->
  exists c', foldl clock_step (Some c) tr = Some c'.
Proof.
  revert c. induction tr as [|e tr IH]; intros c; cbn; [by exists c|].
  intros [-> H]. by apply IH.
Qed.

Abbreviation clocked := (wp (fun _ : pevent => True) (fun _ _ => True) clock_step).

(** What is to hold while the assumption does. *)
Definition while_ok {A} (Q : clock -> A -> Prop) (c : option clock) (a : A) : Prop :=
  match c with Some c => Q c a | None => True end.

Lemma clocked_broken {A} (p : pprog A) (Q : clock -> A -> Prop) : clocked p (while_ok Q) None.
Proof. induction p as [a|c k IH]; cbn; [done|]. by split. Qed.

Lemma clocked_bind {A B} (p : pprog A) (f : A -> pprog B) (Q : clock -> B -> Prop) c :
  clocked p (while_ok (fun c a => clocked (f a) (while_ok Q) (Some c))) (Some c) ->
  clocked (bind p f) (while_ok Q) (Some c).
Proof.
  intros H. apply wp_bind. eapply wp_mono; [exact H|]. intros [c'|] a; [done|].
  intros _. apply clocked_broken.
Qed.

Lemma clocked_call call (Q : clock -> proc_resp call -> Prop) c :
  (forall r, clock_ok c (Ev call r) = true -> Q (clock_next c (Ev call r)) r) ->
  clocked (call_ call) (while_ok Q) (Some c).
Proof.
  intros H. apply wp_call_. intros r _. split; [done|]. cbn [clock_step].
  destruct (clock_ok c _) eqn:E; [by apply H|done].
Qed.

Lemma clocked_mono {A} (p : pprog A) (Q Q' : clock -> A -> Prop) c :
  clocked p (while_ok Q) c -> (forall c a, Q c a -> Q' c a) -> clocked p (while_ok Q') c.
Proof. intros H HQ. eapply wp_mono; [exact H|]. intros [c'|] a; [apply HQ|done]. Qed.

Lemma clocked_any {A} (p : pprog A) (Q : clock -> A -> Prop) c :
  (forall c a, Q c a) -> clocked p (while_ok Q) c.
Proof.
  intros HQ. revert c. induction p as [a|x k IH]; intros c; cbn; [destruct c; [apply HQ|done]|].
  split; [done|apply IH].
Qed.

Ltac ck_step :=
  lazymatch goal with
  | |- clocked (bind _ _) _ _ => apply clocked_bind
  | |- clocked (call_ _) _ _ => apply clocked_call; intros ? ?; cbn [clock_next ev_call ev_resp]
  | |- clocked (Ret _) _ _ => cbn [wp while_ok]
  | |- clocked (finished _) _ _ => cbn [wp while_ok finished]
  | |- clocked (failed _) _ _ => cbn [wp while_ok failed]
  end.

(** ** One turn of the loop *)

Section ends.
Context (process_id : ProcessId) (child : Child) (limits : LocalExecutionLimits) (started : N).
Context (timeout : N) (Htimeout : el_timeout limits = Some timeout).

Definition outputs_only (s s' : Supervision) : Prop :=
  sv_requested s' = sv_requested s /\ sv_killed s' = sv_killed s /\ sv_exit s' = sv_exit s.

Lemma clocked_emit event overflowed (Q : clock -> bool -> Prop) c :
  (forall b, Q c b) -> clocked (emit_event process_id event overflowed) (while_ok Q) (Some c).
Proof. intros H. unfold emit_event. by repeat ck_step. Qed.

Lemma clocked_chunks chunks stream limit cap overflowed (Q : clock -> _ -> Prop) c :
  (forall r, Q c r) ->
  clocked (drain_chunks process_id child chunks stream limit cap overflowed) (while_ok Q) (Some c).
Proof.
  intros HQ. revert cap overflowed. induction chunks as [|chunks IH]; intros cap overflowed;
    cbn [drain_chunks]; [apply HQ|]. ck_step. ck_step.
  destruct r as [[|b chunk]| | |]; try (apply HQ); [|by apply IH].
  ck_step. apply clocked_emit. intros ov. apply IH.
Qed.

Lemma clocked_terminating {A} (p : pprog (Result A)) (Q : clock -> Result A -> Prop) c :
  clocked p (while_ok (fun c r => match r with Ok a => Q c (Ok a) | Err _ => True end)) (Some c) ->
  (forall c e, Q c (Err e)) ->
  clocked (terminating child p) (while_ok Q) (Some c).
Proof.
  intros H He. unfold terminating. ck_step. eapply clocked_mono; [exact H|].
  intros c' [a|e]; [intros Ha; exact Ha|]. intros _. ck_step. apply clocked_any. intros c2 a. apply He.
Qed.

Lemma clocked_drain s (Q : clock -> Result Supervision -> Prop) c :
  (forall s', outputs_only s s' -> Q c (Ok s')) -> (forall c e, Q c (Err e)) ->
  clocked (drain_both process_id child limits s) (while_ok Q) (Some c).
Proof.
  intros Hok He. unfold drain_both, drain_pipe. ck_step. apply clocked_terminating; [|done].
  assert (Hone : forall stream limit cap ov (Q : clock -> _ -> Prop), (forall r, Q c r) ->
    clocked (if cap_closed cap then finished (Ok (cap, ov))
             else drain_chunks process_id child MAX_PIPE_CHUNKS_PER_POLL stream limit cap ov)
      (while_ok Q) (Some c)).
  { intros. destruct (cap_closed cap); [cbn; auto|by apply clocked_chunks]. }
  apply Hone. intros [out|e]; [|done]. ck_step. apply clocked_terminating; [|done].
  apply Hone. intros [err|e]; [|done]. by apply Hok.
Qed.

Lemma clocked_signal signal (Q : clock -> unit -> Prop) c :
  Q (killed c) tt -> (signal = SIGTERM -> Q c tt) ->
  clocked (signal_or_kill child signal) (while_ok Q) (Some c).
Proof.
  intros Hk Ht. unfold signal_or_kill, signal_process_group. ck_step.
  assert (Hkill : clocked (call_ (ChildKill child)) (while_ok Q) (Some c))
    by by apply clocked_call; intros [] _.
  destruct (_ || _); [exact Hkill|]. apply clocked_call. intros [] _; cbn [clock_next ev_call ev_resp].
  - destruct signal; [by apply Ht|exact Hk].
  - destruct signal; exact Hkill.
Qed.

(** The earliest the next instant can be. *)
Definition ahead (c : clock) : N := ck_now c + ck_slept c.

Definition P : N := SUPERVISOR_POLL_MS * NS_PER_MS.
Definition GRACE : N := 250 * NS_PER_MS.

Definition to_kill (c : clock) : N := N.of_nat (ck_left c) * P + GRACE + P.

(** The time in which the loop is over. *)
Definition need (s : Supervision) (c : clock) : N :=
  match sv_exit s with
  | Some (_, seen) => (seen + GRACE - ahead c) + P
  | None =>
    match sv_requested s with
    | Some (_, requested_at) =>
      if sv_killed s then to_kill c else (requested_at + GRACE - ahead c) + P + to_kill c
    | None =>
      (started + timeout * NS_PER_MS - ahead c) + GRACE + P + to_kill c
    end
  end.

(** A child that was not to be terminated has not been killed, one that the loop has
    killed has been. *)
Definition in_step (s : Supervision) (c : clock) : Prop :=
  (sv_requested s = None -> ck_killed c = false /\ sv_killed s = false) /\
  (sv_killed s = true -> ck_killed c = true).

Definition within (fuel : N) (s : Supervision) (c : clock) : Prop :=
  in_step s c /\ need s c <= fuel * P.

Definition after_poll (fuel : N) (c : clock) (r : Result (Supervision * bool)) : Prop :=
  match r with Ok (s, false) => within fuel s c | _ => True end.

(** What looking for an exit does to the assumption's state. *)
Definition observed (s : Supervision) (c c' : clock) : Prop :=
  (sv_killed s = false -> ck_left c' = ck_left c) /\
  (sv_exit s = None -> sv_killed s = true -> ck_left c = S (ck_left c')) /\
  (ck_left c' <= ck_left c)%nat.

Lemma still_running s c :
  in_step s c -> is_none (sv_requested s) || sv_killed s = true ->
  clock_ok c (Ev (ChildTryWait child) WaitRunning) = true ->
  observed s c (clock_next c (Ev (ChildTryWait child) WaitRunning)) /\
  ck_killed (clock_next c (Ev (ChildTryWait child) WaitRunning)) = ck_killed c.
Proof.
  intros [Hr Hk] Hs Hok. cbn in *. unfold observed. destruct (ck_killed c) eqn:Hck; cbn in *.
  - apply negb_true_iff, Nat.eqb_neq in Hok. split_and!; try done; try lia. intros Hs'.
    rewrite Hs', orb_false_r in Hs. destruct (sv_requested s); [done|].
    by destruct (Hr eq_refl).
  - split_and!; try done. intros _ Hs'. by specialize (Hk Hs').
Qed.

Lemma clocked_observe s c :
  in_step s c ->
  clocked (observe_exit child (ck_now c) s)
    (while_ok (fun c' r =>
       match r with
       | Ok s' =>
         ck_now c' = ck_now c /\ ck_slept c' = ck_slept c /\ in_step s' c' /\
         ((s' = s /\ observed s c c') \/
          (exists status, s' = with_exit status (ck_now c) s /\ sv_exit s = None /\
             ck_left c' = ck_left c))
       | Err _ => True
       end)) (Some c).
Proof.
  intros Hin. pose proof Hin as [Hr Hk]. unfold observe_exit.
  destruct (is_none (sv_exit s) && _) eqn:E.
  - apply andb_true_iff in E as [He Hs]. apply clocked_terminating; [|done]. ck_step.
    apply clocked_call. intros [status| |] Hok; cbn [clock_next ev_call ev_resp]; [| |done].
    + cbn. split_and!; try done. right. exists status. split_and!; try done. by destruct (sv_exit s).
    + destruct (still_running s c Hin Hs Hok) as [Ho Hck]. cbn [clock_next ev_call ev_resp] in *.
      cbn [wp while_ok finished]. split_and!; [by destruct (ck_killed c)..| |by left].
      split; [intros Hn; rewrite Hck; by apply Hr|rewrite Hck; exact Hk].
  - cbn. split_and!; try done. left. split; [done|]. split_and!; try done. intros He Hs.
    by rewrite He, Hs, orb_true_r in E.
Qed.

Lemma clocked_request s c (Q : clock -> Supervision -> Prop) :
  in_step s c ->
  (forall c' s', ck_now c' = ck_now c -> ck_slept c' = ck_slept c -> ck_left c' = ck_left c ->
     in_step s' c' -> sv_exit s' = sv_exit s ->
     s' = s /\ (sv_exit s = None -> sv_requested s = None -> past_deadline limits started (ck_now c) = false) \/
     (sv_exit s = None /\ sv_requested s = None /\ sv_killed s' = false /\
      exists kind, sv_requested s' = Some (kind, ck_now c)) ->
     Q c' s') ->
  clocked (request_termination process_id child limits started (ck_now c) s) (while_ok Q) (Some c).
Proof.
  intros Hin HQ. pose proof Hin as [Hr Hk]. unfold request_termination.
  destruct (is_none (sv_exit s) && is_none (sv_requested s)) eqn:E.
  - apply andb_true_iff in E as [He Hn]. destruct (sv_exit s) eqn:Hexit; [done|].
    destruct (sv_requested s) eqn:Hreq; [done|]. destruct (Hr eq_refl) as [Hck Hsk].
    ck_step. apply clocked_call. intros cancelled _. cbn [clock_next ev_call ev_resp].
    assert (Hsend : forall kind, clocked
      (do _ <- signal_or_kill child SIGTERM; Ret (with_request kind (ck_now c) s)) (while_ok Q) (Some c)).
    { intros kind. ck_step. apply clocked_signal; [|intros _]; cbn [wp while_ok]; apply HQ; try done;
        (split; cbn; [done|congruence]) || (right; split_and!; try done; by exists kind). }
    destruct cancelled; [apply Hsend|]. destruct (past_deadline _ _ _) eqn:Hp; [apply Hsend|].
    cbn. apply HQ; try done. by left.
  - cbn. apply HQ; try done. left. split; [done|]. intros He Hn. by rewrite He, Hn in E.
Qed.

Lemma clocked_escalate s c (Q : clock -> Supervision -> Prop) :
  in_step s c ->
  (forall c' s', ck_now c' = ck_now c -> ck_slept c' = ck_slept c -> ck_left c' = ck_left c ->
     in_step s' c' -> sv_exit s' = sv_exit s -> sv_requested s' = sv_requested s ->
     sv_stdout s' = sv_stdout s -> sv_stderr s' = sv_stderr s ->
     (sv_killed s' = true \/ (sv_killed s = false /\ sv_killed s' = false /\
        forall kind at_, sv_requested s = Some (kind, at_) -> ck_now c < at_ + GRACE)) ->
     Q c' s') ->
  clocked (escalate child (ck_now c) s) (while_ok Q) (Some c).
Proof.
  intros Hin HQ. pose proof Hin as [Hr Hk]. unfold escalate.
  destruct (sv_requested s) as [[kind at_]|] eqn:Hreq.
  - destruct (negb (sv_killed s) && _) eqn:E.
    + ck_step. apply clocked_signal; [|done]. cbn. apply HQ; try done; [|by left].
      split; cbn; [by rewrite Hreq|done].
    + cbn. apply HQ; try done. destruct (sv_killed s) eqn:Hs; [by left|right].
      cbn in E. apply N.leb_gt in E. split_and!; try done. intros k a [= <- <-].
      unfold GRACE, PROCESS_TERMINATION_GRACE_MS in *. lia.
  - cbn. apply HQ; try done. right. by destruct (Hr eq_refl).
Qed.

Lemma is_over_false now s status seen :
  is_over now s = false -> sv_exit s = Some (status, seen) -> now - seen < GRACE.
Proof.
  unfold is_over. intros H Hs. rewrite Hs in H. apply orb_false_iff in H as [_ H].
  apply N.leb_gt in H. exact H.
Qed.

Ltac poll_arith :=
  unfold P, GRACE, NS_PER_MS, SUPERVISOR_POLL_MS, ahead in *; cbn [ck_now ck_slept] in *; lia.

(** Every turn of the loop that does not end it brings the end closer by a poll. *)
Lemma clocked_poll fuel s c :
  within (N.of_nat (S fuel)) s c ->
  clocked (poll process_id child limits started s) (while_ok (after_poll (N.of_nat fuel))) (Some c).
Proof.
  intros [Hin Hneed]. unfold poll. ck_step. apply clocked_drain; [|done].
  intros s1 (Hreq1 & Hkill1 & Hexit1). ck_step. apply clocked_call. intros t Ht.
  cbn [clock_ok clock_next ev_call ev_resp] in *. apply N.leb_le in Ht.
  set (c1 := mkClock t 0 (ck_killed c) (ck_left c)).
  assert (Hin1 : in_step s1 c1) by (unfold in_step in *; rewrite Hreq1, Hkill1; exact Hin).
  assert (Hneed1 : need s c = need s1 c) by (unfold need; by rewrite Hreq1, Hkill1, Hexit1).
  ck_step. change t with (ck_now c1).
  eapply clocked_mono; [by apply clocked_observe|]. intros c2 [s2|e]; [|done].
  intros (Hnow2 & Hslept2 & Hin2 & Hcase2). cbn [ck_now c1] in Hnow2. ck_step.
  change (ck_now c1) with t. rewrite <-Hnow2.
  apply clocked_request; [done|]. intros c3 s3 Hnow3 Hslept3 Hleft3 Hin3 Hexit3 Hcase3. ck_step.
  rewrite <-Hnow3. apply clocked_escalate; [done|].
  intros c4 s4 Hnow4 Hslept4 Hleft4 Hin4 Hexit4 Hreq4 _ _ Hcase4.
  destruct (is_over (ck_now c3) s4) eqn:Hover; [done|]. ck_step. apply clocked_call. intros r _.
  cbn [clock_next ev_call ev_resp wp while_ok finished after_poll]. split; [exact Hin4|].
  assert (Hover' : forall status seen, sv_exit s4 = Some (status, seen) -> t - seen < GRACE).
  { intros status seen Hs. rewrite <-Hnow2, <-Hnow3. by eapply is_over_false. }
  rewrite Hneed1 in Hneed. unfold need, to_kill, ahead in Hneed |- *.
  cbn [ck_now ck_slept ck_left]. rewrite Hslept4, Hslept3, Hslept2, Hnow4, Hnow3, Hnow2.
  cbn [ck_slept c1]. rewrite Hexit4, Hreq4.
  change (SUPERVISOR_POLL_MS * NS_PER_MS) with P in *.
  assert (Hs : sv_killed s1 = false -> ck_left c4 = ck_left c).
  { intros Hs. rewrite Hleft4, Hleft3. destruct Hcase2 as [[-> (Ho & _)]|(st & -> & _ & ->)]; [|done].
    by apply Ho. }
  destruct Hcase2 as [[-> (_ & Ho & _)]|(status & -> & Hnone & _)].
  - destruct Hcase3 as [[-> Hdead]|(He & Hn & Hk3 & kind & Hq)].
    + destruct (sv_exit s1) as [[status seen]|] eqn:He.
      { specialize (Hover' _ _ Hexit4). poll_arith. }
      destruct (sv_requested s1) as [[kind at_]|] eqn:Hq.
      * destruct (sv_killed s1) eqn:Hk.
        { destruct Hcase4 as [->|(? & _)]; [|done]. specialize (Ho eq_refl eq_refl).
          cbn [ck_left c1] in Ho. rewrite Hleft4, Hleft3. poll_arith. }
        specialize (Hs eq_refl). destruct Hcase4 as [->|(_ & -> & Hlt)]; [poll_arith|].
        specialize (Hlt _ _ eq_refl). poll_arith.
      * destruct Hin1 as [Hin1 _]. destruct (Hin1 Hq) as [_ Hk]. specialize (Hs Hk).
        specialize (Hdead eq_refl eq_refl). unfold past_deadline, deadline in Hdead.
        rewrite Htimeout in Hdead. apply N.leb_gt in Hdead. poll_arith.
    + rewrite Hexit3, He, Hq in *. destruct Hin1 as [Hin1 _]. destruct (Hin1 Hn) as [_ Hk].
      specialize (Hs Hk). rewrite Hn in Hneed. cbn iota in *.
      destruct Hcase4 as [->|(_ & -> & Hlt)]; poll_arith.
  - cbn [sv_exit with_exit] in *. destruct Hcase3 as [[-> _]|(? & _)]; [|done].
    cbn [sv_exit with_exit ck_now c1] in *. rewrite Hnone in Hneed. cbn iota in *.
    destruct (sv_requested s1) as [[kind at_]|]; [destruct (sv_killed s1)|]; poll_arith.
Qed.

Lemma clocked_loop fuel s c :
  in_step s c -> need s c <= N.of_nat fuel * P ->
  clocked (supervise_loop process_id child limits started fuel s)
    (while_ok (fun _ r => is_some r = true)) (Some c).
Proof.
  revert s c. induction fuel as [|fuel IH]; intros s c Hin Hneed.
  - exfalso. revert Hneed. unfold need, to_kill.
    destruct (sv_exit s) as [[? ?]|]; [|destruct (sv_requested s) as [[? ?]|]; [destruct (sv_killed s)|]];
      poll_arith.
  - cbn [supervise_loop]. ck_step. eapply clocked_mono; [by apply clocked_poll|].
    intros c' [[s' []]|e]; cbn [after_poll]; [done| |done]. intros [? ?]. by apply IH.
Qed.

(** C16. Supervision of a command ends.  Whatever the process writes, ignores or leaves
    behind, whenever it is cancelled and whatever any call answers, as long as the
    clock goes on and the process, once killed, is found running at most [k] more
    times: within the timeout, twice 250 ms and [k] + 2 polls of 10 ms, the process has
    a result and is supervised no longer. *)
Theorem supervision_ends fuel k tr r :
  runs (supervise_process process_id child limits started fuel) tr r ->
  timely started k tr ->
  timeout + 250 + 250 + 10 * (N.of_nat k + 2) <= 10 * N.of_nat fuel ->
  exists result, r = Some result.
Proof.
  intros Hrun Htime Hfuel.
  assert (Hw : clocked (supervise_process process_id child limits started fuel)
            (while_ok (fun _ r => is_some r = true)) (Some (mkClock started 0 false k))).
  { unfold supervise_process. ck_step. eapply clocked_mono.
    - apply clocked_loop; [done|]. unfold need, to_kill, ahead. cbn. poll_arith.
    - intros c [[s|e]|]; [|done..]. intros _. ck_step. by apply clocked_any. }
  apply (wp_sound _ _ _ _ _ _ _ _ Hw) in Hrun as [_ HQ]; [|by apply Forall_true].
  destruct (clock_step_timely _ _ Htime) as [c' Hc']. rewrite Hc' in HQ. cbn in HQ.
  destruct r as [result|]; [by exists result|done].
Qed.
End ends.
