(* ===== verification/ProcessSafety.v ===== *)
(** * The local process runtime: slots, processes and results

    The table of active processes never holds more than its limits allow, and a slot of
    it is given back exactly when its process is gone: by [spawn_supervised_command]
    when it fails, and otherwise by the supervisor that it has started, after the child
    was waited for.  The result it sends is read against the calls of its run: the bytes
    that were read, the exit that was observed, the requests to end the process. *)
From S2P Require Import Prelude RustStr RustPath Program OsCalls Domain ProcessContract.
From S2P Require Import ProcessLocal ProcessPrepare ProcessSupervise.

(** ** The table of active processes *)

(** What is done to the table over time, by any thread. *)
Inductive registry_change : ProcessRegistry -> ProcessRegistry -> Prop :=
| change_call s (c : proc_call) (r : proc_resp c) s' : registry_step s c r s' -> registry_change s s'
| change_cancel s process_id r s' :
    cancel_process process_id s = (r, s') -> registry_change s s'.

Record registry_ok (s : ProcessRegistry) : Prop := {
  rk_all : active_count s <= MAX_ACTIVE_PROCESSES;
  rk_project : forall project_id, active_for_project project_id s <= MAX_ACTIVE_PER_PROJECT;
  rk_service : forall service_id, in_scope (ScopeService service_id) s <= 1
}.

Lemma in_scope_insert_fresh scope id a (s : ProcessRegistry) :
  s !! id = None ->
  in_scope scope (<[id := a]> s) =
    (if bool_decide (ac_scope a = scope) then 1 else 0) + in_scope scope s.
Proof.
  intros Hs. unfold in_scope. case_bool_decide as E.
  - rewrite map_filter_insert_True by done.
    rewrite map_size_insert_None by (rewrite map_lookup_filter, Hs; done). lia.
  - rewrite map_filter_insert_False by done. by rewrite delete_id.
Qed.

Lemma in_scope_delete scope process_id (s : ProcessRegistry) :
  in_scope scope (delete process_id s) <= in_scope scope s.
Proof.
  unfold in_scope. rewrite map_filter_delete, map_size_delete.
  destruct (_ !! _); unfold id; lia.
Qed.

(** A cancelled process stays in its scope. *)
Lemma in_scope_cancel scope id a (s : ProcessRegistry) :
  s !! id = Some a -> in_scope scope (<[id := mkActive (ac_scope a) true]> s) = in_scope scope s.
Proof.
  intros Hs. rewrite <-(insert_id s id a Hs) at 2. rewrite <-!(insert_delete_eq s id).
  rewrite !in_scope_insert_fresh by apply lookup_delete_eq. done.
Qed.

Lemma insert_fresh_cases draws scope s r s' :
  insert_fresh draws scope s = (r, s') ->
  (exists id, r = Ok id /\ id ∈ draws /\ s !! id = None /\
     s' = <[id := mkActive scope false]> s) \/
  (r = fails "process_id_collision" /\ s' = s /\ Forall (fun id => is_Some (s !! id)) draws).
Proof.
  induction draws as [|id draws IH]; cbn; [intros [= <- <-]; by right|].
  destruct (s !! id) as [a|] eqn:E.
  - intros [(x & ? & ? & ?)|(? & ? & ?)]%IH; [left; exists x|right]; rewrite ?elem_of_cons; auto.
  - intros [= <- <-]. left. exists id. by rewrite elem_of_cons; auto.
Qed.

(** A reservation is granted when there is room and one of the ids drawn is new. *)
Definition room (scope : ActiveProcessScope) (s : ProcessRegistry) : Prop :=
  active_count s < MAX_ACTIVE_PROCESSES /\
  match scope with
  | ScopeProject project_id => active_for_project project_id s < MAX_ACTIVE_PER_PROJECT
  | ScopeService _ => in_scope scope s = 0
  end.

Lemma scope_limit_ok scope s u :
  scope_limit scope s = Ok u <->
  u = tt /\ match scope with
            | ScopeProject project_id => active_for_project project_id s < MAX_ACTIVE_PER_PROJECT
            | ScopeService _ => in_scope scope s = 0
            end.
Proof.
  destruct u. unfold active_for_project. destruct scope as [p|v]; cbn [scope_limit].
  - destruct (_ <=? _) eqn:E; [apply N.leb_le in E|apply N.leb_gt in E];
      (split; [try done|intros [_ H]]); try done; lia.
  - destruct (_ <? _) eqn:E; [apply N.ltb_lt in E|apply N.ltb_ge in E];
      (split; [try done|intros [_ H]]); try done; try lia. intros _. split; [done|lia].
Qed.

Lemma reserve_cases draws scope s r s' :
  reserve_process draws scope s = (r, s') ->
  (exists id, r = Ok id /\ room scope s /\ id ∈ draws /\ s !! id = None /\
     s' = <[id := mkActive scope false]> s) \/
  (exists e, r = Err e /\ s' = s /\
     (room scope s -> Forall (fun id => is_Some (s !! id)) draws)).
Proof.
  unfold reserve_process, room. destruct (_ <=? _) eqn:E.
  { intros [= <- <-]. right. eexists. split_and!; [done..|]. apply N.leb_le in E. lia. }
  apply N.leb_gt in E. destruct (scope_limit scope s) as [[]|e] eqn:Hl.
  - apply scope_limit_ok in Hl as [_ Hl].
    intros [(id & ? & ? & ? & ?)|(-> & ? & ?)]%insert_fresh_cases; [left|right].
    + by exists id.
    + eexists. by split_and!.
  - intros [= <- <-]. right. exists e. split_and!; [done..|]. intros [_ Hr].
    assert (scope_limit scope s = Ok tt) as Hl' by by apply scope_limit_ok. congruence.
Qed.

Lemma registry_ok_empty : registry_ok ∅.
Proof. split; vm_compute; done. Qed.

Lemma registry_ok_insert scope id s :
  registry_ok s -> room scope s -> s !! id = None ->
  registry_ok (<[id := mkActive scope false]> s).
Proof.
  intros [Ha Hp Hv] [Hn Hr] Hs. split.
  - unfold active_count in *. rewrite map_size_insert_None by done. lia.
  - intros p. unfold active_for_project in *. rewrite in_scope_insert_fresh by done. cbn [ac_scope].
    specialize (Hp p). case_bool_decide as E; [subst scope|]; lia.
  - intros v. rewrite in_scope_insert_fresh by done. cbn [ac_scope]. specialize (Hv v).
    case_bool_decide as E; [subst scope|]; lia.
Qed.

Lemma registry_ok_change s s' : registry_change s s' -> registry_ok s -> registry_ok s'.
Proof.
  intros [s1 c r s2 H|s1 process_id r s2 H] Hok.
  - destruct c; cbn in H; try (by subst).
    + destruct H as (draws & _ & [(id & _ & ? & _ & ? & ->)|(e & _ & -> & _)]%reserve_cases); [|done].
      by apply registry_ok_insert.
    + subst. destruct Hok as [Ha Hp Hv]. unfold release_process. split.
      * unfold active_count in *. rewrite map_size_delete.
        destruct (_ !! _); unfold id; lia.
      * intros p. etransitivity; [apply in_scope_delete|exact (Hp p)].
      * intros v. etransitivity; [apply in_scope_delete|exact (Hv v)].
    + by destruct H as [_ ->].
  - unfold cancel_process in H.
    destruct (s1 !! process_id) as [a|] eqn:E; injection H as <- <-; [|done].
    destruct Hok as [Ha Hp Hv]. split.
    + unfold active_count in *. rewrite map_size_insert, E. exact Ha.
    + intros p. unfold active_for_project. rewrite in_scope_cancel by done. apply Hp.
    + intros v. rewrite in_scope_cancel by done. apply Hv.
Qed.

(** C26. The limits on active processes are kept.  However reservations, releases and
    cancellations of any number of threads follow each other, at most four processes
    are active, two in one project and one for a service; a reservation is granted
    exactly when that leaves room for one more and one of the eight ids drawn is new,
    the new entry is all it changes, and a refused one changes nothing. *)
Theorem active_limits s :
  rtc registry_change ∅ s ->
  active_count s <= 4 /\
  (forall project_id, active_for_project project_id s <= 2) /\
  (forall service_id, in_scope (ScopeService service_id) s <= 1) /\
  forall draws scope r s', reserve_process draws scope s = (r, s') ->
    (is_ok r = true <-> room scope s /\ exists id, id ∈ draws /\ s !! id = None) /\
    match r with
    | Ok id => s !! id = None /\ s' = <[id := mkActive scope false]> s
    | Err _ => s' = s
    end.
Proof.
  intros Hs. assert (Hok : registry_ok s).
  { generalize registry_ok_empty. induction Hs as [|s1 s2 s3 H _ IH]; [done|].
    intros ?. apply IH. by eapply registry_ok_change. }
  destruct Hok as [Ha Hp Hv]. split_and!; [exact Ha|exact Hp|exact Hv|].
  intros draws scope r s' [(id & -> & Hr & Hd & Hn & ->)|(e & -> & -> & Hr)]%reserve_cases;
    (split; [|done]); [split; [|done]; by eauto|].
  split; [done|]. intros [Hroom (id & Hd & Hn)]. specialize (Hr Hroom).
  rewrite Forall_forall in Hr. destruct (Hr id Hd) as [? ?]. congruence.
Qed.

(** ** Slots and processes *)

(** The child was waited for, or seen to have exited. *)
Definition reaped (child : Child) (tr : list pevent) : Prop :=
  Ev (ChildWait child) tt ∈ tr \/ exists status, Ev (ChildTryWait child) (WaitExited status) ∈ tr.

Lemma reaped_app child tr tr' :
  reaped child tr \/ reaped child tr' -> reaped child (tr ++ tr').
Proof. unfold reaped. setoid_rewrite elem_of_app. naive_solver. Qed.

(** Calls that leave the slots, the channel of the result and the set of children as
    they are. *)
Definition keeps_slot (c : proc_call) : bool :=
  match c with
  | RegReserve _ | RegRelease _ | SendCompletion _ _ | CmdSpawn _ | SpawnSupervisor _ _ _ _ => false
  | _ => true
  end.

Section supervisor.
Context (process_id : ProcessId) (child : Child) (limits : LocalExecutionLimits) (started : N).

Lemma keeps_slot_chunks chunks stream limit cap overflowed :
  calls_only keeps_slot (drain_chunks process_id child chunks stream limit cap overflowed).
Proof.
  revert cap overflowed. induction chunks as [|chunks IH]; intros cap overflowed;
    cbn [drain_chunks]; calls_solve.
Qed.
Hint Resolve keeps_slot_chunks : calls.

Lemma keeps_slot_terminating {A} (p : pprog (Result A)) :
  calls_only keeps_slot p -> calls_only keeps_slot (terminating child p).
Proof. intros H. unfold terminating. apply calls_only_bind; [done|]. intros r. calls_solve. Qed.

Lemma keeps_slot_drain s : calls_only keeps_slot (drain_both process_id child limits s).
Proof.
  unfold drain_both, drain_pipe.
  repeat first [apply keeps_slot_terminating|calls_step].
Qed.
Hint Resolve keeps_slot_drain : calls.

Lemma keeps_slot_poll s : calls_only keeps_slot (poll process_id child limits started s).
Proof.
  unfold poll, observe_exit.
  repeat first [apply keeps_slot_terminating|calls_step].
Qed.
Hint Resolve keeps_slot_poll : calls.

Lemma keeps_slot_supervise fuel :
  calls_only keeps_slot (supervise_process process_id child limits started fuel).
Proof.
  assert (Hloop : forall s, calls_only keeps_slot (supervise_loop process_id child limits started fuel s)).
  { induction fuel as [|fuel IH]; intros s; cbn [supervise_loop]; calls_solve. }
  unfold supervise_process. calls_solve.
Qed.

Lemma terminating_runs {A} (p : pprog (Result A)) tr r :
  runs (terminating child p) tr r ->
  match r with Ok a => runs p tr (Ok a) | Err _ => reaped child tr end.
Proof.
  unfold terminating. intros (tr1 & [a|e] & tr2 & -> & Hp & H)%runs_bind.
  - destruct H as [-> ->]. by rewrite app_nil_r.
  - apply runs_bind in H as (tr3 & [] & tr4 & -> & H & [-> ->]). rewrite app_nil_r.
    apply reaped_app. right. unfold terminate_process_group_immediately in H.
    apply runs_bind in H as (tr5 & b & tr6 & -> & _ & H). apply reaped_app. right.
    apply runs_bind in H as (tr7 & [] & tr8 & -> & _ & H). apply reaped_app. right.
    apply (runs_call_ (ChildWait child)) in H as ->. left. by left.
Qed.

Lemma drain_both_end s tr r :
  runs (drain_both process_id child limits s) tr r ->
  match r with Ok s' => sv_exit s' = sv_exit s | Err _ => reaped child tr end.
Proof.
  unfold drain_both. intros (tr1 & [out|e] & tr2 & -> & H1%terminating_runs & H)%runs_bind;
    [|by destruct H as [-> ->]; apply reaped_app; left].
  apply runs_bind in H as (tr3 & [err|e] & tr4 & -> & H3%terminating_runs & H);
    destruct H as [-> ->]; [done|]. apply reaped_app. right. apply reaped_app. by left.
Qed.

(** A child whose exit is recorded was seen to exit. *)
Definition exit_known (s : Supervision) (tr : list pevent) : Prop :=
  sv_exit s <> None -> reaped child tr.

Lemma observe_end now s tr r :
  runs (observe_exit child now s) tr r ->
  match r with
  | Ok s' => sv_exit s' = sv_exit s \/ reaped child tr
  | Err _ => reaped child tr
  end.
Proof.
  unfold observe_exit. destruct (_ && _); [|intros [-> ->]; by left].
  intros H%terminating_runs. destruct r as [s'|e]; [|done].
  apply runs_bind in H as (tr1 & [status| |] & tr2 & -> & ->%(runs_call_ (ChildTryWait child)) & H);
    destruct H as [-> [= ->]]; [|by left]. right. right. exists status. by left.
Qed.

Lemma request_end now s tr s' :
  runs (request_termination process_id child limits started now s) tr s' -> sv_exit s' = sv_exit s.
Proof.
  unfold request_termination. destruct (_ && _); [|by intros [-> ->]].
  intros (cancelled & tr' & -> & H)%runs_call. cbn [bind] in H.
  destruct cancelled; [|destruct (past_deadline _ _ _); [|by destruct H as [_ ->]]];
    by apply runs_bind in H as (tr1 & [] & tr2 & -> & _ & [_ ->]).
Qed.

Lemma escalate_end now s tr s' :
  runs (escalate child now s) tr s' -> sv_exit s' = sv_exit s.
Proof.
  unfold escalate. destruct (sv_requested s) as [[kind at_]|]; [|by intros [_ ->]].
  destruct (_ && _); [|by intros [_ ->]]. by intros (tr1 & [] & tr2 & -> & _ & [_ ->])%runs_bind.
Qed.

Lemma poll_end s tr r :
  runs (poll process_id child limits started s) tr r ->
  match r with
  | Ok (s', over) => (sv_exit s' = sv_exit s \/ reaped child tr) /\ (over = true -> sv_exit s' <> None)
  | Err _ => reaped child tr
  end.
Proof.
  unfold poll. intros (tr1 & [s1|e] & tr2 & -> & H1%drain_both_end & H)%runs_bind;
    [|by destruct H as [-> ->]; apply reaped_app; left].
  apply runs_bind in H as (tr3 & now & tr4 & -> & _ & H).
  apply runs_bind in H as (tr5 & [s2|e] & tr6 & -> & H5%observe_end & H);
    [|by destruct H as [-> ->]; rewrite app_nil_r, !app_assoc; apply reaped_app; right].
  apply runs_bind in H as (tr7 & s3 & tr8 & -> & H7%request_end & H).
  apply runs_bind in H as (tr9 & s4 & tr10 & -> & H9%escalate_end & H).
  assert (Hx : sv_exit s4 = sv_exit s \/ reaped child (tr1 ++ tr3 ++ tr5 ++ tr7 ++ tr9 ++ tr10)).
  { rewrite H9, H7. destruct H5 as [->|H5]; [by left|right]. rewrite !app_assoc.
    do 3 (apply reaped_app; left). apply reaped_app. by right. }
  destruct (is_over now s4) eqn:Hover; [|apply runs_bind in H as (tr11 & [] & tr12 & -> & _ & H)];
    destruct H as [-> ->]; (split; [exact Hx|]); [|done].
  intros _. unfold is_over in Hover. by destruct (sv_exit s4).
Qed.

Lemma loop_end fuel s tr r :
  runs (supervise_loop process_id child limits started fuel s) tr (Some r) ->
  match r with
  | Ok s' => sv_exit s' <> None /\ (sv_exit s = None -> reaped child tr)
  | Err _ => reaped child tr
  end.
Proof.
  revert s tr. induction fuel as [|fuel IH]; intros s tr; cbn [supervise_loop]; [by intros [_ [=]]|].
  intros (tr1 & [[s1 []]|e] & tr2 & -> & H1%poll_end & H)%runs_bind.
  - destruct H as [-> [= ->]]. destruct H1 as [Hx Hover]. specialize (Hover eq_refl).
    split; [done|]. intros Hs. apply reaped_app. left. destruct Hx as [Hx|Hx]; [congruence|done].
  - destruct H1 as [Hx _]. specialize (IH _ _ H). destruct r as [s'|e]; [|by apply reaped_app; right].
    destruct IH as [IHx IHs]. split; [done|]. intros Hs. apply reaped_app.
    destruct Hx as [Hx|Hx]; [right; apply IHs; congruence|by left].
  - destruct H as [-> [= ->]]. apply reaped_app. by left.
Qed.

Lemma supervise_end fuel tr r :
  runs (supervise_process process_id child limits started fuel) tr (Some r) -> reaped child tr.
Proof.
  unfold supervise_process.
  intros (tr1 & [[s|e]|] & tr2 & -> & H1 & H)%runs_bind; [|apply loop_end in H1; apply reaped_app; by left|
    by destruct H as [_ [=]]].
  apply loop_end in H1 as [_ H1]. apply reaped_app. left. by apply H1.
Qed.

Lemma supervisor_end fuel tr :
  runs (supervisor_thread process_id child limits started fuel) tr (Some tt) ->
  exists tr' result,
    tr = tr' ++ [Ev (RegRelease process_id) tt; Ev (SendCompletion process_id result) tt] /\
    reaped child tr' /\ Forall (fun e => keeps_slot (ev_call e) = true) tr'.
Proof.
  unfold supervisor_thread.
  intros (tr1 & [result|] & tr2 & -> & H1 & H)%runs_bind; [|by destruct H as [_ [=]]].
  apply runs_bind in H as (tr3 & [] & tr4 & -> & ->%(runs_call_ (RegRelease process_id)) & H).
  apply runs_bind in H as
    (tr5 & [] & tr6 & -> & ->%(runs_call_ (SendCompletion process_id result)) & [-> _]).
  exists tr1, result. split_and!; [done|by eapply supervise_end|].
  exact (calls_only_runs _ _ _ _ (keeps_slot_supervise fuel) H1).
Qed.
End supervisor.

(** No supervisor comes from it. *)
Definition no_supervisor (process_id : ProcessId) (child : Child) (e : pevent) : Prop :=
  keeps_slot (ev_call e) = true \/
  exists started limits, e = Ev (SpawnSupervisor process_id child started limits) false.

(** What failed to start: no slot was given, or it was given back at the end, no
    supervisor runs, and a child that had been spawned was killed and waited for. *)
Inductive not_started (scope : ActiveProcessScope) (command : Command) : list pevent -> Prop :=
| no_slot e : not_started scope command [Ev (RegReserve scope) (Err e)]
| no_child process_id :
    not_started scope command
      [Ev (RegReserve scope) (Ok process_id); Ev (CmdSpawn command) None;
       Ev (RegRelease process_id) tt]
| child_gone process_id child tr :
    Ev (ChildKill child) tt ∈ tr -> Ev (ChildWait child) tt ∈ tr ->
    Forall (no_supervisor process_id child) tr ->
    not_started scope command
      (Ev (RegReserve scope) (Ok process_id) :: Ev (CmdSpawn command) (Some child) ::
       tr ++ [Ev (RegRelease process_id) tt]).

Lemma abandon_runs {A} process_id child code tr (r : Result A) :
  runs (abandon_child process_id child code) tr r ->
  r = fails code /\ exists tr', tr = tr' ++ [Ev (RegRelease process_id) tt] /\
    Ev (ChildKill child) tt ∈ tr' /\ Ev (ChildWait child) tt ∈ tr' /\
    Forall (fun e => keeps_slot (ev_call e) = true) tr'.
Proof.
  unfold abandon_child. intros (tr1 & [] & tr2 & -> & H1 & H)%runs_bind.
  apply runs_bind in H as (tr3 & [] & tr4 & -> & ->%(runs_call_ (RegRelease process_id)) & [-> ->]).
  split; [done|]. exists tr1. split; [done|].
  assert (Hk : calls_only keeps_slot (terminate_process_group_immediately child)) by calls_solve.
  pose proof (calls_only_runs _ _ _ _ Hk H1) as Hkeeps. clear Hk.
  apply runs_bind in H1 as (tr5 & b & tr6 & -> & _ & H).
  apply runs_bind in H as (tr7 & [] & tr8 & -> & ->%(runs_call_ (ChildKill child)) & H).
  apply (runs_call_ (ChildWait child)) in H as ->. rewrite !elem_of_app. split_and!; [| |done];
    right; [left|right]; by left.
Qed.

(** How a spawn ends: with an active process and its supervisor, or with nothing. *)
Definition spawn_end (command : Command) (scope : ActiveProcessScope)
    (limits : LocalExecutionLimits) (tr : list pevent) (r : Result Running) : Prop :=
  match r with
  | Ok process_id => exists child started tr',
      tr = Ev (RegReserve scope) (Ok process_id) :: Ev (CmdSpawn command) (Some child) ::
           tr' ++ [Ev (SpawnSupervisor process_id child started limits) true] /\
      Forall (fun e => keeps_slot (ev_call e) = true) tr'
  | Err _ => not_started scope command tr
  end.

Lemma spawn_gave_up process_id child scope command limits code pre tr (r : Result Running) :
  runs (abandon_child process_id child code) tr r ->
  Forall (no_supervisor process_id child) pre ->
  spawn_end command scope limits
    (Ev (RegReserve scope) (Ok process_id) :: Ev (CmdSpawn command) (Some child) :: pre ++ tr) r.
Proof.
  intros (-> & tr' & -> & Hk & Hw & Hf)%abandon_runs Hpre. rewrite app_assoc.
  constructor; rewrite ?elem_of_app; auto. apply Forall_app. split; [done|].
  eapply Forall_impl; [exact Hf|]. unfold no_supervisor. auto.
Qed.

Lemma spawn_runs command scope limits tr r :
  runs (spawn_supervised_command command scope limits) tr r ->
  spawn_end command scope limits tr r.
Proof.
  unfold spawn_supervised_command.
  intros ([process_id|e] & tr1 & -> & H)%runs_call; cbn [bind] in H; [|destruct H as [-> ->]; constructor].
  destruct H as ([child|] & tr2 & -> & H); cbn [bind] in H;
    [|destruct H as ([] & tr3 & -> & H); cbn [bind] in H; destruct H as [-> ->]; constructor].
  destruct H as (started & tr3 & -> & H); cbn [bind] in H.
  pose proof (spawn_gave_up process_id child scope command limits) as Hgone.
  assert (H0 : forall e, keeps_slot (ev_call e) = true -> no_supervisor process_id child e) by by left.
  assert (Hnow : keeps_slot (ev_call (G := proc_sig) (Ev InstantNow started)) = true) by done.
  set (now := Ev _ started) in *. clearbody now.
  destruct (child_stdout child); cbn [negb] in H; [|by eapply (Hgone _ [now]); [exact H|auto]].
  destruct (child_stderr child); cbn [negb] in H; [|by eapply (Hgone _ [now]); [exact H|auto]].
  destruct H as (out & tr4 & -> & H); cbn [bind] in H.
  apply runs_bind in H as (tr5 & ready & tr6 & -> & H5 & H).
  assert (Hset : Forall (fun e => keeps_slot (ev_call e) = true) (now :: Ev (SetNonblocking child Stdout) out :: tr5)).
  { constructor; [done|]. constructor; [done|]. eapply (calls_only_runs keeps_slot _ _ _ _ H5).
    Unshelve. calls_solve. }
  clear H5 Hnow. set (set_ := now :: _ :: tr5) in *.
  assert (Hset' : Forall (no_supervisor process_id child) set_) by (eapply Forall_impl; eauto).
  change (now :: _ :: tr5 ++ tr6) with (set_ ++ tr6). clearbody set_.
  destruct ready; cbn [negb] in H; [|by eapply Hgone].
  destruct H as (sent & tr7 & -> & H); cbn [bind] in H.
  destruct H as ([] & tr8 & -> & H); cbn [bind] in H.
  - destruct H as [-> ->]. exists child, started, (set_ ++ [Ev (TrySend process_id (PeStarted process_id)) sent]).
    rewrite <-app_assoc. split; [done|]. apply Forall_app. by split; [|constructor].
  - replace (set_ ++ _ :: _ :: tr8) with ((set_ ++ [Ev (TrySend process_id (PeStarted process_id)) sent;
      Ev (SpawnSupervisor process_id child started limits) false]) ++ tr8) by by rewrite <-app_assoc.
    eapply Hgone; [exact H|]. apply Forall_app. split; [done|]. constructor; [by left|].
    constructor; [|done]. right. by eexists _, _.
Qed.

(** C7. No process and no slot is left behind.  A command that does not start leaves
    nothing: its slot is the last thing that is given back, and a child that was
    spawned has been killed and waited for by then.  One that starts has a slot, a
    child and a supervisor thread; when that thread is over, the child was waited for
    or seen to exit, then the slot was given back, once, and then the result was sent,
    on every path including all errors. *)
Theorem no_process_left_behind command scope limits tr r :
  runs (spawn_supervised_command command scope limits) tr r ->
  match r with
  | Err _ => not_started scope command tr
  | Ok process_id => exists child started tr',
      tr = Ev (RegReserve scope) (Ok process_id) :: Ev (CmdSpawn command) (Some child) ::
           tr' ++ [Ev (SpawnSupervisor process_id child started limits) true] /\
      Forall (fun e => keeps_slot (ev_call e) = true) tr' /\
      forall fuel life,
        runs (supervisor_thread process_id child limits started fuel) life (Some tt) ->
        exists before result,
          life = before ++ [Ev (RegRelease process_id) tt; Ev (SendCompletion process_id result) tt] /\
          reaped child before /\ Forall (fun e => keeps_slot (ev_call e) = true) before
  end.
Proof.
  intros H%spawn_runs. destruct r as [process_id|e]; [|exact H].
  destruct H as (child & started & tr' & -> & Hk). exists child, started, tr'.
  split_and!; [done|done|]. intros fuel life. apply supervisor_end.
Qed.

(** ** What a result says

    The result of a supervised process, read against the calls of the run: the bytes
    that were read from its pipes, the exit that was observed, the requests to end it
    and the events that did not fit into the queue. *)

(** ** What happened in a run *)

Definition read_bytes (stream : Stream) (e : pevent) : bytes :=
  match ev_call e as x return proc_resp x -> bytes with
  | PipeRead _ stream' => fun r =>
      match r, stream, stream' with
      | ReadBytes chunk, Stdout, Stdout | ReadBytes chunk, Stderr, Stderr => chunk
      | _, _, _ => []
      end
  | _ => fun _ => []
  end (ev_resp e).

(** Everything read from a pipe. *)
Definition reads (stream : Stream) (tr : list pevent) : bytes := tr ≫= read_bytes stream.

(** The events that carry what was read, as it was read. *)
Definition chunk_read (e : pevent) : list ProcessEvent :=
  match ev_call e as x return proc_resp x -> list ProcessEvent with
  | PipeRead _ stream => fun r =>
      match r with ReadBytes (b :: chunk) => [stream_event stream (b :: chunk)] | _ => [] end
  | _ => fun _ => []
  end (ev_resp e).

Definition chunk_offered (e : pevent) : list ProcessEvent :=
  match ev_call e with
  | TrySend _ (PeStdout chunk) => [PeStdout chunk]
  | TrySend _ (PeStderr chunk) => [PeStderr chunk]
  | _ => []
  end.

(** Whether an event found the queue full; the notice of that itself is not counted. *)
Definition queue_full (e : pevent) : bool :=
  match ev_call e as x return proc_resp x -> bool with
  | TrySend _ event => fun r =>
      match event, r with PeEventQueueOverflow, _ => false | _, QueueFull => true | _, _ => false end
  | _ => fun _ => false
  end (ev_resp e).

Definition exit_seen (e : pevent) : list ExitStatus :=
  match ev_call e as x return proc_resp x -> list ExitStatus with
  | ChildTryWait _ => fun r => match r with WaitExited status => [status] | _ => [] end
  | _ => fun _ => []
  end (ev_resp e).

Definition cancel_seen (e : pevent) : bool :=
  match ev_call e as x return proc_resp x -> bool with
  | RegCancelRequested _ => fun r => r
  | _ => fun _ => false
  end (ev_resp e).

Definition signals (e : pevent) : bool :=
  match ev_call e with KillGroup _ _ | ChildKill _ | ChildWait _ => true | _ => false end.

(** ** Programs that only deal with output *)

(** A run in which nothing is observed, asked or signalled. *)
Definition quiet_run (tr : list pevent) : Prop :=
  tr ≫= exit_seen = [] /\ existsb cancel_seen tr = false /\ existsb signals tr = false.

Lemma quiet_app tr tr' : quiet_run tr -> quiet_run tr' -> quiet_run (tr ++ tr').
Proof.
  intros (H1 & H2 & H3) (H1' & H2' & H3'). unfold quiet_run.
  by rewrite bind_app, !existsb_app, H1, H1', H2, H2', H3, H3'.
Qed.

Definition captured (limit : N) (all : bytes) (cap : Capture) : Prop :=
  cap_bytes cap = take (N.to_nat limit) all /\ cap_truncated cap = (limit <? len all).

Lemma captured_none limit : captured limit [] no_capture.
Proof. split; cbn; [by rewrite take_nil|]. symmetry. apply N.ltb_ge. unfold len. cbn. lia. Qed.

Lemma captured_close limit all cap : captured limit all cap -> captured limit all (close cap).
Proof. done. Qed.

Lemma captured_chunk limit all cap chunk :
  captured limit all cap -> captured limit (all ++ chunk) (capture_chunk limit chunk cap).
Proof.
  intros [Hb Ht]. unfold capture_chunk, append_bounded, captured. cbn. rewrite Hb, Ht. unfold len.
  rewrite length_take, length_app. split.
  - rewrite take_app. f_equal. destruct (decide (N.to_nat limit <= length all)%nat).
    + replace (N.to_nat limit - length all)%nat with 0%nat by lia.
      replace (N.min _ _) with 0 by lia. done.
    + destruct (decide (length chunk <= N.to_nat limit - length all)%nat).
      * rewrite !take_ge by lia. done.
      * f_equal. lia.
  - destruct (limit <? N.of_nat (length all)) eqn:E; cbn.
    + symmetry. apply N.ltb_lt. apply N.ltb_lt in E. lia.
    + apply N.ltb_ge in E. apply eq_bool_prop_intro. rewrite !Is_true_true, !N.ltb_lt. lia.
Qed.

Section report.
Context (process_id : ProcessId) (child : Child) (limits : LocalExecutionLimits) (started : N).

Definition other (stream : Stream) : Stream :=
  match stream with Stdout => Stderr | Stderr => Stdout end.

(** What draining one pipe does: the bytes read are captured, and offered as events in
    order. *)
Definition drained (stream : Stream) (limit : N) (cap : Capture) (ov : bool) (tr : list pevent)
    (cap' : Capture) (ov' : bool) : Prop :=
  (forall all, captured limit all cap -> captured limit (all ++ reads stream tr) cap') /\
  ov' = ov || existsb queue_full tr /\ reads (other stream) tr = [] /\
  tr ≫= chunk_offered = tr ≫= chunk_read /\ quiet_run tr.

Lemma drained_nil stream limit cap ov : drained stream limit cap ov [] cap ov.
Proof.
  split_and!; try done; [|by rewrite orb_false_r]. intros all H. cbn. by rewrite app_nil_r.
Qed.

Lemma emit_runs event ov tr ov' :
  event <> PeEventQueueOverflow -> runs (emit_event process_id event ov) tr ov' ->
  exists r, tr = [Ev (TrySend process_id event) r] /\ ov' = ov || existsb queue_full tr.
Proof.
  intros He (r & tr' & -> & H). cbn [bind] in H. destruct H as [-> ->]. exists r. split; [done|].
  cbn. destruct event, r; cbn; try done; by rewrite ?orb_false_r, ?orb_true_r.
Qed.

Lemma drain_chunks_runs chunks stream limit cap ov tr cap' ov' :
  runs (drain_chunks process_id child chunks stream limit cap ov) tr (Ok (cap', ov')) ->
  drained stream limit cap ov tr cap' ov'.
Proof.
  revert cap ov tr. induction chunks as [|chunks IH]; intros cap ov tr; cbn [drain_chunks].
  - intros [-> [= -> ->]]. apply drained_nil.
  - intros (r & tr1 & -> & H). cbn [bind] in H. destruct r as [[|b chunk]| | |].
    + destruct H as [-> [= -> ->]]. split_and!; try done; [|by rewrite orb_false_r|by destruct stream].
      intros all Hc. destruct stream; cbn; by rewrite app_nil_r.
    + apply runs_bind in H as (tr2 & ov2 & tr3 & -> & He & H).
      apply emit_runs in He as (r & -> & ->); [|by destruct stream].
      apply IH in H as (Hc & -> & Ho & Hchunks & Hq). split_and!.
      * intros all Hall. apply (captured_chunk _ _ _ (b :: chunk)), Hc in Hall.
        rewrite <-app_assoc in Hall. destruct stream; exact Hall.
      * cbn. by rewrite orb_false_r, orb_assoc.
      * destruct stream; exact Ho.
      * cbn. rewrite Hchunks. by destruct stream.
      * exact Hq.
    + destruct H as [-> [= -> ->]]. split_and!; try done; [|by rewrite orb_false_r].
      intros all Hc. cbn. by rewrite app_nil_r.
    + apply IH in H as (Hc & -> & Ho & Hchunks & Hq). by split_and!.
    + by destruct H as [_ [=]].
Qed.

Lemma drain_pipe_runs stream limit cap ov tr cap' ov' :
  runs (terminating child (drain_pipe process_id child stream limit cap ov)) tr (Ok (cap', ov')) ->
  drained stream limit cap ov tr cap' ov'.
Proof.
  intros H%terminating_runs. cbn iota in H. unfold drain_pipe in H. destruct (cap_closed cap).
  - destruct H as [-> [= -> ->]]. apply drained_nil.
  - by eapply drain_chunks_runs.
Qed.

(** ** The state of the supervisor, read against the run so far *)

Definition request_seen (s : Supervision) (tr : list pevent) : Prop :=
  match sv_requested s with
  | None => existsb cancel_seen tr = false /\ existsb signals tr = false
  | Some (TermCancelled, _) => existsb cancel_seen tr = true
  | Some (TimedOut, now) =>
    existsb cancel_seen tr = false /\ Ev InstantNow now ∈ tr /\
    past_deadline limits started now = true
  | Some _ => False
  end.

Record describes (tr : list pevent) (s : Supervision) : Prop := {
  de_stdout : captured (el_max_stdout_bytes limits) (reads Stdout tr) (sv_stdout s);
  de_stderr : captured (el_max_stderr_bytes limits) (reads Stderr tr) (sv_stderr s);
  de_full : sv_overflowed s = existsb queue_full tr;
  de_events : tr ≫= chunk_offered = tr ≫= chunk_read;
  de_exit : tr ≫= exit_seen = match sv_exit s with Some (status, _) => [status] | None => [] end;
  de_request : request_seen s tr
}.

Lemma request_seen_quiet s s' tr tr' :
  request_seen s tr -> sv_requested s' = sv_requested s ->
  existsb cancel_seen tr' = false -> existsb signals tr' = false -> request_seen s' (tr ++ tr').
Proof.
  unfold request_seen. intros H -> Hc Hs. rewrite !existsb_app, Hc, Hs, !orb_false_r.
  destruct (sv_requested s) as [[[] ?]|]; try done. rewrite elem_of_app. naive_solver.
Qed.

Lemma drain_both_runs s tr0 tr s' :
  runs (drain_both process_id child limits s) tr (Ok s') -> describes tr0 s ->
  describes (tr0 ++ tr) s' /\ sv_exit s' = sv_exit s /\ sv_requested s' = sv_requested s /\
  quiet_run tr.
Proof.
  intros H [Ho He Hf Hev Hx Hr]. apply runs_bind in H as (tr1 & [[out ov1]|e] & tr2 & -> & H1 & H);
    [|by destruct H as [_ [=]]].
  apply drain_pipe_runs in H1 as (Hc1 & -> & Ho1 & Hev1 & Hq1).
  apply runs_bind in H as (tr3 & [[err ov2]|e] & tr4 & -> & H2 & H); [|by destruct H as [_ [=]]].
  apply drain_pipe_runs in H2 as (Hc2 & -> & Ho2 & Hev2 & Hq2).
  destruct H as [-> [= ->]]. rewrite app_nil_r. pose proof (quiet_app _ _ Hq1 Hq2) as Hq.
  split; [|done]. unfold reads in *. cbn [other] in *. destruct Hq as (Hqx & Hqc & Hqs).
  split; cbn [with_output sv_stdout sv_stderr sv_overflowed sv_exit fst snd].
  - unfold reads. rewrite !bind_app, Ho2, app_nil_r. by apply Hc1.
  - unfold reads. rewrite !bind_app, Ho1, app_nil_l. by apply Hc2.
  - by rewrite !existsb_app, Hf, orb_assoc.
  - by rewrite !bind_app, Hev, Hev1, Hev2.
  - by rewrite bind_app, Hqx, app_nil_r.
  - by eapply request_seen_quiet.
Qed.

(** Any other call. *)
Lemma describes_snoc tr s e :
  describes tr s -> reads Stdout [e] = [] -> reads Stderr [e] = [] -> queue_full e = false ->
  chunk_offered e = [] -> chunk_read e = [] -> exit_seen e = [] -> cancel_seen e = false ->
  signals e = false -> describes (tr ++ [e]) s.
Proof.
  intros [Ho He Hf Hev Hx Hr] H1 H2 H3 H4 H5 H6 H7 H8. unfold reads in *.
  split; rewrite ?bind_app, ?existsb_app; unfold reads; rewrite ?bind_app.
  - by rewrite H1, app_nil_r.
  - by rewrite H2, app_nil_r.
  - cbn. by rewrite H3, !orb_false_r.
  - cbn. by rewrite H4, H5, Hev.
  - cbn. by rewrite H6, !app_nil_r.
  - apply (request_seen_quiet s); [done..| |]; cbn; by rewrite ?H7, ?H8.
Qed.

Lemma observe_runs now s tr0 tr s' :
  runs (observe_exit child now s) tr (Ok s') -> describes tr0 s ->
  describes (tr0 ++ tr) s' /\ sv_requested s' = sv_requested s.
Proof.
  unfold observe_exit. intros H Hd. destruct (is_none (sv_exit s) && _) eqn:E.
  - apply terminating_runs in H. cbn iota in H. destruct H as (r & tr' & -> & H). cbn [bind] in H.
    apply andb_true_iff in E as [Hn _].
    destruct r as [status| |]; [| |by destruct H as [_ [=]]]; destruct H as [-> [= ->]];
      (split; [|done]).
    + destruct Hd as [Ho He Hf Hev Hx Hr]. destruct (sv_exit s); [done|].
      split; cbn [sv_stdout sv_stderr sv_overflowed sv_exit with_exit]; unfold reads in *;
        rewrite ?bind_app, ?existsb_app; cbn; rewrite ?app_nil_r, ?orb_false_r; try done.
      * by rewrite Hx.
      * by apply (request_seen_quiet s).
    + by apply describes_snoc.
  - destruct H as [-> [= ->]]. by rewrite app_nil_r.
Qed.

(** Requests and signals are seen in one part of the description only. *)
Definition silent_call (c : proc_call) : bool :=
  match c with PipeRead _ _ | TrySend _ _ | ChildTryWait _ => false | _ => true end.
Definition silent (e : pevent) : bool := silent_call (ev_call e).

Lemma silent_runs {A} (p : pprog A) tr a :
  calls_only silent_call p -> runs p tr a -> Forall (fun e => silent e = true) tr.
Proof. intros Hp Hr. exact (calls_only_runs _ _ _ _ Hp Hr). Qed.

Lemma silent_none tr :
  Forall (fun e => silent e = true) tr ->
  reads Stdout tr = [] /\ reads Stderr tr = [] /\ existsb queue_full tr = false /\
  tr ≫= chunk_offered = [] /\ tr ≫= chunk_read = [] /\ tr ≫= exit_seen = [].
Proof.
  unfold reads. induction 1 as [|[c r] tr He _ IH]; [done|].
  destruct c; cbn in He |- *; try done; exact IH.
Qed.

(** The description with a request that has just been made. *)
Lemma describes_silent tr0 tr s s' :
  describes tr0 s -> Forall (fun e => silent e = true) tr ->
  sv_stdout s' = sv_stdout s -> sv_stderr s' = sv_stderr s ->
  sv_overflowed s' = sv_overflowed s -> sv_exit s' = sv_exit s -> request_seen s' (tr0 ++ tr) ->
  describes (tr0 ++ tr) s'.
Proof.
  intros [Ho He Hf Hev Hx Hr] (H1 & H2 & H3 & H4 & H5 & H6)%silent_none E1 E2 E3 E4 Hreq.
  unfold reads in *. split; unfold reads; rewrite ?bind_app, ?existsb_app, ?E1, ?E2, ?E3, ?E4.
  - by rewrite H1, app_nil_r.
  - by rewrite H2, app_nil_r.
  - by rewrite H3, orb_false_r.
  - by rewrite H4, H5, !app_nil_r.
  - by rewrite H6, app_nil_r.
  - exact Hreq.
Qed.

Lemma signal_runs signal tr a :
  runs (signal_or_kill child signal) tr a ->
  Forall (fun e => silent e = true) tr /\ existsb cancel_seen tr = false.
Proof.
  intros H. assert (Hc : calls_only (fun c => match c with KillGroup _ _ | ChildKill _ => true | _ => false end)
                           (signal_or_kill child signal)) by calls_solve.
  apply (calls_only_runs _ _ _ _ Hc) in H. clear Hc.
  induction H as [|[c r] tr He _ [IH1 IH2]]; [by split|]. cbn in He.
  split; [constructor; [by destruct c|done]|]. cbn. rewrite IH2. by destruct c.
Qed.

Lemma request_runs now s tr0 tr s' :
  runs (request_termination process_id child limits started now s) tr s' ->
  describes tr0 s -> Ev InstantNow now ∈ tr0 -> describes (tr0 ++ tr) s'.
Proof.
  unfold request_termination. intros H Hd Hnow.
  destruct (is_none (sv_exit s) && is_none (sv_requested s)) eqn:E;
    [|destruct H as [-> ->]; by rewrite app_nil_r].
  apply andb_true_iff in E as [_ Hn]. pose proof (de_request _ _ Hd) as Hreq. unfold request_seen in Hreq.
  destruct (sv_requested s) eqn:Hs; [done|]. destruct Hreq as [Hc Hsig].
  destruct H as (cancelled & tr1 & -> & H). cbn [bind] in H.
  assert (Hask : forall kind,
    runs (do _ <- signal_or_kill child SIGTERM; Ret (with_request kind now s)) tr1 s' ->
    (cancelled = true /\ kind = TermCancelled) \/
    (cancelled = false /\ kind = TimedOut /\ past_deadline limits started now = true) ->
    describes (tr0 ++ Ev (RegCancelRequested process_id) cancelled :: tr1) s').
  { intros kind (tr2 & [] & tr3 & -> & [Hsil Hno]%signal_runs & [-> ->])%runs_bind Hkind.
    rewrite app_nil_r. apply (describes_silent _ _ s); [done|by constructor|done..|].
    unfold request_seen. cbn [sv_requested with_request].
    destruct Hkind as [[-> ->]|(-> & -> & Hp)].
    - by rewrite existsb_app, orb_true_r.
    - rewrite existsb_app, elem_of_app, Hc. cbn. rewrite Hno. auto. }
  destruct cancelled; [by eapply Hask; [exact H|left]|].
  destruct (past_deadline limits started now) eqn:Hp; [by eapply Hask; [exact H|right]|].
  destruct H as [-> ->]. apply (describes_silent _ _ s); [done|by repeat constructor|done..|].
  unfold request_seen. rewrite Hs, !existsb_app, Hc, Hsig. done.
Qed.

Lemma escalate_runs now s tr0 tr s' :
  runs (escalate child now s) tr s' -> describes tr0 s -> describes (tr0 ++ tr) s'.
Proof.
  unfold escalate. intros H Hd.
  destruct (sv_requested s) as [[kind at_]|] eqn:Hs; [|destruct H as [-> ->]; by rewrite app_nil_r].
  destruct (negb (sv_killed s) && _); [|destruct H as [-> ->]; by rewrite app_nil_r].
  apply runs_bind in H as (tr2 & [] & tr3 & -> & [Hsil Hno]%signal_runs & [-> ->]).
  rewrite app_nil_r. apply (describes_silent _ _ s); [done..|].
  pose proof (de_request _ _ Hd) as Hr. unfold request_seen in *. cbn [sv_requested with_kill].
  rewrite Hs in *. rewrite existsb_app, Hno, orb_false_r.
  destruct kind; try done. rewrite elem_of_app. naive_solver.
Qed.

Lemma poll_runs s tr0 tr s' b :
  runs (poll process_id child limits started s) tr (Ok (s', b)) -> describes tr0 s ->
  describes (tr0 ++ tr) s' /\ (b = true -> is_some (sv_exit s') = true).
Proof.
  unfold poll. intros H Hd.
  apply runs_bind in H as (tr1 & [s1|e] & tr2 & -> & H1 & H); [|by destruct H as [_ [=]]].
  destruct (drain_both_runs _ _ _ _ H1 Hd) as (Hd1 & _). clear H1 Hd.
  destruct H as (now & tr3 & -> & H). cbn [bind] in H.
  apply describes_snoc with (e := Ev InstantNow now) in Hd1; [|done..].
  apply runs_bind in H as (tr4 & [s2|e] & tr5 & -> & H2 & H); [|by destruct H as [_ [=]]].
  destruct (observe_runs _ _ _ _ _ H2 Hd1) as [Hd2 _]. clear H2 Hd1.
  apply runs_bind in H as (tr6 & s3 & tr7 & -> & H3 & H).
  apply (request_runs _ _ _ _ _ H3) in Hd2; [|rewrite !elem_of_app; left; right; left].
  clear H3. apply runs_bind in H as (tr8 & s4 & tr9 & -> & H4 & H).
  apply (escalate_runs _ _ _ _ _ H4) in Hd2. clear H4.
  assert (Heq : forall rest, tr0 ++ tr1 ++ Ev InstantNow now :: tr4 ++ tr6 ++ tr8 ++ rest =
            ((((tr0 ++ tr1) ++ [Ev InstantNow now]) ++ tr4) ++ tr6) ++ tr8 ++ rest).
  { intros rest. by rewrite <-!app_assoc. }
  rewrite Heq, app_assoc. destruct (is_over now s4) eqn:Hover.
  - destruct H as [-> [= -> ->]]. rewrite app_nil_r. split; [done|]. intros _.
    unfold is_over in Hover. by destruct (sv_exit s4).
  - destruct H as (r & tr10 & -> & H). cbn [bind] in H. destruct H as [-> [= -> ->]].
    split; [by apply describes_snoc|done].
Qed.

Lemma loop_runs fuel s tr0 tr s' :
  runs (supervise_loop process_id child limits started fuel s) tr (Some (Ok s')) ->
  describes tr0 s -> describes (tr0 ++ tr) s' /\ is_some (sv_exit s') = true.
Proof.
  revert s tr0 tr. induction fuel as [|fuel IH]; intros s tr0 tr; cbn [supervise_loop];
    [by intros [_ [=]]|].
  intros (tr1 & [[s1 []]|e] & tr2 & -> & H1 & H)%runs_bind Hd; [| |by destruct H as [_ [=]]];
    destruct (poll_runs _ _ _ _ _ H1 Hd) as [Hd1 Hb].
  - destruct H as [-> [= ->]]. rewrite app_nil_r. auto.
  - rewrite app_assoc. by eapply IH.
Qed.

Lemma describes_nothing : describes [] new_supervision.
Proof. split; try done; apply captured_none. Qed.

(** How the end of a process is told. *)
Definition ending_seen (t : ProcessTermination) (status : ExitStatus) (tr : list pevent) : Prop :=
  match t with
  | TermCancelled => existsb cancel_seen tr = true
  | TimedOut =>
    existsb cancel_seen tr = false /\
    exists now, Ev InstantNow now ∈ tr /\ past_deadline limits started now = true
  | _ => t = classify_exit status /\ existsb cancel_seen tr = false /\ existsb signals tr = false
  end.

Lemma ending_of_request s status seen tr :
  request_seen s tr -> sv_exit s = Some (status, seen) ->
  ending_seen (match sv_requested s with Some (kind, _) => kind | None => classify_exit status end)
    status tr.
Proof.
  unfold request_seen. intros Hr _. destruct (sv_requested s) as [[[] now]|]; try done.
  - destruct Hr as (? & ? & ?). split; [done|]. by exists now.
  - destruct Hr as [? ?]. unfold ending_seen, classify_exit.
    by destruct (is_some (es_signal status)).
Qed.

(** The calls after the final drain. *)
Definition told (termination : ProcessTermination) (code : option Z) (e : pevent) : Prop :=
  match ev_call e with
  | TrySend _ event => event = PeEventQueueOverflow \/ event = PeFinished process_id termination code
  | InstantNow => True
  | _ => False
  end.

Lemma told_none termination code tr :
  Forall (told termination code) tr ->
  reads Stdout tr = [] /\ reads Stderr tr = [] /\ tr ≫= chunk_offered = [] /\
  tr ≫= chunk_read = [] /\ tr ≫= exit_seen = [] /\ existsb cancel_seen tr = false /\
  existsb signals tr = false.
Proof.
  unfold reads. induction 1 as [|[c r] tr He _ IH]; [done|].
  destruct c; cbn in He |- *; try done. destruct He as [->| ->]; exact IH.
Qed.

Lemma ending_seen_app t status tr tr' :
  ending_seen t status tr -> existsb cancel_seen tr' = false -> existsb signals tr' = false ->
  ending_seen t status (tr ++ tr').
Proof.
  unfold ending_seen. intros H Hc Hs. rewrite !existsb_app, Hc, Hs, !orb_false_r.
  destruct t; try done. destruct H as (? & now & ? & ?). split; [done|]. exists now.
  rewrite elem_of_app. auto.
Qed.

Lemma conclude_runs s tr0 tr res :
  runs (conclude process_id child limits started s) tr (Ok res) -> describes tr0 s ->
  exists s' status tr1 tr2, tr = tr1 ++ tr2 /\ describes (tr0 ++ tr1) s' /\
    option_map fst (sv_exit s') = Some status /\ Forall (told (termination res) (exit_code res)) tr2 /\
    res_process_id res = process_id /\ exit_code res = es_code status /\
    stdout res = cap_bytes (sv_stdout s') /\ stderr res = cap_bytes (sv_stderr s') /\
    res_stdout_truncated res = cap_truncated (sv_stdout s') /\
    res_stderr_truncated res = cap_truncated (sv_stderr s') /\
    event_queue_overflowed res = sv_overflowed s' || existsb queue_full tr2 /\
    termination res = match sv_requested s' with Some (kind, _) => kind | None => classify_exit status end.
Proof.
  unfold conclude. intros H Hd.
  apply runs_bind in H as (tr1 & [s'|e] & tr2 & -> & H1 & H); [|by destruct H as [_ [=]]].
  destruct (drain_both_runs _ _ _ _ H1 Hd) as (Hd1 & _).
  destruct (sv_exit s') as [[status seen]|] eqn:Hx; [|by destruct H as [_ [=]]].
  cbn zeta in H. set (t := match sv_requested s' with Some _ => _ | None => _ end) in *.
  apply runs_bind in H as (tr3 & [] & tr4 & -> & H3 & H).
  apply runs_bind in H as (tr5 & ov & tr6 & -> & (r & -> & ->)%emit_runs & H); [|done].
  destruct H as (now & tr7 & -> & H). cbn [bind] in H. destruct H as [-> [= ->]].
  exists s', status, tr1, (tr3 ++ [Ev (TrySend process_id (PeFinished process_id t (es_code status))) r]
                             ++ [Ev InstantNow now]).
  rewrite Hx. cbn [option_map fst termination exit_code stdout stderr res_stdout_truncated
    res_stderr_truncated res_process_id event_queue_overflowed].
  assert (H3' : tr3 = [] \/ exists r, tr3 = [Ev (TrySend process_id PeEventQueueOverflow) r]).
  { destruct (sv_overflowed s'); [right|left; by destruct H3].
    destruct H3 as (r3 & tr' & -> & H3). cbn [bind] in H3. destruct H3 as [-> _]. by exists r3. }
  split_and!; try done.
  - rewrite !Forall_app, !Forall_singleton. split_and!; [|by right|done].
    destruct H3' as [->|(r3 & ->)]; [done|]. constructor; [by left|done].
  - rewrite !existsb_app. destruct H3' as [->|(r3 & ->)]; cbn; by rewrite !orb_false_r.
Qed.

(** C17. A result says what happened.  Its output is what was read from the pipes, up to the
    limits, marked as truncated exactly when more was read; what was read was offered as
    events, unchanged and in order, and the overflow flag says whether an event found
    the queue full.  Its exit code is that of the one exit that was observed.  It says
    that the process was cancelled exactly when a cancellation was found, that it timed
    out only when an instant past the deadline was, and otherwise how the process ended
    by itself, without a signal having been sent to it. *)
Theorem result_says_what_happened fuel tr res :
  runs (supervise_process process_id child limits started fuel) tr (Some (Ok res)) ->
  res_process_id res = process_id /\
  stdout res = take (N.to_nat (el_max_stdout_bytes limits)) (reads Stdout tr) /\
  res_stdout_truncated res = (el_max_stdout_bytes limits <? len (reads Stdout tr)) /\
  stderr res = take (N.to_nat (el_max_stderr_bytes limits)) (reads Stderr tr) /\
  res_stderr_truncated res = (el_max_stderr_bytes limits <? len (reads Stderr tr)) /\
  tr ≫= chunk_offered = tr ≫= chunk_read /\
  event_queue_overflowed res = existsb queue_full tr /\
  exists status, tr ≫= exit_seen = [status] /\ exit_code res = es_code status /\
    ending_seen (termination res) status tr.
Proof.
  intros (tr1 & [[s|e]|] & tr2 & -> & H1 & H)%runs_bind; [|by destruct H as [_ [=]]..].
  apply runs_bind in H as (tr3 & r & tr4 & -> & H & [-> [= <-]]). rewrite app_nil_r.
  destruct (loop_runs _ _ _ _ _ H1 describes_nothing) as [Hd _].
  destruct (conclude_runs _ _ _ _ H Hd) as
    (s' & status & tr5 & tr6 & -> & Hd' & Hst & Htold & Hid & Hcode & Ho & He & Hto & Hte & Hov & Ht).
  cbn [app] in Hd'. destruct Hd' as [[Hso Hsto] [Hse Hste] Hf Hev Hx Hr].
  destruct (told_none _ _ _ Htold) as (T1 & T2 & T3 & T4 & T5 & T6 & T7).
  destruct (sv_exit s') as [[st seen]|] eqn:Hexit; [|done]. injection Hst as ->.
  pose proof (ending_of_request _ _ _ _ Hr Hexit) as Hend. rewrite <-Ht in Hend.
  rewrite app_assoc. unfold reads in *. unfold reads. rewrite !(bind_app _ (tr1 ++ tr5) tr6), existsb_app.
  rewrite T1, T2, T3, T4, T5, !app_nil_r, Ho, He, Hto, Hte, Hso, Hse, Hsto, Hste, Hov, Hf, Hcode.
  split_and!; try done. exists status. split_and!; [by rewrite Hx|done|].
  by apply ending_seen_app.
Qed.
End report.
