(* ===== verification/ProcessCommand.v ===== *)
(** * The local process runtime: what is executed

    The command that is spawned, read against the command that was authorized: which
    program, with which arguments, where, in which environment, and what was checked of
    the file system before it. *)
From S2P Require Import Prelude RustStr RustPath Program OsCalls Domain ProcessContract.
From S2P Require CommandPolicy.
From S2P Require Import ProcessLocal ProcessPrepare ProcessSupervise ProcessSafety.
Import CommandPolicy (join_path_nil_iff, path_names_plain, path_names_join, push_str_join).

(** ** Normal paths *)

Definition component_ok (name : str) : Prop :=
  plain_name name /\ blen name <= MAX_PATH_COMPONENT_BYTES /\
  starts_with INTERNAL_TEMP_PREFIX name = false.

Lemma normalize_components_ok ps cs n :
  Forall plain_name ps -> (forall p, Normal p ∈ cs -> plain_name p) ->
  normalize_components (join_path ps) cs = Ok n ->
  Forall component_ok (omap normal_name cs) /\ n = join_path (ps ++ omap normal_name cs).
Proof.
  revert ps. induction cs as [|c cs IH]; intros ps Hps Hcs; simpl.
  - intros [= <-]. by rewrite app_nil_r.
  - assert (forall p, Normal p ∈ cs -> plain_name p) by set_solver.
    destruct c as [| | |p]; simpl; try done; [by apply IH|].
    assert (Hp : plain_name p) by (apply Hcs; by left).
    unfold fails. rewrite if_err_ok, push_str_join by done. rewrite !orb_false_iff, N.ltb_ge.
    intros [[[_ ?] ?] Hn]. apply IH in Hn as [? ->]; [|by apply Forall_app; auto|done].
    rewrite <-app_assoc. split; [|done]. by constructor.
Qed.

(** What [normalize_relative_path] gives is the names of the path, all of them plain. *)
Lemma normalize_ok path allow_root q :
  normalize_relative_path path allow_root = Ok q ->
  Forall component_ok (path_names path) /\ components q = Normal <$> path_names path /\
  path_names q = path_names path.
Proof.
  unfold normalize_relative_path, fails. rewrite if_err_ok. intros [_ H].
  destruct path as [text|raw]; cbn [path_to_str ok_or] in H; [|done].
  rewrite if_err_ok in H. destruct H as [_ H].
  destruct (normalize_components [] _) as [n|] eqn:E; [|done].
  apply (normalize_components_ok []) in E as [Hc ->];
    [|constructor|intros p; apply text_components_normal].
  rewrite if_err_ok in H. destruct H as [_ [= <-]]. split; [exact Hc|]. cbn [app].
  pose proof (path_names_plain (Utf8Path text)) as Hp. split; [|exact (path_names_join _ Hp)].
  exact (text_components_join _ Hp).
Qed.

(** ** What was checked *)

Definition checked_directory (tr : list pevent) (path : str) : Prop :=
  exists metadata, Ev (FsSymlinkMetadata path) (Ok metadata) ∈ tr /\
    is_symlink metadata = false /\ is_dir metadata = true.

(** A regular file with one name, that its owner can execute and nobody else write. *)
Definition checked_executable (tr : list pevent) (path : str) : Prop :=
  exists metadata, Ev (FsSymlinkMetadata path) (Ok metadata) ∈ tr /\
    is_symlink metadata = false /\ is_file metadata = true /\ st_nlink metadata = 1 /\
    N.testbit (st_mode metadata) 6 = true /\
    N.testbit (st_mode metadata) 4 = false /\ N.testbit (st_mode metadata) 1 = false.

(** The directories on the way from a root. *)
Fixpoint steps_below (root : str) (names : list str) : list str :=
  match names with
  | [] => []
  | name :: names => push_str root name :: steps_below (push_str root name) names
  end.

Definition below (root : str) (names : list str) : str := foldl push_str root names.

Lemma checked_directory_mono tr tr' path :
  checked_directory tr path -> (forall e, e ∈ tr -> e ∈ tr') -> checked_directory tr' path.
Proof. intros (m & ? & ?) Hsub. exists m. auto. Qed.

Lemma checked_executable_mono tr tr' path :
  checked_executable tr path -> (forall e, e ∈ tr -> e ∈ tr') -> checked_executable tr' path.
Proof. intros (m & ? & ?) Hsub. exists m. auto. Qed.

Lemma checked_directories_app paths tr tr' :
  Forall (checked_directory tr) paths \/ Forall (checked_directory tr') paths ->
  Forall (checked_directory (tr ++ tr')) paths.
Proof.
  intros [H|H]; (eapply Forall_impl; [exact H|]); intros path Hp;
    (eapply checked_directory_mono; [exact Hp|]); intros e He; apply elem_of_app; auto.
Qed.

Lemma mode_bits mode :
  N.land mode 0x40 <> 0 -> N.land mode 0x12 = 0 ->
  N.testbit mode 6 = true /\ N.testbit mode 4 = false /\ N.testbit mode 1 = false.
Proof.
  intros H1 H2. split_and!.
  - destruct (N.testbit mode 6) eqn:E; [done|]. destruct H1. apply N.bits_inj. intros i.
    rewrite N.land_spec, N.bits_0. change 0x40 with (2 ^ 6). destruct (decide (i = 6)) as [->|Hi].
    + by rewrite E.
    + by rewrite N.pow2_bits_false, andb_false_r by congruence.
  - assert (H : N.testbit (N.land mode 0x12) 4 = false) by by rewrite H2.
    by rewrite N.land_spec, andb_true_r in H.
  - assert (H : N.testbit (N.land mode 0x12) 1 = false) by by rewrite H2.
    by rewrite N.land_spec, andb_true_r in H.
Qed.

Lemma executable_denial_none metadata :
  executable_denial metadata = None ->
  is_symlink metadata = false /\ is_file metadata = true /\ st_nlink metadata = 1 /\
  N.testbit (st_mode metadata) 6 = true /\
  N.testbit (st_mode metadata) 4 = false /\ N.testbit (st_mode metadata) 1 = false.
Proof.
  unfold executable_denial. destruct (is_symlink metadata); [done|].
  destruct (is_file metadata); [|done]. cbn [negb orb].
  destruct (st_nlink metadata =? 1) eqn:E1; [|done]. cbn [negb].
  destruct (_ =? 0) eqn:E2; [done|]. destruct (N.land _ 0x12 =? 0) eqn:E3; [|done]. intros _.
  apply N.eqb_eq in E1, E3. apply N.eqb_neq in E2. split_and!; try done; by apply mode_bits.
Qed.

(** ** Runs of the checks *)

Lemma metadata_runs code path tr metadata :
  runs (or_fail code (call_ (FsSymlinkMetadata path))) tr (Ok metadata) ->
  Ev (FsSymlinkMetadata path) (Ok metadata) ∈ tr.
Proof.
  intros (r & tr' & -> & H). cbn [bind] in H. destruct H as [-> Hr].
  destruct r as [m|e]; [|done]. injection Hr as ->. by left.
Qed.

Lemma canonicalize_runs code path tr canonical :
  runs (or_fail code (call_ (FsCanonicalize path))) tr (Ok canonical) ->
  Ev (FsCanonicalize path) (Ok canonical) ∈ tr.
Proof.
  intros (r & tr' & -> & H). cbn [bind] in H. destruct H as [-> Hr].
  destruct r as [m|e]; [|done]. injection Hr as ->. by left.
Qed.

Lemma verify_directory_runs path tr u :
  runs (verify_no_symlink_directory path) tr (Ok u) -> checked_directory tr path.
Proof.
  intros (tr1 & m & tr2 & -> & H1%metadata_runs & H)%try_runs.
  destruct (not_a_directory m) eqn:E; [by destruct H as [_ [=]]|].
  apply orb_false_iff in E as [E1 E2%negb_false_iff]. exists m. by rewrite elem_of_app; auto.
Qed.

Lemma canonical_directory_runs path tr canonical :
  runs (canonical_existing_directory path) tr (Ok canonical) ->
  checked_directory tr path /\ Ev (FsCanonicalize path) (Ok canonical) ∈ tr.
Proof.
  intros (tr1 & m & tr2 & -> & H1%metadata_runs & H)%try_runs.
  destruct (not_a_directory m) eqn:E; [by destruct H as [_ [=]]|].
  apply orb_false_iff in E as [E1 E2%negb_false_iff]. apply canonicalize_runs in H.
  rewrite elem_of_app. split; [|by right]. exists m. by rewrite elem_of_app; auto.
Qed.

Lemma descend_runs root names tr dir :
  runs (descend_directories root (Normal <$> names)) tr (Ok dir) ->
  dir = below root names /\ Forall (checked_directory tr) (steps_below root names).
Proof.
  revert root tr. induction names as [|name names IH]; intros root tr; cbn [fmap list_fmap].
  { by intros [-> [= ->]]. }
  cbn [descend_directories].
  intros (tr1 & [] & tr2 & -> & H1%verify_directory_runs & [-> H2]%IH)%try_runs.
  split; [done|]. constructor.
  - eapply checked_directory_mono; [exact H1|]. intros e He. apply elem_of_app. by left.
  - apply checked_directories_app. by right.
Qed.

Lemma descend_executable_runs code root names tr executable :
  runs (descend_to_executable code root (Normal <$> names)) tr (Ok executable) ->
  executable = below root names /\
  Forall (checked_directory tr) (removelast (steps_below root names)).
Proof.
  revert root tr. induction names as [|name names IH]; intros root tr; cbn [fmap list_fmap].
  { by intros [-> [= ->]]. }
  cbn [descend_to_executable].
  intros (tr1 & [] & tr2 & -> & H1 & [-> H2]%IH)%try_runs. split; [done|].
  destruct names as [|name' names]; [constructor|]. cbn [steps_below removelast] in H2 |- *.
  cbn [fmap list_fmap] in H1. apply verify_directory_runs in H1. constructor.
  - eapply checked_directory_mono; [exact H1|]. intros e He. apply elem_of_app. by left.
  - apply checked_directories_app. by right.
Qed.

Lemma verify_executable_runs path tr u :
  runs (verify_executable_file path) tr (Ok u) -> checked_executable tr path.
Proof.
  intros (tr1 & m & tr2 & -> & H1%metadata_runs & H)%try_runs.
  destruct (executable_denial m) eqn:E; [by destruct H as [_ [=]]|].
  apply executable_denial_none in E. exists m. by rewrite elem_of_app; auto.
Qed.

(** Where a file beneath a root is, given its relative path. *)
Definition beneath (tr : list pevent) (root : str) (relative : os_path) (file : str) : Prop :=
  Forall component_ok (path_names relative) /\ file = below root (path_names relative) /\
  Forall (checked_directory tr) (removelast (steps_below root (path_names relative))).

Lemma beneath_mono tr tr' root relative file :
  beneath tr root relative file -> (forall e, e ∈ tr -> e ∈ tr') -> beneath tr' root relative file.
Proof.
  intros (? & ? & H) Hsub. split_and!; [done..|]. eapply Forall_impl; [exact H|].
  intros path Hp. by eapply checked_directory_mono.
Qed.

Lemma resolve_executable_runs root relative code tr executable :
  runs (resolve_executable_beneath root relative code) tr (Ok executable) ->
  beneath tr root relative executable.
Proof.
  intros (tr1 & q & tr2 & -> & [-> (Hc & Hq & _)%symmetry%normalize_ok] & H)%try_runs.
  rewrite Hq in H.
  apply try_runs in H as (tr3 & candidate & tr4 & -> & [-> H3]%descend_executable_runs & H).
  apply try_runs in H as (tr5 & [] & tr6 & -> & _ & [-> [= ->]]). split_and!; [done..|].
  cbn [app]. apply checked_directories_app. by left.
Qed.

(** ** The authorized command *)

Section platform.
Context (android : bool) `{UuidLib} (self : LocalProcessRuntime).

(** On Android code is only executed from where this process cannot write. *)
Definition not_writable (tr : list pevent) (path : str) : Prop :=
  android = true -> Ev (FsWritable path) false ∈ tr.

(** The executable of a registered tool is the packaged file. *)
Definition packaged_tool (tr : list pevent) (tool_id : str) (executable : str)
    (fixed : list str) : Prop :=
  exists spec, runtime_tools self !! tool_id = Some spec /\ fixed = ts_fixed_args spec /\
    beneath tr (packaged_executable_root self) (ts_relative_path spec) executable /\
    not_writable tr (packaged_executable_root self) /\ not_writable tr executable.

Lemma packaged_tool_mono tr tr' tool_id executable fixed :
  packaged_tool tr tool_id executable fixed -> (forall e, e ∈ tr -> e ∈ tr') ->
  packaged_tool tr' tool_id executable fixed.
Proof.
  intros (spec & ? & ? & Hb & Hp & Hx) Hsub. exists spec. unfold not_writable in *.
  split_and!; auto. by eapply beneath_mono.
Qed.

Lemma writable_directory_runs path tr u :
  runs (on_android android (verify_android_packaged_code_directory path)) tr (Ok u) ->
  not_writable tr path.
Proof.
  unfold on_android, not_writable. intros H1 ->.
  apply try_runs in H1 as (tr1 & m & tr2 & -> & _ & H1).
  destruct (_ || _); [by destruct H1 as [_ [=]]|].
  destruct H1 as (w & tr3 & -> & H1). cbn [bind] in H1.
  destruct w; [by destruct H1 as [_ [=]]|]. apply elem_of_app. right. by left.
Qed.

Lemma writable_file_runs path tr u :
  runs (on_android android (verify_android_packaged_code_file path)) tr (Ok u) ->
  not_writable tr path.
Proof.
  unfold on_android, not_writable. intros H1 ->.
  apply try_runs in H1 as (tr1 & m & tr2 & -> & _ & H1).
  destruct (_ || _); [by destruct H1 as [_ [=]]|].
  destruct H1 as (w & tr3 & -> & H1). cbn [bind] in H1.
  destruct w; [by destruct H1 as [_ [=]]|]. apply elem_of_app. right. by left.
Qed.

Lemma resolve_tool_runs tool_id tr executable fixed :
  runs (resolve_runtime_tool android self tool_id) tr (Ok (executable, fixed)) ->
  packaged_tool tr tool_id executable fixed.
Proof.
  unfold resolve_runtime_tool.
  destruct (runtime_tools self !! tool_id) as [spec|] eqn:E; [|by intros [_ [=]]].
  intros (tr1 & [] & tr2 & -> & _ & H1)%try_runs.
  apply try_runs in H1 as (tr3 & [] & tr4 & -> & H3%writable_directory_runs & H1).
  apply try_runs in H1 as (tr5 & x & tr6 & -> & H5%resolve_executable_runs & H1).
  apply try_runs in H1 as (tr7 & [] & tr8 & -> & H7%writable_file_runs & [-> [= -> ->]]).
  exists spec. unfold not_writable in *. repeat setoid_rewrite elem_of_app.
  split_and!; auto 10. eapply beneath_mono; [exact H5|]. intros e. rewrite !elem_of_app. auto.
Qed.

(** The root of the project: the one the reference names, in the directory of the
    projects. *)
Record project_directory (tr : list pevent) (project : ProjectRef) (root : str) : Prop := {
  pd_expected : same_path root (expected_root self (pr_id project)) = true;
  pd_reference : same_path (pr_root project) root = true;
  pd_canonical : Ev (FsCanonicalize (expected_root self (pr_id project))) (Ok root) ∈ tr;
  pd_directories :
    Forall (checked_directory tr)
      [app_private_root self; product_root self; projects_root self; root]
}.

Lemma exact_child_runs parent expected child tr u :
  runs (verify_exact_child_directory parent expected child) tr (Ok u) ->
  checked_directory tr expected.
Proof.
  unfold verify_exact_child_directory. destruct (negb _); [by intros [_ [=]]|].
  apply verify_directory_runs.
Qed.

Lemma project_runs project tr root :
  runs (verify_project_root self project) tr (Ok root) -> project_directory tr project root.
Proof.
  unfold verify_project_root. intros (tr1 & [] & tr2 & -> & H1%verify_directory_runs & H2)%try_runs.
  apply try_runs in H2 as (tr3 & [] & tr4 & -> & H3%exact_child_runs & H2).
  apply try_runs in H2 as (tr5 & [] & tr6 & -> & H5%exact_child_runs & H2).
  apply try_runs in H2 as (tr7 & canonical & tr8 & -> & H7%canonical_directory_runs & H2).
  destruct (_ || _) eqn:E; [by destruct H2 as [_ [=]]|].
  apply orb_false_iff in E as [E1%negb_false_iff E2%negb_false_iff].
  apply try_runs in H2 as (tr9 & [] & tr10 & -> & H9%verify_directory_runs & [-> [= ->]]).
  destruct H7 as [_ H7]. split; [done|done|rewrite !elem_of_app; auto 10|].
  repeat constructor; (eapply checked_directory_mono; [eassumption|]); intros e;
    rewrite !elem_of_app; auto 10.
Qed.

(** A command that was built: what it contains, and what was checked just before. *)
Record confined (tr : list pevent) (executable : str) (arguments : list str) (directory : str)
    (environment : list (str * str)) (command : Command) : Prop := {
  cf_command :
    command = mkCommand executable arguments directory
                ((u "HOME", process_home self) :: (u "TMPDIR", process_tmp self) :: environment)
                true android;
  cf_executable : checked_executable tr executable;
  cf_directories :
    Forall (checked_directory tr) [directory; process_home self; process_tmp self]
}.

Lemma confined_mono tr tr' executable arguments directory environment command :
  confined tr executable arguments directory environment command ->
  (forall e, e ∈ tr -> e ∈ tr') ->
  confined tr' executable arguments directory environment command.
Proof.
  intros [? ? Hd] Hsub. split; [done|by eapply checked_executable_mono|].
  eapply Forall_impl; [exact Hd|]. intros path Hp. by eapply checked_directory_mono.
Qed.

Lemma recheck_runs executable arguments directory environment tr :
  runs (recheck self directory executable) tr (Ok tt) ->
  confined tr executable arguments directory environment
    (clean_command android self executable arguments directory environment).
Proof.
  intros (tr1 & [] & tr2 & -> & H1%verify_directory_runs & H2)%try_runs.
  apply try_runs in H2 as (tr3 & [] & tr4 & -> & H3%verify_executable_runs & H2).
  apply try_runs in H2 as (tr5 & [] & tr6 & -> & H5%verify_directory_runs & H6%verify_directory_runs).
  split; [done| |].
  - eapply checked_executable_mono; [exact H3|]. intros e. rewrite !elem_of_app. auto.
  - repeat constructor; (eapply checked_directory_mono; [eassumption|]); intros e;
      rewrite !elem_of_app; auto.
Qed.

(** What was authorized is what is executed: in the project it was authorized for, in
    its working directory, the registered tool or the project's file, with the
    tool's own arguments and then those authorized. *)
Inductive as_authorized (project : ProjectRef) (envelope : CommandPolicy.CommandExecutionEnvelope)
    (tr : list pevent) (command : Command) : Prop :=
| AsAuthorized root executable fixed :
    let spec := CommandPolicy.env_command envelope in
    CommandPolicy.env_project_id envelope = pr_id project ->
    project_directory tr project root ->
    Forall component_ok (path_names (CommandPolicy.working_dir spec)) ->
    Forall (checked_directory tr)
      (steps_below root (path_names (CommandPolicy.working_dir spec))) ->
    match CommandPolicy.program spec with
    | CommandPolicy.RuntimeTool tool_id => packaged_tool tr tool_id executable fixed
    | CommandPolicy.WorkspaceExecutable relative_path =>
      android = false /\ fixed = [] /\ beneath tr root relative_path executable
    end ->
    confined tr executable (fixed ++ CommandPolicy.args spec)
      (below root (path_names (CommandPolicy.working_dir spec))) [] command ->
    as_authorized project envelope tr command.

Lemma project_directory_mono tr tr' project root :
  project_directory tr project root -> (forall e, e ∈ tr -> e ∈ tr') ->
  project_directory tr' project root.
Proof.
  intros [? ? ? Hd] Hsub. split; auto. eapply Forall_impl; [exact Hd|]. intros path Hp.
  by eapply checked_directory_mono.
Qed.

Lemma working_directory_runs root relative tr dir :
  runs (resolve_working_directory root relative) tr (Ok dir) ->
  Forall component_ok (path_names relative) /\ dir = below root (path_names relative) /\
  Forall (checked_directory tr) (steps_below root (path_names relative)).
Proof.
  intros (tr1 & q & tr2 & -> & [-> (Hc & Hq & _)%symmetry%normalize_ok] & H1)%try_runs.
  rewrite Hq in H1. by apply descend_runs in H1 as [-> ?].
Qed.

Lemma workspace_executable_runs root relative tr executable :
  runs (resolve_workspace_executable android root relative) tr (Ok executable) ->
  android = false /\ beneath tr root relative executable.
Proof.
  unfold resolve_workspace_executable. destruct android; [by intros [_ [=]]|].
  intros (tr1 & q & tr2 & -> & [-> (Hc & _ & Hn)%symmetry%normalize_ok] & H1)%try_runs.
  split; [done|]. apply resolve_executable_runs in H1 as (_ & Hx & Hd). cbn [app].
  unfold beneath. rewrite <-Hn at 2 3. done.
Qed.

Lemma prepare_command_runs project envelope tr command :
  runs (prepare_command android self project envelope) tr (Ok command) ->
  as_authorized project envelope tr command.
Proof.
  unfold prepare_command. case_bool_decide as Hid; [cbn [negb]|by intros [_ [=]]].
  intros (tr1 & root & tr2 & -> & H1%project_runs & H2)%try_runs.
  apply try_runs in H2 as (tr3 & dir & tr4 & -> & (Hw & -> & H3)%working_directory_runs & H2).
  apply try_runs in H2 as (tr5 & [executable fixed] & tr6 & -> & H5 & H2).
  apply try_runs in H2 as (tr7 & [] & tr8 & -> & H7 & [-> [= ->]]).
  apply (recheck_runs _ (fixed ++ CommandPolicy.args (CommandPolicy.env_command envelope)) _ []) in H7.
  econstructor; [exact Hid| |exact Hw| | |].
  - eapply project_directory_mono; [exact H1|]. intros e. rewrite !elem_of_app. auto.
  - eapply Forall_impl; [exact H3|]. intros path Hp. eapply checked_directory_mono; [exact Hp|].
    intros e. rewrite !elem_of_app. auto.
  - destruct (CommandPolicy.program _) as [tool_id|relative].
    + eapply packaged_tool_mono; [by eapply resolve_tool_runs|]. intros e. rewrite !elem_of_app. auto.
    + apply try_runs in H5 as (tr9 & x & tr10 & -> & [Ha Hx]%workspace_executable_runs & [-> [= -> ->]]).
      split_and!; [done..|]. eapply beneath_mono; [exact Hx|]. intros e. rewrite !elem_of_app. auto.
  - eapply confined_mono; [exact H7|]. intros e. rewrite !elem_of_app. auto.
Qed.

(** Calls on files only. *)
Definition on_files (c : proc_call) : bool :=
  match c with
  | FsSymlinkMetadata _ | FsCanonicalize _ | FsCreateDir _ _ | FsWritable _ => true
  | _ => false
  end.

Lemma on_files_descend root cs : calls_only on_files (descend_directories root cs).
Proof.
  revert root. induction cs as [|c cs IH]; intros root; cbn [descend_directories]; [exact I|].
  destruct c; try apply IH. calls_solve.
Qed.
#[local] Hint Resolve on_files_descend : calls.

Lemma on_files_executable code root cs : calls_only on_files (descend_to_executable code root cs).
Proof.
  revert root. induction cs as [|c cs IH]; intros root; cbn [descend_to_executable]; [exact I|].
  destruct c; calls_solve.
Qed.
#[local] Hint Resolve on_files_executable : calls.

Lemma on_files_prepare project envelope :
  calls_only on_files (prepare_command android self project envelope).
Proof. calls_solve. Qed.

(** The spawns of a run. *)
Definition spawn_of (e : pevent) : list (Command * option Child) :=
  match ev_call e as x return proc_resp x -> list (Command * option Child) with
  | CmdSpawn command => fun answer => [(command, answer)]
  | _ => fun _ => []
  end (ev_resp e).

Lemma spawn_of_none (P : pevent -> Prop) tr :
  Forall P tr -> (forall e, P e -> spawn_of e = []) -> tr ≫= spawn_of = [].
Proof. intros Hf HP. induction Hf as [|e tr He _ IH]; [done|]. cbn. by rewrite (HP e He). Qed.

Lemma no_spawn_keeps e : keeps_slot (ev_call e) = true -> spawn_of e = [].
Proof. by destruct e as [[] ?]. Qed.

Lemma no_spawn_unsupervised process_id child e : no_supervisor process_id child e -> spawn_of e = [].
Proof. intros [He|(? & ? & ->)]; [by apply no_spawn_keeps|done]. Qed.

Lemma no_spawn_files e : on_files (ev_call e) = true -> spawn_of e = [].
Proof. by destruct e as [[] ?]. Qed.

(** At most the given command is spawned, once, in a slot of the given scope. *)
Lemma spawn_is_unique command scope limits tr r spawned (answer : option Child) :
  runs (spawn_supervised_command command scope limits) tr r ->
  Ev (CmdSpawn spawned) answer ∈ tr ->
  spawned = command /\ exists process_id rest,
    tr = Ev (RegReserve scope) (Ok process_id) :: Ev (CmdSpawn spawned) answer :: rest.
Proof.
  intros H1%spawn_runs Hin.
  assert (Hs : (spawned, answer) ∈ tr ≫= spawn_of).
  { apply list_elem_of_bind. eexists. split; [|exact Hin]. by left. }
  assert (Hgo : forall tr' answer', tr' ≫= spawn_of = [] ->
            (spawned, answer) ∈ (command, answer') :: (tr' ≫= spawn_of) ->
            spawned = command /\ answer = answer').
  { intros tr' answer' -> [= -> ->]%list_elem_of_singleton. done. }
  destruct r as [process_id|e]; cbn [spawn_end] in H1.
  - destruct H1 as (child & started & tr' & -> & Hk). cbn in Hs.
    apply Hgo in Hs as [-> ->]; [by eauto|]. rewrite bind_app.
    by rewrite (spawn_of_none _ _ Hk no_spawn_keeps).
  - destruct H1 as [e'|process_id|process_id child tr' _ _ Hk]; cbn in Hs.
    + by apply elem_of_nil in Hs.
    + apply (Hgo []) in Hs as [-> ->]; [by eauto|done].
    + apply Hgo in Hs as [-> ->]; [by eauto|]. rewrite bind_app.
      by rewrite (spawn_of_none _ _ Hk (no_spawn_unsupervised _ _)).
Qed.

Lemma spawned_after_checks {A} (checks : pprog (Result A)) (build : A -> Command) scope limits
    tr r spawned (answer : option Child) :
  calls_only on_files checks ->
  runs (try a <- checks; spawn_supervised_command (build a) scope limits) tr r ->
  Ev (CmdSpawn spawned) answer ∈ tr ->
  exists a before process_id rest,
    tr = before ++ Ev (RegReserve scope) (Ok process_id) :: Ev (CmdSpawn spawned) answer :: rest /\
    runs checks before (Ok a) /\ spawned = build a.
Proof.
  intros Hfiles (tr1 & [a|e] & tr2 & -> & H1 & H2)%runs_bind Hin.
  - assert (Hno : Ev (CmdSpawn spawned) answer ∉ tr1).
    { intros Hx. pose proof (calls_only_runs _ _ _ _ Hfiles H1) as Hf.
      rewrite Forall_forall in Hf. by specialize (Hf _ Hx). }
    apply elem_of_app in Hin as [Hin|Hin]; [done|].
    destruct (spawn_is_unique _ _ _ _ _ _ _ H2 Hin) as (-> & process_id & rest & ->).
    exists a, tr1, process_id, rest. auto.
  - destruct H2 as [-> _]. rewrite app_nil_r in Hin.
    pose proof (calls_only_runs _ _ _ _ Hfiles H1) as Hf.
    rewrite Forall_forall in Hf. by specialize (Hf _ Hin).
Qed.

(** C6. What is executed is what was authorized.  [start] spawns nothing but the authorized
    command, after a slot of its project was reserved and after, in this run, the
    project's directories, every directory on the way to its working directory and to
    its executable, and the executable itself were checked: no symbolic link, a regular
    file with one name that only its owner can write, on Android one this process
    cannot write.  It runs without a shell, with the environment of the runtime alone,
    in a process group of its own. *)
Theorem command_is_the_authorized_one project envelope options tr r command
    (answer : option Child) :
  runs (start android self project envelope options) tr r ->
  Ev (CmdSpawn command) answer ∈ tr ->
  exists before process_id rest,
    tr = before ++ Ev (RegReserve (ScopeProject (pr_id project))) (Ok process_id) ::
         Ev (CmdSpawn command) answer :: rest /\
    as_authorized project envelope before command.
Proof.
  unfold start. intros (tr1 & lim & tr2 & -> & [-> Hl] & H2)%runs_bind Hin. cbn [app] in *.
  destruct lim as [lim|e]; [|destruct H2 as [-> _]; by apply elem_of_nil in Hin].
  apply (spawned_after_checks _ id _ _ _ _ _ _ (on_files_prepare project envelope) H2) in Hin
    as (c & before & process_id & rest & -> & Hp & ->).
  exists before, process_id, rest. split; [done|]. by apply prepare_command_runs.
Qed.

(** ** Services *)

Lemma check_service_args_ok args :
  check_service_args args = Ok tt ->
  Forall (fun arg => blen arg <= MAX_RUNTIME_SERVICE_ARG_BYTES /\ existsb is_control arg = false) args.
Proof.
  induction args as [|arg args IH]; [constructor|]. cbn.
  destruct (validate_runtime_service_arg arg) as [[]|] eqn:E; [|done]. intros Hargs.
  constructor; [|by apply IH]. unfold validate_runtime_service_arg, fails in E.
  apply if_err_ok in E as [E _]. rewrite !orb_false_iff, N.ltb_ge in E. by destruct E as [[??]?].
Qed.

(** A variable that the runtime does not set itself, without control characters. *)
Definition service_variable (kv : str * str) : Prop :=
  (kv.1 ∉ managed_env_keys) /\ env_key_bytes (as_bytes kv.1) = true /\
  blen kv.1 <= MAX_RUNTIME_SERVICE_ENV_KEY_BYTES /\
  blen kv.2 <= MAX_RUNTIME_SERVICE_ENV_VALUE_BYTES /\
  Forall (fun b => is_ascii_control b = false) (as_bytes kv.2).

Lemma validate_service_env_ok key value u :
  validate_runtime_service_env key value = Ok u -> service_variable (key, value).
Proof.
  unfold validate_runtime_service_env, fails. rewrite !if_err_ok, !orb_false_iff, !N.ltb_ge.
  intros ([[_ ?] ?%negb_false_iff] & ?%bool_decide_eq_false & [? Hv] & _). split_and!; try done.
  apply Forall_forall. intros b Hb. destruct (is_ascii_control b) eqn:E; [|done].
  rewrite <-Hv. symmetry. apply existsb_exists. exists b.
  split; [by apply list_elem_of_In|]. by rewrite E, orb_true_r.
Qed.

Lemma check_service_env_ok seen environment :
  check_service_env seen environment = Ok tt ->
  NoDup environment.*1 /\ Forall (fun key => key ∉ seen) environment.*1 /\
  Forall service_variable environment.
Proof.
  revert seen. induction environment as [|[key value] environment IH]; intros seen; csimpl.
  { intros _. split_and!; constructor. }
  destruct (validate_runtime_service_env key value) as [[]|] eqn:E; [|done].
  case_bool_decide as Hk; [done|]. intros (Hnd & Hseen & Hv)%IH.
  rewrite Forall_forall in Hseen. split_and!.
  - constructor; [|done]. intros Hin. specialize (Hseen _ Hin). set_solver.
  - constructor; [done|]. apply Forall_forall. intros k Hin. specialize (Hseen _ Hin). set_solver.
  - constructor; [by eapply validate_service_env_ok|done].
Qed.

(** The working directory of a service is beneath the runtime's root. *)
Record runtime_directory (tr : list pevent) (relative : os_path) (directory : str) : Prop := {
  rd_names : Forall component_ok (path_names relative);
  rd_directory : same_path directory (below (runtime_root self) (path_names relative)) = true;
  rd_beneath : path_starts_with directory (runtime_root self) = true;
  rd_directories :
    Forall (checked_directory tr) (steps_below (runtime_root self) (path_names relative))
}.

Lemma runtime_directory_runs relative tr directory :
  runs (resolve_runtime_working_directory self relative) tr (Ok directory) ->
  runtime_directory tr relative directory.
Proof.
  intros (tr1 & q & tr2 & -> & [-> (Hc & Hq & _)%symmetry%normalize_ok] & H1)%try_runs.
  rewrite Hq in H1. apply try_runs in H1 as (tr3 & [] & tr4 & -> & _ & H1).
  apply try_runs in H1 as (tr5 & current & tr6 & -> & [-> H5]%descend_runs & H1).
  apply try_runs in H1 as (tr7 & canonical & tr8 & -> & _ & H1).
  destruct (_ || _) eqn:E; [by destruct H1 as [_ [=]]|]. destruct H1 as [-> [= ->]].
  apply orb_false_iff in E as [E1%negb_false_iff E2%negb_false_iff]. split; [done..|].
  cbn [app]. apply checked_directories_app. right. apply checked_directories_app. by left.
Qed.

Definition service_command (tool_id : str) (args : list str) (relative : os_path)
    (environment : list (str * str)) (tr : list pevent) (command : Command) : Prop :=
  exists executable fixed directory,
    packaged_tool tr tool_id executable fixed /\ runtime_directory tr relative directory /\
    confined tr executable (fixed ++ args) directory environment command /\
    Forall (fun arg => blen arg <= MAX_RUNTIME_SERVICE_ARG_BYTES /\ existsb is_control arg = false) args /\
    NoDup environment.*1 /\ Forall service_variable environment.

Lemma prepare_service_runs service_id tool_id args relative environment tr command :
  runs (prepare_runtime_service_command android self service_id tool_id args (Some relative) environment)
    tr (Ok command) ->
  service_command tool_id args relative environment tr command.
Proof.
  intros (tr1 & private & tr2 & -> & _ & H1)%try_runs.
  apply try_runs in H1 as (tr3 & directory & tr4 & -> & H3%runtime_directory_runs & H1).
  apply try_runs in H1 as (tr5 & [executable fixed] & tr6 & -> & H5%resolve_tool_runs & H1).
  destruct (_ <? _); [by destruct H1 as [_ [=]]|].
  apply try_runs in H1 as (tr7 & [] & tr8 & -> & [-> Ha%symmetry%check_service_args_ok] & H1).
  destruct (_ <? _); [by destruct H1 as [_ [=]]|].
  apply try_runs in H1 as (tr9 & [] & tr10 & -> & [-> (He1 & _ & He2)%symmetry%check_service_env_ok] & H1).
  apply try_runs in H1 as (tr11 & [] & tr12 & -> & H11 & [-> [= ->]]).
  apply (recheck_runs _ (fixed ++ args) _ environment) in H11.
  exists executable, fixed, directory. split_and!; try done.
  - eapply packaged_tool_mono; [exact H5|]. intros e. rewrite !elem_of_app. auto.
  - destruct H3 as [? ? ? Hd]. split; [done..|]. apply checked_directories_app. right.
    apply checked_directories_app. by left.
  - eapply confined_mono; [exact H11|]. intros e. rewrite !elem_of_app. auto 10.
Qed.

Lemma on_files_prepare_service service_id tool_id args relative environment :
  calls_only on_files
    (prepare_runtime_service_command android self service_id tool_id args relative environment).
Proof. calls_solve. Qed.

(** A service of the application is a packaged tool.  It is spawned in the one slot of
    its service, as the registered tool with its fixed arguments, in a directory beneath
    the runtime's, and the variables its caller adds are distinct, well-formed and none
    of those that the runtime sets or that change what code is loaded. *)
Theorem service_is_a_packaged_tool service_id tool_id relative args environment max_out max_err
    tr r command (answer : option Child) :
  runs (start_persistent_runtime_service android self service_id tool_id relative args environment
          max_out max_err) tr r ->
  Ev (CmdSpawn command) answer ∈ tr ->
  exists before process_id rest,
    tr = before ++ Ev (RegReserve (ScopeService service_id)) (Ok process_id) ::
         Ev (CmdSpawn command) answer :: rest /\
    service_command tool_id args relative environment before command.
Proof.
  unfold start_persistent_runtime_service.
  intros (tr1 & lim & tr2 & -> & [-> Hl] & H2)%runs_bind Hin. cbn [app] in *.
  destruct lim as [lim|e]; [|destruct H2 as [-> _]; by apply elem_of_nil in Hin].
  apply runs_bind in H2 as (tr3 & sid & tr4 & -> & [-> Hs] & H2). cbn [app] in *.
  destruct sid as [sid|e]; [|destruct H2 as [-> _]; by apply elem_of_nil in Hin].
  assert (sid = service_id) as ->.
  { unfold validate_runtime_service_id, fails in Hs. symmetry in Hs. apply if_err_ok in Hs as [_ Hs].
    by injection Hs. }
  apply (spawned_after_checks _ id _ _ _ _ _ _ (on_files_prepare_service _ _ _ _ _) H2) in Hin
    as (c & before & process_id & rest & -> & Hp & ->).
  exists before, process_id, rest. split; [done|]. by eapply prepare_service_runs.
Qed.
End platform.
