(* ===== verification/ProcessExample.v ===== *)
(** * The local process runtime: concrete runs

    A machine that answers the calls: directories everywhere and one executable, a
    table of active processes, a process with a script of what it writes and when it
    ends, a clock that only sleeping moves. *)
From S2P Require Import Prelude RustStr RustPath Program OsCalls Domain ProcessContract.
From S2P Require CommandPolicy.
From S2P Require Import ProcessLocal ProcessPrepare ProcessSupervise ProcessEnds.
From S2P Require Import ProcessSafety ProcessCommand.

#[local] Existing Instance CommandPolicy.ex_uuid.

(** [ma_ends]: whether it ends when asked to, or only when it is killed; [ma_refuses]:
    no thread can be started. *)
Record machine := {
  ma_now : N;
  ma_registry : ProcessRegistry;
  ma_output : list ReadAnswer;
  ma_exit : list WaitAnswer;
  ma_refuses : bool
}.

Definition ex_tool : str := u "/pkg/gradle".
Definition ex_stat (mode : N) : stat := {| st_dev := 1; st_ino := 1; st_mode := mode;
  st_nlink := 1; st_uid := 0; st_size := 0%Z |}.
Definition ex_child : Child := mkChild 4711 true true.
Definition ex_draws : list ProcessId := MkProcessId <$> [1; 2; 3; 4; 5; 6; 7; 8].
Definition ex_status : ExitStatus := {| es_code := Some 0%Z; es_signal := None |}.

Definition set_registry (m : machine) (r : ProcessRegistry) : machine :=
  {| ma_now := ma_now m; ma_registry := r; ma_output := ma_output m; ma_exit := ma_exit m;
     ma_refuses := ma_refuses m |}.
Definition slept (m : machine) (ms : N) : machine :=
  {| ma_now := ma_now m + ms * NS_PER_MS; ma_registry := ma_registry m;
     ma_output := ma_output m; ma_exit := ma_exit m; ma_refuses := ma_refuses m |}.
Definition wrote (m : machine) : machine :=
  {| ma_now := ma_now m; ma_registry := ma_registry m; ma_output := tail (ma_output m);
     ma_exit := ma_exit m; ma_refuses := ma_refuses m |}.
Definition waited (m : machine) : machine :=
  {| ma_now := ma_now m; ma_registry := ma_registry m; ma_output := ma_output m;
     ma_exit := tail (ma_exit m); ma_refuses := ma_refuses m |}.

Definition ex_answer (c : proc_call) (m : machine) : proc_resp c * machine :=
  match c return proc_resp c * machine with
  | FsSymlinkMetadata path =>
    (Ok (ex_stat (if bool_decide (path = ex_tool) then S_IFREG + 0x1ED else S_IFDIR + 0x1C0)), m)
  | FsCanonicalize path => (Ok path, m)
  | FsCreateDir _ _ => (Err AlreadyExists, m)
  | FsWritable _ => (false, m)
  | RegReserve scope =>
    let (r, s) := reserve_process ex_draws scope (ma_registry m) in (r, set_registry m s)
  | RegRelease id => (tt, set_registry m (release_process id (ma_registry m)))
  | RegCancelRequested id => (cancel_requested id (ma_registry m), m)
  | CmdSpawn _ => (Some ex_child, m)
  | SetNonblocking _ _ | KillGroup _ _ => (true, m)
  | ChildKill _ | ChildWait _ => (tt, m)
  | ChildTryWait _ => (default WaitRunning (head (ma_exit m)), waited m)
  | PipeRead _ Stdout => (default WouldBlock (head (ma_output m)), wrote m)
  | PipeRead _ Stderr => (ReadBytes [], m)
  | InstantNow => (ma_now m, m)
  | Sleep ms => (tt, slept m ms)
  | TrySend _ _ => (Sent, m)
  | SendCompletion _ _ => (tt, m)
  | SpawnSupervisor _ _ _ _ => (negb (ma_refuses m), m)
  end.

Definition ex_simulate {A} (p : pprog A) (m : machine) : A * list pevent :=
  (simulate ex_answer p m).1.

Lemma machine_runs {A} (p : pprog A) m w a : w = ex_simulate p m -> w.1 = a -> runs p w.2 a.
Proof. intros -> <-. apply simulate_runs. Qed.

Definition ex_limits : LocalExecutionLimits :=
  {| el_timeout := Some 20; el_max_stdout_bytes := 3; el_max_stderr_bytes := 10 |}.
Definition ex_id : ProcessId := MkProcessId 1.

(** It writes more than is kept, and ends. *)
Definition ex_writer : machine :=
  {| ma_now := 5; ma_registry := ∅; ma_output := [ReadBytes [104; 105]; Interrupted; ReadBytes [33; 33]];
     ma_exit := [WaitRunning; WaitExited ex_status]; ma_refuses := false |}.

Definition ex_written : option (Result ProcessResult) * list pevent :=
  ex_simulate (supervise_process ex_id ex_child ex_limits 5 60) ex_writer.

Definition ex_result : ProcessResult :=
  {| res_process_id := ex_id; termination := Exited; exit_code := Some 0%Z;
     stdout := [104; 105; 33]; stderr := []; res_stdout_truncated := true;
     res_stderr_truncated := false; event_queue_overflowed := false; duration_ms := 260 |}.

Lemma result_says_what_happened_witness :
  ex_written.1 = Some (Ok ex_result) /\
  stdout ex_result = take (N.to_nat (el_max_stdout_bytes ex_limits)) (reads Stdout ex_written.2) /\
  res_stdout_truncated ex_result = (el_max_stdout_bytes ex_limits <? len (reads Stdout ex_written.2)) /\
  ending_seen ex_limits 5 (termination ex_result) ex_status ex_written.2.
Proof.
  assert (Hr : ex_written.1 = Some (Ok ex_result)) by (vm_compute; reflexivity).
  assert (H : runs (supervise_process ex_id ex_child ex_limits 5 60) ex_written.2 (Some (Ok ex_result)))
    by exact (machine_runs _ ex_writer ex_written _ eq_refl Hr).
  destruct (result_says_what_happened ex_id ex_child ex_limits 5 60 ex_written.2 ex_result H)
    as (_ & Ho & Ht & _ & _ & _ & _ & status & Hs & _ & He).
  split; [exact Hr|]. split; [exact Ho|]. split; [exact Ht|].
  assert (Hx : ex_written.2 ≫= exit_seen = [ex_status]) by (vm_compute; reflexivity).
  rewrite Hx in Hs. injection Hs as Hs. rewrite Hs. exact He.
Defined.

(** It writes nothing, ignores the request to end, and is found running three times
    after it was killed. *)
Definition ex_stubborn : machine :=
  {| ma_now := 5; ma_registry := ∅; ma_output := [];
     ma_exit := [WaitRunning; WaitRunning; WaitRunning; WaitRunning; WaitRunning;
                 WaitExited {| es_code := None; es_signal := Some 9%Z |}];
     ma_refuses := false |}.

Definition ex_ended : option (Result ProcessResult) * list pevent :=
  ex_simulate (supervise_process ex_id ex_child ex_limits 5 60) ex_stubborn.

Lemma timely_decide from k tr :
  is_some (foldl clock_step (Some (mkClock from 0 false k)) tr) = true -> timely from k tr.
Proof.
  unfold timely. generalize (mkClock from 0 false k). induction tr as [|e tr IH]; intros c; cbn; [done|].
  destruct (clock_ok c e); [by auto|]. assert (Hn : foldl clock_step None tr = None) by (clear; by induction tr).
  by rewrite Hn.
Qed.

Lemma supervision_ends_witness :
  timely 5 3 ex_ended.2 /\ exists result, ex_ended.1 = Some result.
Proof.
  assert (Ht : timely 5 3 ex_ended.2) by (apply timely_decide; vm_compute; reflexivity).
  split; [exact Ht|].
  apply (supervision_ends ex_id ex_child ex_limits 5 20 eq_refl 60 3 ex_ended.2 ex_ended.1).
  - exact (machine_runs _ ex_stubborn ex_ended _ eq_refl eq_refl).
  - exact Ht.
  - vm_compute. discriminate.
Defined.

(** ** The registry *)

Definition ex_scope : ActiveProcessScope := ScopeProject CommandPolicy.ex_project.
Definition ex_one : ProcessRegistry := (reserve_process ex_draws ex_scope ∅).2.
Definition ex_cancelled : ProcessRegistry := (cancel_process ex_id ex_one).2.
Definition ex_two : ProcessRegistry := (reserve_process ex_draws ex_scope ex_cancelled).2.

(** Two processes of a project are active; a third is refused. *)
Lemma active_limits_witness :
  active_for_project CommandPolicy.ex_project ex_two = 2 /\
  active_count ex_two <= 4 /\
  ((is_ok (reserve_process ex_draws ex_scope ex_two).1 = true) <->
   (room ex_scope ex_two /\ exists id, id ∈ ex_draws /\ ex_two !! id = None)) /\
  is_ok (reserve_process ex_draws ex_scope ex_two).1 = false.
Proof.
  assert (Hs : rtc registry_change ∅ ex_two).
  { eapply rtc_l with ex_one.
    { apply (change_call _ (RegReserve ex_scope) (Ok ex_id)). exists ex_draws. split; vm_compute; done. }
    eapply rtc_l with ex_cancelled.
    { apply (change_cancel _ ex_id (Ok tt)). vm_compute. done. }
    apply rtc_once, (change_call _ (RegReserve ex_scope) (Ok (MkProcessId 2))). exists ex_draws.
    split; vm_compute; done. }
  split; [vm_compute; reflexivity|].
  destruct (active_limits ex_two Hs) as (Ha & _ & _ & Hr). split; [exact Ha|].
  split; [|vm_compute; reflexivity].
  apply (Hr ex_draws ex_scope _ (reserve_process ex_draws ex_scope ex_two).2).
  apply surjective_pairing.
Defined.

(** ** Starting *)

Definition ex_runtime : LocalProcessRuntime :=
  {| app_private_root := u "/data"; product_root := u "/data/vibecoder";
     projects_root := u "/data/vibecoder/projects"; runtime_root := u "/data/vibecoder/runtime";
     packaged_executable_root := u "/pkg";
     process_home := u "/data/vibecoder/runtime/process-home";
     process_tmp := u "/data/vibecoder/runtime/process-tmp";
     runtime_services_root := u "/data/vibecoder/runtime/services";
     runtime_tools := {[u "gradle" :=
       {| ts_tool_id := u "gradle"; ts_relative_path := Utf8Path (u "gradle");
          ts_fixed_args := [u "--offline"] |}]} |}.

Definition ex_project : ProjectRef :=
  {| pr_id := CommandPolicy.ex_project;
     pr_root := expected_root ex_runtime CommandPolicy.ex_project |}.

Definition ex_free : machine :=
  {| ma_now := 5; ma_registry := ∅; ma_output := []; ma_exit := []; ma_refuses := false |}.
Definition ex_full : machine :=
  {| ma_now := 5; ma_registry := ∅; ma_output := []; ma_exit := []; ma_refuses := true |}.

(** The command that the envelope of the approval engine's example stands for. *)
Definition ex_spawned : Command :=
  mkCommand ex_tool [u "--offline"; u ":app:assembleDebug"]
    (below (expected_root ex_runtime CommandPolicy.ex_project) [u "app"; u "src"])
    [(u "HOME", process_home ex_runtime); (u "TMPDIR", process_tmp ex_runtime)] true true.

Definition ex_started : Result Running * list pevent :=
  ex_simulate (start true ex_runtime ex_project CommandPolicy.ex_envelope
                 ProcessExecutionOptions_default) ex_free.

Definition is_spawn (e : pevent) : bool :=
  match ev_call e with CmdSpawn _ => true | _ => false end.

Lemma command_is_the_authorized_one_witness :
  ex_started.1 = Ok ex_id /\
  exists before process_id rest,
    ex_started.2 = before ++ Ev (RegReserve ex_scope) (Ok process_id) ::
                   Ev (CmdSpawn ex_spawned) (Some ex_child) :: rest /\
    as_authorized true ex_runtime ex_project CommandPolicy.ex_envelope before ex_spawned.
Proof.
  assert (Hr : ex_started.1 = Ok ex_id) by (vm_compute; reflexivity).
  split; [exact Hr|].
  apply (command_is_the_authorized_one true ex_runtime ex_project CommandPolicy.ex_envelope
           ProcessExecutionOptions_default ex_started.2 (Ok ex_id) ex_spawned (Some ex_child)).
  - exact (machine_runs _ ex_free ex_started _ eq_refl Hr).
  - assert (Hf : filter (fun e => is_spawn e = true) ex_started.2 =
              [Ev (CmdSpawn ex_spawned) (Some ex_child)]) by (vm_compute; reflexivity).
    apply (list_elem_of_filter (fun e => is_spawn e = true)). rewrite Hf. by left.
Defined.

(** The supervisor's thread cannot be started: the child is killed and waited for, and
    its slot is free again. *)
Definition ex_refused : Result Running * list pevent :=
  ex_simulate (spawn_supervised_command ex_spawned ex_scope ex_limits) ex_full.

Lemma no_process_left_behind_witness :
  ex_refused.1 = fails "process_supervisor_start_failed" /\
  not_started ex_scope ex_spawned ex_refused.2.
Proof.
  assert (Hr : ex_refused.1 = fails "process_supervisor_start_failed") by (vm_compute; reflexivity).
  split; [exact Hr|].
  exact (no_process_left_behind ex_spawned ex_scope ex_limits ex_refused.2 _
           (machine_runs _ ex_full ex_refused _ eq_refl Hr)).
Defined.

(** ** A service *)

Definition ex_environment : list (str * str) := [(u "OMNI_PORT", u "8787")].
Definition ex_service_spawned : Command :=
  mkCommand ex_tool [u "--offline"; u "serve"] (u "/data/vibecoder/runtime/gateway")
    ((u "HOME", process_home ex_runtime) :: (u "TMPDIR", process_tmp ex_runtime) :: ex_environment)
    true false.

Definition ex_service : Result Running * list pevent :=
  ex_simulate (start_persistent_runtime_service false ex_runtime (u "gateway") (u "gradle")
                 (Utf8Path (u "gateway")) [u "serve"] ex_environment 100 100) ex_free.

Lemma service_is_a_packaged_tool_witness :
  ex_service.1 = Ok ex_id /\
  exists before process_id rest,
    ex_service.2 = before ++ Ev (RegReserve (ScopeService (u "gateway"))) (Ok process_id) ::
                   Ev (CmdSpawn ex_service_spawned) (Some ex_child) :: rest /\
    service_command false ex_runtime (u "gradle") [u "serve"] (Utf8Path (u "gateway")) ex_environment
      before ex_service_spawned.
Proof.
  assert (Hr : ex_service.1 = Ok ex_id) by (vm_compute; reflexivity).
  split; [exact Hr|].
  apply (service_is_a_packaged_tool false ex_runtime (u "gateway") (u "gradle")
           (Utf8Path (u "gateway")) [u "serve"] ex_environment 100 100 ex_service.2 (Ok ex_id)
           ex_service_spawned (Some ex_child)).
  - exact (machine_runs _ ex_free ex_service _ eq_refl Hr).
  - assert (Hf : filter (fun e => is_spawn e = true) ex_service.2 =
              [Ev (CmdSpawn ex_service_spawned) (Some ex_child)]) by (vm_compute; reflexivity).
    apply (list_elem_of_filter (fun e => is_spawn e = true)). rewrite Hf. by left.
Defined.

(** ** After the exit *)

(** A pipe that cannot be read after the child was seen to exit: the group of its id,
    which the system may have given to another process by then, is still killed. *)
Definition ex_broken : machine :=
  {| ma_now := 5; ma_registry := ∅; ma_output := [WouldBlock; ReadFailed];
     ma_exit := [WaitExited ex_status]; ma_refuses := false |}.

Example group_killed_after_exit :
  exists before after,
    (ex_simulate (supervise_process ex_id ex_child ex_limits 5 60) ex_broken).2 =
      before ++ [Ev (ChildTryWait ex_child) (WaitExited ex_status)] ++ after /\
    Ev (KillGroup (child_pid ex_child) SIGKILL) true ∈ after.
Proof.
  set (tr := (ex_simulate _ _).2). exists (take 3 tr), (drop 4 tr).
  split; [vm_compute; reflexivity|].
  replace (drop 4 tr) with
    [Ev (Sleep SUPERVISOR_POLL_MS) tt; Ev (PipeRead ex_child Stdout) ReadFailed;
     Ev (KillGroup (child_pid ex_child) SIGKILL) true; Ev (ChildKill ex_child) tt;
     Ev (ChildWait ex_child) tt] by (vm_compute; reflexivity).
  do 2 right. by left.
Qed.
